(* ===== verification/_CoqProject ===== *)
-Q . S2P
Prelude.v
GoStd.v
Clock.v
Flags.v
Migrate.v
Semver.v
NetUrl.v
Db.v
Integrity.v
World.v
StoreUpdates.v
StoreJobs.v
Fifo.v
StoreServices.v
StoreMisc.v
Store.v
Files.v
Compose.v
Daemon.v
Applier.v
ApplierSpec.v
Standalone.v
StandaloneSpec.v
Lifecycle.v
SelfUpdate.v
Dispatch.v
Queue.v
Registry.v
Detect.v
Scan.v
Collect.v
Discovery.v
Password.v
RateLimit.v
ScanRun.v
Http.v
HttpApi.v
HttpSettings.v
HttpStreams.v
Config.v
Secret.v
Routes.v
RouteSpec.v
SettingsSpec.v
RouteFoot.v
RouteSafety.v
JobOrigin.v
ChangelogText.v
Changelog.v
ChangelogSpec.v
Sched.v
SchedSpec.v
Retention.v
RouteDemo.v
DockerClient.v
SchedDemo.v
Boot.v
Run.v
JobFoot.v
System.v
SystemDemo.v
