(* ===== verification/Prelude.v ===== *)
(** * dockbrr: a verification library

    dockbrr watches the containers of a Docker host, finds newer images for them,
    shows the changelogs, and updates, rolls back, starts, stops and removes them
    when asked (or, where the user allows it, by itself).  This library models its Go
    code, file by file, as executable definitions and proves what makes it correct.

    ** The program and this library

    One process.  [main] (cmd/dockbrr) reads the configuration, opens the SQLite
    database, and starts the loops: discovery reconciles the containers into projects
    and services; the scheduler sweeps the services for drift and may enqueue jobs;
    the API answers the browser and enqueues jobs; the workers of the job engine claim
    the jobs and hand them to the dispatcher, which alone lets containers be changed.

    Ground:
    - Prelude.v: errors, results, the state monad with its triples and invariants
      ([triple], [keeps]), lemmas on lists; GoStd.v: strings, strconv, sort, JSON text;
      Clock.v: times as texts, and their order;
      Flags.v: the package flag; NetUrl.v: net/url.
    - World.v: the world handlers run in (database, files, trace of the calls) and the
      environment (what fails, the clock); Files.v: files, and the atomic write of
      internal/compose/rewrite.go.

    The store (internal/store):
    - Db.v, Integrity.v: the tables and what the schema declares of them;
      Migrate.v: migrate.go.
    - StoreUpdates.v, StoreJobs.v, StoreServices.v, StoreMisc.v: updates.go; jobs.go;
      services.go and projects.go; the other repositories.  Store.v: the whole.
    - Fifo.v: the table of jobs as a queue; Retention.v: what the pruner deletes.
    - Secret.v: internal/secret, an instance of the class [Sealer] of StoreMisc.v.

    The changing side:
    - Compose.v: internal/compose.  Daemon.v: the daemon as a class, its trace, the
      health gate, protocols as automata.  DockerClient.v: internal/docker (recreate.go,
      lifecycle.go, inspect.go, events.go), an instance of that class.
    - Applier.v and ApplierSpec.v: internal/job/worker.go; Standalone.v and
      StandaloneSpec.v: standalone.go; Lifecycle.v: lifecycle.go; SelfUpdate.v:
      internal/selfupdate, internal/docker/selfupdate.go, internal/job/selfupdate.go.
    - Dispatch.v: internal/job/dispatch.go; Queue.v: queue.go and lock.go, with the
      interleavings of the workers.

    The observing side:
    - Semver.v, Detect.v: internal/detect; Registry.v: internal/registry; Scan.v:
      internal/scan; Collect.v: internal/docker/collect.go and dockername; Discovery.v:
      internal/discovery.
    - ChangelogText.v, Changelog.v, ChangelogSpec.v: internal/changelog.

    The API (internal/httpapi, internal/auth):
    - Password.v: password.go of internal/auth and the tokens; RateLimit.v:
      ratelimit.go; ScanRun.v: scanrun.go.
    - Http.v: respond.go, middleware.go, auth.go, password.go; HttpApi.v: updates.go,
      jobs.go, lifecycle.go, selfupdate.go, scan.go, projects.go, preview.go, events.go,
      status.go, system.go; HttpSettings.v: settings.go; HttpStreams.v: logs.go, sse.go,
      events_stream.go, spa.go and the log files of internal/logger; Routes.v: server.go.
    - RouteFoot.v, RouteSpec.v, RouteSafety.v, JobOrigin.v, SettingsSpec.v: what the API
      guarantees; RouteDemo.v: a concrete server.

    The process:
    - Config.v: internal/config, selfupdate_swap.go, [main]; Sched.v, SchedSpec.v,
      SchedDemo.v: the loops of main.go and dockerwatch.go; Boot.v: what a
      start does to settings and users, and the start of the engine; Run.v: [run] from
      the command line to the server (with logger.Init, store.Open, client.go and the
      dials of dockerwatch.go).
    - System.v, SystemDemo.v: the whole process as a transition system ([sys_step]) over
      the state its parts share; JobFoot.v: what the handlers of jobs do to the tables.

    ** How it is modelled

    A handler is a function of the world ([M world A]): it returns its value and the
    next world.  Each call that can fail or that reads the outside takes one tick; what
    the n-th call meets is the choice of the environment, a parameter, so that a
    theorem for every environment is one for every run, and a process killed at step n
    is an environment where all calls from n on fail.  The trace has the calls in order;
    the protocols are automata over it.  A SQL statement is a function on the tables
    that may refuse; a transaction is its statements and the rollback.  Goroutines are
    step functions over the sections that are atomic in the source (Queue.v, ScanRun.v);
    the loops are functions of what their [select] received (Sched.v).  In System.v a
    request, a sweep, a round of the scheduler, a cycle of discovery, a claim and the
    handling of a claimed job are one step each, in any order; a process that is killed
    is one whose remaining calls fail, then a boot, which keeps the world alone.  Integers are [Z]
    with the bounds of Go's [int] written out where the code can reach them.  Code outside
    the repository is a class: the Docker SDK and daemon, registries, GitHub and Docker
    Hub, compose-go, yaml, the docker CLI, argon2, AES-GCM, sha256, chi, zerolog, SQLite's
    execution of a migration, the iteration order of Go maps, the unstable sort; their laws
    are the documented ones.  Interfaces of the source are classes as well, with the law
    their clients rely on; the implementations discharge them as instances
    (Registry.v for Detect.v, Changelog.v for Scan.v, Secret.v for StoreMisc.v,
    DockerClient.v for the jobs).

    ** What the theorems show

    - The whole: in every history the integrity of the schema is kept, every job goes
      back to someone who may ask for it, and only a worker with such a job changes
      containers or files, and not when the guard finds dockbrr's own container
      ([System.system_safety], which composes the guarantees of the parts).
    - Changing containers: an apply, a rollback and a standalone recreate follow their
      protocols (snapshot first, pull before up, health gate before success, the old
      container restored, one terminal status); nothing but a job changes a container;
      jobs about dockbrr itself are refused; a swap of dockbrr always leaves a container
      or an explicit refusal of the daemon; a recreated container keeps its volumes.
    - Jobs: claimed in order, none twice and none starved, one in flight for each
      project, workers never deadlock, streams closed once; who can make a job, by the
      API and by the scheduler.
    - Data: the integrity of the schema in every reachable state, RecordDrift, discovery,
      migrations as a replay, atomic file writes, sealing across restarts, the retention
      of finished jobs (whose statement compares texts).
    - Detection: the newest tag of a stream, sound updates, sweeps and the chain of
      changelogs only observe, with bounds on requests and on texts.
    - Security: the guard of the routes, where sessions come from, the lockout as a
      refinement of counters, password round trip, secrets not shown, credentials only
      after a 401, all checks of the settings before any write.
    - The process: exactly which command lines configure it; what a start changes and
      what holds when it is ready, whatever fails; the command line of the self-update
      helper.

    ** Bounds and fuel

    Recursions that are not structural take a bound the code itself has: the rounds of a
    health gate ([gate_rounds]: a round lasts at least one interval, so the deadline has
    passed after that many), the pages of releases that may be asked for.  The printing
    of numbers takes 20 decimal and 16 hexadecimal digits, enough for 64 bits.  Regular
    expressions are recognisers by recursion on the text.  The theorems about the loops
    of the process and about interleavings hold for every list of steps.

    ** Not modelled

    Printing of log lines and their throttling; the text of most error messages of
    libraries; the HTTP server, the signals and the order of the shutdown in [run] of
    main.go, the writers of the log, version.go, which are calls of libraries or
    variables of the linker; contexts but for the points that read
    [ctx_done]; the SQL text, in place of which each statement's effect on the tables is
    written out; time zones and the formats of times but where they are compared; the
    web front end, tests, documents and build files. *)

From stdpp Require Import base list strings.

Declare Scope go_scope.
Delimit Scope go_scope with go.

(** ** Errors

    A Go [error] value.  [Sentinel] is a package-level [errors.New] value, the
    only kind [errors.Is] compares; [Errorf] is an error made where it is
    returned; [Wrap] is [fmt.Errorf("...: %w", err)] and [WrapAs] a
    [fmt.Errorf] with the %w elsewhere; [Transport] is the
    registry client's [transport.Error], recognised by its status code. *)
Inductive error :=
| Sentinel (name : string)
| Errorf (msg : string)
| Wrap (msg : string) (inner : error)
| WrapAs (text : string) (inner : error)
| Transport (code : Z).

#[export] Instance error_eq_dec : EqDecision error.
Proof. solve_decision. Defined.

(** [err.Error()]. *)
Fixpoint error_text (e : error) : string :=
  match e with
  | Sentinel n => n
  | Errorf m => m
  | Wrap m e' => m +:+ ": " +:+ error_text e'
  | WrapAs t _ => t
  | Transport _ => "transport error"
  end.

(** [errors.Is(e, Sentinel name)]: the chain of wrapped errors is searched. *)
Fixpoint errors_Is (e : error) (name : string) : bool :=
  match e with
  | Sentinel n => String.eqb n name
  | Errorf _ => false
  | Wrap _ e' => errors_Is e' name
  | WrapAs _ e' => errors_Is e' name
  | Transport _ => false
  end.

(** [errors.As(e, &transport.Error)]: the status code of the first transport
    error of the chain. *)
Fixpoint errors_As_transport (e : error) : option Z :=
  match e with
  | Sentinel _ => None
  | Errorf _ => None
  | Wrap _ e' => errors_As_transport e'
  | WrapAs _ e' => errors_As_transport e'
  | Transport c => Some c
  end.

(** ** Fallible values: Go's [(value, error)] pair, where the callers of
    dockbrr use the value only when the error is nil. *)
Inductive result (A : Type) :=
| Ok (a : A)
| Err (e : error).
Arguments Ok {A} a.
Arguments Err {A} e.

#[export] Instance result_eq_dec `{HA : EqDecision A} : EqDecision (result A).
Proof. solve_decision. Defined.

Definition is_ok {A} (r : result A) : bool :=
  match r with Ok _ => true | Err _ => false end.

Definition result_map {A B} (f : A -> B) (r : result A) : result B :=
  match r with Ok a => Ok (f a) | Err e => Err e end.

Lemma is_ok_true {A} (r : result A) : is_ok r = true <-> exists a, r = Ok a.
Proof. destruct r; simpl; naive_solver. Qed.

(** ** A state monad: [W] is the world a component runs in.  The binding forms
    keep the order of the calls of the source. *)
Definition M (W A : Type) : Type := W -> A * W.

Definition ret {W A} (a : A) : M W A := fun w => (a, w).
Definition bind {W A B} (m : M W A) (k : A -> M W B) : M W B :=
  fun w => let '(a, w') := m w in k a w'.

Notation "'let!' x ':=' m 'in' k" := (bind m (fun x => k))
  (at level 10, x name, m at level 100, k at level 200,
   format "'[v' 'let!'  x  ':='  m  'in' '/' k ']'") : go_scope.
Notation "'let!' ' p ':=' m 'in' k" := (bind m (fun x => match x with p => k end))
  (at level 10, p pattern, m at level 100, k at level 200) : go_scope.
Notation "'do!' m 'in' k" := (bind m (fun _ => k))
  (at level 10, m at level 100, k at level 200,
   format "'[v' 'do!'  m  'in' '/' k ']'") : go_scope.

Fixpoint for_each {W A} (l : list A) (body : A -> M W unit) : M W unit :=
  match l with
  | [] => ret tt
  | a :: l' => bind (body a) (fun _ => for_each l' body)
  end.

(** ** Hoare triples over that monad *)
Definition triple {W A} (P : W -> Prop) (m : M W A) (Q : A -> W -> Prop) : Prop :=
  forall w, P w -> Q (m w).1 (m w).2.

Section Triples.
Context {W : Type}.
Implicit Types (P : W -> Prop).

Lemma triple_ret {A} P (a : A) : triple P (ret a) (fun x w => x = a /\ P w).
Proof. intros w H. simpl. auto. Qed.

Lemma triple_bind {A B} P (m : M W A) (k : A -> M W B) Q R :
  triple P m Q -> (forall a, triple (Q a) (k a) R) -> triple P (bind m k) R.
Proof.
  intros Hm Hk w HP. unfold bind.
  specialize (Hm w HP). destruct (m w) as [a w']. exact (Hk a w' Hm).
Qed.

Lemma triple_conseq {A} P P' (m : M W A) Q Q' :
  triple P m Q -> (forall w, P' w -> P w) -> (forall a w, Q a w -> Q' a w) ->
  triple P' m Q'.
Proof. intros Hm HP HQ w Hw. apply HQ, Hm, HP, Hw. Qed.

(** An invariant that the body of a loop keeps is kept by the loop. *)
Lemma triple_for_each {A} P (l : list A) (body : A -> M W unit) :
  (forall a, a ∈ l -> triple P (body a) (fun _ => P)) ->
  triple P (for_each l body) (fun _ => P).
Proof.
  induction l as [|a l IH]; intros Hb; simpl.
  - intros w Hw. exact Hw.
  - eapply triple_bind; [apply Hb; left|]. intros []. apply IH.
    intros b Hin. apply Hb. by right.
Qed.
End Triples.

(** [keeps I m]: every run of [m] keeps the invariant [I] of the world. *)
Definition keeps {W A} (I : W -> Prop) (m : M W A) : Prop :=
  forall w, I w -> I (m w).2.

Create HintDb keeps discriminated.

Section Keeps.
Context {W : Type} (I : W -> Prop).

Lemma keeps_ret {A} (a : A) : keeps I (ret a).
Proof. intros w H. exact H. Qed.

Lemma keeps_bind {A B} (m : M W A) (k : A -> M W B) :
  keeps I m -> (forall a, keeps I (k a)) -> keeps I (bind m k).
Proof.
  intros Hm Hk w HI. unfold bind. specialize (Hm w HI).
  destruct (m w) as [a w']. exact (Hk a w' Hm).
Qed.

Lemma keeps_for_each {A} (l : list A) (body : A -> M W unit) :
  (forall a, keeps I (body a)) -> keeps I (for_each l body).
Proof.
  intros Hb. induction l as [|a l IH]; simpl; [apply keeps_ret|].
  apply keeps_bind; auto.
Qed.
End Keeps.

#[export] Hint Resolve keeps_ret keeps_bind keeps_for_each : keeps.

(** ** Fallible calls in a handler

    [let? x := m in k] is Go's [x, err := m; if err != nil { return err }]. *)
Definition bind_ok {W A B} (m : M W (result A)) (k : A -> M W (result B)) : M W (result B) :=
  bind m (fun r => match r with Ok a => k a | Err e => ret (Err e) end).

Notation "'let?' x ':=' m 'in' k" := (bind_ok m (fun x => k))
  (at level 10, x name, m at level 100, k at level 200,
   format "'[v' 'let?'  x  ':='  m  'in' '/' k ']'") : go_scope.
Notation "'let?' ' p ':=' m 'in' k" := (bind_ok m (fun x => match x with p => k end))
  (at level 10, p pattern, m at level 100, k at level 200) : go_scope.
Notation "'try?' m 'in' k" := (bind_ok m (fun _ => k))
  (at level 10, m at level 100, k at level 200,
   format "'[v' 'try?'  m  'in' '/' k ']'") : go_scope.

Lemma keeps_bind_ok {W A B} (I : W -> Prop) (m : M W (result A)) (k : A -> M W (result B)) :
  keeps I m -> (forall a, keeps I (k a)) -> keeps I (bind_ok m k).
Proof.
  intros Hm Hk. apply keeps_bind; [done|]. intros [a|e]; [apply Hk|apply keeps_ret].
Qed.

Lemma triple_bind_ok {W A B} (P : W -> Prop) (m : M W (result A)) (k : A -> M W (result B)) Q R :
  triple P m Q ->
  (forall a, triple (Q (Ok a)) (k a) R) ->
  (forall e w, Q (Err e) w -> R (Err e) w) ->
  triple P (bind_ok m k) R.
Proof.
  intros Hm Hk He. eapply triple_bind; [exact Hm|]. intros [a|e]; [apply Hk|].
  intros w Hw. by apply He.
Qed.

#[export] Hint Resolve keeps_bind_ok : keeps.

(** What a run of a sequence says about its parts. *)
Lemma bind_inv {W A B} (m : M W A) (k : A -> M W B) w b w' :
  bind m k w = (b, w') -> exists a w1, m w = (a, w1) /\ k a w1 = (b, w').
Proof. unfold bind. destruct (m w) as [a w1]. eauto. Qed.

Lemma bind_ok_inv {W A B} (m : M W (result A)) (k : A -> M W (result B)) w b w' :
  bind_ok m k w = (Ok b, w') -> exists a w1, m w = (Ok a, w1) /\ k a w1 = (Ok b, w').
Proof.
  unfold bind_ok, bind. destruct (m w) as [[a|e] w1]; [eauto|]. intros [=].
Qed.

Lemma bind_ok_err {W A B} (m : M W (result A)) (k : A -> M W (result B)) w e w' :
  bind_ok m k w = (Err e, w') ->
  m w = (Err e, w') \/ exists a w1, m w = (Ok a, w1) /\ k a w1 = (Err e, w').
Proof.
  unfold bind_ok, bind. destruct (m w) as [[a|e1] w1]; [eauto|]. intros [= <- <-]. auto.
Qed.

Lemma bind_ok_cases {W A B} (m : M W (result A)) (k : A -> M W (result B)) w r w' :
  bind_ok m k w = (r, w') ->
  (exists e, r = Err e /\ m w = (Err e, w')) \/ exists a w1, m w = (Ok a, w1) /\ k a w1 = (r, w').
Proof.
  unfold bind_ok, bind. destruct (m w) as [[a|e] w1]; [eauto|]. intros [= <- <-]. eauto.
Qed.

(** Walk down the control flow of a handler: binds, and the case analyses the
    source makes on the values it got. *)
Ltac keeps_step :=
  match goal with
  | |- forall _, _ => intros ?
  | |- keeps _ (bind_ok _ _) => apply keeps_bind_ok
  | |- keeps _ (bind _ _) => apply keeps_bind
  | |- keeps _ (ret _) => apply keeps_ret
  | |- keeps _ (for_each _ _) => apply keeps_for_each
  | |- keeps _ (match ?x with _ => _ end) => destruct x eqn:?
  | |- keeps _ (let _ := _ in _) => cbv zeta
  end.
Ltac keeps_walk := repeat first [progress eauto with keeps | keeps_step].

(** ** Lists: the pieces the components share *)

Section ListFacts.
Context {A : Type}.
Implicit Types (l : list A) (f : A -> bool).

(** [UPDATE ... SET ... WHERE p] on the rows of a table. *)
Definition update_where (p : A -> bool) (g : A -> A) l : list A :=
  map (fun a => if p a then g a else a) l.

(** The number of rows an update or a delete affects. *)
Definition count_where (p : A -> bool) l : Z := Z.of_nat (length (List.filter p l)).

Lemma elem_of_update_where p g l b :
  b ∈ update_where p g l <-> exists a, a ∈ l /\ b = if p a then g a else a.
Proof. unfold update_where. rewrite list_elem_of_In, in_map_iff.
  setoid_rewrite list_elem_of_In. naive_solver. Qed.

Lemma map_update_where {B} (h : A -> B) p g l :
  (forall a, h (g a) = h a) -> map h (update_where p g l) = map h l.
Proof.
  intros Hh. unfold update_where. rewrite map_map. apply map_ext.
  intros a. destruct (p a); auto.
Qed.

Lemma elem_of_filterb f l a : a ∈ List.filter f l <-> a ∈ l /\ f a = true.
Proof. rewrite !list_elem_of_In. apply filter_In. Qed.

Lemma find_elem f l a : List.find f l = Some a -> a ∈ l /\ f a = true.
Proof. rewrite list_elem_of_In. apply find_some. Qed.

(** Two elements with the same key, where keys are unique, are the same. *)
Lemma NoDup_key_inj {B} (key : A -> B) l a b :
  NoDup (map key l) -> a ∈ l -> b ∈ l -> key a = key b -> a = b.
Proof.
  intros Hu. rewrite !list_elem_of_lookup. intros [i Hi] [j Hj] Heq.
  assert (i = j) as ->; [|congruence].
  change (map key l) with (key <$> l) in Hu.
  apply (NoDup_lookup _ _ _ (key b) Hu); rewrite list_lookup_fmap, ?Hi, ?Hj; simpl; congruence.
Qed.

Lemma find_none_elem f l a : List.find f l = None -> a ∈ l -> f a = false.
Proof. rewrite list_elem_of_In. intros H. apply (find_none _ _ H). Qed.

Lemma existsb_elem f l : existsb f l = true <-> exists a, a ∈ l /\ f a = true.
Proof. rewrite existsb_exists. setoid_rewrite list_elem_of_In. done. Qed.
End ListFacts.
