(* ===== verification/GoStd.v ===== *)
(** * The Go standard library, as far as dockbrr uses it

    Strings are Go strings: sequences of bytes ([string] is a list of 8-bit
    [ascii]).  This file has the functions of packages [strings], [strconv] and
    [sort] the source calls, and the lemmas on them the components share. *)

From stdpp Require Import base list strings sorting.
From Stdlib Require Import Ascii.
From S2P Require Import Prelude.

(** ** Slices of strings *)

Fixpoint str_take (n : nat) (s : string) : string :=
  match n, s with
  | S n', String a s' => String a (str_take n' s')
  | _, _ => ""
  end.

Fixpoint str_drop (n : nat) (s : string) : string :=
  match n, s with
  | S n', String _ s' => str_drop n' s'
  | O, _ => s
  | _, EmptyString => ""
  end.

Notation "s '.[:' n ']'" := (str_take n s) (at level 1, n at level 200, format "s .[: n ]") : go_scope.
Notation "s '.[' n ':]'" := (str_drop n s) (at level 1, n at level 200, format "s .[ n :]") : go_scope.
Open Scope go_scope.

Abbreviation len := String.length.

(** stdpp blocks the reduction of [++] on strings; here it computes. *)
#[global] Arguments String.append !_ _ / : simpl nomatch.

Definition byte (a : ascii) : nat := nat_of_ascii a.

Definition newline : ascii := "010".

(** ** Package strings *)

Fixpoint prefix (p s : string) : bool :=
  match p, s with
  | "", _ => true
  | String a p', String b s' => Ascii.eqb a b && prefix p' s'
  | _, _ => false
  end.
Definition HasPrefix (s p : string) : bool := prefix p s.

Fixpoint Index (s sub : string) : option nat :=
  if prefix sub s then Some 0
  else match s with
       | "" => None
       | String _ s' => S <$> Index s' sub
       end.

Definition Contains (s sub : string) : bool :=
  match Index s sub with Some _ => true | None => false end.

Fixpoint IndexByte (s : string) (c : ascii) : option nat :=
  match s with
  | "" => None
  | String a s' => if Ascii.eqb a c then Some 0 else S <$> IndexByte s' c
  end.

Fixpoint LastIndexByte (s : string) (c : ascii) : option nat :=
  match s with
  | "" => None
  | String a s' =>
      match LastIndexByte s' c with
      | Some n => Some (S n)
      | None => if Ascii.eqb a c then Some 0 else None
      end
  end.

(** [strings.IndexAny] and [strings.ContainsAny] for a set of ASCII bytes. *)
Fixpoint IndexAny (s : string) (p : ascii -> bool) : option nat :=
  match s with
  | "" => None
  | String a s' => if p a then Some 0 else S <$> IndexAny s' p
  end.

Definition one_of (chars : string) (a : ascii) : bool :=
  match IndexByte chars a with Some _ => true | None => false end.

Definition ContainsAny (s chars : string) : bool :=
  match IndexAny s (one_of chars) with Some _ => true | None => false end.

Fixpoint CountByte (s : string) (c : ascii) : nat :=
  match s with
  | "" => 0
  | String a s' => (if Ascii.eqb a c then 1 else 0) + CountByte s' c
  end.

Definition TrimPrefix (s p : string) : string :=
  if HasPrefix s p then s.[len p:] else s.

Definition HasSuffix (s p : string) : bool :=
  (len p <=? len s) && String.eqb (s.[len s - len p:]) p.

Definition TrimSuffix (s p : string) : string :=
  if HasSuffix s p then s.[:len s - len p] else s.

(** [strings.Split(s, sep)] for a separator of one byte: never empty. *)
Fixpoint Split (s : string) (c : ascii) : list string :=
  match s with
  | "" => [""]
  | String a s' =>
      if Ascii.eqb a c then "" :: Split s' c
      else match Split s' c with
           | h :: t => String a h :: t
           | [] => [String a ""]
           end
  end.

Fixpoint Join (l : list string) (sep : string) : string :=
  match l with
  | [] => ""
  | [s] => s
  | s :: l' => s +:+ sep +:+ Join l' sep
  end.

(** [strings.Replace(s, old, new, 1)]. *)
Definition Replace1 (s old new : string) : string :=
  match Index s old with
  | None => s
  | Some i => s.[:i] +:+ new +:+ s.[(i + len old):]
  end.

(** ** White space, as [unicode.IsSpace] has it

    The width in bytes of the white-space rune [s] begins with, 0 when it does
    not begin with one: the six ASCII spaces and the UTF-8 forms of U+0085,
    U+00A0, U+1680, U+2000-U+200A, U+2028, U+2029, U+202F, U+205F, U+3000. *)
Definition ascii_space (a : ascii) : bool :=
  let n := byte a in (9 <=? n) && (n <=? 13) || (n =? 32).

Definition space2 (a b : nat) : bool := (a =? 194) && ((b =? 133) || (b =? 160)).

Definition space3 (a b c : nat) : bool :=
  (a =? 225) && (b =? 154) && (c =? 128)
  || (a =? 226) && (b =? 128) &&
       ((128 <=? c) && (c <=? 138) || (c =? 168) || (c =? 169) || (c =? 175))
  || (a =? 226) && (b =? 129) && (c =? 159)
  || (a =? 227) && (b =? 128) && (c =? 128).

Fixpoint trim_left (s : string) : string :=
  match s with
  | String a s1 =>
      if ascii_space a then trim_left s1
      else match s1 with
           | String b s2 =>
               if space2 (byte a) (byte b) then trim_left s2
               else match s2 with
                    | String c s3 =>
                        if space3 (byte a) (byte b) (byte c) then trim_left s3 else s
                    | "" => s
                    end
           | "" => s
           end
  | "" => ""
  end.

Fixpoint str_rev_app (s acc : string) : string :=
  match s with
  | "" => acc
  | String a s' => str_rev_app s' (String a acc)
  end.
Definition str_rev (s : string) : string := str_rev_app s "".

(** The same from the end; the string is read backwards. *)
Fixpoint trim_left_rev (s : string) : string :=
  match s with
  | String a s1 =>
      if ascii_space a then trim_left_rev s1
      else match s1 with
           | String b s2 =>
               if space2 (byte b) (byte a) then trim_left_rev s2
               else match s2 with
                    | String c s3 =>
                        if space3 (byte c) (byte b) (byte a) then trim_left_rev s3 else s
                    | "" => s
                    end
           | "" => s
           end
  | "" => ""
  end.

Definition trim_right (s : string) : string := str_rev (trim_left_rev (str_rev s)).
Definition TrimSpace (s : string) : string := trim_right (trim_left s).

(** ** Package strconv *)

Definition is_digit (a : ascii) : bool := (48 <=? byte a) && (byte a <=? 57).
Definition digit_val (a : ascii) : Z := Z.of_nat (byte a) - 48.

Fixpoint digits_val (acc : Z) (s : string) : option Z :=
  match s with
  | "" => Some acc
  | String a s' => if is_digit a then digits_val (acc * 10 + digit_val a) s' else None
  end.

Definition max_int : Z := 9223372036854775807.
Definition min_int : Z := -9223372036854775808.

(** [strconv.Atoi] on a 64-bit platform: an optional sign, at least one digit,
    nothing else, and a value an [int] can hold.  [None] is a non-nil error. *)
Definition Atoi (s : string) : option Z :=
  let '(neg, body) := match s with
                      | String "-" r => (true, r)
                      | String "+" r => (false, r)
                      | _ => (false, s)
                      end in
  match body with
  | "" => None
  | _ => match digits_val 0 body with
         | None => None
         | Some n => let v := if neg : bool then (- n)%Z else n in
                     if ((min_int <=? v) && (v <=? max_int))%Z then Some v else None
         end
  end.

Definition digit_char (z : Z) : ascii := ascii_of_nat (48 + Z.to_nat z).

Fixpoint itoa_digits (fuel : nat) (n : Z) (acc : string) : string :=
  match fuel with
  | O => acc
  | S f => let acc' := String (digit_char (n mod 10)) acc in
           if (n <? 10)%Z then acc' else itoa_digits f (n / 10) acc'
  end.

(** [strconv.Itoa]; 20 digits are enough for any 64-bit value. *)
Definition Itoa (z : Z) : string :=
  if (z <? 0)%Z then String "-" (itoa_digits 20 (- z) "") else itoa_digits 20 z "".

(** [strconv.Quote], the verb %q: the named escapes, the other control bytes in
    hexadecimal.  Text outside ASCII is kept, as Go does with printable runes. *)
Definition hex_digit (n : nat) : ascii := ascii_of_nat (if n <? 10 then 48 + n else 87 + n).

Definition quote_byte (a : ascii) : string :=
  let back (c : nat) := String (ascii_of_nat 92) (String (ascii_of_nat c) "") in
  match byte a with
  | 34 => back 34 | 92 => back 92
  | 7 => back 97 | 8 => back 98 | 12 => back 102 | 10 => back 110
  | 13 => back 114 | 9 => back 116 | 11 => back 118
  | n => if (n <? 32) || (n =? 127)
         then back 120 +:+ String (hex_digit (n / 16)) (String (hex_digit (n mod 16)) "")
         else String a ""
  end.

Definition dquote : string := String (ascii_of_nat 34) "".

Fixpoint quote_body (s : string) : string :=
  match s with "" => "" | String a s' => quote_byte a +:+ quote_body s' end.

Definition Quote (s : string) : string := dquote +:+ quote_body s +:+ dquote.

(** ** Package sort

    [sort_stable less] is [sort.SliceStable]; [sort.Strings] is the same with
    the byte order (two equal strings cannot be told apart). *)
Section Sort.
Context {A : Type} (less : A -> A -> bool).

Fixpoint insert_stable (x : A) (l : list A) : list A :=
  match l with
  | [] => [x]
  | y :: l' => if less y x then y :: insert_stable x l' else x :: y :: l'
  end.

Definition sort_stable (l : list A) : list A := foldr insert_stable [] l.

Lemma insert_stable_perm x l : insert_stable x l ≡ₚ x :: l.
Proof.
  induction l as [|y l IH]; simpl; [done|].
  destruct (less y x); [|done]. rewrite IH. constructor.
Qed.

Lemma sort_stable_perm l : sort_stable l ≡ₚ l.
Proof. induction l as [|x l IH]; simpl; [done|]. by rewrite insert_stable_perm, IH. Qed.

(** The order [less] induces; [sort.Slice] asks for a strict weak order. *)
Class StrictWeak : Prop := {
  less_irrefl x : less x x = false;
  less_trans x y z : less x y = true -> less y z = true -> less x z = true;
  less_cotrans x y z : less x z = true -> less x y = true \/ less y z = true;
}.

Definition not_after (x y : A) : Prop := less y x = false.

Context {SW : StrictWeak}.

Lemma less_asym x y : less x y = true -> less y x = false.
Proof.
  intros H. destruct (less y x) eqn:E; [|done].
  pose proof (less_trans _ _ _ H E) as E2. rewrite less_irrefl in E2. done.
Qed.

Lemma not_after_trans x y z : not_after x y -> not_after y z -> not_after x z.
Proof.
  unfold not_after. intros Hxy Hyz. destruct (less z x) eqn:E; [|done].
  destruct (less_cotrans z y x E); congruence.
Qed.

Lemma insert_stable_sorted x l :
  StronglySorted not_after l -> StronglySorted not_after (insert_stable x l).
Proof.
  induction 1 as [|y l Hl IH Hy]; simpl; [by repeat constructor|].
  destruct (less y x) eqn:E.
  - constructor; [done|]. rewrite insert_stable_perm. constructor; [|done].
    by apply less_asym.
  - constructor; [by constructor|]. constructor; [done|].
    eapply Forall_impl; [done|]. intros z Hz. by eapply not_after_trans.
Qed.

Lemma sort_stable_sorted l : StronglySorted not_after (sort_stable l).
Proof. induction l; simpl; [constructor|by apply insert_stable_sorted]. Qed.
End Sort.

Definition str_less (a b : string) : bool := String.ltb a b.
Definition sort_strings : list string -> list string := sort_stable str_less.

(** [sort.Slice] is not stable: what it returns is some sorted permutation of
    its argument.  The components that use it are proved for every sort with
    that contract; [sort_stable] is one. *)
Class SliceSort := {
  slice_sort {A : Type} (less : A -> A -> bool) (l : list A) : list A;
  slice_sort_perm {A} (less : A -> A -> bool) l : slice_sort less l ≡ₚ l;
  slice_sort_sorted {A} (less : A -> A -> bool) l :
    StrictWeak less -> StronglySorted (not_after less) (slice_sort less l);
}.

Definition stable_slice_sort : SliceSort := {|
  slice_sort := @sort_stable;
  slice_sort_perm := @sort_stable_perm;
  slice_sort_sorted := fun A less l SW => @sort_stable_sorted A less SW l;
|}.

(** ** Text through encoding/json

    [json.Marshal] writes every byte that is not part of a well-formed UTF-8
    sequence as the replacement character; [json_text s] is what a string is
    after it has been marshalled and unmarshalled. *)
Definition utf8_cont (c : ascii) : bool := (128 <=? byte c) && (byte c <=? 191).

Definition utf8_2 (a b : ascii) : bool :=
  (194 <=? byte a) && (byte a <=? 223) && utf8_cont b.

Definition utf8_3 (a b c : ascii) : bool :=
  let x := byte a in let y := byte b in
  utf8_cont b && utf8_cont c &&
  ((x =? 224) && (160 <=? y) || (225 <=? x) && (x <=? 236)
   || (x =? 237) && (y <=? 159) || (x =? 238) || (x =? 239)).

Definition utf8_4 (a b c d : ascii) : bool :=
  let x := byte a in let y := byte b in
  utf8_cont b && utf8_cont c && utf8_cont d &&
  ((x =? 240) && (144 <=? y) || (241 <=? x) && (x <=? 243) || (x =? 244) && (y <=? 143)).

Definition replacement_char : string :=
  String (ascii_of_nat 239) (String (ascii_of_nat 191) (String (ascii_of_nat 189) "")).

Fixpoint json_text (s : string) : string :=
  match s with
  | "" => ""
  | String a s1 =>
      if byte a <? 128 then String a (json_text s1)
      else match s1 with
           | "" => replacement_char
           | String b s2 =>
               if utf8_2 a b then String a (String b (json_text s2))
               else match s2 with
                    | "" => replacement_char +:+ json_text s1
                    | String c s3 =>
                        if utf8_3 a b c then String a (String b (String c (json_text s3)))
                        else match s3 with
                             | "" => replacement_char +:+ json_text s1
                             | String d s4 =>
                                 if utf8_4 a b c d
                                 then String a (String b (String c (String d (json_text s4))))
                                 else replacement_char +:+ json_text s1
                             end
                    end
           end
  end.

Definition ascii_text (s : string) : Prop := Forall (fun a => byte a < 128) (String.list_ascii_of_string s).

(** ** Lemmas on strings *)

Lemma take_drop_str n s : s.[:n] +:+ s.[n:] = s.
Proof. revert s. induction n as [|n IH]; intros [|a s]; simpl; auto. by rewrite IH. Qed.

Lemma str_app_nil_r (s : string) : s +:+ "" = s.
Proof. induction s as [|a s IH]; simpl; [done|]. by rewrite IH. Qed.

Lemma str_app_assoc (s t u : string) : (s +:+ t) +:+ u = s +:+ t +:+ u.
Proof. induction s as [|a s IH]; simpl; [done|]. by rewrite IH. Qed.

Lemma len_app s t : len (s +:+ t) = len s + len t.
Proof. induction s as [|a s IH]; simpl; [done|]. by rewrite IH. Qed.

Lemma take_app s t : (s +:+ t).[:len s] = s.
Proof. induction s as [|a s IH]; simpl; [by destruct t|]. by rewrite IH. Qed.

Lemma drop_app s t : (s +:+ t).[len s:] = t.
Proof. induction s as [|a s IH]; simpl; [by destruct t|]. by rewrite IH. Qed.

Lemma drop_app_plus s t n : (s +:+ t).[(len s + n):] = t.[n:].
Proof. induction s as [|a s IH]; simpl; [done|]. apply IH. Qed.

Lemma prefix_app p s : prefix p s = true <-> exists t, s = p +:+ t.
Proof.
  revert s. induction p as [|a p IH]; intros s; simpl.
  - split; [by exists s|by destruct s].
  - destruct s as [|b s]; [split; [done|by intros [t ?]]|].
    destruct (Ascii.eqb_spec a b) as [->|Hne]; simpl.
    + rewrite IH. split; intros [t Ht]; exists t; congruence.
    + split; [done|]. intros [t Ht]. congruence.
Qed.

Lemma TrimPrefix_app p s : TrimPrefix (p +:+ s) p = s.
Proof.
  unfold TrimPrefix, HasPrefix.
  rewrite (proj2 (prefix_app p (p +:+ s))) by by exists s. apply drop_app.
Qed.

(** A byte that does not occur. *)
Definition no_byte (c : ascii) (s : string) : Prop := IndexByte s c = None.

Lemma no_byte_cons c a s : no_byte c (String a s) <-> a <> c /\ no_byte c s.
Proof.
  unfold no_byte. simpl. destruct (Ascii.eqb_spec a c) as [->|Hne]; [naive_solver|].
  destruct (IndexByte s c); naive_solver.
Qed.

Lemma no_byte_nil c : no_byte c "".
Proof. done. Qed.

Lemma no_byte_app c s t : no_byte c (s +:+ t) <-> no_byte c s /\ no_byte c t.
Proof.
  induction s as [|a s IH]; simpl; [by split; [|intros []]|].
  rewrite !no_byte_cons, IH. naive_solver.
Qed.

#[export] Instance no_byte_dec c s : Decision (no_byte c s).
Proof. unfold no_byte. apply _. Defined.

Lemma IndexByte_app c s t : no_byte c s -> IndexByte (s +:+ String c t) c = Some (len s).
Proof.
  induction s as [|a s IH]; simpl; [by rewrite Ascii.eqb_refl|].
  rewrite no_byte_cons. intros [Hne Hs].
  destruct (Ascii.eqb_spec a c); [done|]. by rewrite IH.
Qed.

Lemma IndexByte_Some c s n :
  IndexByte s c = Some n -> exists s1 s2, s = s1 +:+ String c s2 /\ len s1 = n /\ no_byte c s1.
Proof.
  revert n. induction s as [|a s IH]; intros n; simpl; [done|].
  destruct (Ascii.eqb_spec a c) as [->|Hne].
  - intros [= <-]. by exists "", s.
  - destruct (IndexByte s c) as [m|] eqn:E; [|done]. intros [= <-].
    destruct (IH m eq_refl) as (s1 & s2 & -> & Hl & Hn).
    exists (String a s1), s2. simpl. rewrite no_byte_cons. auto with lia.
Qed.

Lemma LastIndexByte_None c s : LastIndexByte s c = None <-> no_byte c s.
Proof.
  induction s as [|a s IH]; simpl; [done|]. rewrite no_byte_cons.
  destruct (LastIndexByte s c); [naive_solver|].
  destruct (Ascii.eqb_spec a c); naive_solver.
Qed.

Lemma LastIndexByte_app c s t :
  no_byte c t -> LastIndexByte (s +:+ String c t) c = Some (len s).
Proof.
  intros Ht. apply LastIndexByte_None in Ht.
  induction s as [|a s IH]; simpl; [by rewrite Ht, Ascii.eqb_refl|]. by rewrite IH.
Qed.

Lemma json_text_ascii s : ascii_text s -> json_text s = s.
Proof.
  unfold ascii_text. induction s as [|a s IH]; simpl; [done|].
  intros H. inversion H as [|? ? Ha Hs]; subst. apply Nat.ltb_lt in Ha as ->. by rewrite IH.
Qed.

(** *** Reversal, and [TrimSpace], which cuts at both ends *)
Lemma trim_left_suffix s : exists a, s = a +:+ trim_left s.
Proof.
  remember (len s) as n eqn:En. assert (Hle : (len s <= n)%nat) by lia. clear En.
  revert s Hle. induction n as [|n IH]; intros [|a s] Hle; simpl in *; [by exists ""|lia|by exists ""|].
  destruct (ascii_space a).
  { destruct (IH s ltac:(lia)) as [u Hu]. exists (String a u). simpl. by rewrite <- Hu. }
  destruct s as [|b s]; [by exists ""|]. simpl in Hle. destruct (space2 _ _).
  { destruct (IH s ltac:(lia)) as [u Hu]. exists (String a (String b u)). simpl. by rewrite <- Hu. }
  destruct s as [|c s]; [by exists ""|]. simpl in Hle. destruct (space3 _ _ _); [|by exists ""].
  destruct (IH s ltac:(lia)) as [u Hu]. exists (String a (String b (String c u))). simpl. by rewrite <- Hu.
Qed.

Lemma trim_left_rev_suffix s : exists a, s = a +:+ trim_left_rev s.
Proof.
  remember (len s) as n eqn:En. assert (Hle : (len s <= n)%nat) by lia. clear En.
  revert s Hle. induction n as [|n IH]; intros [|a s] Hle; simpl in *; [by exists ""|lia|by exists ""|].
  destruct (ascii_space a).
  { destruct (IH s ltac:(lia)) as [u Hu]. exists (String a u). simpl. by rewrite <- Hu. }
  destruct s as [|b s]; [by exists ""|]. simpl in Hle. destruct (space2 _ _).
  { destruct (IH s ltac:(lia)) as [u Hu]. exists (String a (String b u)). simpl. by rewrite <- Hu. }
  destruct s as [|c s]; [by exists ""|]. simpl in Hle. destruct (space3 _ _ _); [|by exists ""].
  destruct (IH s ltac:(lia)) as [u Hu]. exists (String a (String b (String c u))). simpl. by rewrite <- Hu.
Qed.

Lemma str_rev_app_acc s acc : str_rev_app s acc = str_rev s +:+ acc.
Proof.
  revert acc. induction s as [|a s IH]; intros acc; [done|]. unfold str_rev. simpl.
  rewrite IH, (IH (String a "")), str_app_assoc. done.
Qed.

Lemma str_rev_cat s t : str_rev (s +:+ t) = str_rev t +:+ str_rev s.
Proof.
  induction s as [|a s IH]; [by rewrite str_app_nil_r|]. unfold str_rev at 1 3. simpl.
  by rewrite !str_rev_app_acc, IH, str_app_assoc.
Qed.

Lemma str_rev_involutive s : str_rev (str_rev s) = s.
Proof.
  induction s as [|a s IH]; [done|]. unfold str_rev at 2. simpl. rewrite str_rev_app_acc, str_rev_cat, IH. done.
Qed.

Lemma TrimSpace_part s : exists a b, s = a +:+ TrimSpace s +:+ b.
Proof.
  unfold TrimSpace, trim_right. destruct (trim_left_suffix s) as [a Ha].
  destruct (trim_left_rev_suffix (str_rev (trim_left s))) as [b Hb].
  exists a, (str_rev b). rewrite Ha at 1. f_equal.
  rewrite <- (str_rev_involutive (trim_left s)) at 1. rewrite Hb at 1. by rewrite str_rev_cat.
Qed.

(** *** Split and Join *)

Lemma Split_not_nil s c : Split s c <> [].
Proof.
  destruct s as [|a s]; simpl; [done|].
  destruct (Ascii.eqb a c); [done|]. by destruct (Split s c).
Qed.

Lemma Join_cons s l sep : l <> [] -> Join (s :: l) sep = s +:+ sep +:+ Join l sep.
Proof. by destruct l. Qed.

Lemma Join_Split s c : Join (Split s c) (String c "") = s.
Proof.
  induction s as [|a s IH]; simpl; [done|].
  destruct (Ascii.eqb_spec a c) as [->|Hne].
  - rewrite Join_cons by apply Split_not_nil. by rewrite IH.
  - pose proof (Split_not_nil s c). destruct (Split s c) as [|h t]; [done|].
    rewrite <- IH. by destruct t.
Qed.

Lemma Split_no_byte c s : no_byte c s -> Split s c = [s].
Proof.
  induction s as [|a s IH]; simpl; [done|]. rewrite no_byte_cons. intros [Hne Hs].
  destruct (Ascii.eqb_spec a c); [done|]. by rewrite (IH Hs).
Qed.

Lemma Split_app c s t : no_byte c s -> Split (s +:+ String c t) c = s :: Split t c.
Proof.
  induction s as [|a s IH]; simpl; [by rewrite Ascii.eqb_refl|].
  rewrite no_byte_cons. intros [Hne Hs].
  destruct (Ascii.eqb_spec a c); [done|]. by rewrite (IH Hs).
Qed.

Lemma Split_Join c l :
  l <> [] -> Forall (no_byte c) l -> Split (Join l (String c "")) c = l.
Proof.
  intros Hl HF. induction HF as [|s l Hs HF IH]; [done|].
  destruct l as [|s' l]; [by apply Split_no_byte|].
  rewrite Join_cons by done. change (String c "" +:+ ?x) with (String c x).
  rewrite Split_app by done. by rewrite IH.
Qed.

Lemma Split_elem_no_byte c s x : x ∈ Split s c -> no_byte c x.
Proof.
  revert x. induction s as [|a s IH]; intros x; simpl; [by intros ->%list_elem_of_singleton|].
  destruct (Ascii.eqb_spec a c) as [->|Hne].
  - rewrite elem_of_cons. intros [->|?]; [done|auto].
  - pose proof (Split_not_nil s c). destruct (Split s c) as [|h t]; [done|].
    rewrite elem_of_cons. intros [->|Hx].
    + rewrite no_byte_cons. split; [done|]. apply IH. left.
    + apply IH. by right.
Qed.

Lemma Split_elem_len c s : length (Split s c) = S (CountByte s c).
Proof.
  induction s as [|a s IH]; simpl; [done|]. destruct (Ascii.eqb a c); simpl; [by rewrite IH|].
  pose proof (Split_not_nil s c). by destruct (Split s c).
Qed.

(** The text before and after one line of a joined list. *)
Definition lines_before (l : list string) (sep : string) : string :=
  match l with [] => "" | _ => Join l sep +:+ sep end.
Definition lines_after (l : list string) (sep : string) : string :=
  match l with [] => "" | _ => sep +:+ Join l sep end.

Lemma Join_middle l1 x l2 sep :
  Join (l1 ++ x :: l2) sep = lines_before l1 sep +:+ x +:+ lines_after l2 sep.
Proof.
  induction l1 as [|z l1 IH].
  - simpl. destruct l2; simpl; [by rewrite str_app_nil_r|done].
  - cbn [app]. rewrite Join_cons by by destruct l1. rewrite IH.
    destruct l1; simpl; [by rewrite !str_app_assoc|by rewrite !str_app_assoc].
Qed.

Lemma CountByte_app c s t : CountByte (s +:+ t) c = CountByte s c + CountByte t c.
Proof. induction s as [|a s IH]; simpl; [done|]. rewrite IH. lia. Qed.

Lemma CountByte_none c s : no_byte c s -> CountByte s c = 0.
Proof.
  induction s as [|a s IH]; simpl; [done|]. rewrite no_byte_cons. intros [Hne Hs].
  destruct (Ascii.eqb_spec a c); [done|]. auto.
Qed.

Lemma lines_before_cons s l sep : lines_before (s :: l) sep = s +:+ sep +:+ lines_before l sep.
Proof.
  destruct l as [|t l]; unfold lines_before.
  - simpl. by rewrite str_app_nil_r.
  - by rewrite Join_cons, !str_app_assoc.
Qed.

Lemma lines_before_count c l :
  Forall (no_byte c) l -> CountByte (lines_before l (String c "")) c = length l.
Proof.
  induction 1 as [|s l Hs Hl IH]; [done|].
  rewrite lines_before_cons, !CountByte_app, IH, (CountByte_none c s) by done.
  simpl. by rewrite Ascii.eqb_refl.
Qed.

(** *** Index, Contains and Replace *)

Lemma Index_Some s sub n :
  Index s sub = Some n -> s = s.[:n] +:+ sub +:+ s.[(n + len sub):].
Proof.
  revert n. induction s as [|a s IH]; intros n; simpl.
  - destruct (prefix sub "") eqn:E; [|done]. intros [= <-].
    apply prefix_app in E as [t Ht]. simpl. destruct sub; done.
  - destruct (prefix sub (String a s)) eqn:E.
    + intros [= <-]. apply prefix_app in E as [t Ht]. simpl. rewrite Ht, drop_app. done.
    + destruct (Index s sub) as [m|] eqn:E2; [|done]. intros [= <-]. simpl.
      f_equal. by apply IH.
Qed.

Lemma Contains_app s sub : Contains s sub = true <-> exists s1 s2, s = s1 +:+ sub +:+ s2.
Proof.
  unfold Contains. split.
  - destruct (Index s sub) as [n|] eqn:E; [|done]. intros _.
    eexists _, _. by apply Index_Some.
  - intros (s1 & s2 & ->). induction s1 as [|a s1 IH]; simpl.
    + destruct (sub +:+ s2) eqn:E; simpl.
      * by destruct sub.
      * rewrite <- E, (proj2 (prefix_app _ _)); [done|by exists s2].
    + destruct (prefix sub _); [done|].
      by destruct (Index (s1 +:+ sub +:+ s2) sub).
Qed.

Lemma Replace1_spec s old new :
  Contains s old = true ->
  exists a b, s = a +:+ old +:+ b /\ Replace1 s old new = a +:+ new +:+ b.
Proof.
  unfold Contains, Replace1. destruct (Index s old) as [n|] eqn:E; [|done].
  intros _. eexists _, _. split; [by apply Index_Some|done].
Qed.

(** *** The byte order on strings is a strict linear order *)

Lemma ascii_compare_trans_lt a b c :
  Ascii.compare a b = Lt -> Ascii.compare b c = Lt -> Ascii.compare a c = Lt.
Proof. unfold Ascii.compare. rewrite !N.compare_lt_iff. lia. Qed.

Lemma ascii_compare_eq a b : Ascii.compare a b = Eq <-> a = b.
Proof.
  split; [apply Ascii.compare_eq_iff|intros ->]. unfold Ascii.compare. apply N.compare_refl.
Qed.

Lemma str_less_irrefl s : str_less s s = false.
Proof.
  unfold str_less, String.ltb. induction s as [|a s IH]; simpl; [done|].
  by rewrite (proj2 (ascii_compare_eq a a)).
Qed.

Lemma str_less_cons a b s t :
  str_less (String a s) (String b t) = true <->
  Ascii.compare a b = Lt \/ (a = b /\ str_less s t = true).
Proof.
  unfold str_less, String.ltb. simpl. rewrite <- (ascii_compare_eq a b).
  destruct (Ascii.compare a b) eqn:E; naive_solver.
Qed.

Lemma str_less_trans x y z : str_less x y = true -> str_less y z = true -> str_less x z = true.
Proof.
  revert y z. induction x as [|a x IH]; intros [|b y] [|c z]; try done.
  rewrite !str_less_cons. intros [H1|[-> H1]] [H2|[-> H2]]; auto.
  - left. by eapply ascii_compare_trans_lt.
  - right. split; [done|]. by eapply IH.
Qed.

Lemma str_less_total x y : x <> y -> str_less x y = true \/ str_less y x = true.
Proof.
  revert y. induction x as [|a x IH]; intros [|b y] Hne; try by auto.
  rewrite !str_less_cons. destruct (Ascii.compare a b) eqn:E.
  - apply ascii_compare_eq in E as ->. destruct (IH y); [congruence|auto..].
  - auto.
  - right. left. rewrite Ascii.compare_antisym, E. done.
Qed.

#[export] Instance str_less_weak : StrictWeak str_less.
Proof.
  split.
  - apply str_less_irrefl.
  - apply str_less_trans.
  - intros x y z Hxz. destruct (decide (x = y)) as [->|Hne]; [auto|].
    destruct (str_less_total x y Hne) as [?|Hyx]; [auto|].
    right. by eapply str_less_trans.
Qed.

Lemma not_after_str_antisym x y : not_after str_less x y -> not_after str_less y x -> x = y.
Proof.
  unfold not_after. intros Hxy Hyx. destruct (decide (x = y)) as [|Hne]; [done|].
  destruct (str_less_total x y Hne); congruence.
Qed.

(** [sort.Strings]: a permutation, in order, and no other list is both. *)
Lemma sort_strings_perm l : sort_strings l ≡ₚ l.
Proof. apply sort_stable_perm. Qed.

Lemma sort_strings_sorted l : StronglySorted (not_after str_less) (sort_strings l).
Proof. apply sort_stable_sorted, _. Qed.

Lemma sort_strings_elem l x : x ∈ sort_strings l <-> x ∈ l.
Proof. by rewrite sort_strings_perm. Qed.

Lemma sort_strings_ext l1 l2 : l1 ≡ₚ l2 -> sort_strings l1 = sort_strings l2.
Proof.
  intros HP. assert (Hperm : sort_strings l1 ≡ₚ sort_strings l2)
    by by rewrite !sort_strings_perm.
  pose proof (sort_strings_sorted l1) as H1. pose proof (sort_strings_sorted l2) as H2.
  revert H1 H2 Hperm. generalize (sort_strings l1), (sort_strings l2). clear.
  intros l1. induction l1 as [|x l1 IH]; intros l2 H1 H2 Hp.
  - symmetry in Hp. by apply Permutation_nil_r in Hp.
  - destruct l2 as [|y l2]; [by apply Permutation_nil_r in Hp|].
    inversion H1 as [|? ? Hs1 Hf1]; inversion H2 as [|? ? Hs2 Hf2]; subst.
    assert (x = y) as ->.
    { assert (x ∈ y :: l2) as Hx by (rewrite <- Hp; left).
      assert (y ∈ x :: l1) as Hy by (rewrite Hp; left).
      rewrite elem_of_cons in Hx, Hy.
      destruct Hx as [|Hx]; [done|]. destruct Hy as [|Hy]; [done|].
      rewrite Forall_forall in Hf1, Hf2.
      apply not_after_str_antisym; auto. }
    f_equal. apply IH; [done..|]. by apply Permutation_cons_inv in Hp.
Qed.

#[export] Hint Resolve sort_strings_sorted no_byte_nil : core.
#[export] Hint Rewrite str_app_nil_r str_app_assoc len_app : go_str.
