(* ===== verification/Clock.v ===== *)
(** * Times as texts

    The calendar of UTC and the two layouts dockbrr writes times in: RFC 3339, for
    the API, and the one of SQLite's CURRENT_TIMESTAMP, which the store compares as
    text.  Times are in seconds from 1970-01-01. *)

From stdpp Require Import base list strings.
From Stdlib Require Import Ascii.
From S2P Require Import Prelude GoStd.

Local Open Scope Z_scope.

Definition two_digits (n : Z) : string := String (digit_char (n / 10)) (String (digit_char (n mod 10)) "").

(** The date of a day counted from 1970-01-01: year, month and day. *)
Definition civil (day : Z) : Z * Z * Z :=
  let z := day + 719468 in
  let era := z / 146097 in
  let doe := z mod 146097 in
  let yoe := (doe - doe / 1460 + doe / 36524 - doe / 146096) / 365 in
  let doy := doe - (365 * yoe + yoe / 4 - yoe / 100) in
  let mp := (5 * doy + 2) / 153 in
  let m := if mp <? 10 then mp + 3 else mp - 9 in
  (yoe + era * 400 + (if m <=? 2 then 1 else 0), m, doy - (153 * mp + 2) / 5 + 1).

(** The year in a layout: four digits at least, after a sign when it is negative. *)
Definition long_year (y : Z) : string :=
  let pad n := if n <=? 9999 then two_digits (n / 100) +:+ two_digits (n mod 100) else Itoa n in
  if y <? 0 then "-" +:+ pad (- y) else pad y.

Definition clock_digits (s : Z) : string :=
  two_digits (s / 3600) +:+ ":" +:+ two_digits (s / 60 mod 60) +:+ ":" +:+ two_digits (s mod 60).

Definition date_digits (day : Z) : string :=
  let '(y, m, d) := civil day in long_year y +:+ "-" +:+ two_digits m +:+ "-" +:+ two_digits d.

(** [t.UTC().Format(time.RFC3339)] *)
Definition rfc3339 (sec : Z) : string :=
  date_digits (sec / 86400) +:+ "T" +:+ clock_digits (sec mod 86400) +:+ "Z".

(** [t.UTC().Format(sqliteTimeLayout)] *)
Definition sqlite_time (sec : Z) : string :=
  date_digits (sec / 86400) +:+ " " +:+ clock_digits (sec mod 86400).

Example rfc3339_example : rfc3339 1709210096 = "2024-02-29T12:34:56Z".
Proof. reflexivity. Qed.

Example sqlite_time_example :
  sqlite_time 1709210096 = "2024-02-29 12:34:56" /\ sqlite_time (-62167219201) = "-0001-12-31 23:59:59".
Proof. split; reflexivity. Qed.

(** ** The calendar *)

(** The month counted from year 0, and the day in it. *)
Definition month_index (day : Z) : Z := let '(y, m, _) := civil day in 12 * y + m.
Definition month_day (day : Z) : Z := let '(_, _, d) := civil day in d.

Definition year_of_era (doe : Z) : Z := (doe - doe / 1460 + doe / 36524 - doe / 146096) / 365.
Definition day_of_year (doe : Z) : Z :=
  let yoe := year_of_era doe in doe - (365 * yoe + yoe / 4 - yoe / 100).

(** 1460 days and the last day of the era are skipped one at a time. *)
Lemma skip_mono a b : a <= b -> a - a / 1460 <= b - b / 1460.
Proof.
  intros H. destruct (Z.eq_dec a b) as [->|]; [done|].
  pose proof (Z.div_mod a 1460 ltac:(lia)). pose proof (Z.mod_pos_bound a 1460 ltac:(lia)).
  pose proof (Z.div_mod b 1460 ltac:(lia)). pose proof (Z.mod_pos_bound b 1460 ltac:(lia)). lia.
Qed.

Lemma year_of_era_mono a b : 0 <= a <= b -> b < 146097 -> year_of_era a <= year_of_era b.
Proof.
  intros Ha Hb. unfold year_of_era. apply Z.div_le_mono; [lia|].
  pose proof (Z.div_le_mono a b 36524 ltac:(lia) ltac:(lia)). pose proof (skip_mono a b ltac:(lia)).
  destruct (Z.eq_dec a b) as [->|]; [done|]. rewrite (Z.div_small a 146096) by lia.
  destruct (Z.eq_dec b 146096) as [->|]; [|rewrite (Z.div_small b 146096) by lia; lia].
  pose proof (skip_mono a 146095 ltac:(lia)) as Hs. pose proof (Z.div_le_mono a 146095 36524 ltac:(lia) ltac:(lia)) as Hd.
  change (146095 / 1460) with 100 in Hs. change (146095 / 36524) with 3 in Hd.
  change (146096 / 1460) with 100. change (146096 / 36524) with 4. change (146096 / 146096) with 1. lia.
Qed.

Lemma day_of_year_range doe : 0 <= doe < 146097 -> 0 <= year_of_era doe <= 399 /\ 0 <= day_of_year doe <= 365.
Proof.
  intros Hd. unfold day_of_year, year_of_era. Z.div_mod_to_equations. lia.
Qed.

(** The year from March on, and the day in it. *)
Definition march_year (day : Z) : Z := year_of_era ((day + 719468) mod 146097) + (day + 719468) / 146097 * 400.
Definition march_day (day : Z) : Z := day_of_year ((day + 719468) mod 146097).
Definition march_month (doy : Z) : Z := (5 * doy + 2) / 153.

Lemma march_month_range doy : 0 <= doy <= 365 ->
  0 <= march_month doy <= 11 /\ 1 <= doy - (153 * march_month doy + 2) / 5 + 1 <= 31.
Proof. intros H. unfold march_month. Z.div_mod_to_equations. lia. Qed.

Lemma march_day_range day : 0 <= march_day day <= 365.
Proof. apply day_of_year_range, Z.mod_pos_bound. lia. Qed.

Lemma civil_march day : exists y m d, civil day = (y, m, d) /\ 1 <= m <= 12 /\ 1 <= d <= 31 /\
  12 * y + m = 12 * march_year day + march_month (march_day day) + 3 /\
  d = march_day day - (153 * march_month (march_day day) + 2) / 5 + 1.
Proof.
  pose proof (march_month_range _ (march_day_range day)) as [Hm Hd]. unfold civil. cbv zeta.
  fold (year_of_era ((day + 719468) mod 146097)). fold (day_of_year ((day + 719468) mod 146097)). fold (march_day day).
  fold (march_month (march_day day)). eexists _, _, _. split; [reflexivity|]. unfold march_year.
  destruct (Z.ltb_spec (march_month (march_day day)) 10).
  - rewrite (proj2 (Z.leb_gt _ 2)) by lia. lia.
  - rewrite (proj2 (Z.leb_le _ 2)) by lia. lia.
Qed.

Lemma march_year_mono a b : a <= b -> march_year a <= march_year b.
Proof.
  intros H. unfold march_year.
  pose proof (Z.mod_pos_bound (a + 719468) 146097 ltac:(lia)). pose proof (Z.mod_pos_bound (b + 719468) 146097 ltac:(lia)).
  pose proof (day_of_year_range _ H0) as [Ha _]. pose proof (day_of_year_range _ H1) as [Hb _].
  pose proof (Z.div_le_mono (a + 719468) (b + 719468) 146097 ltac:(lia) ltac:(lia)) as Hera.
  destruct (Z.eq_dec ((a + 719468) / 146097) ((b + 719468) / 146097)) as [He|]; [|lia].
  assert ((a + 719468) mod 146097 <= (b + 719468) mod 146097) by (rewrite !Z.mod_eq by lia; rewrite He; lia).
  pose proof (year_of_era_mono _ _ (conj (proj1 H0) H2) (proj2 H1)). lia.
Qed.

(** A later day of the same year from March on is that many days later in it. *)
Lemma march_day_diff a b : march_year a = march_year b -> march_day b - march_day a = b - a.
Proof.
  unfold march_year, march_day. intros He.
  pose proof (Z.mod_pos_bound (a + 719468) 146097 ltac:(lia)) as Ha. pose proof (Z.mod_pos_bound (b + 719468) 146097 ltac:(lia)) as Hb.
  pose proof (day_of_year_range _ Ha) as [Hya _]. pose proof (day_of_year_range _ Hb) as [Hyb _].
  assert (Hera : (a + 719468) / 146097 = (b + 719468) / 146097) by lia. rewrite Hera in He.
  assert (Hy : year_of_era ((a + 719468) mod 146097) = year_of_era ((b + 719468) mod 146097)) by lia.
  unfold day_of_year. rewrite Hy. rewrite !Z.mod_eq by lia. rewrite Hera. lia.
Qed.

(** Later days have later dates. *)
Lemma civil_order a b ya ma da yb mb db : a < b -> civil a = (ya, ma, da) -> civil b = (yb, mb, db) ->
  12 * ya + ma < 12 * yb + mb \/ 12 * ya + ma = 12 * yb + mb /\ da < db.
Proof.
  intros Hab Ha Hb. destruct (civil_march a) as (y & m & d & E & _ & _ & H1 & H2). rewrite Ha in E. injection E as <- <- <-.
  destruct (civil_march b) as (y & m & d & E & _ & _ & G1 & G2). rewrite Hb in E. injection E as <- <- <-.
  pose proof (march_month_range _ (march_day_range a)) as [Hma _]. pose proof (march_month_range _ (march_day_range b)) as [Hmb _].
  pose proof (march_year_mono a b ltac:(lia)) as Hy.
  destruct (Z.eq_dec (march_year a) (march_year b)) as [He|]; [|lia].
  pose proof (march_day_diff a b He) as Hd. assert (Hm : march_month (march_day a) <= march_month (march_day b)).
  { unfold march_month. apply Z.div_le_mono; lia. }
  destruct (Z.eq_dec (march_month (march_day a)) (march_month (march_day b))) as [Hme|]; [|lia].
  right. rewrite H2, G2, Hme. lia.
Qed.

(** ** The order of the texts *)

Lemma digit_compare i j : 0 <= i <= 9 -> 0 <= j <= 9 -> Ascii.compare (digit_char i) (digit_char j) = (i ?= j).
Proof.
  intros Hi Hj. unfold Ascii.compare, digit_char.
  assert (Hn : forall z, 0 <= z <= 9 -> N_of_ascii (ascii_of_nat (48 + Z.to_nat z)) = (48 + Z.to_N z)%N).
  { intros z Hz. unfold ascii_of_nat. rewrite N_ascii_embedding by lia. lia. }
  rewrite !Hn by done. destruct (Z.compare_spec i j); [subst; apply N.compare_refl| |];
    [apply N.compare_lt_iff|apply N.compare_gt_iff]; lia.
Qed.

Lemma str_less_same c s t : str_less (String c s) (String c t) = true <-> str_less s t = true.
Proof.
  rewrite str_less_cons. split; [|by right]. intros [H|[_ H]]; [|done].
  pose proof (proj2 (ascii_compare_eq c c) eq_refl). congruence.
Qed.

Lemma digit_less i j s t : 0 <= i <= 9 -> 0 <= j <= 9 ->
  str_less (String (digit_char i) s) (String (digit_char j) t) = true <-> i < j \/ i = j /\ str_less s t = true.
Proof.
  intros Hi Hj. rewrite str_less_cons, digit_compare by done. rewrite Z.compare_lt_iff.
  pose proof (ascii_compare_eq (digit_char i) (digit_char j)) as He. rewrite digit_compare, Z.compare_eq_iff in He by done. tauto.
Qed.

Lemma two_less n k s t : 0 <= n <= 99 -> 0 <= k <= 99 ->
  str_less (two_digits n +:+ s) (two_digits k +:+ t) = true <-> n < k \/ n = k /\ str_less s t = true.
Proof.
  intros Hn Hk. unfold two_digits. cbn [String.append].
  pose proof (Z.div_mod n 10 ltac:(lia)). pose proof (Z.mod_pos_bound n 10 ltac:(lia)).
  pose proof (Z.div_mod k 10 ltac:(lia)). pose proof (Z.mod_pos_bound k 10 ltac:(lia)).
  rewrite !digit_less by lia. split; intros; [|]; destruct (str_less s t); lia.
Qed.

Lemma year_less n k s t : 0 <= n <= 9999 -> 0 <= k <= 9999 ->
  str_less (long_year n +:+ s) (long_year k +:+ t) = true <-> n < k \/ n = k /\ str_less s t = true.
Proof.
  intros Hn Hk. unfold long_year. cbv zeta. rewrite !(proj2 (Z.ltb_ge _ 0)) by lia. rewrite !(proj2 (Z.leb_le _ 9999)) by lia.
  rewrite !str_app_assoc. pose proof (Z.div_mod n 100 ltac:(lia)). pose proof (Z.mod_pos_bound n 100 ltac:(lia)).
  pose proof (Z.div_mod k 100 ltac:(lia)). pose proof (Z.mod_pos_bound k 100 ltac:(lia)).
  rewrite !two_less by lia. destruct (str_less s t); lia.
Qed.

(** The days of the years 0 to 9999. *)
Definition common_day (day : Z) : Prop := -719528 <= day < 2932897.
Definition common_time (t : Z) : Prop := -62167219200 <= t < 253402300800.

Lemma common_year day y m d : civil day = (y, m, d) -> common_day day -> 0 <= y <= 9999.
Proof.
  intros Hc [H1 H2].
  assert (Hlow : 12 * 0 + 1 <= 12 * y + m).
  { destruct (Z.eq_dec day (-719528)) as [->|]; [by injection Hc as <- <- <-|].
    pose proof (civil_order (-719528) day 0 1 1 y m d ltac:(lia) eq_refl Hc). lia. }
  assert (Hhigh : 12 * y + m <= 12 * 9999 + 12).
  { destruct (Z.eq_dec day 2932896) as [->|]; [by injection Hc as <- <- <-|].
    pose proof (civil_order day 2932896 y m d 9999 12 31 ltac:(lia) Hc eq_refl). lia. }
  destruct (civil_march day) as (y' & m' & d' & E & Hm & _). rewrite Hc in E. injection E as <- <- <-. lia.
Qed.

Lemma early_year day y m d : civil day = (y, m, d) -> day < -719528 -> y < 0.
Proof.
  intros Hc H. pose proof (civil_order day (-719528) y m d 0 1 1 H Hc eq_refl) as Ho.
  destruct (civil_march day) as (y' & m' & d' & E & Hm & Hd & _). rewrite Hc in E. injection E as <- <- <-. lia.
Qed.

Lemma civil_inj a b : civil a = civil b -> a = b.
Proof.
  intros He. destruct (civil b) as [[y m] d] eqn:Hb. destruct (Z.lt_total a b) as [H|[H|H]]; [|done|].
  - pose proof (civil_order a b y m d y m d H He Hb). lia.
  - pose proof (civil_order b a y m d y m d H Hb He). lia.
Qed.

Lemma date_less a b s t : common_day a -> common_day b ->
  str_less (date_digits a +:+ s) (date_digits b +:+ t) = true <-> a < b \/ a = b /\ str_less s t = true.
Proof.
  intros Ha Hb. unfold date_digits.
  destruct (civil a) as [[ya ma] da] eqn:Ea. destruct (civil b) as [[yb mb] db] eqn:Eb.
  pose proof (common_year _ _ _ _ Ea Ha) as Hya. pose proof (common_year _ _ _ _ Eb Hb) as Hyb.
  assert (Hm : 1 <= ma <= 12 /\ 1 <= da <= 31 /\ 1 <= mb <= 12 /\ 1 <= db <= 31).
  { destruct (civil_march a) as (? & ? & ? & E & ? & ? & _). rewrite Ea in E. injection E as <- <- <-.
    destruct (civil_march b) as (? & ? & ? & E & ? & ? & _). rewrite Eb in E. injection E as <- <- <-. done. }
  rewrite !str_app_assoc. rewrite year_less by lia. cbn [String.append]. rewrite str_less_same, two_less by lia.
  cbn [String.append]. rewrite str_less_same, two_less by lia.
  destruct (Z.lt_total a b) as [H|[<-|H]].
  - pose proof (civil_order _ _ _ _ _ _ _ _ H Ea Eb). split; [by left|]. intros _. destruct (str_less s t); lia.
  - rewrite Ea in Eb. injection Eb as <- <- <-. destruct (str_less s t); lia.
  - pose proof (civil_order _ _ _ _ _ _ _ _ H Eb Ea). split; [|lia]. intros Hl. exfalso. destruct (str_less s t); lia.
Qed.

Lemma clock_less a b : 0 <= a < 86400 -> 0 <= b < 86400 ->
  str_less (clock_digits a) (clock_digits b) = true <-> a < b.
Proof.
  intros Ha Hb. unfold clock_digits.
  assert (Hr : forall z, 0 <= z < 86400 -> 0 <= z / 3600 <= 23 /\ 0 <= z / 60 mod 60 <= 59 /\ 0 <= z mod 60 <= 59 /\
    z = 3600 * (z / 3600) + 60 * (z / 60 mod 60) + z mod 60) by (intros z Hz; Z.div_mod_to_equations; lia).
  destruct (Hr a Ha) as (A1 & A2 & A3 & A4). destruct (Hr b Hb) as (B1 & B2 & B3 & B4).
  rewrite two_less by lia. cbn [String.append]. rewrite str_less_same, two_less by lia.
  cbn [String.append]. rewrite str_less_same.
  rewrite <- (str_app_nil_r (two_digits (a mod 60))), <- (str_app_nil_r (two_digits (b mod 60))), two_less by lia.
  rewrite str_less_irrefl. lia.
Qed.

Lemma sqlite_time_less a b : common_time a -> common_time b ->
  str_less (sqlite_time a) (sqlite_time b) = true <-> a < b.
Proof.
  intros Ha Hb. unfold sqlite_time, common_time in *.
  pose proof (Z.div_mod a 86400 ltac:(lia)). pose proof (Z.mod_pos_bound a 86400 ltac:(lia)).
  pose proof (Z.div_mod b 86400 ltac:(lia)). pose proof (Z.mod_pos_bound b 86400 ltac:(lia)).
  rewrite date_less by (unfold common_day; lia). cbn [String.append]. rewrite str_less_same, clock_less by lia. lia.
Qed.

(** A text of a year before 0 is before all those of common times. *)
Lemma sqlite_time_early a b : common_time a -> b < -62167219200 -> str_less (sqlite_time a) (sqlite_time b) = false.
Proof.
  intros Ha Hb. unfold common_time in Ha. apply not_true_is_false. unfold sqlite_time, date_digits.
  destruct (civil (a / 86400)) as [[ya ma] da] eqn:Ea. destruct (civil (b / 86400)) as [[yb mb] db] eqn:Eb.
  assert (Hya : 0 <= ya <= 9999).
  { apply (common_year _ _ _ _ Ea). unfold common_day. pose proof (Z.div_mod a 86400 ltac:(lia)).
    pose proof (Z.mod_pos_bound a 86400 ltac:(lia)). lia. }
  assert (Hyb : yb < 0).
  { apply (early_year _ _ _ _ Eb). pose proof (Z.div_mod b 86400 ltac:(lia)). pose proof (Z.mod_pos_bound b 86400 ltac:(lia)). lia. }
  unfold long_year. cbv zeta. rewrite (proj2 (Z.ltb_ge ya 0)), (proj2 (Z.leb_le ya 9999)), (proj2 (Z.ltb_lt yb 0)) by lia.
  rewrite !str_app_assoc. unfold two_digits. cbn [String.append]. rewrite str_less_cons.
  assert (Hd : forall i, 0 <= i <= 9 -> Ascii.compare (digit_char i) "-" <> Lt).
  { intros i Hi. unfold Ascii.compare, digit_char, ascii_of_nat. rewrite N_ascii_embedding by lia.
    rewrite N.compare_lt_iff. change (N_of_ascii "-") with 45%N. lia. }
  intros [H|[H _]]; revert H; [apply Hd; Z.div_mod_to_equations; lia|].
  intros H. apply (f_equal N_of_ascii) in H. unfold digit_char, ascii_of_nat in H.
  rewrite N_ascii_embedding in H by (Z.div_mod_to_equations; lia). change (N_of_ascii "-") with 45%N in H. lia.
Qed.

(** The texts compare as the times do, up to the year 9999. *)
Lemma sqlite_time_order a b : common_time a -> b < 253402300800 ->
  str_less (sqlite_time a) (sqlite_time b) = (a <? b).
Proof.
  intros Ha Hb. apply eq_bool_prop_intro. rewrite !Is_true_true, Z.ltb_lt.
  destruct (Z.lt_ge_cases b (-62167219200)) as [He|].
  - rewrite sqlite_time_early by done. unfold common_time in Ha. split; [done|lia].
  - apply sqlite_time_less; [done|]. by unfold common_time.
Qed.
