(* ===== verification/Flags.v ===== *)
(** * Command lines: the packages flag and strconv

    The flags dockbrr defines are strings and integers; a flag set is the map from
    its names to their current values.  What [Parse] accepts is shown to be exactly
    the concatenation of flags in one of their four spellings, up to the first
    argument that is none. *)

From stdpp Require Import base list strings gmap.
From Stdlib Require Import Ascii.
From S2P Require Import Prelude GoStd.

Local Open Scope Z_scope.

Module Flag.

(** ** Integers ([strconv.ParseInt] with base 0) *)

Definition ErrSyntax : error := Sentinel "parse error".
Definition ErrRange : error := Sentinel "value out of range".

(** [c | 0x20] *)
Definition lower (c : ascii) : nat := Nat.lor (byte c) 32.

Definition digit_of (c : ascii) : option Z :=
  if is_digit c then Some (digit_val c)
  else if (97 <=? Z.of_nat (lower c)) && (Z.of_nat (lower c) <=? 122) then Some (Z.of_nat (lower c) - 87)
  else None.

(** The base and the digits that follow its prefix. *)
Definition base_of (s : string) : Z * string :=
  match s with
  | String "0" (String p (String c r) as t) =>
      if Nat.eqb (lower p) 98 then (2, String c r)
      else if Nat.eqb (lower p) 111 then (8, String c r)
      else if Nat.eqb (lower p) 120 then (16, String c r)
      else (8, t)
  | String "0" t => (8, t)
  | _ => (10, s)
  end.

Definition max_uint : Z := 18446744073709551615.

Fixpoint scan_digits (base n : Z) (s : string) : result Z :=
  match s with
  | "" => Ok n
  | String c r =>
      if Ascii.eqb c "_" then scan_digits base n r
      else
        match digit_of c with
        | None => Err ErrSyntax
        | Some d =>
            if base <=? d then Err ErrSyntax
            else if max_uint <? n * base + d then Err ErrRange
            else scan_digits base (n * base + d) r
        end
  end.

(** [underscoreOK], on what follows the sign: an underscore stands between digits or
    behind the prefix of the base. *)
Inductive saw := SawBegin | SawDigit | SawUnderscore | SawOther.

Fixpoint underscores_from (hex : bool) (before : saw) (s : string) : bool :=
  match s with
  | "" => match before with SawUnderscore => false | _ => true end
  | String c r =>
      if is_digit c || (hex && (97 <=? Z.of_nat (lower c)) && (Z.of_nat (lower c) <=? 102)) then underscores_from hex SawDigit r
      else if Ascii.eqb c "_" then
        match before with SawDigit => underscores_from hex SawUnderscore r | _ => false end
      else match before with SawUnderscore => false | _ => underscores_from hex SawOther r end
  end.

Definition underscoreOK (s : string) : bool :=
  match s with
  | String "0" (String p r) =>
      if Nat.eqb (lower p) 98 || Nat.eqb (lower p) 111 || Nat.eqb (lower p) 120
      then underscores_from (Nat.eqb (lower p) 120) SawDigit r
      else underscores_from false SawBegin s
  | _ => underscores_from false SawBegin s
  end.

Definition ParseUint0 (s : string) : result Z :=
  if String.eqb s "" then Err ErrSyntax
  else
    let '(base, digits) := base_of s in
    match scan_digits base 0 digits with
    | Err e => Err e
    | Ok n => if Nat.ltb 0 (CountByte digits "_") && negb (underscoreOK s) then Err ErrSyntax else Ok n
    end.

Definition ParseInt0 (s : string) : result Z :=
  let '(neg, body) := match s with
                      | String "-" r => (true, r)
                      | String "+" r => (false, r)
                      | _ => (false, s)
                      end in
  match ParseUint0 body with
  | Err e => Err e
  | Ok un =>
      let v := if neg : bool then - un else un in
      if (min_int <=? v) && (v <=? max_int) then Ok v else Err ErrRange
  end.

(** ** Flag sets *)

Inductive value := VStr (s : string) | VInt (n : Z).

Notation FlagSet := (gmap string value).

(** [flag.Value.Set]: a value keeps its type. *)
Definition Set_ (old : value) (text : string) : result value :=
  match old with
  | VStr _ => Ok (VStr text)
  | VInt _ => match ParseInt0 text with Ok n => Ok (VInt n) | Err e => Err e end
  end.

Definition ErrHelp : error := Sentinel "flag: help requested".

Definition assign (fs : FlagSet) (name : string) (old : value) (text : string) : result FlagSet :=
  match Set_ old text with
  | Ok v => Ok (<[name := v]> fs)
  | Err e => Err (Errorf ("invalid value " +:+ Quote text +:+ " for flag -" +:+ name +:+ ": " +:+ error_text e))
  end.

Definition bad_name (name : string) : bool :=
  match name with "" => true | String c _ => Ascii.eqb c "-" || Ascii.eqb c "=" end.

(** The name, and the text behind its equals sign. *)
Definition cut_equals (name : string) : string * option string :=
  match IndexByte name "=" with
  | Some i => (name.[:i], Some name.[(i + 1):])
  | None => (name, None)
  end.

(** What an argument is to [parseOne]. *)
Inductive argument := Positional | Terminator | Named (name : string).

Definition classify (s : string) : argument :=
  match s with
  | String a (String c t) =>
      if negb (Ascii.eqb a "-") then Positional
      else if Ascii.eqb c "-" then (if String.eqb t "" then Terminator else Named t)
      else Named (String c t)
  | _ => Positional
  end.

(** The flags, and the arguments that are left. *)
Fixpoint Parse (fs : FlagSet) (args : list string) : result (FlagSet * list string) :=
  match args with
  | [] => Ok (fs, [])
  | s :: rest =>
      match classify s with
      | Positional => Ok (fs, args)
      | Terminator => Ok (fs, rest)
      | Named name =>
          if bad_name name then Err (Errorf ("bad flag syntax: " +:+ s))
          else
            let '(name, given) := cut_equals name in
            match fs !! name with
            | None =>
                if String.eqb name "help" || String.eqb name "h" then Err ErrHelp
                else Err (Errorf ("flag provided but not defined: -" +:+ name))
            | Some old =>
                match given, rest with
                | Some text, _ =>
                    match assign fs name old text with Err e => Err e | Ok fs' => Parse fs' rest end
                | None, [] => Err (Errorf ("flag needs an argument: -" +:+ name))
                | None, text :: rest' =>
                    match assign fs name old text with Err e => Err e | Ok fs' => Parse fs' rest' end
                end
            end
      end
  end.

End Flag.

(** ** The language of command lines *)

(** One or two dashes; the text behind an equals sign or as the next argument. *)
Record Given := mkGiven { gv_double : bool; gv_equals : bool; gv_name : string; gv_text : string }.

Definition spell (g : Given) : list string :=
  let dashed := (if g.(gv_double) then "--" else "-") +:+ g.(gv_name) in
  if g.(gv_equals) then [dashed +:+ "=" +:+ g.(gv_text)] else [dashed; g.(gv_text)].

Definition good_name (name : string) : Prop := Flag.bad_name name = false /\ no_byte "=" name.

(** The values after the flags of a command line, one after the other. *)
Fixpoint assign_all (fs : Flag.FlagSet) (l : list Given) : option Flag.FlagSet :=
  match l with
  | [] => Some fs
  | g :: rest =>
      match fs !! g.(gv_name) with
      | None => None
      | Some old =>
          match Flag.Set_ old g.(gv_text) with
          | Ok v => assign_all (<[g.(gv_name) := v]> fs) rest
          | Err _ => None
          end
      end
  end.

(** Where the flags end. *)
Inductive ends : list string -> list string -> Prop :=
| ends_none : ends [] []
| ends_positional s rest : Flag.classify s = Flag.Positional -> ends (s :: rest) (s :: rest)
| ends_terminator rest : ends ("--" :: rest) rest.

Definition spell_all (l : list Given) : list string := concat (map spell l).

Lemma bad_name_cons name x : Flag.bad_name name = false -> Flag.bad_name (name +:+ x) = false.
Proof. by destruct name. Qed.

Lemma classify_dashed (double : bool) name :
  Flag.bad_name name = false -> Flag.classify ((if double then "--" else "-") +:+ name) = Flag.Named name.
Proof. destruct name as [|c t]; [done|]. simpl. intros [Hc _]%orb_false_iff. destruct double; simpl; [done|by rewrite Hc]. Qed.

Lemma cut_equals_none name : no_byte "=" name -> Flag.cut_equals name = (name, None).
Proof. unfold Flag.cut_equals. by intros ->. Qed.

Lemma cut_equals_some name text :
  no_byte "=" name -> Flag.cut_equals (name +:+ "=" +:+ text) = (name, Some text).
Proof.
  intros Hn. unfold Flag.cut_equals. change ("=" +:+ text) with (String "=" text).
  rewrite (IndexByte_app _ _ _ Hn), take_app. f_equal. rewrite drop_app_plus. by destruct text.
Qed.

(** The other way round: what an argument that names a flag looks like. *)
Lemma named_inv s nm :
  Flag.classify s = Flag.Named nm -> exists d : bool, s = (if d then "--" else "-") +:+ nm.
Proof.
  destruct s as [|a [|c t]]; [done|done|]. cbn [Flag.classify].
  destruct (Ascii.eqb_spec a "-") as [->|]; [|done]. cbn [negb].
  destruct (Ascii.eqb_spec c "-") as [->|].
  - destruct (String.eqb t ""); [done|]. intros [= <-]. by exists true.
  - intros [= <-]. by exists false.
Qed.

Lemma cut_equals_inv nm name given :
  Flag.cut_equals nm = (name, given) -> Flag.bad_name nm = false ->
  good_name name /\ nm = name +:+ match given with Some text => "=" +:+ text | None => "" end.
Proof.
  destruct (IndexByte nm "=") as [i|] eqn:Ei.
  - apply IndexByte_Some in Ei as (s1 & s2 & -> & _ & Hn). change (String "=" s2) with ("=" +:+ s2).
    rewrite cut_equals_some by done. intros [= <- <-] Hb. split; [|done]. split; [|done].
    destruct s1; [by simpl in Hb|done].
  - rewrite cut_equals_none by done. intros [= <- <-] Hb. by rewrite str_app_nil_r.
Qed.

Lemma spell_parse fs g old fs' args :
  good_name g.(gv_name) -> fs !! g.(gv_name) = Some old ->
  Flag.assign fs g.(gv_name) old g.(gv_text) = Ok fs' ->
  Flag.Parse fs (spell g ++ args) = Flag.Parse fs' args.
Proof.
  destruct g as [double equals name text]; cbn [gv_double gv_equals gv_name gv_text spell].
  intros [Hb Hn] Hl Ha. unfold spell. cbn [gv_double gv_equals gv_name gv_text].
  destruct equals; cbn [app Flag.Parse].
  - rewrite str_app_assoc, classify_dashed by by apply bad_name_cons.
    rewrite (bad_name_cons _ _ Hb), cut_equals_some by done. by rewrite Hl, Ha.
  - rewrite classify_dashed, Hb, cut_equals_none by done. by rewrite Hl, Ha.
Qed.

Lemma Parse_complete l fs fs' tail rest :
  Forall (fun g => good_name g.(gv_name)) l -> assign_all fs l = Some fs' -> ends tail rest ->
  Flag.Parse fs (spell_all l ++ tail) = Ok (fs', rest).
Proof.
  intros Hg. revert fs. induction Hg as [|g l Hg _ IH]; intros fs Ha He.
  - injection Ha as ->. destruct He as [|s rest Hs|]; [done| |done]. simpl. by rewrite Hs.
  - simpl in Ha. destruct (fs !! g.(gv_name)) as [old|] eqn:El; [|done].
    destruct (Flag.Set_ old g.(gv_text)) as [v|e] eqn:Es; [|done].
    unfold spell_all. cbn [map concat]. rewrite <- (app_assoc (spell g)), (spell_parse fs g old (<[g.(gv_name) := v]> fs)); [by apply IH|done|done|].
    unfold Flag.assign. by rewrite Es.
Qed.

Lemma Parse_sound fs args fs' rest :
  Flag.Parse fs args = Ok (fs', rest) ->
  exists l tail, args = spell_all l ++ tail /\ Forall (fun g => good_name g.(gv_name)) l /\
    assign_all fs l = Some fs' /\ ends tail rest.
Proof.
  remember (length args) as n eqn:Hlen. revert fs args Hlen.
  induction (lt_wf n) as [n _ IH]. intros fs [|s args] ->; cbn [Flag.Parse].
  { intros [= <- <-]. exists [], []. repeat constructor. }
  destruct (Flag.classify s) as [| |nm] eqn:Ec.
  { intros [= <- <-]. exists [], (s :: args). repeat constructor. done. }
  { intros [= <- <-]. exists [], (s :: args). repeat constructor.
    destruct s as [|a [|c t]]; [done..|]. cbn [Flag.classify] in Ec.
    destruct (Ascii.eqb_spec a "-") as [->|]; [|done]. cbn [negb] in Ec.
    destruct (Ascii.eqb_spec c "-") as [->|]; [|done].
    destruct (String.eqb_spec t "") as [->|]; [constructor|done]. }
  destruct (Flag.bad_name nm) eqn:Eb; [done|].
  destruct (Flag.cut_equals nm) as [name given] eqn:Ee.
  destruct (cut_equals_inv _ _ _ Ee Eb) as [Hg Hnm]. destruct (named_inv _ _ Ec) as [double Hs].
  destruct (fs !! name) as [old|] eqn:El; [|by destruct (_ || _)].
  assert (Hstep : forall text fs1 args1 equals,
    Flag.assign fs name old text = Ok fs1 -> s :: args = spell (mkGiven double equals name text) ++ args1 ->
    Flag.Parse fs1 args1 = Ok (fs', rest) -> (length args1 < length (s :: args))%nat ->
    exists l tail, s :: args = spell_all l ++ tail /\ Forall (fun g => good_name g.(gv_name)) l /\
      assign_all fs l = Some fs' /\ ends tail rest).
  { intros text fs1 args1 equals Ha Hsp Hp Hlt.
    destruct (IH _ Hlt _ _ eq_refl Hp) as (l & tail & -> & Hl & Hal & He).
    exists (mkGiven double equals name text :: l), tail. split; [by rewrite Hsp, app_assoc|].
    split; [by constructor|]. split; [|done]. simpl. rewrite El. unfold Flag.assign in Ha.
    by destruct (Flag.Set_ old text) as [v|e]; [injection Ha as <-|]. }
  destruct given as [text|].
  - destruct (Flag.assign fs name old text) as [fs1|e] eqn:Ea; [|done]. intros Hp.
    refine (Hstep text fs1 args true Ea _ Hp _); [|simpl; lia]. rewrite Hs, Hnm. unfold spell; simpl. by rewrite str_app_assoc.
  - destruct args as [|text args]; [done|].
    destruct (Flag.assign fs name old text) as [fs1|e] eqn:Ea; [|done]. intros Hp.
    refine (Hstep text fs1 args false Ea _ Hp _); [|simpl; lia]. rewrite Hs, Hnm. unfold spell; simpl. by rewrite str_app_nil_r.
Qed.

(** A command line is accepted exactly when it is a list of defined flags, each in
    one of its four spellings with a value of its type, up to the end, to the first
    argument that is no flag, or to a double dash; the values are those of the
    flags, the last one of a name standing. *)
Theorem Parse_spec fs args fs' rest :
  Flag.Parse fs args = Ok (fs', rest) <->
  exists l tail, args = spell_all l ++ tail /\ Forall (fun g => good_name g.(gv_name)) l /\
    assign_all fs l = Some fs' /\ ends tail rest.
Proof.
  split; [apply Parse_sound|]. intros (l & tail & -> & Hg & Ha & He). by apply Parse_complete.
Qed.

(** The last text given to a name. *)
Fixpoint last_given (name : string) (l : list Given) : option string :=
  match l with
  | [] => None
  | g :: rest =>
      match last_given name rest with
      | Some t => Some t
      | None => if String.eqb g.(gv_name) name then Some g.(gv_text) else None
      end
  end.

(** What a flag holds afterwards. *)
Lemma assign_all_lookup l fs fs' name old :
  assign_all fs l = Some fs' -> fs !! name = Some old ->
  exists v, fs' !! name = Some v /\
    match last_given name l with
    | None => v = old
    | Some text => Flag.Set_ old text = Ok v
    end.
Proof.
  revert fs old. induction l as [|g l IH]; intros fs old; simpl.
  { intros [= <-] Hl. by exists old. }
  destruct (fs !! g.(gv_name)) as [o|] eqn:Eo; [|done].
  destruct (Flag.Set_ o g.(gv_text)) as [v1|e] eqn:Es; [|done]. intros Ha Hl.
  destruct (String.eqb_spec g.(gv_name) name) as [Heq|Hne].
  - subst name. rewrite Hl in Eo. injection Eo as <-.
    destruct (IH _ v1 Ha) as (v & Hv & Hm); [by rewrite lookup_insert_eq|]. exists v. split; [done|].
    destruct (last_given g.(gv_name) l) as [t|]; [|by subst v].
    destruct old as [s|n]; simpl in *; [by injection Es as <-|].
    destruct (Flag.ParseInt0 g.(gv_text)) as [k|]; [|done]. by injection Es as <-.
  - destruct (IH _ old Ha) as (v & Hv & Hm); [by rewrite lookup_insert_ne|]. exists v. split; [done|].
    by destruct (last_given name l).
Qed.
