(* ===== verification/Migrate.v ===== *)
(** * Schema migrations (internal/store/migrate.go)

    The database is the table of the names applied and the rest, on which SQLite
    runs a script ([exec], a parameter); a transaction works on a copy that a commit
    puts in its place.  The text of a migration is fixed once it has been released
    ([body]); a release embeds a list of names.  A statement fails as [fault] says,
    and a process killed at some statement is one where all from there on fail. *)

From stdpp Require Import base list strings relations sets.
From S2P Require Import Prelude GoStd.

Module Migrate.
Section Migrate.
Context {D : Type} (exec : string -> D -> result D) (body : string -> string) (fault : nat -> option error).

(** [db_applied]: the names in schema_migrations, when the table exists. *)
Record Database := mkDatabase { db_applied : option (list string); db_rest : D }.

(** The connection: the file, and the transaction that is open on it. *)
Record Conn := mkConn { cn_db : Database; cn_tx : option Database; cn_tick : nat }.

Definition tick (c : Conn) : Conn := mkConn c.(cn_db) c.(cn_tx) (S c.(cn_tick)).

Definition statement {A} (f : Conn -> result (A * Conn)) : M Conn (result A) := fun c =>
  match fault c.(cn_tick) with
  | Some e => (Err e, tick c)
  | None => match f c with Err e => (Err e, tick c) | Ok (a, c') => (Ok a, tick c') end
  end.

Definition create_table : M Conn (result unit) := statement (fun c =>
  Ok (tt, mkConn (mkDatabase (Some (default [] c.(cn_db).(db_applied))) c.(cn_db).(db_rest)) c.(cn_tx) c.(cn_tick))).

Definition no_such_table : error := Errorf "no such table: schema_migrations".

Definition count_applied (name : string) : M Conn (result nat) := statement (fun c =>
  match c.(cn_db).(db_applied) with
  | None => Err no_such_table
  | Some l => Ok (length (List.filter (String.eqb name) l), c)
  end).

Definition Begin : M Conn (result unit) := statement (fun c => Ok (tt, mkConn c.(cn_db) (Some c.(cn_db)) c.(cn_tick))).

Definition tx_statement (f : Database -> result Database) : M Conn (result unit) := statement (fun c =>
  match c.(cn_tx) with
  | None => Err (Sentinel "sql: transaction has already been committed or rolled back")
  | Some t => match f t with Err e => Err e | Ok t' => Ok (tt, mkConn c.(cn_db) (Some t') c.(cn_tick)) end
  end).

Definition tx_script (script : string) : M Conn (result unit) := tx_statement (fun t =>
  match exec script t.(db_rest) with Err e => Err e | Ok d => Ok (mkDatabase t.(db_applied) d) end).

Definition tx_insert (name : string) : M Conn (result unit) := tx_statement (fun t =>
  match t.(db_applied) with
  | None => Err no_such_table
  | Some l =>
      if existsb (String.eqb name) l then Err (Errorf "UNIQUE constraint failed: schema_migrations.name")
      else Ok (mkDatabase (Some (l ++ [name])) t.(db_rest))
  end).

(** What a transaction did is gone, whether or not the rollback itself is answered. *)
Definition Rollback : M Conn unit := fun c => (tt, tick (mkConn c.(cn_db) None c.(cn_tick))).

(** A commit that fails leaves nothing behind either. *)
Definition Commit : M Conn (result unit) := fun c =>
  match fault c.(cn_tick) with
  | Some e => (Err e, tick (mkConn c.(cn_db) None c.(cn_tick)))
  | None => (Ok tt, tick (mkConn (default c.(cn_db) c.(cn_tx)) None c.(cn_tick)))
  end.

Fixpoint apply_migrations (names : list string) : M Conn (result unit) :=
  match names with
  | [] => ret (Ok tt)
  | name :: rest =>
      let? count := count_applied name in
      if 0 <? count then apply_migrations rest
      else
        try? Begin in
        let! r := tx_script (body name) in
        match r with
        | Err e => do! Rollback in ret (Err (Wrap ("apply migration " +:+ name) e))
        | Ok _ =>
            let! r := tx_insert name in
            match r with
            | Err e => do! Rollback in ret (Err e)
            | Ok _ => try? Commit in apply_migrations rest
            end
        end
  end.

(** [migrations]: the names of the embedded files. *)
Definition runMigrations (migrations : list string) : M Conn (result unit) :=
  try? create_table in
  apply_migrations (sort_strings migrations).
End Migrate.
Arguments Database D : clear implicits.
Arguments Conn D : clear implicits.
End Migrate.

(** ** What a start leaves *)

Section Spec.
Import Migrate.
Context {D : Type} (exec : string -> D -> result D) (body : string -> string) (fault : nat -> option error).
Implicit Types (c : Conn D) (names : list string).

(** The scripts of [names], one after the other. *)
Fixpoint replay (names : list string) (d : D) : option D :=
  match names with
  | [] => Some d
  | name :: rest => match exec (body name) d with Ok d' => replay rest d' | Err _ => None end
  end.

Lemma replay_app l1 l2 d : replay (l1 ++ l2) d = match replay l1 d with Some d' => replay l2 d' | None => None end.
Proof. revert d. induction l1 as [|n l1 IH]; intros d; simpl; [done|]. by destruct (exec _ _). Qed.

Definition applied c : list string := default [] c.(cn_db).(db_applied).

(** Those a start would apply. *)
Definition pending names c : list string := List.filter (fun n => negb (existsb (String.eqb n) (applied c))) names.

Lemma statement_cases {A} (f : Conn D -> result (A * Conn D)) c r c' :
  statement fault f c = (r, c') ->
  (exists e, r = Err e /\ c' = tick c) \/ exists a c1, f c = Ok (a, c1) /\ r = Ok a /\ c' = tick c1.
Proof.
  unfold statement. destruct (fault _) as [e|]; [intros [= <- <-]; eauto|].
  destruct (f c) as [[a c1]|e]; intros [= <- <-]; eauto 6.
Qed.

(** One migration: all of it, or nothing. *)
Definition apply_one (name : string) : M (Conn D) (result unit) :=
  try? Begin fault in
  let! r := tx_script exec fault (body name) in
  match r with
  | Err e => do! Rollback in ret (Err (Wrap ("apply migration " +:+ name) e))
  | Ok _ =>
      let! r := tx_insert fault name in
      match r with
      | Err e => do! Rollback in ret (Err e)
      | Ok _ => Commit fault
      end
  end.

Lemma apply_one_spec name c r c' l :
  apply_one name c = (r, c') -> c.(cn_tx) = None -> c.(cn_db).(db_applied) = Some l ->
  c'.(cn_tx) = None /\
  match r with
  | Err _ => c'.(cn_db) = c.(cn_db)
  | Ok _ => exists d, exec (body name) c.(cn_db).(db_rest) = Ok d /\ c'.(cn_db) = mkDatabase (Some (l ++ [name])) d
  end.
Proof.
  unfold apply_one. intros [(e & -> & Hb)|([] & c1 & Hb & Hk)]%bind_ok_cases Htx Hl.
  { by apply statement_cases in Hb as [(? & _ & ->)|(? & ? & [= <- <-] & [=] & _)]. }
  apply statement_cases in Hb as [(? & [=] & _)|([] & c1' & [= <-] & _ & ->)].
  apply bind_inv in Hk as (q & c2 & Hs & Hk).
  apply statement_cases in Hs as [(e & -> & ->)|([] & c2' & Hf & -> & ->)]; [by injection Hk as <- <-|].
  cbn in Hf. destruct (exec _ _) as [d|e] eqn:Ee; [|done]. injection Hf as <-.
  apply bind_inv in Hk as (q & c3 & Hs & Hk).
  apply statement_cases in Hs as [(e & -> & ->)|([] & c3' & Hf & -> & ->)]; [by injection Hk as <- <-|].
  cbn in Hf. rewrite Hl in Hf. destruct (existsb _ _); [done|]. injection Hf as <-.
  unfold Commit in Hk. cbn in Hk. destruct (fault _) in Hk; injection Hk as <- <-; [done|]. by eauto.
Qed.

(** The loop, with one migration as one step. *)
Lemma apply_migrations_cons name rest c :
  apply_migrations exec body fault (name :: rest) c =
  (let? count := count_applied fault name in
   if 0 <? count then apply_migrations exec body fault rest
   else try? apply_one name in apply_migrations exec body fault rest) c.
Proof.
  cbn [apply_migrations]. unfold apply_one, bind_ok, bind, ret.
  destruct (count_applied fault name c) as [[[|k]|e] c1]; [cbn|done..].
  destruct (Begin fault c1) as [[[]|e] c2]; [|done].
  destruct (tx_script exec fault (body name) c2) as [[[]|e] c3]; [|done].
  destruct (tx_insert fault name c3) as [[[]|e] c4]; done.
Qed.

Definition missing names (l : list string) : list string := List.filter (fun n => negb (existsb (String.eqb n) l)) names.

(** What is recorded and what is missing is everything. *)
Lemma missing_all names l n : n ∈ names -> n ∈ l ++ missing (sort_strings names) l.
Proof.
  intros Hn. apply elem_of_app. destruct (existsb (String.eqb n) l) eqn:Hl.
  - left. apply existsb_elem in Hl as (x & Hx & ->%String.eqb_eq). done.
  - right. apply elem_of_filterb. rewrite Hl. split; [by apply sort_strings_elem|done].
Qed.

Lemma missing_cons name rest l :
  missing (name :: rest) l = if existsb (String.eqb name) l then missing rest l else name :: missing rest l.
Proof. unfold missing. simpl. by destruct (existsb _ _). Qed.

Lemma missing_snoc names name l : name ∉ names -> missing names (l ++ [name]) = missing names l.
Proof.
  intros Hn. unfold missing. apply filter_ext_in. intros a Ha. f_equal. rewrite existsb_app. simpl.
  destruct (String.eqb_spec a name) as [->|]; [by destruct Hn; apply list_elem_of_In|by rewrite !orb_false_r].
Qed.

Lemma count_zero name l : (0 <? length (List.filter (String.eqb name) l)) = existsb (String.eqb name) l.
Proof. induction l as [|a l IH]; simpl; [done|]. by destruct (String.eqb name a). Qed.

(** From [c] to [c'] a beginning of [todo] was applied, all of it on success. *)
Definition progress (todo l : list string) c (r : result unit) c' : Prop :=
  c'.(cn_tx) = None /\
  exists k d, c'.(cn_db) = mkDatabase (Some (l ++ take k todo)) d /\
    replay (take k todo) c.(cn_db).(db_rest) = Some d /\ (r = Ok tt -> take k todo = todo).

Lemma progress_none todo l c r c' :
  c.(cn_db).(db_applied) = Some l -> c'.(cn_tx) = None -> c'.(cn_db) = c.(cn_db) ->
  (r = Ok tt -> todo = []) -> progress todo l c r c'.
Proof.
  intros Hl Ht Hdb Hr. split; [done|]. exists 0, c.(cn_db).(db_rest). simpl. rewrite app_nil_r, Hdb.
  split; [destruct c as [[] ? ?]; simpl in *; by subst|]. split; [done|]. intros H. by rewrite Hr.
Qed.

Lemma progress_step name todo l c c1 r c' d :
  exec (body name) c.(cn_db).(db_rest) = Ok d -> c1.(cn_db) = mkDatabase (Some (l ++ [name])) d ->
  progress todo (l ++ [name]) c1 r c' -> progress (name :: todo) l c r c'.
Proof.
  intros Hx Hc1 (Ht & k & d' & Hdb & Hr & Hok). split; [done|]. exists (S k), d'. simpl.
  rewrite Hc1 in Hr. simpl in Hr. rewrite Hx, Hdb, <- app_assoc. split; [done|]. split; [done|].
  intros H. by rewrite Hok.
Qed.

(** The run applies a beginning of what is missing, all of it when it succeeds. *)
Lemma apply_migrations_spec names c r c' l :
  apply_migrations exec body fault names c = (r, c') -> NoDup names ->
  c.(cn_tx) = None -> c.(cn_db).(db_applied) = Some l -> progress (missing names l) l c r c'.
Proof.
  revert c l. induction names as [|name rest IH]; intros c l Hrun Hnd Htx Hl.
  { injection Hrun as <- <-. by apply progress_none. }
  apply NoDup_cons in Hnd as [Hni Hnd]. rewrite apply_migrations_cons in Hrun. rewrite missing_cons.
  apply bind_ok_cases in Hrun as [(e & -> & Hc)|(n & c1 & Hc & Hrun)].
  { apply statement_cases in Hc as [(? & _ & ->)|(? & ? & _ & [=] & _)]. by apply progress_none. }
  apply statement_cases in Hc as [(? & [=] & _)|(? & c0 & Hf & [= ->] & ->)]. rewrite Hl in Hf.
  injection Hf as <- <-. rewrite count_zero in Hrun. destruct (existsb (String.eqb name) l).
  { exact (IH _ _ Hrun Hnd Htx Hl). }
  apply bind_ok_cases in Hrun as [(e & -> & Ho)|([] & c2 & Ho & Hrun)].
  { apply (apply_one_spec name _ _ _ l) in Ho as [Ht Hdb]; [|done..]. by apply progress_none. }
  apply (apply_one_spec name _ _ _ l) in Ho as (Ht & d & Hx & Hdb); [|done..].
  eapply progress_step; [exact Hx|exact Hdb|]. rewrite <- (missing_snoc _ name) by done.
  apply IH; [done..|]. by rewrite Hdb.
Qed.

Lemma missing_sorted names l : NoDup names -> NoDup (missing (sort_strings names) l).
Proof. intros H. apply NoDup_ListNoDup, List.NoDup_filter, NoDup_ListNoDup. by rewrite sort_strings_perm. Qed.

Lemma NoDup_take {X} k (l : list X) : NoDup l -> NoDup (take k l).
Proof. intros H. rewrite <- (take_drop k l) in H. by apply NoDup_app in H as [H _]. Qed.

Lemma elem_of_take_in {X} k (l : list X) x : x ∈ take k l -> x ∈ l.
Proof. intros H. rewrite <- (take_drop k l). apply elem_of_app. by left. Qed.

(** A start on a database whose content is the replay of its recorded names. *)
Definition consistent (d0 : D) c : Prop :=
  c.(cn_tx) = None /\ NoDup (applied c) /\ replay (applied c) d0 = Some c.(cn_db).(db_rest).

Lemma runMigrations_progress names c r c' :
  runMigrations exec body fault names c = (r, c') -> NoDup names -> c.(cn_tx) = None ->
  (c'.(cn_db) = c.(cn_db) /\ c'.(cn_tx) = None /\ r <> Ok tt) \/
  progress (missing (sort_strings names) (applied c)) (applied c) c r c'.
Proof.
  unfold runMigrations. intros [(e & -> & Hc)|([] & c1 & Hc & Hrun)]%bind_ok_cases Hnd Htx.
  { left. by apply statement_cases in Hc as [(? & _ & ->)|(? & ? & _ & [=] & _)]. }
  apply statement_cases in Hc as [(? & [=] & _)|([] & c0 & [= <-] & _ & ->)]. right.
  apply (apply_migrations_spec _ _ _ _ (applied c)) in Hrun; [exact Hrun|by rewrite sort_strings_perm|done|done].
Qed.

(** One start of the process with the migrations of its release. *)
Inductive started : Conn D -> Conn D -> Prop :=
| started_run names r c c' : NoDup names -> runMigrations exec body fault names c = (r, c') -> started c c'.

Lemma started_consistent d0 c c' : consistent d0 c -> started c c' -> consistent d0 c'.
Proof.
  intros (Htx & Hnd & Hr) Hs. destruct Hs as [names r c c' Hn Hrun].
  apply runMigrations_progress in Hrun as [(Hdb & Ht & _)|(Ht & k & d & Hdb & Hk & _)]; [| |done..].
  - unfold consistent, applied. by rewrite Hdb.
  - unfold consistent. unfold applied at 1 2. rewrite Hdb. simpl. split; [done|]. split.
    + apply NoDup_app. split; [done|]. split; [|by apply NoDup_take, missing_sorted].
      intros x Hx Hin%elem_of_take_in.
      unfold missing in Hin. apply list_elem_of_In, filter_In in Hin as [_ Hin].
      apply negb_true_iff, not_true_iff_false in Hin. apply Hin, existsb_exists. exists x.
      split; [by apply list_elem_of_In|apply String.eqb_refl].
    + by rewrite replay_app, Hr.
Qed.

(** C18. Whatever releases are started in whatever order, and wherever a start fails
    or is killed, the database holds what the migrations recorded as applied make of
    the first database, each run once and in the order of the record; a start that
    succeeds has applied everything its release embeds, in the order of the names
    and after what was there, and one that fails a beginning of that. *)
Theorem migrations_spec d0 c c' names r c2 :
  consistent d0 c -> rtc started c c' -> NoDup names ->
  runMigrations exec body fault names c' = (r, c2) ->
  consistent d0 c2 /\
  exists k, applied c2 = applied c' ++ take k (missing (sort_strings names) (applied c')) /\
    (r = Ok tt -> forall n, n ∈ names -> n ∈ applied c2).
Proof.
  intros Hc Hs Hnd Hrun.
  assert (Hc' : consistent d0 c') by (clear Hrun; induction Hs as [|x y z Hxy _ IH]; [done|by eapply IH, started_consistent]).
  split; [eapply started_consistent; [exact Hc'|by econstructor]|].
  apply runMigrations_progress in Hrun as [(Hdb & _ & Hr)|(_ & k & d & Hdb & _ & Hr)]; [| |done|by destruct Hc'].
  - exists 0. unfold applied. rewrite Hdb. simpl. by rewrite app_nil_r.
  - exists k. unfold applied at 1 4. rewrite Hdb. simpl. split; [done|]. intros Hok n Hn. rewrite (Hr Hok).
    by apply missing_all.
Qed.
End Spec.

(** ** Example: a first start that is killed, then a later release *)

Definition demo_exec (script : string) (d : list string) : result (list string) := Ok (d ++ [script]).
Definition demo_fault (n : nat) : option error := if n =? 6 then Some (Errorf "disk I/O error") else None.
Definition first_release : list string := ["0001_init.sql"; "0002_sessions.sql"].
Definition later_release : list string :=
  ["0001_init.sql"; "0002_sessions.sql"; "0003_project_unmanaged.sql"; "0010_updates_changelog_status.sql"; "0010_images_resolved_version.sql"].
Definition new_database : Migrate.Conn (list string) := Migrate.mkConn (Migrate.mkDatabase None []) None 0.
Definition killed := Migrate.runMigrations demo_exec (fun n => n) demo_fault first_release new_database.

Lemma migrations_spec_witness :
  applied killed.2 = ["0001_init.sql"] /\
  let second := Migrate.runMigrations demo_exec (fun n => n) demo_fault later_release killed.2 in
  second.1 = Ok tt /\ consistent demo_exec (fun n => n) [] second.2 /\ "0010_images_resolved_version.sql" ∈ applied second.2.
Proof.
  split; [vm_compute; reflexivity|].
  cbn zeta. destruct (Migrate.runMigrations demo_exec (fun n => n) demo_fault later_release killed.2) as [r c2] eqn:E2.
  assert (r = Ok tt) as -> by (pose proof (f_equal fst E2) as H; vm_compute in H; congruence).
  destruct (migrations_spec demo_exec (fun n => n) demo_fault [] new_database killed.2 later_release (Ok tt) c2) as (H & k & _ & Hall).
  - split; [reflexivity|]. split; [constructor|reflexivity].
  - apply rtc_once. apply (started_run _ _ _ first_release killed.1); [|vm_compute; reflexivity].
    refine (bool_decide_unpack _ _). vm_compute. exact I.
  - refine (bool_decide_unpack _ _). vm_compute. exact I.
  - exact E2.
  - split; [reflexivity|]. split; [exact H|]. apply (Hall eq_refl). unfold later_release. do 4 right. left.
Defined.
