(* ===== verification/Semver.v ===== *)
(** * Versions and image references (internal/detect: semver.go, tagclass.go,
    and the reference helpers of detect.go)

    The parsing of version cores, the ordering on them, the tag streams of the
    newer-tag scan, the pin classes of image references and [SplitRef].  The
    four regular expressions of the package are recognisers written by hand;
    they are deterministic on the languages at hand (no match of one group can
    be given up for another), which the equivalence theorems state. *)

From stdpp Require Import base list strings sets.
From Stdlib Require Import Ascii Sorted.
From S2P Require Import Prelude GoStd.

Local Open Scope Z_scope.

(** ** The version core: Go's [[3]int] *)
Definition core : Type := Z * Z * Z.

(** [v[:i]] where [i] is the first index of [c], [v] when there is none. *)
Definition cut_at (c : ascii) (v : string) : string :=
  match IndexByte v c with Some i => v.[:i] | None => v end.

Definition core_part (parts : list string) (i : nat) : option Z :=
  match parts !! i with None => Some 0 | Some p => Atoi p end.

Definition parseCore (v : string) : option core :=
  let v := TrimPrefix (TrimSpace v) "v" in
  if String.eqb v "" then None
  else
    let v := cut_at "-" (cut_at "+" v) in
    let parts := Split v "." in
    match core_part parts 0 with
    | None => None
    | Some a =>
        match core_part parts 1 with
        | None => None
        | Some b =>
            match core_part parts 2 with
            | None => None
            | Some c => Some (a, b, c)
            end
        end
    end.

Definition coreLess (a b : core) : bool :=
  let '(a0, a1, a2) := a in
  let '(b0, b1, b2) := b in
  if negb (a0 =? b0) then a0 <? b0
  else if negb (a1 =? b1) then a1 <? b1
  else if negb (a2 =? b2) then a2 <? b2
  else false.

Definition Severity (from to : string) : string :=
  match parseCore from, parseCore to with
  | Some (f0, f1, f2), Some (t0, t1, t2) =>
      if negb (f0 =? t0) then "major"
      else if negb (f1 =? t1) then "minor"
      else if negb (f2 =? t2) then "patch"
      else "digest-only"
  | _, _ => "digest-only"
  end.

(** ** The regular expressions *)

(** The longest prefix of digits, and what follows it ([\d+] when not empty). *)
Fixpoint span_digits (s : string) : string * string :=
  match s with
  | String a s' =>
      if is_digit a then let '(d, r) := span_digits s' in (String a d, r) else ("", s)
  | "" => ("", "")
  end.

(** [(?:\.\d+)?] *)
Definition dot_digits (s : string) : string * string :=
  match s with
  | String "." s' =>
      match span_digits s' with
      | ("", _) => ("", s)
      | (d, r) => (String "." d, r)
      end
  | _ => ("", s)
  end.

(** Any run of characters up to the end of the text: no newlines. *)
Definition no_newline (s : string) : bool :=
  match IndexByte s newline with None => true | Some _ => false end.

(** [(v?)] *)
Definition opt_v (s : string) : string * string :=
  match s with String "v" s' => ("v", s') | _ => ("", s) end.

(** The three groups of [streamRe]: an optional v, one to three dotted numbers,
    the rest. *)
Definition streamRe (s : string) : option (string * string * string) :=
  let '(v, r0) := opt_v s in
  match span_digits r0 with
  | ("", _) => None
  | (d1, r1) =>
      let '(d2, r2) := dot_digits r1 in
      let '(d3, r3) := if String.eqb d2 "" then ("", r2) else dot_digits r2 in
      if no_newline r3 then Some (v, d1 +:+ d2 +:+ d3, r3) else None
  end.

(** An optional v, three dotted numbers, then nothing or a suffix opened by a
    minus or a plus. *)
Definition exactSemverRe (s : string) : bool :=
  let '(_, r0) := opt_v s in
  match span_digits r0 with
  | ("", _) => false
  | (_, r1) =>
      match dot_digits r1 with
      | ("", _) => false
      | (_, r2) =>
          match dot_digits r2 with
          | ("", _) => false
          | (_, r3) =>
              match r3 with
              | "" => true
              | String c r4 => (Ascii.eqb c "-" || Ascii.eqb c "+") && no_newline r4
              end
          end
      end
  end.

Definition is_alpha (a : ascii) : bool :=
  let n := byte a in ((65 <=? n) && (n <=? 90) || (97 <=? n) && (n <=? 122))%nat.
Definition is_alnum (a : ascii) : bool := is_alpha a || is_digit a.

Fixpoint drop_alnum (s : string) : string :=
  match s with
  | String a s' => if is_alnum a then drop_alnum s' else s
  | "" => ""
  end.

(** The group of [namePrefixRe]: what follows a word and a minus, when it is an
    optional v and a digit. *)
Definition namePrefixRe (s : string) : option string :=
  match s with
  | String a s' =>
      if is_alpha a then
        match drop_alnum s' with
        | String "-" rest =>
            match (opt_v rest).2 with
            | String d _ => if is_digit d && no_newline rest then Some rest else None
            | "" => None
            end
        | _ => None
        end
      else None
  | "" => None
  end.

(** ** Tag streams *)

Definition tagStream (tag : string) : option (core * string) :=
  match streamRe (TrimSpace tag) with
  | None => None
  | Some (m1, m2, m3) =>
      match parseCore m2 with
      | None => None
      | Some c => Some (c, m1 +:+ m3)
      end
  end.

(** The body of the loop of [NewerSemverTag]. *)
Definition newer_step (curFlavor : string) (acc : string * core) (t : string) : string * core :=
  let '(best, bestCore) := acc in
  match tagStream t with
  | None => acc
  | Some (c, flavor) =>
      if negb (String.eqb flavor curFlavor) then acc
      else if coreLess bestCore c then (t, c) else acc
  end.

Definition NewerSemverTag (current : string) (tags : list string) : option string :=
  match tagStream current with
  | None => None
  | Some (curCore, curFlavor) =>
      let '(best, _) := fold_left (newer_step curFlavor) tags ("", curCore) in
      if String.eqb best "" then None else Some best
  end.

(** The tags [semverTagsDesc] keeps, with their cores. *)
Definition stable_tag (t : string) : option (string * core) :=
  if negb (exactSemverRe t) || ContainsAny t "-+" then None
  else match parseCore t with None => None | Some c => Some (t, c) end.

Definition newest_first (x y : string * core) : bool := coreLess y.2 x.2.

Definition semverTagsDesc {S : SliceSort} (tags : list string) : list string :=
  map fst (slice_sort newest_first (omap stable_tag tags)).

Definition StripNamePrefix (s : string) : string :=
  match namePrefixRe (TrimSpace s) with
  | Some m => m
  | None => s
  end.

(** ** Image references *)

Definition SplitRef (ref : string) : string * string :=
  let ref := cut_at "@" ref in
  match LastIndexByte ref ":" with
  | Some colon =>
      if Contains (ref.[(S colon):]) "/" then (ref, "latest")
      else (ref.[:colon], ref.[(S colon):])
  | None => (ref, "latest")
  end.

Inductive TagClass := TagFloating | TagExact | TagDigest.

#[export] Instance TagClass_eq_dec : EqDecision TagClass.
Proof. solve_decision. Defined.

Definition ClassifyTag (ref : string) : TagClass :=
  if Contains ref "@sha256:" then TagDigest
  else let '(_, tag) := SplitRef ref in
       if exactSemverRe tag then TagExact else TagFloating.

(** ** The helpers of the detector that only read strings *)

Definition semverOrEmpty (v : string) : string :=
  match parseCore v with Some _ => v | None => "" end.

Definition semverTagPref (label : string) : string :=
  if exactSemverRe label then label else "".

Definition core_eqb (a b : core) : bool := bool_decide (a = b).

(** Go's zero value of [[3]int] when the digest tag does not parse. *)
Definition core_or_zero (o : option core) : core := default (0, 0, 0) o.

Definition preferDigestTag (digestTag label : string) : bool :=
  match parseCore (StripNamePrefix label) with
  | None => true
  | Some lc => negb (core_eqb lc (core_or_zero (parseCore digestTag)))
  end.

(** ** The ordering of cores *)

Lemma coreLess_spec a b :
  coreLess a b = true <->
  let '(a0, a1, a2) := a in let '(b0, b1, b2) := b in
  a0 < b0 \/ (a0 = b0 /\ (a1 < b1 \/ (a1 = b1 /\ a2 < b2))).
Proof.
  destruct a as [[a0 a1] a2], b as [[b0 b1] b2]. unfold coreLess.
  repeat match goal with |- context [negb (?x =? ?y)] => destruct (Z.eqb_spec x y); simpl end;
    rewrite ?Z.ltb_lt; split; intros; try done; lia.
Qed.

Ltac core_lia :=
  repeat match goal with c : core |- _ => destruct c as [[? ?] ?] end;
  repeat match goal with
         | H : coreLess _ _ = true |- _ => apply coreLess_spec in H
         | H : coreLess _ _ = false |- _ =>
             apply not_true_iff_false in H; rewrite coreLess_spec in H
         | |- coreLess _ _ = true => apply coreLess_spec
         | |- coreLess _ _ = false => apply not_true_iff_false; rewrite coreLess_spec
         end; simpl in *; try lia.

#[export] Instance coreLess_weak : StrictWeak coreLess.
Proof.
  split.
  - intros x. core_lia.
  - intros x y z ? ?. core_lia.
  - intros x y z ?. destruct (coreLess x y) eqn:E; [auto|right]. core_lia.
Qed.

Lemma coreLess_trichotomy a b : coreLess a b = true \/ a = b \/ coreLess b a = true.
Proof.
  destruct (coreLess a b) eqn:E1; [auto|]. destruct (coreLess b a) eqn:E2; [auto|].
  right; left. core_lia. f_equal; [f_equal|]; lia.
Qed.

#[export] Instance newest_first_weak : StrictWeak newest_first.
Proof.
  split; unfold newest_first.
  - intros x. apply (less_irrefl coreLess).
  - intros x y z Hxy Hyz. by eapply (less_trans coreLess).
  - intros x y z Hxz. destruct (less_cotrans coreLess z.2 y.2 x.2 Hxz); auto.
Qed.

(** ** The newer-tag scan *)

Lemma tagStream_empty : tagStream "" = None.
Proof. done. Qed.

(** The state of the scan after the tags [seen]. *)
Record scan_inv (curCore : core) (flavor : string) (seen : list string)
    (best : string) (bestCore : core) : Prop := {
  scan_best : best = "" /\ bestCore = curCore \/
              best ∈ seen /\ tagStream best = Some (bestCore, flavor) /\
              coreLess curCore bestCore = true;
  scan_max t c : t ∈ seen -> tagStream t = Some (c, flavor) -> coreLess bestCore c = false;
}.

Lemma scan_inv_step curCore flavor seen best bestCore t :
  scan_inv curCore flavor seen best bestCore ->
  let '(best', bestCore') := newer_step flavor (best, bestCore) t in
  scan_inv curCore flavor (seen ++ [t]) best' bestCore'.
Proof.
  intros [Hb Hm]. unfold newer_step.
  assert (Hskip : (forall c, tagStream t = Some (c, flavor) -> coreLess bestCore c = false) ->
                  scan_inv curCore flavor (seen ++ [t]) best bestCore).
  { intros Ht. split; [set_solver|]. intros t' c' [Hin| ->%list_elem_of_singleton]%elem_of_app; eauto. }
  destruct (tagStream t) as [[c fl]|] eqn:E; [|by apply Hskip].
  destruct (String.eqb_spec fl flavor) as [->|Hne]; simpl; [|apply Hskip; congruence].
  destruct (coreLess bestCore c) eqn:El; [|apply Hskip; congruence].
  split.
  - right. repeat split; [set_solver|done|].
    destruct Hb as [[_ ->]|(_ & _ & Hc)]; [done|]. by eapply (less_trans coreLess).
  - intros t' c' [Hin| ->%list_elem_of_singleton]%elem_of_app Ht'.
    + specialize (Hm t' c' Hin Ht'). core_lia.
    + rewrite E in Ht'. injection Ht' as <-. apply (less_irrefl coreLess).
Qed.

Lemma scan_inv_fold curCore flavor tags seen best bestCore :
  scan_inv curCore flavor seen best bestCore ->
  let '(best', bestCore') := fold_left (newer_step flavor) tags (best, bestCore) in
  scan_inv curCore flavor (seen ++ tags) best' bestCore'.
Proof.
  revert seen best bestCore. induction tags as [|t tags IH]; intros seen best bestCore H; cbn [fold_left].
  - by rewrite app_nil_r.
  - pose proof (scan_inv_step _ _ _ _ _ t H) as H'.
    destruct (newer_step flavor (best, bestCore) t) as [b' c'].
    specialize (IH _ _ _ H'). rewrite <- app_assoc in IH. apply IH.
Qed.

(** C25. [NewerSemverTag] returns a tag of the list that is in the stream of the
    current tag (same flavor), strictly newer than it, and than which no tag of
    the stream is newer; it answers "none" exactly when the current tag has no
    core or no tag of its stream is newer. *)
Theorem NewerSemverTag_spec current tags :
  match NewerSemverTag current tags with
  | Some t =>
      exists cc fl c, tagStream current = Some (cc, fl) /\ t ∈ tags /\
        tagStream t = Some (c, fl) /\ coreLess cc c = true /\
        forall t' c', t' ∈ tags -> tagStream t' = Some (c', fl) -> coreLess c c' = false
  | None =>
      forall cc fl, tagStream current = Some (cc, fl) ->
        forall t' c', t' ∈ tags -> tagStream t' = Some (c', fl) -> coreLess cc c' = false
  end.
Proof.
  unfold NewerSemverTag. destruct (tagStream current) as [[cc fl]|] eqn:Ecur; [|done].
  assert (H0 : scan_inv cc fl [] "" cc) by (split; [by left|set_solver]).
  pose proof (scan_inv_fold cc fl tags [] "" cc H0) as H. simpl in H.
  destruct (fold_left _ tags _) as [best bc]. destruct H as [Hb Hm].
  destruct (String.eqb_spec best "") as [->|Hne].
  - destruct Hb as [[_ ->]|(_ & Ht & _)]; [|by rewrite tagStream_empty in Ht].
    intros ? ? [= <- <-]. eauto.
  - destruct Hb as [[? _]|(Hin & Ht & Hc)]; [done|]. exists cc, fl, bc. eauto 10.
Qed.

(** [semverTagsDesc] returns exactly the stable fully-specified tags of the
    list (with their multiplicities), none newer than one before it: whatever
    order [sort.Slice] leaves equal cores in. *)
Theorem semverTagsDesc_spec {S : SliceSort} tags :
  exists l : list (string * core),
    l ≡ₚ omap stable_tag tags /\
    semverTagsDesc tags = map fst l /\
    StronglySorted (fun x y => coreLess x.2 y.2 = false) l.
Proof.
  exists (slice_sort newest_first (omap stable_tag tags)). split_and!.
  - apply slice_sort_perm.
  - done.
  - apply (slice_sort_sorted newest_first), _.
Qed.

(** ** Recognisers and their languages *)

Fixpoint all_digits (s : string) : bool :=
  match s with
  | "" => true
  | String a s' => is_digit a && all_digits s'
  end.

Definition digit_head (s : string) : bool :=
  match s with String a _ => is_digit a | "" => false end.

(** [\d+] *)
Definition digits1 (s : string) : Prop := s <> "" /\ all_digits s = true.

Lemma span_digits_split s d r :
  span_digits s = (d, r) -> s = d +:+ r /\ all_digits d = true /\ digit_head r = false.
Proof.
  revert d r. induction s as [|a s IH]; intros d r; simpl; [by intros [= <- <-]|].
  destruct (is_digit a) eqn:Ea.
  - destruct (span_digits s) as [d' r'] eqn:E. intros [= <- <-].
    destruct (IH _ _ eq_refl) as (-> & Hd & Hr). simpl. by rewrite Ea, Hd.
  - intros [= <- <-]. simpl. by rewrite Ea.
Qed.

Lemma span_digits_app d r :
  all_digits d = true -> digit_head r = false -> span_digits (d +:+ r) = (d, r).
Proof.
  intros Hd Hr. induction d as [|a d IH]; simpl.
  - destruct r as [|b r]; simpl in *; [done|by rewrite Hr].
  - simpl in Hd. apply andb_true_iff in Hd as [-> Hd]. by rewrite (IH Hd).
Qed.

Lemma dot_digits_split s e r :
  dot_digits s = (e, r) -> e <> "" ->
  exists d, e = String "." d /\ digits1 d /\ s = e +:+ r /\ digit_head r = false.
Proof.
  unfold dot_digits. destruct s as [|a s]; [by intros [= <- <-]|].
  destruct (ascii_dec a "."%char) as [->|Hne].
  - destruct (span_digits s) as [d r'] eqn:E. apply span_digits_split in E as (-> & Hd & Hr).
    destruct d as [|b d]; intros [= <- <-] He; [done|]. by exists (String b d).
  - intros Heq He. exfalso. apply He.
    revert Heq. destruct a as [[] [] [] [] [] [] [] []]; congruence.
Qed.

Lemma dot_digits_app d r :
  digits1 d -> digit_head r = false -> dot_digits (String "." d +:+ r) = (String "." d, r).
Proof.
  intros [Hne Hd] Hr. simpl. rewrite span_digits_app by done. by destruct d.
Qed.

Lemma opt_v_split s : exists v, s = v +:+ (opt_v s).2 /\ (opt_v s).1 = v /\ (v = "" \/ v = "v").
Proof.
  unfold opt_v. destruct s as [|a s]; [by exists ""; auto|].
  destruct (ascii_dec a "v"%char) as [->|Hne]; [by exists "v"; auto|].
  exists "". destruct a as [[] [] [] [] [] [] [] []]; auto; done.
Qed.

Lemma opt_v_digits v d r :
  v = "" \/ v = "v" -> digits1 d -> opt_v (v +:+ d +:+ r) = (v, d +:+ r).
Proof.
  intros [-> | ->] [Hne Hd]; [|done]. destruct d as [|a d]; [done|]. simpl in *.
  apply andb_true_iff in Hd as [Ha _]. unfold opt_v.
  destruct a as [[] [] [] [] [] [] [] []]; done.
Qed.

(** The suffixes of a fully-specified version: none, or a pre-release or a
    build part, on one line. *)
Definition version_suffix (suf : string) : Prop :=
  suf = "" \/ exists c t, suf = String c t /\ (c = "-"%char \/ c = "+"%char) /\ no_byte newline t.

Lemma no_newline_true s : no_newline s = true <-> no_byte newline s.
Proof. unfold no_newline, no_byte. destruct (IndexByte s newline); naive_solver. Qed.

Lemma version_suffix_head suf : version_suffix suf -> digit_head suf = false.
Proof. intros [-> | (c & t & -> & [-> | ->] & _)]; done. Qed.

(** C26. [exactSemverRe] accepts exactly the fully-specified versions: an
    optional v, three runs of digits joined by dots, and nothing or a suffix
    opened by a minus or a plus. *)
Theorem exactSemverRe_spec s :
  exactSemverRe s = true <->
  exists v d1 d2 d3 suf, s = v +:+ d1 +:+ String "." d2 +:+ String "." d3 +:+ suf /\
    (v = "" \/ v = "v") /\ digits1 d1 /\ digits1 d2 /\ digits1 d3 /\ version_suffix suf.
Proof.
  split.
  - unfold exactSemverRe. destruct (opt_v_split s) as (v & Hs & Hv & Hvv).
    destruct (opt_v s) as [v' r0]; simpl in *; subst v'.
    destruct (span_digits r0) as [d1 r1] eqn:E1.
    apply span_digits_split in E1 as (-> & Hd1 & _).
    destruct d1 as [|a1 d1]; [done|].
    destruct (dot_digits r1) as [e2 r2] eqn:E2. destruct e2 as [|a2 e2]; [done|].
    apply dot_digits_split in E2 as (d2 & -> & Hd2 & -> & _); [|done].
    destruct (dot_digits r2) as [e3 r3] eqn:E3. destruct e3 as [|a3 e3]; [done|].
    apply dot_digits_split in E3 as (d3 & -> & Hd3 & -> & _); [|done].
    intros H3. exists v, (String a1 d1), d2, d3, r3.
    split; [by rewrite Hs, ?str_app_assoc|]. repeat (split; [done|]).
    destruct r3 as [|c r3]; [by left|right].
    apply andb_true_iff in H3 as [Hc Hn]. exists c, r3.
    rewrite <- no_newline_true. split; [done|]. split; [|done].
    apply orb_true_iff in Hc. rewrite !Ascii.eqb_eq in Hc. done.
  - intros (v & d1 & d2 & d3 & suf & -> & Hv & Hd1 & Hd2 & Hd3 & Hsuf).
    unfold exactSemverRe. rewrite opt_v_digits by done.
    rewrite span_digits_app by (apply Hd1 || done).
    rewrite dot_digits_app, dot_digits_app by (done || by apply version_suffix_head).
    destruct Hd1 as [Hd1 _]. destruct d1 as [|a1 d1]; [done|].
    destruct Hsuf as [-> | (c & t & -> & Hc & Ht)]; [done|].
    rewrite (proj2 (no_newline_true t) Ht). by destruct Hc as [-> | ->].
Qed.

(** ** References *)

(** The digest part of a reference: none, or an at sign and anything. *)
Definition digest_part (s : string) : Prop := s = "" \/ exists t, s = String "@" t.

Lemma cut_at_part s d : no_byte "@" s -> digest_part d -> cut_at "@" (s +:+ d) = s.
Proof.
  intros Hs [-> | [t ->]]; unfold cut_at.
  - rewrite str_app_nil_r. unfold no_byte in Hs. by rewrite Hs.
  - by rewrite IndexByte_app, take_app.
Qed.

Lemma Contains_byte s c : Contains s (String c "") = true <-> ~ no_byte c s.
Proof.
  rewrite Contains_app. split.
  - intros (s1 & s2 & ->). rewrite no_byte_app. intros [_ H].
    change (String c "" +:+ s2) with (String c s2) in H. rewrite no_byte_cons in H. naive_solver.
  - intros H. destruct (IndexByte s c) as [n|] eqn:E; [|done].
    apply IndexByte_Some in E as (s1 & s2 & -> & _). by exists s1, s2.
Qed.

(** [SplitRef] undoes the writing of a reference: a repository and a tag
    joined by a colon, with or without a digest, split back into the two (a
    registry port in the repository is no obstacle); a reference with no tag has
    the tag "latest". *)
Theorem SplitRef_roundtrip repo tag dig :
  no_byte "@" repo -> no_byte "@" tag -> no_byte ":" tag -> no_byte "/" tag ->
  digest_part dig ->
  SplitRef (repo +:+ ":" +:+ tag +:+ dig) = (repo, tag) /\
  (no_byte ":" repo -> SplitRef (repo +:+ dig) = (repo, "latest")) /\
  (forall host path, repo = host +:+ ":" +:+ path -> no_byte ":" path -> ~ no_byte "/" path ->
     SplitRef (repo +:+ dig) = (repo, "latest")).
Proof.
  intros Hr Ht Htc Hts Hd. split_and!.
  - rewrite <- !str_app_assoc. unfold SplitRef.
    rewrite cut_at_part by (rewrite ?no_byte_app; done).
    rewrite str_app_assoc. change (":" +:+ tag) with (String ":" tag).
    rewrite LastIndexByte_app by done.
    replace (S (len repo)) with (len repo + 1)%nat by lia. rewrite drop_app_plus. simpl.
    destruct (Contains tag "/") eqn:E; [|by rewrite take_app].
    by apply Contains_byte in E.
  - intros Hc. unfold SplitRef. rewrite cut_at_part by done.
    by rewrite (proj2 (LastIndexByte_None _ _)).
  - intros host path -> Hc Hsl. unfold SplitRef. rewrite cut_at_part by done.
    change (":" +:+ path) with (String ":" path). rewrite LastIndexByte_app by done.
    replace (S (len host)) with (len host + 1)%nat by lia. rewrite drop_app_plus. simpl.
    by rewrite (proj2 (Contains_byte path "/")).
Qed.

Lemma SplitRef_roundtrip_witness :
  SplitRef "reg.example:5000/team/app:1.2.3@sha256:ab" = ("reg.example:5000/team/app", "1.2.3") /\
  SplitRef "reg.example:5000/team/app@sha256:ab" = ("reg.example:5000/team/app", "latest").
Proof.
  destruct (SplitRef_roundtrip "reg.example:5000/team/app" "1.2.3" "@sha256:ab") as (H1 & _ & H3).
  1-4: vm_compute; reflexivity.
  { right. by exists "sha256:ab". }
  split; [exact H1|]. apply (H3 "reg.example" "5000/team/app"); [done|done|].
  intros H. vm_compute in H. discriminate H.
Defined.

(** ** Bounds of the version components *)

Lemma digits_val_nonneg s acc n : 0 <= acc -> digits_val acc s = Some n -> 0 <= n.
Proof.
  revert acc. induction s as [|a s IH]; intros acc Hacc; simpl; [by intros [= <-]|].
  destruct (is_digit a) eqn:E; [|done]. apply IH.
  unfold is_digit in E. apply andb_true_iff in E as [E _]. apply Nat.leb_le in E.
  unfold digit_val. lia.
Qed.

Lemma Atoi_no_sign p n : no_byte "-" p -> Atoi p = Some n -> 0 <= n <= max_int.
Proof.
  unfold Atoi. intros Hp.
  destruct (match p with String "-" r => (true, r) | String "+" r => (false, r)
            | _ => (false, p) end) as [neg body] eqn:E.
  assert (neg = false) as ->.
  { destruct p as [|a p]; [congruence|]. apply no_byte_cons in Hp as [Hne _].
    destruct a as [[] [] [] [] [] [] [] []]; try congruence; done. }
  destruct body as [|b body]; [done|].
  destruct (digits_val 0 (String b body)) as [m|] eqn:Em; [|done].
  apply digits_val_nonneg in Em; [|lia].
  destruct (_ && _) eqn:Eb; [|done]. intros [= <-].
  apply andb_true_iff in Eb as [_ Eb]. apply Z.leb_le in Eb. lia.
Qed.

Lemma cut_at_prefix c v : exists t, v = cut_at c v +:+ t /\ no_byte c (cut_at c v).
Proof.
  unfold cut_at. destruct (IndexByte v c) as [i|] eqn:E.
  - apply IndexByte_Some in E as (s1 & s2 & -> & <- & Hn). exists (String c s2).
    by rewrite take_app.
  - exists "". by rewrite str_app_nil_r.
Qed.

Lemma core_part_bound v i n :
  no_byte "-" v -> core_part (Split v ".") i = Some n -> 0 <= n <= max_int.
Proof.
  unfold core_part. intros Hv. destruct (Split v "." !! i) as [p|] eqn:E.
  - apply Atoi_no_sign. apply list_elem_of_lookup_2 in E.
    apply elem_of_Permutation in E as [k Hk].
    assert (Hj : Join (Split v ".") "." = v) by apply Join_Split.
    assert (Hall : forall l, no_byte "-" (Join l ".") -> Forall (no_byte "-") l).
    { clear. induction l as [|s l IH]; intros H; [constructor|].
      destruct l as [|s' l]; [by repeat constructor|].
      rewrite Join_cons in H by done. rewrite !no_byte_app in H. constructor; [apply H|].
      apply IH, H. }
    rewrite <- Hj in Hv. apply Hall in Hv. rewrite Hk in Hv. by inversion Hv.
  - intros [= <-]. split; done.
Qed.

(** The components of a version core fit Go's [int] and are never
    negative: a sign cannot survive the cuts of [parseCore]. *)
Theorem parseCore_bounds v a b c :
  parseCore v = Some (a, b, c) ->
  0 <= a <= max_int /\ 0 <= b <= max_int /\ 0 <= c <= max_int.
Proof.
  unfold parseCore. destruct (String.eqb _ ""); [done|].
  generalize (TrimPrefix (TrimSpace v) "v"). intros s.
  destruct (cut_at_prefix "-" (cut_at "+" s)) as (_ & _ & Hn).
  set (w := cut_at "-" (cut_at "+" s)) in *.
  destruct (core_part _ 0) as [a'|] eqn:Ea; [|done].
  destruct (core_part _ 1) as [b'|] eqn:Eb; [|done].
  destruct (core_part _ 2) as [c'|] eqn:Ec; [|done].
  intros [= <- <- <-]. refine (conj _ (conj _ _)); by eapply core_part_bound.
Qed.

Lemma parseCore_bounds_witness :
  parseCore "v1.25.3-rc1" = Some (1, 25, 3) /\ 0 <= 25 <= max_int.
Proof.
  split; [vm_compute; reflexivity|].
  apply (parseCore_bounds "v1.25.3-rc1" 1 25 3). vm_compute. reflexivity.
Defined.
