(* ===== verification/NetUrl.v ===== *)
(** * Package net/url, as far as dockbrr uses it

    [Parse], the method [String] of a URL and [PathEscape] of the Go version the module asks
    for (1.26).  The literal between square brackets of a host is an address for
    [net/netip], a class; a second colon in a host is refused for every scheme
    (Go excepts two database schemes, whose links no caller here keeps). *)

From stdpp Require Import base list strings.
From Stdlib Require Import Ascii.
From S2P Require Import Prelude GoStd.

(** [netip.ParseAddr] on what stands between the brackets of a host: whether it
    is an IPv6 address. *)
Class NetIP := { parse_ipv6 : string -> bool }.

(** An example instance: the loopback address is one. *)
Definition loopback_only : NetIP := {| parse_ipv6 s := String.eqb s "::1" |}.

Module Url.

Inductive encoding :=
| encodePath | encodePathSegment | encodeHost | encodeZone | encodeUserPassword | encodeFragment.

#[export] Instance encoding_eq_dec : EqDecision encoding.
Proof. solve_decision. Defined.

(** ** Escapes *)

Definition ascii_letter (a : ascii) : bool :=
  let n := byte a in (65 <=? n) && (n <=? 90) || (97 <=? n) && (n <=? 122).

Definition double_quote : ascii := ascii_of_nat 34.
Definition single_quote : ascii := ascii_of_nat 39.

Definition host_mode (m : encoding) : bool := bool_decide (m = encodeHost) || bool_decide (m = encodeZone).

Definition shouldEscape (c : ascii) (m : encoding) : bool :=
  if ascii_letter c || is_digit c then false
  else if host_mode m && (one_of "!$&()*+,;=:[]<>" c || Ascii.eqb c double_quote || Ascii.eqb c single_quote)
  then false
  else if one_of "-_.~" c then false
  else if one_of "$&+,/:;=?@" c && negb (host_mode m) then
    match m with
    | encodePath => Ascii.eqb c "?"
    | encodePathSegment => one_of "/;,?" c
    | encodeUserPassword => one_of "@/?:" c
    | _ => false
    end
  else if bool_decide (m = encodeFragment) && one_of "!()*" c then false
  else true.

Definition upper_hex (n : nat) : ascii := ascii_of_nat (if n <? 10 then 48 + n else 55 + n).

Fixpoint escape (s : string) (m : encoding) : string :=
  match s with
  | "" => ""
  | String c s' =>
      if shouldEscape c m
      then String "%" (String (upper_hex (byte c / 16)) (String (upper_hex (byte c mod 16)) (escape s' m)))
      else String c (escape s' m)
  end.

Definition PathEscape (s : string) : string := escape s encodePathSegment.

Definition unhex (c : ascii) : option nat :=
  let n := byte c in
  if (48 <=? n) && (n <=? 57) then Some (n - 48)
  else if (97 <=? n) && (n <=? 102) then Some (n - 87)
  else if (65 <=? n) && (n <=? 70) then Some (n - 55)
  else None.

(** The byte [%ab] stands for, when the mode allows that escape. *)
Definition unescape_byte (a b : ascii) (m : encoding) : option ascii :=
  match unhex a, unhex b with
  | Some x, Some y =>
      let v := ascii_of_nat (16 * x + y) in
      let percent := Ascii.eqb a "2" && Ascii.eqb b "5" in
      if bool_decide (m = encodeHost) && (x <? 8) && negb percent then None
      else if bool_decide (m = encodeZone) && negb percent && negb (Ascii.eqb v " ")
              && shouldEscape v encodeHost then None
      else Some v
  | _, _ => None
  end.

(** [None] is an [EscapeError] or an [InvalidHostError]. *)
Fixpoint unescape (s : string) (m : encoding) : option string :=
  match s with
  | "" => Some ""
  | String "%" s1 =>
      match s1 with
      | String a (String b s') =>
          match unescape_byte a b m with
          | None => None
          | Some v => String v <$> unescape s' m
          end
      | _ => None
      end
  | String c s' =>
      if host_mode m && (byte c <? 128) && shouldEscape c m then None
      else String c <$> unescape s' m
  end.

Definition valid_byte (m : encoding) (c : ascii) : bool :=
  one_of "!$&()*+,;=:@[]%" c || Ascii.eqb c single_quote || negb (shouldEscape c m).

Definition str_forall (p : ascii -> bool) (s : string) : bool := forallb p (String.list_ascii_of_string s).

Definition validEncoded (s : string) (m : encoding) : bool := str_forall (valid_byte m) s.

(** ** Parsing *)

Record Userinfo := mkUserinfo { username : string; password : option string }.

Record URL := mkURL {
  Scheme : string;
  Opaque : string;
  User : option Userinfo;
  Host : string;
  Path : string;
  RawPath : string;
  OmitHost : bool;
  ForceQuery : bool;
  RawQuery : string;
  Fragment : string;
  RawFragment : string;
}.

(** [strings.Cut] for a separator of one byte; [Cut s c] is (before, after). *)
Definition Cut (s : string) (c : ascii) : string * string :=
  match IndexByte s c with Some i => (s.[:i], s.[(S i):]) | None => (s, "") end.

Definition url_error (msg : string) : error := Errorf ("parse: " +:+ msg).

Definition control_byte (c : ascii) : bool := (byte c <? 32) || (byte c =? 127).
Definition stringContainsCTLByte (s : string) : bool := negb (str_forall (fun c => negb (control_byte c)) s).

(** The scheme and the rest; an error when the text begins with a colon. *)
Fixpoint scheme_loop (raw : string) (seen s : string) : result (string * string) :=
  match s with
  | "" => Ok ("", raw)
  | String c s' =>
      if ascii_letter c then scheme_loop raw (seen +:+ String c "") s'
      else if is_digit c || one_of "+-." c then
        if String.eqb seen "" then Ok ("", raw) else scheme_loop raw (seen +:+ String c "") s'
      else if Ascii.eqb c ":" then
        if String.eqb seen "" then Err (url_error "missing protocol scheme") else Ok (seen, s')
      else Ok ("", raw)
  end.
Definition getScheme (raw : string) : result (string * string) := scheme_loop raw "" raw.

Definition lower_ascii (c : ascii) : ascii :=
  let n := byte c in if (65 <=? n) && (n <=? 90) then ascii_of_nat (n + 32) else c.
Fixpoint lower_scheme (s : string) : string :=
  match s with "" => "" | String c s' => String (lower_ascii c) (lower_scheme s') end.

Definition validOptionalPort (port : string) : bool :=
  match port with
  | "" => true
  | String c s' => Ascii.eqb c ":" && str_forall is_digit s'
  end.

Definition validUserinfo (s : string) : bool :=
  str_forall (fun c => ascii_letter c || is_digit c || one_of "-._:~!$&()*+,;=%@" c || Ascii.eqb c single_quote) s.

Definition of_escape {A} (o : option A) : result A :=
  match o with Some a => Ok a | None => Err (url_error "invalid URL escape") end.

Definition and_then {A B} (r : result A) (k : A -> result B) : result B :=
  match r with Ok a => k a | Err e => Err e end.
Notation "'let^' x ':=' r 'in' k" := (and_then r (fun x => k))
  (at level 10, x name, r at level 100, k at level 200) : go_scope.
Notation "'let^' ' p ':=' r 'in' k" := (and_then r (fun x => match x with p => k end))
  (at level 10, p pattern, r at level 100, k at level 200) : go_scope.

Section Parse.
Context {N : NetIP}.

Definition parse_bracketed (host : string) (open_ : nat) : result string :=
  match LastIndexByte host "]" with
  | None => Err (url_error "missing ']' in host")
  | Some close =>
      let colonPort := host.[(S close):] in
      if negb (validOptionalPort colonPort) then Err (url_error "invalid port after host")
      else
        let^ port := of_escape (unescape colonPort encodeHost) in
        let hostname := (host.[(S open_):]).[:close - S open_] in
        let^ name :=
          match Index hostname "%25" with
          | Some z =>
              let^ a := of_escape (unescape (hostname.[:z]) encodeHost) in
              let^ b := of_escape (unescape (hostname.[z:]) encodeZone) in
              Ok (a +:+ b)
          | None => of_escape (unescape hostname encodeHost)
          end in
        if parse_ipv6 name then Ok ("[" +:+ name +:+ "]" +:+ port)
        else Err (url_error "invalid host")
  end.

Definition parseHost (host : string) : result string :=
  match LastIndexByte host "[" with
  | Some o => parse_bracketed host o
  | None =>
      match IndexByte host ":" with
      | Some i =>
          if negb (validOptionalPort (host.[i:])) then Err (url_error "invalid port after host")
          else of_escape (unescape host encodeHost)
      | None => of_escape (unescape host encodeHost)
      end
  end.

Definition parse_userinfo (s : string) : result Userinfo :=
  if negb (validUserinfo s) then Err (url_error "net/url: invalid userinfo")
  else if negb (Contains s ":") then
    let^ u := of_escape (unescape s encodeUserPassword) in Ok (mkUserinfo u None)
  else
    let '(u, p) := Cut s ":" in
    let^ u := of_escape (unescape u encodeUserPassword) in
    let^ p := of_escape (unescape p encodeUserPassword) in
    Ok (mkUserinfo u (Some p)).

Definition parseAuthority (authority : string) : result (option Userinfo * string) :=
  match LastIndexByte authority "@" with
  | None => let^ h := parseHost authority in Ok (None, h)
  | Some i =>
      let^ h := parseHost (authority.[(S i):]) in
      let^ u := parse_userinfo (authority.[:i]) in
      Ok (Some u, h)
  end.

(** What [setPath] and [setFragment] keep of [p]: the decoded text, and [p]
    itself when it is not its canonical form. *)
Definition decoded (p : string) (m : encoding) : result (string * string) :=
  let^ d := of_escape (unescape p m) in
  Ok (d, if String.eqb (escape d m) p then "" else p).

Definition split_query (rest : string) : bool * string * string :=
  if HasSuffix rest "?" && (CountByte rest "?" =? 1) then (true, "", TrimSuffix rest "?")
  else let '(r, q) := Cut rest "?" in (false, q, r).

(** [parse(rawURL, false)]. *)
Definition parse (raw : string) : result URL :=
  if stringContainsCTLByte raw then Err (url_error "net/url: invalid control character in URL")
  else if String.eqb raw "*" then Ok (mkURL "" "" None "" "*" "" false false "" "" "")
  else
    let^ '(scheme, rest) := getScheme raw in
    let scheme := lower_scheme scheme in
    let '(force, query, rest) := split_query rest in
    if negb (HasPrefix rest "/") && negb (String.eqb scheme "")
    then Ok (mkURL scheme rest None "" "" "" false force query "" "")
    else if negb (HasPrefix rest "/") && Contains (Cut rest "/").1 ":"
    then Err (url_error "first path segment in URL cannot contain colon")
    else
      let^ '(user, host, omit, path) :=
        if (negb (String.eqb scheme "") || negb (HasPrefix rest "///")) && HasPrefix rest "//" then
          let authority := rest.[2:] in
          let '(authority, path) := match IndexByte authority "/" with
                                    | Some i => (authority.[:i], authority.[i:])
                                    | None => (authority, "")
                                    end in
          let^ '(user, host) := parseAuthority authority in Ok (user, host, false, path)
        else Ok (None, "", negb (String.eqb scheme "") && HasPrefix rest "/", rest) in
      let^ '(p, rp) := decoded path encodePath in
      Ok (mkURL scheme "" user host p rp omit force query "" "").

Definition with_fragment (u : URL) (f rf : string) : URL :=
  mkURL u.(Scheme) u.(Opaque) u.(User) u.(Host) u.(Path) u.(RawPath) u.(OmitHost) u.(ForceQuery)
    u.(RawQuery) f rf.

Definition Parse (raw : string) : result URL :=
  let '(u, frag) := Cut raw "#" in
  let^ url := parse u in
  if String.eqb frag "" then Ok url
  else let^ '(f, rf) := decoded frag encodeFragment in Ok (with_fragment url f rf).

End Parse.

(** ** Printing *)

(** [EscapedPath] and [EscapedFragment]. *)
Definition escaped (text raw : string) (m : encoding) : string :=
  if negb (String.eqb raw "") && validEncoded raw m && bool_decide (unescape raw m = Some text) then raw
  else if String.eqb text "*" && bool_decide (m = encodePath) then "*"
  else escape text m.

Definition userinfo_String (u : Userinfo) : string :=
  escape u.(username) encodeUserPassword
  +:+ match u.(password) with Some p => ":" +:+ escape p encodeUserPassword | None => "" end.

Definition is_some {A} (o : option A) : bool := match o with Some _ => true | None => false end.

Definition authority_String (u : URL) : string :=
  let h := negb (String.eqb u.(Host) "") in
  if negb (String.eqb u.(Scheme) "") || h || is_some u.(User) then
    if u.(OmitHost) && negb h && negb (is_some u.(User)) then ""
    else (if h || negb (String.eqb u.(Path) "") || is_some u.(User) then "//" else "")
         +:+ match u.(User) with Some ui => userinfo_String ui +:+ "@" | None => "" end
         +:+ (if h then escape u.(Host) encodeHost else "")
  else "".

Definition URL_String (u : URL) : string :=
  let front := if String.eqb u.(Scheme) "" then "" else u.(Scheme) +:+ ":" in
  let body :=
    if negb (String.eqb u.(Opaque) "") then u.(Opaque)
    else
      let auth := authority_String u in
      let path := escaped u.(Path) u.(RawPath) encodePath in
      auth
      +:+ (if negb (String.eqb path "") && negb (HasPrefix path "/") && negb (String.eqb u.(Host) "")
           then "/" else "")
      +:+ (if String.eqb (front +:+ auth) "" && Contains (Cut path "/").1 ":" then "./" else "")
      +:+ path in
  front +:+ body
  +:+ (if u.(ForceQuery) || negb (String.eqb u.(RawQuery) "") then "?" +:+ u.(RawQuery) else "")
  +:+ (if String.eqb u.(Fragment) "" then "" else "#" +:+ escaped u.(Fragment) u.(RawFragment) encodeFragment).

(** ** What the callers rely on *)

(** A URL with a host is not opaque, so it prints as scheme, two slashes, the
    rest. *)
Lemma Parse_host {N : NetIP} raw u : Parse raw = Ok u -> u.(Host) <> "" -> u.(Opaque) = "".
Proof.
  assert (Hp : forall r v, parse r = Ok v -> v.(Host) <> "" -> v.(Opaque) = "").
  { intros r v. unfold parse. destruct (stringContainsCTLByte r); [done|].
    destruct (String.eqb r "*"); [by intros [= <-]|].
    destruct (getScheme r) as [[sc rest]|e]; [|done]. cbn [and_then].
    destruct (split_query rest) as [[fo q] rest2].
    destruct (negb (HasPrefix rest2 "/") && negb (String.eqb (lower_scheme sc) "")).
    { by intros [= <-]. }
    destruct (negb _ && Contains _ ":"); [done|].
    match goal with |- and_then ?x _ = _ -> _ => destruct x as [[[[us ho] om] pa]|e] end; [|done]. cbn [and_then].
    destruct (decoded pa encodePath) as [[p rp]|e]; [|done]. by intros [= <-]. }
  unfold Parse. destruct (Cut raw "#") as [t frag]. destruct (parse t) as [v|e] eqn:E; [|done]. cbn [and_then].
  destruct (String.eqb frag ""); [intros [= <-]; by apply (Hp t v E)|].
  destruct (decoded frag encodeFragment) as [[f rf]|e]; [|done]. intros [= <-]. simpl. intros Hh. by apply (Hp t v E).
Qed.

Lemma String_host u :
  u.(Opaque) = "" -> u.(Host) <> "" -> u.(Scheme) <> "" ->
  exists rest, URL_String u = u.(Scheme) +:+ "://" +:+ rest.
Proof.
  intros Ho Hh Hs. unfold URL_String, authority_String.
  apply String.eqb_neq in Hh as ->. apply String.eqb_neq in Hs as ->. rewrite Ho. simpl.
  rewrite andb_false_r. simpl. rewrite !str_app_assoc. simpl. eexists. done.
Qed.

Example parse_1 : URL_String <$> match @Parse loopback_only "HTTPS://github.com/a%2Fb/c d?x=1#é" with Ok u => Some u | _ => None end
  = Some "https://github.com/a/b/c%20d?x=1#%C3%A9".
Proof. vm_compute. reflexivity. Qed.
Example parse_2 : Scheme <$> match @Parse loopback_only "javascript:alert(1)" with Ok u => Some u | _ => None end = Some "javascript".
Proof. vm_compute. reflexivity. Qed.
Example parse_3 : (fun u => (Host u, Path u)) <$> match @Parse loopback_only "https://u:p@[::1]:80/x/" with Ok u => Some u | _ => None end = Some ("[::1]:80", "/x/").
Proof. vm_compute. reflexivity. Qed.
Example parse_4 : is_ok (@Parse loopback_only "http://a:1:2/") = false.
Proof. vm_compute. reflexivity. Qed.

End Url.
