(* ===== verification/Db.v ===== *)
(** * The database schema (internal/store: migrations, row types)

    A table is the list of its rows, in the order of their ids, with the
    AUTOINCREMENT counter; NULL is [None], a TIMESTAMP column holds seconds when
    the database writes it and nanoseconds when it holds a time of the process (the
    expiry of a session), and a column of JSON text holds the value it encodes.  A [stmt] is one SQL
    statement: it is given CURRENT_TIMESTAMP, and a failing one (a violated
    UNIQUE or REFERENCES clause) has no database to return, so it changes
    nothing. *)

From stdpp Require Import base list strings.
From S2P Require Import Prelude GoStd.

Local Open Scope Z_scope.

(** ** Row types *)

Record Update := mkUpdate {
  up_ID : Z;
  up_ServiceID : Z;
  up_FromDigest : string;
  up_ToDigest : string;
  up_FromVersion : string;
  up_ToVersion : string;
  up_Tag : string;
  up_Severity : string;
  up_ChangelogURL : string;
  up_ChangelogText : string;
  up_ChangelogStatus : string;
  up_Status : string;
  up_DetectedAt : Z;
  up_AppliedAt : option Z;
}.

Record Job := mkJob {
  job_ID : Z;
  job_Type : string;
  job_ProjectID : option Z;
  job_ServiceID : option Z;
  job_Status : string;
  job_Scope : string;
  job_RequestedBy : string;
  job_CreatedAt : Z;
  job_StartedAt : option Z;
  job_FinishedAt : option Z;
  job_ExitCode : option Z;
  job_Error : string;
}.

Record JobLog := mkJobLog {
  log_ID : Z;
  log_JobID : Z;
  log_Stream : string;
  log_Line : string;
  log_TS : Z;
}.

Record Service := mkService {
  sv_ID : Z;
  sv_ProjectID : Z;
  sv_Name : string;
  sv_ContainerIDs : list string;
  sv_ImageRef : string;
  sv_CurrentDigest : string;
  sv_CurrentImageID : string;
  sv_ImageVersion : string;
  sv_Pinned : bool;
  sv_Drifted : bool;
  sv_State : string;
  sv_GoneSince : option Z;
  sv_Healthcheck : bool;
  sv_ImageLocal : bool;
  sv_AutoUpdateEnabled : option bool;
  sv_UpdatedAt : Z;
}.

Record Project := mkProject {
  pr_ID : Z;
  pr_HostID : Z;
  pr_Kind : string;
  pr_Name : string;
  pr_WorkingDir : string;
  pr_ConfigFiles : list string;
  pr_Source : string;
  pr_AutoUpdateEnabled : bool;
  pr_UpdatePolicy : string;
  pr_Unmanaged : bool;
  pr_AutoNamed : bool;
  pr_LastSyncedAt : option Z;
  pr_CreatedAt : Z;
}.

Record Image := mkImage {
  img_ID : Z;
  img_Repo : string;
  img_Tag : string;
  img_Digest : string;
  img_MediaType : string;
  img_OS : string;
  img_Arch : string;
  img_Size : Z;
  img_BuiltAt : option Z;
  img_Labels : string;
  img_SourceURL : string;
  img_Revision : string;
  img_ResolvedVersion : string;
  img_VersionResolved : bool;
}.

Record RemoteState := mkRemoteState {
  rs_Repo : string;
  rs_Tag : string;
  rs_RemoteDigest : string;
  rs_ResolvedAt : option Z;
  rs_ManifestLabels : string;
  rs_Status : string;
}.

Record TagDigest := mkTagDigest {
  td_Repo : string;
  td_Tag : string;
  td_Digest : string;
}.

(** [sn_ComposeBlob]: the JSON object with the path and the content of the
    compose file before the edit. *)
Record Snapshot := mkSnapshot {
  sn_ID : Z;
  sn_ServiceID : Z;
  sn_JobID : option Z;
  sn_PrevRepo : string;
  sn_PrevDigest : string;
  sn_PrevImageID : string;
  sn_PrevContainerInspect : string;
  sn_ComposeFileHash : string;
  sn_ComposeBlob : option (string * string);
  sn_CreatedAt : Z;
}.

Record Event := mkEvent {
  ev_ID : Z;
  ev_ServiceID : Z;
  ev_Kind : string;
  ev_RefJobID : option Z;
  ev_FromDigest : string;
  ev_ToDigest : string;
  ev_Message : string;
  ev_CreatedAt : Z;
  ev_ChangelogURL : string;
  ev_ChangelogText : string;
}.

(** [se_ExpiresAt] is compared by the Go code, with nanoseconds. *)
Record Session := mkSession {
  se_TokenHash : string;
  se_UserID : Z;
  se_CSRFToken : string;
  se_CreatedAt : Z;
  se_ExpiresAt : Z;
}.

Record User := mkUser {
  us_ID : Z;
  us_Username : string;
  us_PasswordHash : string;
  us_CreatedAt : Z;
}.

(** With the sealed secret, which [Credentials.List] leaves out. *)
Record Credential := mkCredential {
  cr_ID : Z;
  cr_RegistryHost : string;
  cr_Username : string;
  cr_Secret : string;
  cr_CreatedAt : Z;
}.

Record ChangelogRepo := mkChangelogRepo {
  cl_ImageRepo : string;
  cl_Owner : string;
  cl_Name : string;
  cl_ResolvedAt : Z;
}.

(** ** The tables *)

Record table (A : Type) := mkTable { rows : list A; seq : Z }.
Arguments mkTable {A} rows seq.
Arguments rows {A} t.
Arguments seq {A} t.

Definition empty_table {A} : table A := mkTable [] 0.

Record db := mkDb {
  updates : table Update;
  jobs : table Job;
  job_logs : table JobLog;
  services : table Service;
  projects : table Project;
  images : table Image;
  remote_states : list RemoteState;
  tag_digests : list TagDigest;
  snapshots : table Snapshot;
  events : table Event;
  settings : list (string * string);
  sessions : list Session;
  users : table User;
  credentials : table Credential;
  changelog_repos : list ChangelogRepo;
}.

(** The schema right after the migrations: one host (id 1), nothing else. *)
Definition empty_db : db :=
  mkDb empty_table empty_table empty_table empty_table empty_table empty_table [] []
       empty_table empty_table [] [] empty_table empty_table [].

Definition with_updates t d := mkDb t d.(jobs) d.(job_logs) d.(services) d.(projects) d.(images)
  d.(remote_states) d.(tag_digests) d.(snapshots) d.(events) d.(settings) d.(sessions) d.(users)
  d.(credentials) d.(changelog_repos).
Definition with_jobs t d := mkDb d.(updates) t d.(job_logs) d.(services) d.(projects) d.(images)
  d.(remote_states) d.(tag_digests) d.(snapshots) d.(events) d.(settings) d.(sessions) d.(users)
  d.(credentials) d.(changelog_repos).
Definition with_job_logs t d := mkDb d.(updates) d.(jobs) t d.(services) d.(projects) d.(images)
  d.(remote_states) d.(tag_digests) d.(snapshots) d.(events) d.(settings) d.(sessions) d.(users)
  d.(credentials) d.(changelog_repos).
Definition with_services t d := mkDb d.(updates) d.(jobs) d.(job_logs) t d.(projects) d.(images)
  d.(remote_states) d.(tag_digests) d.(snapshots) d.(events) d.(settings) d.(sessions) d.(users)
  d.(credentials) d.(changelog_repos).
Definition with_projects t d := mkDb d.(updates) d.(jobs) d.(job_logs) d.(services) t d.(images)
  d.(remote_states) d.(tag_digests) d.(snapshots) d.(events) d.(settings) d.(sessions) d.(users)
  d.(credentials) d.(changelog_repos).
Definition with_images t d := mkDb d.(updates) d.(jobs) d.(job_logs) d.(services) d.(projects) t
  d.(remote_states) d.(tag_digests) d.(snapshots) d.(events) d.(settings) d.(sessions) d.(users)
  d.(credentials) d.(changelog_repos).
Definition with_remote_states t d := mkDb d.(updates) d.(jobs) d.(job_logs) d.(services) d.(projects)
  d.(images) t d.(tag_digests) d.(snapshots) d.(events) d.(settings) d.(sessions) d.(users)
  d.(credentials) d.(changelog_repos).
Definition with_tag_digests t d := mkDb d.(updates) d.(jobs) d.(job_logs) d.(services) d.(projects)
  d.(images) d.(remote_states) t d.(snapshots) d.(events) d.(settings) d.(sessions) d.(users)
  d.(credentials) d.(changelog_repos).
Definition with_snapshots t d := mkDb d.(updates) d.(jobs) d.(job_logs) d.(services) d.(projects)
  d.(images) d.(remote_states) d.(tag_digests) t d.(events) d.(settings) d.(sessions) d.(users)
  d.(credentials) d.(changelog_repos).
Definition with_events t d := mkDb d.(updates) d.(jobs) d.(job_logs) d.(services) d.(projects)
  d.(images) d.(remote_states) d.(tag_digests) d.(snapshots) t d.(settings) d.(sessions) d.(users)
  d.(credentials) d.(changelog_repos).
Definition with_settings t d := mkDb d.(updates) d.(jobs) d.(job_logs) d.(services) d.(projects)
  d.(images) d.(remote_states) d.(tag_digests) d.(snapshots) d.(events) t d.(sessions) d.(users)
  d.(credentials) d.(changelog_repos).
Definition with_sessions t d := mkDb d.(updates) d.(jobs) d.(job_logs) d.(services) d.(projects)
  d.(images) d.(remote_states) d.(tag_digests) d.(snapshots) d.(events) d.(settings) t d.(users)
  d.(credentials) d.(changelog_repos).
Definition with_users t d := mkDb d.(updates) d.(jobs) d.(job_logs) d.(services) d.(projects)
  d.(images) d.(remote_states) d.(tag_digests) d.(snapshots) d.(events) d.(settings) d.(sessions) t
  d.(credentials) d.(changelog_repos).
Definition with_credentials t d := mkDb d.(updates) d.(jobs) d.(job_logs) d.(services) d.(projects)
  d.(images) d.(remote_states) d.(tag_digests) d.(snapshots) d.(events) d.(settings) d.(sessions)
  d.(users) t d.(changelog_repos).
Definition with_changelog_repos t d := mkDb d.(updates) d.(jobs) d.(job_logs) d.(services) d.(projects)
  d.(images) d.(remote_states) d.(tag_digests) d.(snapshots) d.(events) d.(settings) d.(sessions)
  d.(users) d.(credentials) t.

(** ** Statements *)

Definition stmt (A : Type) : Type := Z -> db -> result (A * db).

(** A SELECT. *)
Definition query {A} (f : db -> A) : stmt A := fun _ d => Ok (f d, d).

Definition ErrNoRows : error := Sentinel "sql: no rows in result set".
Definition ErrUnique : error := Errorf "UNIQUE constraint failed".
Definition ErrForeignKey : error := Errorf "FOREIGN KEY constraint failed".

(** The next rowid.  An id is never given twice, even after a DELETE. *)
Definition next_id {A} (t : table A) : Z := t.(seq) + 1.

Definition insert_row {A} (a : A) (t : table A) : table A :=
  mkTable (t.(rows) ++ [a]) (next_id t).

Definition update_rows {A} (p : A -> bool) (g : A -> A) (t : table A) : table A :=
  mkTable (update_where p g t.(rows)) t.(seq).

Definition delete_rows {A} (p : A -> bool) (t : table A) : table A :=
  mkTable (List.filter (fun a => negb (p a)) t.(rows)) t.(seq).

(** Does a row with this id exist (a REFERENCES clause)? *)
Definition has_id {A} (id : A -> Z) (t : table A) (k : Z) : bool :=
  existsb (fun a => id a =? k) t.(rows).

Definition has_id_opt {A} (id : A -> Z) (t : table A) (k : option Z) : bool :=
  match k with None => true | Some k => has_id id t k end.

Definition opt_Zeqb (o : option Z) (k : Z) : bool :=
  match o with Some x => x =? k | None => false end.

(** [ORDER BY ... LIMIT 1]: the first row of the ordered ones. *)
Definition first_by {A} (less : A -> A -> bool) (l : list A) : option A := head (sort_stable less l).

(** *** ON DELETE clauses *)

Definition one_of_ids (ids : list Z) (k : Z) : bool := existsb (Z.eqb k) ids.
Definition one_of_ids_opt (ids : list Z) (o : option Z) : bool :=
  match o with Some k => one_of_ids ids k | None => false end.

(** Rows of [jobs] are deleted: their logs go, references become NULL. *)
Definition delete_jobs (p : Job -> bool) (d : db) : db :=
  let gone := map job_ID (List.filter p d.(jobs).(rows)) in
  let clear_snap s := mkSnapshot s.(sn_ID) s.(sn_ServiceID) None s.(sn_PrevRepo) s.(sn_PrevDigest)
                        s.(sn_PrevImageID) s.(sn_PrevContainerInspect) s.(sn_ComposeFileHash)
                        s.(sn_ComposeBlob) s.(sn_CreatedAt) in
  let clear_ev e := mkEvent e.(ev_ID) e.(ev_ServiceID) e.(ev_Kind) None e.(ev_FromDigest)
                      e.(ev_ToDigest) e.(ev_Message) e.(ev_CreatedAt) e.(ev_ChangelogURL)
                      e.(ev_ChangelogText) in
  with_jobs (delete_rows p d.(jobs))
  (with_job_logs (delete_rows (fun l => one_of_ids gone l.(log_JobID)) d.(job_logs))
  (with_snapshots (update_rows (fun s => one_of_ids_opt gone s.(sn_JobID)) clear_snap d.(snapshots))
  (with_events (update_rows (fun e => one_of_ids_opt gone e.(ev_RefJobID)) clear_ev d.(events)) d))).

Definition job_clear_service (j : Job) : Job :=
  mkJob j.(job_ID) j.(job_Type) j.(job_ProjectID) None j.(job_Status) j.(job_Scope)
    j.(job_RequestedBy) j.(job_CreatedAt) j.(job_StartedAt) j.(job_FinishedAt) j.(job_ExitCode)
    j.(job_Error).

Definition job_clear_project (j : Job) : Job :=
  mkJob j.(job_ID) j.(job_Type) None j.(job_ServiceID) j.(job_Status) j.(job_Scope)
    j.(job_RequestedBy) j.(job_CreatedAt) j.(job_StartedAt) j.(job_FinishedAt) j.(job_ExitCode)
    j.(job_Error).

(** Rows of [services] are deleted: their updates, snapshots and events go. *)
Definition delete_services (p : Service -> bool) (d : db) : db :=
  let gone := map sv_ID (List.filter p d.(services).(rows)) in
  with_services (delete_rows p d.(services))
  (with_updates (delete_rows (fun u => one_of_ids gone u.(up_ServiceID)) d.(updates))
  (with_snapshots (delete_rows (fun s => one_of_ids gone s.(sn_ServiceID)) d.(snapshots))
  (with_events (delete_rows (fun e => one_of_ids gone e.(ev_ServiceID)) d.(events))
  (with_jobs (update_rows (fun j => one_of_ids_opt gone j.(job_ServiceID)) job_clear_service d.(jobs)) d)))).

(** Rows of [projects] are deleted: their services go, with what they own. *)
Definition delete_projects (p : Project -> bool) (d : db) : db :=
  let gone := map pr_ID (List.filter p d.(projects).(rows)) in
  let d1 := delete_services (fun s => one_of_ids gone s.(sv_ProjectID)) d in
  with_projects (delete_rows p d1.(projects))
  (with_jobs (update_rows (fun j => one_of_ids_opt gone j.(job_ProjectID)) job_clear_project d1.(jobs)) d1).
