(* ===== verification/Integrity.v ===== *)
(** * The integrity of the database

    [db_ok] is what the schema declares: rowids grow and are below the counter,
    UNIQUE keys are unique, REFERENCES clauses point to rows.  The lemmas here
    say how the row operations keep each clause; each repository shows that its
    statements keep the whole. *)

From stdpp Require Import base list strings sets.
From Stdlib Require Import Sorted.
From S2P Require Import Prelude GoStd Db.

Local Open Scope Z_scope.

Record tbl_ok {A K} (id : A -> Z) (key : A -> K) (t : table A) : Prop := {
  tbl_sorted : StronglySorted Z.lt (map id t.(rows));
  tbl_bound : Forall (fun a => id a <= t.(seq)) t.(rows);
  tbl_unique : NoDup (map key t.(rows));
}.

Section Tables.
Context {A K : Type} (id : A -> Z) (key : A -> K).
Implicit Types (t : table A) (p : A -> bool) (g : A -> A).

Lemma tbl_ok_empty : tbl_ok id key empty_table.
Proof. split; simpl; constructor. Qed.

Lemma sorted_app_last (l : list Z) k :
  StronglySorted Z.lt l -> Forall (fun x => x < k) l -> StronglySorted Z.lt (l ++ [k]).
Proof.
  induction 1 as [|x l Hl IH Hx]; intros HF; simpl; [repeat constructor|].
  inversion HF; subst. constructor; [by apply IH|].
  apply Forall_app. split; [done|by repeat constructor].
Qed.

Lemma tbl_ok_insert t a :
  tbl_ok id key t -> id a = next_id t -> key a ∉ map key t.(rows) ->
  tbl_ok id key (insert_row a t).
Proof.
  intros [Hs Hb Hu] Hid Hk. unfold next_id in Hid. split; simpl.
  - rewrite map_app. simpl. apply sorted_app_last; [done|].
    apply Forall_map. eapply Forall_impl; [exact Hb|]. simpl. intros; lia.
  - apply Forall_app. split; [|repeat constructor; unfold next_id; lia].
    eapply Forall_impl; [exact Hb|]. simpl. unfold next_id. intros; lia.
  - rewrite map_app. apply NoDup_app. split_and!; [done| |apply NoDup_singleton].
    simpl. intros x Hx ->%list_elem_of_singleton. done.
Qed.

Lemma tbl_ok_update p g t :
  (forall a, id (g a) = id a) -> (forall a, key (g a) = key a) ->
  tbl_ok id key t -> tbl_ok id key (update_rows p g t).
Proof.
  intros Hi Hk [Hs Hb Hu]. split; simpl.
  - by rewrite map_update_where.
  - rewrite Forall_forall in Hb |- *. intros b (a & Hin & ->)%elem_of_update_where.
    specialize (Hb a Hin). destruct (p a); rewrite ?Hi; done.
  - by rewrite map_update_where.
Qed.

Lemma sorted_filter (l : list A) p :
  StronglySorted Z.lt (map id l) -> StronglySorted Z.lt (map id (List.filter p l)).
Proof.
  induction l as [|a l IH]; simpl; [done|]. inversion 1 as [|? ? Hl Ha]; subst.
  destruct (p a); simpl; [|by apply IH]. constructor; [by apply IH|].
  rewrite Forall_map in Ha |- *. rewrite Forall_forall in Ha |- *.
  intros b [Hb _]%elem_of_filterb. auto.
Qed.

Lemma NoDup_map_filter {B} (f : A -> B) (l : list A) p : NoDup (map f l) -> NoDup (map f (List.filter p l)).
Proof.
  induction l as [|a l IH]; simpl; [done|]. rewrite NoDup_cons. intros [Ha Hl].
  destruct (p a); simpl; [|auto]. apply NoDup_cons. split; [|auto].
  rewrite list_elem_of_In, in_map_iff in Ha |- *. intros (b & Hb & Hin). apply Ha. exists b.
  split; [done|]. apply filter_In in Hin. apply Hin.
Qed.

Lemma tbl_ok_delete p t : tbl_ok id key t -> tbl_ok id key (delete_rows p t).
Proof.
  intros [Hs Hb Hu]. split; simpl.
  - by apply sorted_filter.
  - rewrite Forall_forall in Hb |- *. intros b [Hin _]%elem_of_filterb. auto.
  - by apply NoDup_map_filter.
Qed.

(** Rowids tell rows apart, and so do keys. *)
Lemma tbl_id_inj t a b : tbl_ok id key t -> a ∈ t.(rows) -> b ∈ t.(rows) -> id a = id b -> a = b.
Proof.
  intros [Hs _ _]. generalize dependent t.(rows). intros l Hs. revert a b.
  induction l as [|c l IH]; intros a b Ha Hb Heq; [set_solver|].
  simpl in Hs. inversion Hs as [|? ? Hl Hc]; subst.
  rewrite Forall_map, Forall_forall in Hc.
  rewrite elem_of_cons in Ha, Hb. destruct Ha as [->|Ha], Hb as [->|Hb]; auto.
  - specialize (Hc b Hb). simpl in Hc. lia.
  - specialize (Hc a Ha). simpl in Hc. lia.
Qed.

Lemma tbl_key_inj t a b : tbl_ok id key t -> a ∈ t.(rows) -> b ∈ t.(rows) -> key a = key b -> a = b.
Proof. intros [_ _ Hu]. by apply NoDup_key_inj. Qed.

Lemma has_id_true t k : has_id id t k = true <-> exists a, a ∈ t.(rows) /\ id a = k.
Proof. unfold has_id. rewrite existsb_elem. setoid_rewrite Z.eqb_eq. done. Qed.
End Tables.

(** ** References *)

Definition refers {A B} (f : A -> Z) (id : B -> Z) (l : list A) (t : table B) : Prop :=
  forall a, a ∈ l -> exists b, b ∈ t.(rows) /\ id b = f a.

Definition refers_opt {A B} (f : A -> option Z) (id : B -> Z) (l : list A) (t : table B) : Prop :=
  forall a k, a ∈ l -> f a = Some k -> exists b, b ∈ t.(rows) /\ id b = k.

Record db_ok (d : db) : Prop := {
  ok_updates : tbl_ok up_ID (fun u => (u.(up_ServiceID), u.(up_ToDigest))) d.(updates);
  ok_jobs : tbl_ok job_ID job_ID d.(jobs);
  ok_logs : tbl_ok log_ID log_ID d.(job_logs);
  ok_services : tbl_ok sv_ID (fun s => (s.(sv_ProjectID), s.(sv_Name))) d.(services);
  ok_projects : tbl_ok pr_ID (fun p => (p.(pr_HostID), p.(pr_Name))) d.(projects);
  ok_images : tbl_ok img_ID (fun i => (i.(img_Repo), i.(img_Digest))) d.(images);
  ok_snapshots : tbl_ok sn_ID sn_ID d.(snapshots);
  ok_events : tbl_ok ev_ID ev_ID d.(events);
  ok_users : tbl_ok us_ID us_Username d.(users);
  ok_credentials : tbl_ok cr_ID cr_RegistryHost d.(credentials);
  ok_remote : NoDup (map (fun r => (r.(rs_Repo), r.(rs_Tag))) d.(remote_states));
  ok_tags : NoDup (map (fun t => (t.(td_Repo), t.(td_Tag))) d.(tag_digests));
  ok_settings : NoDup (map fst d.(settings));
  ok_sessions : NoDup (map se_TokenHash d.(sessions));
  ok_repos : NoDup (map cl_ImageRepo d.(changelog_repos));
  fk_updates : refers up_ServiceID sv_ID d.(updates).(rows) d.(services);
  fk_services : refers sv_ProjectID pr_ID d.(services).(rows) d.(projects);
  fk_logs : refers log_JobID job_ID d.(job_logs).(rows) d.(jobs);
  fk_snapshots : refers sn_ServiceID sv_ID d.(snapshots).(rows) d.(services);
  fk_snapshot_jobs : refers_opt sn_JobID job_ID d.(snapshots).(rows) d.(jobs);
  fk_events : refers ev_ServiceID sv_ID d.(events).(rows) d.(services);
  fk_event_jobs : refers_opt ev_RefJobID job_ID d.(events).(rows) d.(jobs);
  fk_job_services : refers_opt job_ServiceID sv_ID d.(jobs).(rows) d.(services);
  fk_job_projects : refers_opt job_ProjectID pr_ID d.(jobs).(rows) d.(projects);
  fk_sessions : refers se_UserID us_ID d.(sessions) d.(users);
}.

Lemma empty_db_ok : db_ok empty_db.
Proof. split; try apply tbl_ok_empty; try constructor; intros ? **; set_solver. Qed.

Section References.
Context {A B : Type} (id : B -> Z).
Implicit Types (l : list A) (t : table B).

Lemma refers_insert_left (f : A -> Z) l t a : refers f id l t -> (exists b, b ∈ t.(rows) /\ id b = f a) ->
  refers f id (l ++ [a]) t.
Proof. intros H Ha x [Hx| ->%list_elem_of_singleton]%elem_of_app; auto. Qed.

Lemma refers_update_left (f : A -> Z) p g l t : (forall a, f (g a) = f a) -> refers f id l t ->
  refers f id (update_where p g l) t.
Proof.
  intros Hg H x (a & Hin & ->)%elem_of_update_where.
  destruct (H a Hin) as (b & Hb & Hid). exists b. destruct (p a); by rewrite ?Hg.
Qed.

Lemma refers_delete_left (f : A -> Z) p l t : refers f id l t -> refers f id (List.filter p l) t.
Proof. intros H x [Hx _]%elem_of_filterb. auto. Qed.

Lemma refers_insert_right (f : A -> Z) l t b : refers f id l t -> refers f id l (insert_row b t).
Proof. intros H x Hx. destruct (H x Hx) as (c & Hc & He). exists c. simpl. set_solver. Qed.

Lemma refers_update_right (f : A -> Z) p g l t : (forall b, id (g b) = id b) -> refers f id l t ->
  refers f id l (update_rows p g t).
Proof.
  intros Hg H x Hx. destruct (H x Hx) as (c & Hc & He).
  exists (if p c then g c else c). split; [apply elem_of_update_where; eauto|].
  destruct (p c); by rewrite ?Hg.
Qed.

Lemma refers_opt_insert_left (fo : A -> option Z) l t a : refers_opt fo id l t ->
  (forall k, fo a = Some k -> exists b, b ∈ t.(rows) /\ id b = k) -> refers_opt fo id (l ++ [a]) t.
Proof. intros H Ha x k [Hx| ->%list_elem_of_singleton]%elem_of_app; eauto. Qed.

Lemma refers_opt_update_left (fo : A -> option Z) p g l t : (forall a k, fo (g a) = Some k -> fo a = Some k) ->
  refers_opt fo id l t -> refers_opt fo id (update_where p g l) t.
Proof.
  intros Hg H x k (a & Hin & ->)%elem_of_update_where Hk. apply (H a k Hin).
  destruct (p a); auto.
Qed.

Lemma refers_opt_delete_left (fo : A -> option Z) p l t : refers_opt fo id l t -> refers_opt fo id (List.filter p l) t.
Proof. intros H x k [Hx _]%elem_of_filterb. eauto. Qed.

Lemma refers_opt_insert_right (fo : A -> option Z) l t b : refers_opt fo id l t -> refers_opt fo id l (insert_row b t).
Proof. intros H x k Hx Hk. destruct (H x k Hx Hk) as (c & Hc & He). exists c. simpl. set_solver. Qed.

Lemma refers_opt_update_right (fo : A -> option Z) p g l t : (forall b, id (g b) = id b) -> refers_opt fo id l t ->
  refers_opt fo id l (update_rows p g t).
Proof.
  intros Hg H x k Hx Hk. destruct (H x k Hx Hk) as (c & Hc & He).
  exists (if p c then g c else c). split; [apply elem_of_update_where; eauto|].
  destruct (p c); by rewrite ?Hg.
Qed.

Lemma one_of_ids_true ids k : one_of_ids ids k = true <-> k ∈ ids.
Proof. unfold one_of_ids. rewrite existsb_elem. setoid_rewrite Z.eqb_eq. naive_solver. Qed.

Lemma gone_id p t b : b ∈ t.(rows) -> p b = true -> one_of_ids (map id (List.filter p t.(rows))) (id b) = true.
Proof.
  intros Hb Hp. apply one_of_ids_true. rewrite list_elem_of_In. apply in_map.
  by rewrite <- list_elem_of_In, elem_of_filterb.
Qed.

Lemma stays p t b : b ∈ t.(rows) -> p b = false -> b ∈ (delete_rows p t).(rows).
Proof. intros Hb Hp. simpl. apply elem_of_filterb. by rewrite Hp. Qed.

(** ON DELETE CASCADE: the rows that referred to a deleted row are deleted. *)
Lemma refers_cascade (f : A -> Z) p (ta : table A) t :
  refers f id ta.(rows) t ->
  refers f id (delete_rows (fun a => one_of_ids (map id (List.filter p t.(rows))) (f a)) ta).(rows)
              (delete_rows p t).
Proof.
  intros H a Ha. simpl in Ha. apply elem_of_filterb in Ha as [Ha Hn]. apply negb_true_iff in Hn.
  destruct (H a Ha) as (b & Hb & He). exists b. split; [|done]. apply stays; [done|].
  destruct (p b) eqn:Ep; [|done]. rewrite <- He, (gone_id p t b Hb Ep) in Hn. done.
Qed.

(** ON DELETE SET NULL. *)
Lemma refers_set_null (fo : A -> option Z) p g (ta : table A) t :
  (forall a, fo (g a) = None) -> refers_opt fo id ta.(rows) t ->
  refers_opt fo id (update_rows (fun a => one_of_ids_opt (map id (List.filter p t.(rows))) (fo a)) g ta).(rows)
                   (delete_rows p t).
Proof.
  intros Hg H x k Hx Hk. apply elem_of_update_where in Hx as (a & Ha & ->).
  destruct (one_of_ids_opt _ (fo a)) eqn:Eo; [by rewrite Hg in Hk|].
  destruct (H a k Ha Hk) as (b & Hb & He). exists b. split; [|done]. apply stays; [done|].
  destruct (p b) eqn:Ep; [|done]. rewrite Hk in Eo. simpl in Eo.
  rewrite <- He, (gone_id p t b Hb Ep) in Eo. done.
Qed.
End References.

Create HintDb integrity discriminated.
#[export] Hint Resolve refers_insert_left refers_update_left refers_delete_left refers_insert_right
  refers_update_right refers_opt_insert_left refers_opt_update_left refers_opt_delete_left
  refers_opt_insert_right refers_opt_update_right refers_cascade refers_set_null
  tbl_ok_update tbl_ok_delete : integrity.

(** ** Deletions with their cascades *)

(** Split [db_ok] of a database made by setters into its clauses, each solved
    by the lemma for the row operation made. *)
Ltac db_proj :=
  cbn [updates jobs job_logs services projects images remote_states tag_digests snapshots events
       settings sessions users credentials changelog_repos with_updates with_jobs with_job_logs
       with_services with_projects with_images with_remote_states with_tag_digests with_snapshots
       with_events with_settings with_sessions with_users with_credentials with_changelog_repos].

Ltac db_clause :=
  first
  [ assumption
  | apply tbl_ok_delete; db_clause
  | apply tbl_ok_update; [by intros []|by intros []|db_clause]
  | apply refers_cascade; assumption
  | apply refers_set_null; [done|assumption]
  | apply refers_insert_right; db_clause
  | apply refers_opt_insert_right; db_clause
  | apply refers_update_right; [by intros []|db_clause]
  | apply refers_opt_update_right; [by intros []|db_clause]
  | apply refers_delete_left; db_clause
  | apply refers_opt_delete_left; db_clause
  | apply refers_update_left; [by intros []|db_clause]
  | apply refers_opt_update_left; [by intros []|db_clause] ].

Ltac db_split H := destruct H; split; db_proj; try db_clause.

Lemma delete_jobs_ok p d : db_ok d -> db_ok (delete_jobs p d).
Proof. intros H. unfold delete_jobs. db_split H. Qed.

Lemma delete_services_ok p d : db_ok d -> db_ok (delete_services p d).
Proof. intros H. unfold delete_services. db_split H. Qed.

Lemma delete_projects_ok p d : db_ok d -> db_ok (delete_projects p d).
Proof.
  intros H.
  set (gone := map pr_ID (List.filter p d.(projects).(rows))).
  pose proof (delete_services_ok (fun s => one_of_ids gone s.(sv_ProjectID)) d H) as H1.
  assert (Hsv : refers sv_ProjectID pr_ID
    (delete_rows (fun s => one_of_ids gone s.(sv_ProjectID)) d.(services)).(rows)
    (delete_rows p d.(projects))) by apply refers_cascade, H.
  destruct H1 as []. split; unfold delete_projects; fold gone; db_proj; try db_clause.
Qed.

(** ** Checking a concrete database *)

Fixpoint increasing (l : list Z) : bool :=
  match l with
  | [] => true
  | x :: l' => forallb (Z.ltb x) l' && increasing l'
  end.

Definition tbl_okb {A K} `{EqDecision K} (id : A -> Z) (key : A -> K) (t : table A) : bool :=
  increasing (map id t.(rows)) && forallb (fun a => id a <=? t.(seq)) t.(rows)
  && bool_decide (NoDup (map key t.(rows))).

Definition refersb {A B} (f : A -> Z) (id : B -> Z) (l : list A) (t : table B) : bool :=
  forallb (fun a => has_id id t (f a)) l.
Definition refers_optb {A B} (f : A -> option Z) (id : B -> Z) (l : list A) (t : table B) : bool :=
  forallb (fun a => has_id_opt id t (f a)) l.

Definition db_okb (d : db) : bool :=
  tbl_okb up_ID (fun u => (u.(up_ServiceID), u.(up_ToDigest))) d.(updates)
  && tbl_okb job_ID job_ID d.(jobs) && tbl_okb log_ID log_ID d.(job_logs)
  && tbl_okb sv_ID (fun s => (s.(sv_ProjectID), s.(sv_Name))) d.(services)
  && tbl_okb pr_ID (fun p => (p.(pr_HostID), p.(pr_Name))) d.(projects)
  && tbl_okb img_ID (fun i => (i.(img_Repo), i.(img_Digest))) d.(images)
  && tbl_okb sn_ID sn_ID d.(snapshots) && tbl_okb ev_ID ev_ID d.(events)
  && tbl_okb us_ID us_Username d.(users) && tbl_okb cr_ID cr_RegistryHost d.(credentials)
  && bool_decide (NoDup (map (fun r => (r.(rs_Repo), r.(rs_Tag))) d.(remote_states)))
  && bool_decide (NoDup (map (fun t => (t.(td_Repo), t.(td_Tag))) d.(tag_digests)))
  && bool_decide (NoDup (map fst d.(settings)))
  && bool_decide (NoDup (map se_TokenHash d.(sessions)))
  && bool_decide (NoDup (map cl_ImageRepo d.(changelog_repos)))
  && refersb up_ServiceID sv_ID d.(updates).(rows) d.(services)
  && refersb sv_ProjectID pr_ID d.(services).(rows) d.(projects)
  && refersb log_JobID job_ID d.(job_logs).(rows) d.(jobs)
  && refersb sn_ServiceID sv_ID d.(snapshots).(rows) d.(services)
  && refers_optb sn_JobID job_ID d.(snapshots).(rows) d.(jobs)
  && refersb ev_ServiceID sv_ID d.(events).(rows) d.(services)
  && refers_optb ev_RefJobID job_ID d.(events).(rows) d.(jobs)
  && refers_optb job_ServiceID sv_ID d.(jobs).(rows) d.(services)
  && refers_optb job_ProjectID pr_ID d.(jobs).(rows) d.(projects)
  && refersb se_UserID us_ID d.(sessions) d.(users).

Lemma increasing_sorted l : increasing l = true -> StronglySorted Z.lt l.
Proof.
  induction l as [|x l IH]; simpl; [constructor|].
  intros [Hx Hl]%andb_true_iff. constructor; [auto|].
  rewrite forallb_forall in Hx. apply Forall_forall. intros y Hy.
  apply Z.ltb_lt, Hx. by rewrite <- list_elem_of_In.
Qed.

Lemma tbl_okb_ok {A K} `{EqDecision K} (id : A -> Z) (key : A -> K) t :
  tbl_okb id key t = true -> tbl_ok id key t.
Proof.
  unfold tbl_okb. rewrite !andb_true_iff. intros [[Hs Hb] Hu]. split.
  - by apply increasing_sorted.
  - rewrite forallb_forall in Hb. apply Forall_forall. intros a Ha.
    apply Z.leb_le, Hb. by rewrite <- list_elem_of_In.
  - by apply bool_decide_eq_true in Hu.
Qed.

Lemma refersb_ok {A B} (f : A -> Z) (id : B -> Z) l t : refersb f id l t = true -> refers f id l t.
Proof.
  unfold refersb. rewrite forallb_forall. intros H a Ha. apply has_id_true, H.
  by rewrite <- list_elem_of_In.
Qed.

Lemma refers_optb_ok {A B} (f : A -> option Z) (id : B -> Z) l t :
  refers_optb f id l t = true -> refers_opt f id l t.
Proof.
  unfold refers_optb. rewrite forallb_forall. intros H a k Ha Hk. apply has_id_true.
  specialize (H a). rewrite Hk in H. apply H. by rewrite <- list_elem_of_In.
Qed.

Lemma db_okb_ok d : db_okb d = true -> db_ok d.
Proof.
  unfold db_okb. rewrite !andb_true_iff. intros H.
  repeat match type of H with _ /\ _ => destruct H as [H ?] end.
  split; first [by apply tbl_okb_ok|by apply refersb_ok|by apply refers_optb_ok|idtac].
  all: by eapply bool_decide_eq_true.
Qed.

(** A small installation, for examples: one compose project with one service. *)
Definition demo_project : Project :=
  mkProject 1 1 "compose" "blog" "/srv/blog" ["/srv/blog/compose.yml"] "discovered" true "{}" false
    false None 1700000000.
Definition demo_service : Service :=
  mkService 1 1 "web" ["c0ffee"] "ghost:5.1" "sha256:old" "sha256:cfg" "5.1.0" false false "running"
    None false false None 1700000000.
Definition demo_update : Update :=
  mkUpdate 1 1 "sha256:old" "sha256:new" "5.1.0" "5.2.0" "5.1" "minor" "" "" "" "available"
    1700000000 None.
Definition demo_db : db :=
  with_projects (mkTable [demo_project] 1)
  (with_services (mkTable [demo_service] 1)
  (with_updates (mkTable [demo_update] 1) empty_db)).

Lemma demo_db_ok : db_ok demo_db.
Proof. apply db_okb_ok. vm_compute. reflexivity. Qed.
