(* ===== verification/World.v ===== *)
(** * The world the handlers run in

    The database, the files of the host and the trace of what the process did
    to the outside, newest event first.  [w_tick] counts the calls that can
    fail or read something from the outside; what the [n]-th of them meets (a
    database or operating-system failure, the clock, the answer of a daemon or
    of a registry) is the environment's choice, a parameter indexed by [n], so
    a theorem that holds for every environment holds for every run. *)

From stdpp Require Import base list strings gmap.
From S2P Require Import Prelude GoStd Db.

Local Open Scope Z_scope.

(** What the process does that others can see, and the statements that change
    or read the database when they succeed.  A compose call is recorded with the
    exit code of a process that started, a daemon or registry call with whether
    it succeeded. *)
Inductive event :=
| EvSql (op : string) (id : Z)
| EvCompose (args : list string) (exit : option Z)
| EvDocker (op : string) (arg : string) (ok : bool)
| EvRegistry (op : string) (ref : string) (with_creds : bool) (ok : bool)
| EvHttp (method : string) (url : string)
| EvFile (op : string) (path : string)
| EvNotify (kind : string) (id : Z).

#[export] Instance event_eq_dec : EqDecision event.
Proof. solve_decision. Defined.

Record file := mkFile { f_content : string; f_mode : Z; f_owner : Z * Z }.

Record world := mkWorld {
  w_db : db;
  w_fs : gmap string file;
  w_trace : list event;
  w_tick : nat;
}.

Definition set_db (d : db) (w : world) : world := mkWorld d w.(w_fs) w.(w_trace) w.(w_tick).
Definition set_fs (f : gmap string file) (w : world) : world :=
  mkWorld w.(w_db) f w.(w_trace) w.(w_tick).
Definition record (e : event) (w : world) : world :=
  mkWorld w.(w_db) w.(w_fs) (e :: w.(w_trace)) w.(w_tick).
Definition tick (w : world) : world :=
  mkWorld w.(w_db) w.(w_fs) w.(w_trace) (S w.(w_tick)).

(** ** The environment *)

(** [sql_fault n]: the error the [n]-th call meets in the database driver (a
    busy or corrupted file); [os_fault n]: in the operating system; [clock n]:
    the wall clock at the [n]-th call, in nanoseconds; [random_name n]: the
    random part of a temporary file's name made there; [self_owner]: the uid and
    gid the process runs under; [ctx_done n]: whether the context a wait at the
    [n]-th call watches is done first (a deadline, or the shutdown).  A process killed at step [k] is an environment
    where every call from [k] on fails. *)
Class Env := {
  sql_fault : nat -> option error;
  os_fault : nat -> option error;
  clock : nat -> Z;
  random_name : nat -> string;
  self_owner : Z * Z;
  ctx_done : nat -> bool;
}.

(** An environment where nothing fails, for examples. *)
Definition calm_env : Env := {|
  sql_fault _ := None;
  os_fault _ := None;
  clock n := 1700000000000000000 + 1000000000 * Z.of_nat n;
  random_name n := Itoa (Z.of_nat n);
  self_owner := (0, 0);
  ctx_done _ := false;
|}.

Definition second : Z := 1000000000.

Section World.
Context {E : Env}.

(** [time.Now()] *)
Definition now : M world Z := fun w => (clock w.(w_tick), tick w).

(** One statement: it fails and changes nothing, or it runs. *)
Definition sql {A} (op : string) (id : Z) (st : stmt A) : M world (result A) := fun w =>
  match sql_fault w.(w_tick) with
  | Some e => (Err e, tick w)
  | None =>
      match st (clock w.(w_tick) / second) w.(w_db) with
      | Err e => (Err e, tick w)
      | Ok (a, d) => (Ok a, record (EvSql op id) (set_db d (tick w)))
      end
  end.

Lemma sql_ok_inv {A} op id (st : stmt A) w a w' :
  sql op id st w = (Ok a, w') ->
  st (clock w.(w_tick) / second) w.(w_db) = Ok (a, w'.(w_db)) /\ w'.(w_fs) = w.(w_fs) /\
  w'.(w_trace) = EvSql op id :: w.(w_trace) /\ w'.(w_tick) = S w.(w_tick).
Proof.
  unfold sql. destruct (sql_fault _); [done|].
  destruct (st _ _) as [[b d]|e] eqn:Es; intros [= <- <-]. done.
Qed.

Lemma sql_err_inv {A} op id (st : stmt A) w e w' : sql op id st w = (Err e, w') -> w' = tick w.
Proof.
  unfold sql. destruct (sql_fault _); [by intros [= _ <-]|].
  destruct (st _ _) as [[b d]|e'] eqn:Es; intros [= _ <-]. done.
Qed.

(** When nothing fails, a statement runs. *)
Lemma sql_run {A} op id (st : stmt A) w a d :
  sql_fault w.(w_tick) = None -> st (clock w.(w_tick) / second) w.(w_db) = Ok (a, d) ->
  sql op id st w = (Ok a, record (EvSql op id) (set_db d (tick w))).
Proof. unfold sql. by intros -> ->. Qed.

(** A call to the outside: it is answered by the environment, and recorded. *)
Definition call {A} (ev : A -> event) (answer : nat -> A) : M world A := fun w =>
  let a := answer w.(w_tick) in (a, record (ev a) (tick w)).

(** An event with no answer. *)
Definition emit (e : event) : M world unit := fun w => (tt, record e w).

(** A run only adds to the trace. *)
Definition extends (w w' : world) : Prop := exists l, w'.(w_trace) = l ++ w.(w_trace).

#[export] Instance extends_preorder : PreOrder extends.
Proof.
  split; [by exists []|]. intros w1 w2 w3 [l1 H1] [l2 H2]. exists (l2 ++ l1).
  by rewrite H2, H1, app_assoc.
Qed.

(** ** Invariants of the trace: what a component needs of its primitives *)

(** [tr_keeps P m]: if the trace has [P] and every event [m] may add keeps [P]. *)
Lemma keeps_sql {A} (I : world -> Prop) op id (st : stmt A) :
  (forall w, I w -> I (tick w)) ->
  (forall w d a, I w -> st (clock w.(w_tick) / second) w.(w_db) = Ok (a, d) ->
     I (record (EvSql op id) (set_db d (tick w)))) ->
  keeps I (sql op id st).
Proof.
  intros Ht Hs w Hw. unfold sql. destruct (sql_fault _); [by apply Ht|].
  destruct (st _ _) as [[a d]|e] eqn:E1; [by eapply Hs|by apply Ht].
Qed.

Lemma keeps_call {A} (I : world -> Prop) ev (answer : nat -> A) :
  (forall w a, I w -> I (record (ev a) (tick w))) -> keeps I (call ev answer).
Proof. intros H w Hw. by apply H. Qed.

Lemma keeps_emit (I : world -> Prop) e :
  (forall w, I w -> I (record e w)) -> keeps I (emit e).
Proof. intros H w Hw. by apply H. Qed.

Lemma keeps_now (I : world -> Prop) : (forall w, I w -> I (tick w)) -> keeps I now.
Proof. intros H w Hw. by apply H. Qed.

(** A world predicate that only reads the trace. *)
Definition on_trace (P : list event -> Prop) : world -> Prop := fun w => P w.(w_trace).

Lemma keeps_sql_trace {A} P op id (st : stmt A) :
  (forall l, P l -> P (EvSql op id :: l)) -> keeps (on_trace P) (sql op id st).
Proof. intros H. apply keeps_sql; unfold on_trace; simpl; auto. Qed.

Lemma keeps_call_trace {A} P ev (answer : nat -> A) :
  (forall l a, P l -> P (ev a :: l)) -> keeps (on_trace P) (call ev answer).
Proof. intros H. apply keeps_call. unfold on_trace. simpl. auto. Qed.

Lemma keeps_now_trace P : keeps (on_trace P) now.
Proof. apply keeps_now. unfold on_trace. simpl. auto. Qed.

(** A predicate that only reads the database. *)
Definition on_db (P : db -> Prop) : world -> Prop := fun w => P w.(w_db).

(** A statement that keeps a property of the database. *)
Definition stmt_keeps {A} (P : db -> Prop) (st : stmt A) : Prop :=
  forall t d a d', P d -> st t d = Ok (a, d') -> P d'.

Lemma stmt_keeps_query {A} P (f : db -> A) : stmt_keeps P (query f).
Proof. by intros t d a d' H [= _ <-]. Qed.

Lemma keeps_sql_db {A} P op id (st : stmt A) : stmt_keeps P st -> keeps (on_db P) (sql op id st).
Proof. intros H. apply keeps_sql; unfold on_db; simpl; [done|]. intros. by eapply H. Qed.

Lemma keeps_call_db {A} P ev (answer : nat -> A) : keeps (on_db P) (call ev answer).
Proof. by apply keeps_call. Qed.

Lemma keeps_now_db P : keeps (on_db P) now.
Proof. by apply keeps_now. Qed.
End World.

#[export] Hint Resolve keeps_now_trace keeps_call_db keeps_now_db stmt_keeps_query : keeps.
#[export] Hint Resolve keeps_sql_db : keeps.

(** A statement that leaves the database alone. *)
Definition read_stmt {A} (st : stmt A) : Prop := forall t d a d', st t d = Ok (a, d') -> d' = d.

Ltac read_stmt := intros ? ? ? ? Heq; unfold query in Heq; repeat case_match; try discriminate Heq;
  injection Heq; intros; subst; reflexivity.

Lemma read_sql_inv `{Env} {A} op id (st : stmt A) w a w' :
  read_stmt st -> sql op id st w = (a, w') ->
  w'.(w_db) = w.(w_db) /\ forall v, a = Ok v -> exists t, st t w.(w_db) = Ok (v, w.(w_db)).
Proof.
  intros Hr Hs. destruct a as [v|e].
  - apply sql_ok_inv in Hs as (Hs & _). pose proof (Hr _ _ _ _ Hs) as Hd. rewrite Hd in Hs. split; [done|].
    intros v' [= <-]. eauto.
  - apply sql_err_inv in Hs as ->. done.
Qed.
