(* ===== verification/StoreUpdates.v ===== *)
(** * The updates repository (internal/store/updates.go)

    Each method is its SQL statement, a function on the database, run by
    [sql]; [RecordDrift] is the transaction of the source, statement by
    statement, with its rollback. *)

From stdpp Require Import base list strings gmap.
From S2P Require Import Prelude GoStd Db Integrity World.

Local Open Scope Z_scope.

(** ** Changes to one row *)
Definition up_set_status (st : string) (u : Update) : Update :=
  mkUpdate u.(up_ID) u.(up_ServiceID) u.(up_FromDigest) u.(up_ToDigest) u.(up_FromVersion)
    u.(up_ToVersion) u.(up_Tag) u.(up_Severity) u.(up_ChangelogURL) u.(up_ChangelogText)
    u.(up_ChangelogStatus) st u.(up_DetectedAt) u.(up_AppliedAt).

Definition up_set_changelog (url text status : string) (u : Update) : Update :=
  mkUpdate u.(up_ID) u.(up_ServiceID) u.(up_FromDigest) u.(up_ToDigest) u.(up_FromVersion)
    u.(up_ToVersion) u.(up_Tag) u.(up_Severity) url text
    status u.(up_Status) u.(up_DetectedAt) u.(up_AppliedAt).

Definition up_set_descriptor (from fromV toV tag sev : string) (u : Update) : Update :=
  mkUpdate u.(up_ID) u.(up_ServiceID) from u.(up_ToDigest) fromV toV tag sev u.(up_ChangelogURL)
    u.(up_ChangelogText) u.(up_ChangelogStatus) u.(up_Status) u.(up_DetectedAt) u.(up_AppliedAt).

Definition up_mark_applied (t : Z) (u : Update) : Update :=
  mkUpdate u.(up_ID) u.(up_ServiceID) u.(up_FromDigest) u.(up_ToDigest) u.(up_FromVersion)
    u.(up_ToVersion) u.(up_Tag) u.(up_Severity) u.(up_ChangelogURL) u.(up_ChangelogText)
    u.(up_ChangelogStatus) "applied" u.(up_DetectedAt) (Some t).

Definition status_in (l : list string) (u : Update) : bool := existsb (String.eqb u.(up_Status)) l.

Definition of_service (s : Z) (u : Update) : bool := u.(up_ServiceID) =? s.
Definition to_digest_is (dg : string) (u : Update) : bool := String.eqb u.(up_ToDigest) dg.

(** [ORDER BY detected_at DESC, id DESC] *)
Definition newest_detected (a b : Update) : bool :=
  if a.(up_DetectedAt) =? b.(up_DetectedAt) then b.(up_ID) <? a.(up_ID)
  else b.(up_DetectedAt) <? a.(up_DetectedAt).

Definition or_default (s def : string) : string := if String.eqb s "" then def else s.

Module Updates.

(** ** The statements *)

(** [INSERT INTO updates ...] with the columns the methods give. *)
Definition insert_stmt (up : Update) (severity status : string) : stmt Z := fun t d =>
  if negb (has_id sv_ID d.(services) up.(up_ServiceID)) then Err ErrForeignKey
  else if existsb (fun u => of_service up.(up_ServiceID) u && to_digest_is up.(up_ToDigest) u)
            d.(updates).(rows)
  then Err ErrUnique
  else
    let id := next_id d.(updates) in
    let row := mkUpdate id up.(up_ServiceID) up.(up_FromDigest) up.(up_ToDigest)
                 up.(up_FromVersion) up.(up_ToVersion) up.(up_Tag) severity up.(up_ChangelogURL)
                 up.(up_ChangelogText) "" status t None in
    Ok (id, with_updates (insert_row row d.(updates)) d).

Definition update_stmt (p : Update -> bool) (g : Update -> Update) : stmt Z := fun _ d =>
  Ok (count_where p d.(updates).(rows), with_updates (update_rows p g d.(updates)) d).

Definition find_target (d : db) (service : Z) (dg : string) : option Update :=
  List.find (fun u => of_service service u && to_digest_is dg u) d.(updates).(rows).

Definition upsert_stmt (up : Update) (severity status : string) : stmt Z := fun t d =>
  match find_target d up.(up_ServiceID) up.(up_ToDigest) with
  | Some u =>
      Ok (u.(up_ID),
          with_updates (update_rows (fun v => v.(up_ID) =? u.(up_ID))
            (up_set_descriptor up.(up_FromDigest) up.(up_FromVersion) up.(up_ToVersion)
               up.(up_Tag) severity) d.(updates)) d)
  | None => insert_stmt up severity status t d
  end.

Definition supersede_prior_stmt (service : Z) (keep : string) : stmt Z :=
  update_stmt (fun u => of_service service u && status_in ["available"] u
                        && negb (to_digest_is keep u))
              (up_set_status "superseded").

(** The [UPDATE ... CASE WHEN ...] of [RecordDrift] on the existing row. *)
Definition drift_refresh (up : Update) (severity : string) (u : Update) : Update :=
  let fromV := if String.eqb up.(up_FromVersion) "" then u.(up_FromVersion) else up.(up_FromVersion) in
  let toV := if String.eqb up.(up_ToVersion) "" then u.(up_ToVersion) else up.(up_ToVersion) in
  let sev := if String.eqb severity "digest-only"
                && existsb (String.eqb u.(up_Severity)) ["major"; "minor"; "patch"]
             then u.(up_Severity) else severity in
  let status := if status_in ["failed"; "superseded"; "applied"] u then "available"
                else u.(up_Status) in
  up_set_status status (up_set_descriptor up.(up_FromDigest) fromV toV up.(up_Tag) sev u).

Definition delete_stmt (p : Update -> bool) : stmt Z := fun _ d =>
  Ok (count_where p d.(updates).(rows), with_updates (delete_rows p d.(updates)) d).

Section Repository.
Context {E : Env}.

Definition Upsert (up : Update) : M world (result Z) :=
  let severity := or_default up.(up_Severity) "digest-only" in
  let status := or_default up.(up_Status) "available" in
  sql "updates.Upsert" up.(up_ServiceID) (upsert_stmt up severity status).

Definition ListOpen : M world (result (list Update)) :=
  sql "updates.ListOpen" 0 (query (fun d =>
    sort_stable newest_detected (List.filter (status_in ["available"]) d.(updates).(rows)))).

Definition ListVisible : M world (result (list Update)) :=
  sql "updates.ListVisible" 0 (query (fun d =>
    sort_stable newest_detected
      (List.filter (status_in ["available"; "dismissed"; "rolled_back"]) d.(updates).(rows)))).

Definition SupersedePriorOpen (serviceID : Z) (keepToDigest : string) : M world (result Z) :=
  sql "updates.SupersedePriorOpen" serviceID (supersede_prior_stmt serviceID keepToDigest).

Definition SupersedeAllOpen (serviceID : Z) : M world (result Z) :=
  sql "updates.SupersedeAllOpen" serviceID
    (update_stmt (fun u => of_service serviceID u && status_in ["available"] u)
                 (up_set_status "superseded")).

(** [tx.Rollback()]: what the transaction did is undone. *)
Definition rollback (d0 : db) {A} (e : error) : M world (result A) := fun w => (Err e, set_db d0 w).

(** The statements between [Begin] and [Commit]: the row and whether it is new. *)
Definition drift_row (up : Update) (severity status : string) : M world (result (Z * bool)) :=
  let! existing := sql "updates.RecordDrift.find" up.(up_ServiceID)
    (fun _ d => match find_target d up.(up_ServiceID) up.(up_ToDigest) with
                | Some u => Ok (u.(up_ID), d)
                | None => Err ErrNoRows
                end) in
  match existing with
  | Ok id =>
      try? sql "updates.RecordDrift.refresh" id
             (update_stmt (fun u => u.(up_ID) =? id) (drift_refresh up severity)) in
      ret (Ok (id, false))
  | Err e =>
      if errors_Is e "sql: no rows in result set" then
        let? id := sql "updates.RecordDrift.insert" up.(up_ServiceID)
                     (insert_stmt up severity status) in
        ret (Ok (id, true))
      else ret (Err e)
  end.

(** The transaction, on a database that was [d0] when it began. *)
Definition drift_tx (d0 : db) (up : Update) (severity status : string) : M world (result (Z * bool)) :=
  try? sql "updates.RecordDrift.begin" up.(up_ServiceID) (query (fun _ => tt)) in
  let! r :=
    let? out := drift_row up severity status in
    try? sql "updates.RecordDrift.supersede" up.(up_ServiceID)
           (supersede_prior_stmt up.(up_ServiceID) up.(up_ToDigest)) in
    try? sql "updates.RecordDrift.commit" up.(up_ServiceID) (query (fun _ => tt)) in
    ret (Ok out) in
  match r with
  | Ok out => ret (Ok out)
  | Err e => rollback d0 e
  end.

Definition RecordDrift (up : Update) : M world (result (Z * bool)) := fun w =>
  let severity := or_default up.(up_Severity) "digest-only" in
  let status := or_default up.(up_Status) "available" in
  drift_tx w.(w_db) up severity status w.

Definition MarkRolledBack (serviceID : Z) (toDigest : string) : M world (result unit) :=
  try? sql "updates.MarkRolledBack" serviceID
    (update_stmt (fun u => of_service serviceID u && to_digest_is toDigest u && status_in ["applied"] u)
                 (up_set_status "rolled_back")) in
  ret (Ok tt).

Definition ReopenRolledBack (serviceID : Z) : M world (result Z) :=
  sql "updates.ReopenRolledBack" serviceID
    (update_stmt (fun u => of_service serviceID u && status_in ["rolled_back"] u)
                 (up_set_status "available")).

Definition SetChangelog (updateID : Z) (url text : string) : M world (result unit) :=
  try? sql "updates.SetChangelog" updateID
    (update_stmt (fun u => u.(up_ID) =? updateID) (up_set_changelog url text "")) in
  ret (Ok tt).

Definition SetChangelogStatus (updateID : Z) (status : string) : M world (result unit) :=
  try? sql "updates.SetChangelogStatus" updateID
    (update_stmt (fun u => u.(up_ID) =? updateID)
       (fun u => up_set_changelog u.(up_ChangelogURL) u.(up_ChangelogText) status u)) in
  ret (Ok tt).

Definition ErrNoOpenUpdate : error := Sentinel "no open update for service".

Definition GetLatestOpenByService (serviceID : Z) : M world (result Update) :=
  sql "updates.GetLatestOpenByService" serviceID (fun _ d =>
    match first_by newest_detected
            (List.filter (fun u => of_service serviceID u && status_in ["available"] u)
               d.(updates).(rows)) with
    | Some u => Ok (u, d)
    | None => Err ErrNoOpenUpdate
    end).

Definition HasAnyByService (serviceID : Z) : M world (result bool) :=
  sql "updates.HasAnyByService" serviceID (query (fun d =>
    existsb (of_service serviceID) d.(updates).(rows))).

Definition HasSurfacedByService (serviceID : Z) : M world (result bool) :=
  sql "updates.HasSurfacedByService" serviceID (query (fun d =>
    existsb (fun u => of_service serviceID u
                      && status_in ["available"; "dismissed"; "rolled_back"; "applied"] u)
      d.(updates).(rows))).

Definition HasResolvedCurrentAtDigest (serviceID : Z) (digest : string) : M world (result bool) :=
  sql "updates.HasResolvedCurrentAtDigest" serviceID (query (fun d =>
    existsb (fun u => of_service serviceID u && status_in ["current"] u && to_digest_is digest u
                      && (negb (String.eqb u.(up_ChangelogText) "")
                          || negb (String.eqb u.(up_ChangelogURL) "")))
      d.(updates).(rows))).

Definition DeleteStaleCurrent (serviceID : Z) (keepDigest : string) : M world (result Z) :=
  sql "updates.DeleteStaleCurrent" serviceID
    (delete_stmt (fun u => of_service serviceID u && status_in ["current"] u
                           && negb (to_digest_is keepDigest u))).

(** The order of the sub-select: applied before current, then the newest. *)
Definition last_applied_before (a b : Update) : bool :=
  let ca := String.eqb a.(up_Status) "current" in
  let cb := String.eqb b.(up_Status) "current" in
  let ta := default a.(up_DetectedAt) a.(up_AppliedAt) in
  let tb := default b.(up_DetectedAt) b.(up_AppliedAt) in
  if negb (eqb ca cb) then negb ca
  else if ta =? tb then b.(up_ID) <? a.(up_ID) else tb <? ta.

Definition last_applied_of (us : list Update) (s : Z) : option Update :=
  first_by last_applied_before
    (List.filter (fun u => of_service s u && status_in ["applied"; "current"] u) us).

Definition by_service (a b : Update) : bool := a.(up_ServiceID) <? b.(up_ServiceID).

Definition ListLastAppliedByService : M world (result (list Update)) :=
  sql "updates.ListLastAppliedByService" 0 (query (fun d =>
    let us := d.(updates).(rows) in
    sort_stable by_service
      (List.filter (fun u => status_in ["applied"; "current"] u
                     && match last_applied_of us u.(up_ServiceID) with
                        | Some v => u.(up_ID) =? v.(up_ID)
                        | None => false
                        end) us))).

Definition SetStatus (updateID : Z) (status : string) : M world (result unit) :=
  try? sql "updates.SetStatus" updateID
    (update_stmt (fun u => u.(up_ID) =? updateID) (up_set_status status)) in
  ret (Ok tt).

Definition MarkApplied (updateID : Z) : M world (result unit) :=
  try? sql "updates.MarkApplied" updateID (fun t =>
    update_stmt (fun u => u.(up_ID) =? updateID) (up_mark_applied t) t) in
  ret (Ok tt).

Definition ErrUpdateNotFound : error := Sentinel "update not found".

Definition Get (id : Z) : M world (result Update) :=
  sql "updates.Get" id (fun _ d =>
    match List.find (fun u => u.(up_ID) =? id) d.(updates).(rows) with
    | Some u => Ok (u, d)
    | None => Err ErrUpdateNotFound
    end).

End Repository.
End Updates.

(** ** The statements keep the integrity of the database *)

(** A change of a row that keeps its id and its key. *)
Definition same_key (g : Update -> Update) : Prop :=
  forall u, (g u).(up_ID) = u.(up_ID) /\ (g u).(up_ServiceID) = u.(up_ServiceID) /\
            (g u).(up_ToDigest) = u.(up_ToDigest).

Lemma same_key_set_status st : same_key (up_set_status st).
Proof. by intros []. Qed.
Lemma same_key_set_changelog a b c : same_key (up_set_changelog a b c).
Proof. by intros []. Qed.
Lemma same_key_set_changelog_status st :
  same_key (fun u => up_set_changelog u.(up_ChangelogURL) u.(up_ChangelogText) st u).
Proof. by intros []. Qed.
Lemma same_key_set_descriptor a b c e f : same_key (up_set_descriptor a b c e f).
Proof. by intros []. Qed.
Lemma same_key_mark_applied t : same_key (up_mark_applied t).
Proof. by intros []. Qed.
Lemma same_key_drift_refresh up sev : same_key (Updates.drift_refresh up sev).
Proof. by intros []. Qed.
#[export] Hint Resolve same_key_set_status same_key_set_changelog same_key_set_changelog_status
  same_key_set_descriptor same_key_mark_applied same_key_drift_refresh : keeps.

Lemma with_update_rows_ok p g d :
  same_key g -> db_ok d -> db_ok (with_updates (update_rows p g d.(updates)) d).
Proof.
  intros Hg H. destruct H; split; db_proj; try assumption.
  - apply tbl_ok_update; [intros a; apply Hg| |done].
    intros a. by destruct (Hg a) as (_ & -> & ->).
  - apply refers_update_left; [|done]. intros a. apply Hg.
Qed.

Lemma insert_updates_ok d u :
  db_ok d -> u.(up_ID) = next_id d.(updates) ->
  has_id sv_ID d.(services) u.(up_ServiceID) = true ->
  (forall v, v ∈ d.(updates).(rows) -> (v.(up_ServiceID), v.(up_ToDigest)) <> (u.(up_ServiceID), u.(up_ToDigest))) ->
  db_ok (with_updates (insert_row u d.(updates)) d).
Proof.
  intros H Hid Hs Hk. destruct H; split; db_proj; try assumption.
  - apply tbl_ok_insert; [done..|]. rewrite list_elem_of_In, in_map_iff.
    intros (v & Hv & Hin). rewrite <- list_elem_of_In in Hin. by apply (Hk v).
  - apply refers_insert_left; [done|]. by apply has_id_true.
Qed.

Lemma target_absent s dg (l : list Update) :
  existsb (fun u => of_service s u && to_digest_is dg u) l = false ->
  forall v, v ∈ l -> (v.(up_ServiceID), v.(up_ToDigest)) <> (s, dg).
Proof.
  intros Hf v Hv [= He1 He2]. apply not_true_iff_false in Hf. apply Hf. apply existsb_elem.
  exists v. split; [done|]. unfold of_service, to_digest_is.
  by rewrite He1, He2, Z.eqb_refl, String.eqb_refl.
Qed.

Lemma insert_stmt_ok up sev st : stmt_keeps db_ok (Updates.insert_stmt up sev st).
Proof.
  intros t d a d' Hd. unfold Updates.insert_stmt.
  destruct (has_id sv_ID d.(services) _) eqn:Eh; simpl; [|done].
  destruct (existsb _ _) eqn:Ee; [done|]. intros [= <- <-].
  apply insert_updates_ok; simpl; try done. by apply target_absent.
Qed.

Lemma update_stmt_ok p g : same_key g -> stmt_keeps db_ok (Updates.update_stmt p g).
Proof. intros Hg t d a d' Hd [= <- <-]. by apply with_update_rows_ok. Qed.

Lemma update_stmt_at_ok p (g : Z -> Update -> Update) :
  (forall t, same_key (g t)) -> stmt_keeps db_ok (fun t => Updates.update_stmt p (g t) t).
Proof. intros Hg t d a d' Hd [= <- <-]. by apply with_update_rows_ok. Qed.

Lemma delete_stmt_ok p : stmt_keeps db_ok (Updates.delete_stmt p).
Proof. intros t d a d' Hd [= <- <-]. db_split Hd. Qed.

Lemma upsert_stmt_ok up sev st : stmt_keeps db_ok (Updates.upsert_stmt up sev st).
Proof.
  intros t d a d' Hd. unfold Updates.upsert_stmt.
  destruct (Updates.find_target _ _ _); [|by apply insert_stmt_ok].
  intros [= <- <-]. apply with_update_rows_ok; auto with keeps.
Qed.

(** A read that can miss. *)
Lemma stmt_keeps_read {A B} P (f : db -> option A) (g : A -> B) e :
  stmt_keeps P (fun _ d => match f d with Some a => Ok (g a, d) | None => Err e end).
Proof. intros t d a d' Hd. destruct (f d); [|done]. by intros [= _ <-]. Qed.

#[export] Hint Resolve insert_stmt_ok update_stmt_ok update_stmt_at_ok delete_stmt_ok
  upsert_stmt_ok stmt_keeps_read : keeps.

(** ** RecordDrift *)

(** The statement that supersedes the siblings, on one row. *)
Definition superseded_by (service : Z) (keep : string) (u : Update) : Update :=
  if of_service service u && status_in ["available"] u && negb (to_digest_is keep u)
  then up_set_status "superseded" u else u.

(** The rows after a drift was recorded on the row [id]. *)
Definition drifted (up : Update) (id : Z) (u : Update) : Update :=
  superseded_by up.(up_ServiceID) up.(up_ToDigest)
    (if u.(up_ID) =? id
     then Updates.drift_refresh up (or_default up.(up_Severity) "digest-only") u else u).

Definition new_drift (up : Update) (id t : Z) : Update :=
  mkUpdate id up.(up_ServiceID) up.(up_FromDigest) up.(up_ToDigest) up.(up_FromVersion)
    up.(up_ToVersion) up.(up_Tag) (or_default up.(up_Severity) "digest-only") up.(up_ChangelogURL)
    up.(up_ChangelogText) "" (or_default up.(up_Status) "available") t None.

(** What a successful run does to the table. *)
Definition drift_effect (up : Update) (d d' : db) (id : Z) (isNew : bool) : Prop :=
  match Updates.find_target d up.(up_ServiceID) up.(up_ToDigest) with
  | Some u =>
      isNew = false /\ id = u.(up_ID) /\
      d' = with_updates (mkTable (map (drifted up id) d.(updates).(rows)) d.(updates).(seq)) d
  | None =>
      isNew = true /\ id = next_id d.(updates) /\
      exists t, d' = with_updates
        (mkTable (map (superseded_by up.(up_ServiceID) up.(up_ToDigest))
                    (d.(updates).(rows) ++ [new_drift up id t])) id) d
  end.

Lemma find_target_some d s dg u :
  Updates.find_target d s dg = Some u ->
  u ∈ d.(updates).(rows) /\ u.(up_ServiceID) = s /\ u.(up_ToDigest) = dg.
Proof.
  intros [Hin Hp]%find_elem. unfold of_service, to_digest_is in Hp.
  apply andb_true_iff in Hp as [H1%Z.eqb_eq H2%String.eqb_eq]. done.
Qed.

Lemma RecordDrift_effect `{Env} up w :
  match Updates.RecordDrift up w with
  | (Ok (id, isNew), w') => drift_effect up w.(w_db) w'.(w_db) id isNew
  | (Err _, w') => w'.(w_db) = w.(w_db)
  end.
Proof.
  destruct (Updates.RecordDrift up w) as [[[id isNew]|e] w'] eqn:E;
    unfold Updates.RecordDrift, Updates.drift_tx in E.
  - apply bind_ok_inv in E as (? & w1 & Hb & E). apply sql_ok_inv in Hb as ([= _ Hd1] & _).
    apply bind_inv in E as ([[id1 new1]|e1] & w2 & E & Hr); [|done].
    injection Hr as -> -> ->.
    apply bind_ok_inv in E as ([id2 new2] & w3 & Hrow & E).
    apply bind_ok_inv in E as (n & w4 & Hsup & E). apply sql_ok_inv in Hsup as ([= _ Hd4] & _).
    apply bind_ok_inv in E as (? & w5 & Hc & E). apply sql_ok_inv in Hc as ([= _ Hd5] & _).
    injection E as -> -> ->. rewrite <- Hd5, <- Hd4.
    unfold Updates.drift_row in Hrow. apply bind_inv in Hrow as (ex & w6 & Hfind & Hrow).
    unfold drift_effect. rewrite Hd1.
    destruct ex as [id3|e3].
    + apply sql_ok_inv in Hfind as (Hf & _). cbv beta in Hf.
      destruct (Updates.find_target w1.(w_db) _ _) as [u|] eqn:Et; [|done].
      injection Hf as <- Hd6. apply bind_ok_inv in Hrow as (n2 & w7 & Href & Hrow).
      apply sql_ok_inv in Href as ([= _ Hd7] & _). injection Hrow as <- <- <-.
      rewrite <- Hd7, <- Hd6. split_and!; [done..|].
      unfold with_updates, update_rows, update_where. simpl. rewrite map_map. done.
    + destruct (errors_Is _ _); [|done].
      destruct (Updates.find_target w1.(w_db) _ _) as [u|] eqn:Et.
      all: apply sql_err_inv in Hfind as ->.
      all: apply bind_ok_inv in Hrow as (id4 & w7 & Hins & Hrow); injection Hrow as <- <- <-.
      all: apply sql_ok_inv in Hins as (Hi & _); unfold Updates.insert_stmt in Hi.
      all: simpl in Hi; destruct (negb _); [done|]; destruct (existsb _ _) eqn:Ee; [done|].
      all: injection Hi as <- <-.
      * apply find_target_some in Et as (Hin & Hs & Hg).
        by destruct (target_absent _ _ _ Ee u Hin); rewrite Hs, Hg.
      * split_and!; [done..|]. eexists. unfold with_updates, update_rows, update_where. done.
  - unfold bind_ok in E. apply bind_inv in E as ([?|e1] & w1 & Hb & E).
    + apply sql_ok_inv in Hb as ([= _ Hd1] & _).
      apply bind_inv in E as ([o|e2] & w2 & _ & E); [done|]. by injection E as _ <-.
    + apply sql_err_inv in Hb as ->. by injection E as _ <-.
Qed.

Lemma superseded_by_key s k : same_key (superseded_by s k).
Proof. intros u. unfold superseded_by. destruct (_ && _); [apply same_key_set_status|done]. Qed.

Lemma drifted_key up id : same_key (drifted up id).
Proof.
  intros u. unfold drifted. destruct (_ =? _); [|apply superseded_by_key].
  destruct (superseded_by_key up.(up_ServiceID) up.(up_ToDigest)
    (Updates.drift_refresh up (or_default up.(up_Severity) "digest-only") u)) as (H1 & H2 & H3).
  destruct (same_key_drift_refresh up (or_default up.(up_Severity) "digest-only") u) as (G1 & G2 & G3).
  by rewrite H1, H2, H3.
Qed.

(** Only an available row is ever superseded. *)
Lemma superseded_by_other s k u : up_Status u <> "available" -> superseded_by s k u = u.
Proof.
  intros Hs. unfold superseded_by, status_in. simpl.
  destruct (String.eqb_spec u.(up_Status) "available"); [done|].
  by rewrite orb_false_r, andb_false_r, andb_false_l.
Qed.

Lemma superseded_by_service s k u : up_ServiceID u <> s -> superseded_by s k u = u.
Proof.
  intros Hs. unfold superseded_by, of_service. destruct (Z.eqb_spec u.(up_ServiceID) s); done.
Qed.

(** What is available after the siblings were superseded has the kept digest. *)
Lemma superseded_by_available s k u :
  up_Status (superseded_by s k u) = "available" -> up_ServiceID u = s -> up_ToDigest u = k.
Proof.
  unfold superseded_by. destruct (_ && _) eqn:E; [done|]. intros Hst Hs.
  apply andb_false_iff in E as [E|E].
  - apply andb_false_iff in E as [E|E].
    + unfold of_service in E. by rewrite Hs, Z.eqb_refl in E.
    + unfold status_in in E. simpl in E. by rewrite Hst in E.
  - apply negb_false_iff in E. by apply String.eqb_eq in E.
Qed.

Definition user_intent (u : Update) : Prop :=
  u.(up_Status) = "dismissed" \/ u.(up_Status) = "rolled_back".

Lemma drifted_intent up id u : user_intent u -> up_Status (drifted up id u) = up_Status u.
Proof.
  intros Hi. unfold drifted. destruct (_ =? _).
  - rewrite superseded_by_other; unfold Updates.drift_refresh; simpl;
      destruct Hi as [He|He]; unfold status_in; by rewrite He.
  - rewrite superseded_by_other; [done|]. by destruct Hi as [-> | ->].
Qed.

Lemma drifted_service up id u : up_ServiceID u <> up.(up_ServiceID) -> up_ID u <> id -> drifted up id u = u.
Proof.
  intros Hs Hid. unfold drifted. destruct (Z.eqb_spec u.(up_ID) id); [done|].
  by apply superseded_by_service.
Qed.

Lemma find_target_none d s dg :
  Updates.find_target d s dg = None <->
  ~ exists u, u ∈ d.(updates).(rows) /\ u.(up_ServiceID) = s /\ u.(up_ToDigest) = dg.
Proof.
  split.
  - intros Hn (u & Hin & <- & <-).
    pose proof (find_none_elem _ _ u Hn Hin) as Hf. simpl in Hf.
    unfold of_service, to_digest_is in Hf. by rewrite Z.eqb_refl, String.eqb_refl in Hf.
  - intros Hn. destruct (Updates.find_target d s dg) as [u|] eqn:E; [|done].
    apply find_target_some in E. destruct Hn. eauto.
Qed.

Definition one_target (d : db) (id s : Z) (dg : string) : Prop :=
  exists v, v ∈ d.(updates).(rows) /\ v.(up_ID) = id /\ v.(up_ServiceID) = s /\ v.(up_ToDigest) = dg.

Definition only_available (d : db) (id s : Z) : Prop :=
  forall v, v ∈ d.(updates).(rows) -> v.(up_ServiceID) = s -> v.(up_Status) = "available" ->
    v.(up_ID) = id.

Definition intent_kept (d d' : db) : Prop :=
  forall u, u ∈ d.(updates).(rows) -> user_intent u ->
    exists v, v ∈ d'.(updates).(rows) /\ v.(up_ID) = u.(up_ID) /\ v.(up_Status) = u.(up_Status).

Definition others_kept (d d' : db) (s : Z) : Prop :=
  forall u, u ∈ d.(updates).(rows) -> u.(up_ServiceID) <> s -> u ∈ d'.(updates).(rows).

Lemma elem_of_map_intro {A B} (f : A -> B) l a : a ∈ l -> f a ∈ map f l.
Proof. rewrite !list_elem_of_In. apply in_map. Qed.

Lemma elem_of_map_elim {A B} (f : A -> B) l b : b ∈ map f l -> exists a, b = f a /\ a ∈ l.
Proof. rewrite list_elem_of_In, in_map_iff. setoid_rewrite list_elem_of_In. naive_solver. Qed.

Lemma drift_effect_spec up d d' id isNew :
  db_ok d -> drift_effect up d d' id isNew ->
  one_target d' id up.(up_ServiceID) up.(up_ToDigest) /\
  only_available d' id up.(up_ServiceID) /\ intent_kept d d' /\ others_kept d d' up.(up_ServiceID).
Proof.
  intros Hok. unfold drift_effect.
  destruct (Updates.find_target d _ _) as [u|] eqn:Et.
  - apply find_target_some in Et as (Hin & Hs & Hg). intros (-> & -> & ->).
    unfold one_target, only_available, intent_kept, others_kept. simpl. split_and!.
    + exists (drifted up u.(up_ID) u). destruct (drifted_key up u.(up_ID) u) as (-> & -> & ->).
      auto using elem_of_map_intro.
    + intros v (a & -> & Ha)%elem_of_map_elim Hsv Hav.
      destruct (drifted_key up u.(up_ID) a) as (K1 & K2 & K3). rewrite K1. rewrite K2 in Hsv.
      assert (up_ToDigest a = up.(up_ToDigest)) as Hd.
      { unfold drifted in Hav. apply superseded_by_available in Hav;
          destruct (_ =? _); destruct (same_key_drift_refresh up (or_default up.(up_Severity) "digest-only") a)
            as (_ & G2 & G3); congruence. }
      f_equal. apply (tbl_key_inj _ _ _ _ _ (ok_updates d Hok)); [done..|]. congruence.
    + intros v Hv Hi. exists (drifted up u.(up_ID) v).
      destruct (drifted_key up u.(up_ID) v) as (-> & _ & _).
      split_and!; [by apply elem_of_map_intro|done|by apply drifted_intent].
    + intros v Hv Hsv. rewrite <- (drifted_service up u.(up_ID) v); [by apply elem_of_map_intro|done|].
      intros He. apply Hsv. rewrite <- Hs. f_equal.
      by apply (tbl_id_inj _ _ _ _ _ (ok_updates d Hok)).
  - apply find_target_none in Et. intros (-> & -> & t & ->).
    unfold one_target, only_available, intent_kept, others_kept. simpl. split_and!.
    + exists (superseded_by up.(up_ServiceID) up.(up_ToDigest) (new_drift up (next_id d.(updates)) t)).
      destruct (superseded_by_key up.(up_ServiceID) up.(up_ToDigest) (new_drift up (next_id d.(updates)) t))
        as (-> & -> & ->). split_and!; [|done..]. apply elem_of_map_intro. set_solver.
    + intros v (a & -> & Ha)%elem_of_map_elim Hsv Hav.
      destruct (superseded_by_key up.(up_ServiceID) up.(up_ToDigest) a) as (K1 & K2 & K3).
      rewrite K1. rewrite K2 in Hsv. apply superseded_by_available in Hav; [|done].
      apply elem_of_app in Ha as [Ha| ->%list_elem_of_singleton]; [|done].
      destruct Et. eauto.
    + intros v Hv Hi. exists v. split_and!; [|done..].
      rewrite <- (superseded_by_other up.(up_ServiceID) up.(up_ToDigest) v) at 1 by by destruct Hi as [-> | ->].
      apply elem_of_map_intro. set_solver.
    + intros v Hv Hsv. rewrite <- (superseded_by_service up.(up_ServiceID) up.(up_ToDigest) v) by done.
      apply elem_of_map_intro. set_solver.
Qed.

(** C7. [RecordDrift] is one transaction: an error leaves the database as it
    was.  When it succeeds, the service has one row for the digest, it is new
    exactly when there was none, no other row of the service is available, what
    the user dismissed or rolled back keeps that status, and the rows of the
    other services are untouched. *)
Theorem RecordDrift_spec `{Env} up w :
  db_ok w.(w_db) ->
  match Updates.RecordDrift up w with
  | (Ok (id, isNew), w') =>
      one_target w'.(w_db) id up.(up_ServiceID) up.(up_ToDigest) /\
      (isNew = true <-> ~ exists u, u ∈ w.(w_db).(updates).(rows) /\
         u.(up_ServiceID) = up.(up_ServiceID) /\ u.(up_ToDigest) = up.(up_ToDigest)) /\
      only_available w'.(w_db) id up.(up_ServiceID) /\
      intent_kept w.(w_db) w'.(w_db) /\ others_kept w.(w_db) w'.(w_db) up.(up_ServiceID)
  | (Err _, w') => w'.(w_db) = w.(w_db)
  end.
Proof.
  intros Hok. pose proof (RecordDrift_effect up w) as H'.
  destruct (Updates.RecordDrift up w) as [[[id isNew]|e] w']; [|done].
  destruct (drift_effect_spec _ _ _ _ _ Hok H') as (H1 & H2 & H3 & H4).
  split_and!; try done. rewrite <- find_target_none.
  unfold drift_effect in H'. destruct (Updates.find_target _ _ _); naive_solver.
Qed.

Definition demo_world (d : db) : world := mkWorld d ∅ [] 0.

Definition demo_drift (dg : string) : Update :=
  mkUpdate 0 1 "sha256:old" dg "" "5.3.0" "5.3" "" "" "" "" "" 0 None.

Lemma RecordDrift_spec_witness :
  db_ok demo_db /\
  (let w' := (@Updates.RecordDrift calm_env (demo_drift "sha256:newer") (demo_world demo_db)).2 in
   only_available w'.(w_db) 2 1 /\ map up_Status w'.(w_db).(updates).(rows) = ["superseded"; "available"]).
Proof.
  split; [apply demo_db_ok|].
  pose proof (@RecordDrift_spec calm_env (demo_drift "sha256:newer") (demo_world demo_db) demo_db_ok) as H.
  vm_compute in H |- *. split; [apply H|reflexivity].
Defined.

Lemma superseded_by_digest s k u : up_ToDigest u = k -> superseded_by s k u = u.
Proof.
  intros <-. unfold superseded_by, to_digest_is. by rewrite String.eqb_refl, andb_false_r.
Qed.

Lemma superseded_by_idem s k u : superseded_by s k (superseded_by s k u) = superseded_by s k u.
Proof.
  unfold superseded_by at 2 3. destruct (_ && _) eqn:E; [|unfold superseded_by; by rewrite E].
  by apply superseded_by_other.
Qed.

Lemma drift_refresh_idem up sev u :
  Updates.drift_refresh up sev (Updates.drift_refresh up sev u) = Updates.drift_refresh up sev u.
Proof.
  destruct u as [i s fd td fv tv tg sv cu ct cs st da aa]. unfold Updates.drift_refresh, status_in. simpl.
  destruct (String.eqb_spec up.(up_FromVersion) ""), (String.eqb_spec up.(up_ToVersion) ""),
    (String.eqb_spec sev "digest-only") as [->|]; simpl;
  repeat match goal with
         | |- context [String.eqb ?x ?y] => destruct (String.eqb_spec x y); simpl; try congruence
         end; try done.
Qed.

Lemma drifted_idem up id u :
  (up_ID u = id -> up_ToDigest u = up.(up_ToDigest)) -> drifted up id (drifted up id u) = drifted up id u.
Proof.
  intros Hd. destruct (drifted_key up id u) as (K & _ & _). unfold drifted at 1. rewrite K.
  unfold drifted at 1. destruct (Z.eqb_spec u.(up_ID) id) as [He|He].
  - unfold drifted. rewrite He, Z.eqb_refl.
    assert (Hr : forall sev, up_ToDigest (Updates.drift_refresh up sev u) = up.(up_ToDigest)).
    { intros sev. destruct (same_key_drift_refresh up sev u) as (_ & _ & ->). auto. }
    rewrite (superseded_by_digest _ _ (Updates.drift_refresh up _ u)) by apply Hr.
    rewrite drift_refresh_idem. apply superseded_by_digest, Hr.
  - unfold drifted. rewrite (proj2 (Z.eqb_neq _ _) He). apply superseded_by_idem.
Qed.

Lemma drifted_superseded up id u :
  up_ID u <> id -> drifted up id (superseded_by up.(up_ServiceID) up.(up_ToDigest) u)
                   = superseded_by up.(up_ServiceID) up.(up_ToDigest) u.
Proof.
  intros He. unfold drifted. destruct (superseded_by_key up.(up_ServiceID) up.(up_ToDigest) u) as (-> & _).
  rewrite (proj2 (Z.eqb_neq _ _) He). apply superseded_by_idem.
Qed.

Lemma drifted_new up id t :
  or_default up.(up_Status) "available" = "available" -> drifted up id (new_drift up id t) = new_drift up id t.
Proof.
  intros Hst. unfold drifted. simpl. rewrite Z.eqb_refl.
  assert (Hr : forall sev, or_default up.(up_Severity) "digest-only" = sev ->
            Updates.drift_refresh up sev (new_drift up id t) = new_drift up id t).
  { intros sev <-. unfold Updates.drift_refresh, new_drift, status_in. simpl. rewrite Hst. simpl.
    unfold up_set_status, up_set_descriptor. simpl.
    destruct (String.eqb_spec up.(up_FromVersion) "") as [->|], (String.eqb_spec up.(up_ToVersion) "") as [->|];
      f_equal; match goal with |- (if ?b then _ else _) = _ => by destruct b end. }
  rewrite Hr by done. by apply superseded_by_digest.
Qed.

Lemma find_target_unique d u :
  db_ok d -> u ∈ d.(updates).(rows) ->
  Updates.find_target d u.(up_ServiceID) u.(up_ToDigest) = Some u.
Proof.
  intros Hok Hin. destruct (Updates.find_target d _ _) as [v|] eqn:E.
  - apply find_target_some in E as (Hv & Hs & Hg). f_equal.
    apply (tbl_key_inj _ _ _ _ _ (ok_updates d Hok)); [done..|]. congruence.
  - apply find_target_none in E. destruct E. eauto.
Qed.

Lemma drift_tx_keeps_ok `{Env} d0 up sev st :
  db_ok d0 -> keeps (on_db db_ok) (Updates.drift_tx d0 up sev st).
Proof.
  intros Hd0. assert (forall e, keeps (on_db db_ok) (Updates.rollback (A := Z * bool) d0 e))
    by by intros e v _.
  unfold Updates.drift_tx, Updates.drift_row, Updates.supersede_prior_stmt. keeps_walk.
Qed.

Lemma RecordDrift_keeps_ok `{Env} up : keeps (on_db db_ok) (Updates.RecordDrift up).
Proof. intros w Hw. by apply drift_tx_keeps_ok. Qed.

(** Re-detection is idempotent: recording the same drift a second time
    finds the row (it is not new) and changes nothing. *)
Theorem RecordDrift_idempotent `{Env} up w id isNew w1 id2 isNew2 w2 :
  db_ok w.(w_db) -> or_default up.(up_Status) "available" = "available" ->
  Updates.RecordDrift up w = (Ok (id, isNew), w1) ->
  Updates.RecordDrift up w1 = (Ok (id2, isNew2), w2) ->
  id2 = id /\ isNew2 = false /\ w2.(w_db) = w1.(w_db).
Proof.
  intros Hok Hst H1 H2.
  pose proof (RecordDrift_effect up w) as E1. rewrite H1 in E1.
  pose proof (RecordDrift_effect up w1) as E2. rewrite H2 in E2.
  destruct (drift_effect_spec _ _ _ _ _ Hok E1) as ((v & Hv & Hid & Hs & Hg) & _ & _).
  pose proof (RecordDrift_keeps_ok up w Hok) as Hok1. rewrite H1 in Hok1. simpl in Hok1.
  unfold drift_effect in E2. rewrite <- Hs, <- Hg, find_target_unique in E2 by done.
  destruct E2 as (-> & -> & Hd2). split_and!; [done..|]. rewrite Hd2.
  enough (Hm : map (drifted up (up_ID v)) w1.(w_db).(updates).(rows) = w1.(w_db).(updates).(rows)).
  { rewrite Hm. by destruct w1.(w_db) as [[]]. }
  clear H1 H2 Hd2 w2. unfold drift_effect in E1.
  destruct (Updates.find_target w.(w_db) _ _) as [u|] eqn:Et.
  - destruct E1 as (-> & Hi & Hd1). rewrite Hd1. simpl. rewrite map_map. apply map_ext_in.
    intros a Ha. rewrite <- list_elem_of_In in Ha. apply find_target_some in Et as (Hu & Hsu & Hgu).
    rewrite Hid, Hi. apply drifted_idem. intros Ha'. rewrite <- Hgu. f_equal.
    by apply (tbl_id_inj _ _ _ _ _ (ok_updates _ Hok)).
  - destruct E1 as (-> & Hi & t & Hd1). rewrite Hd1, Hid, Hi. simpl. rewrite !map_app. f_equal.
    + rewrite map_map. apply map_ext_in. intros a Ha. apply drifted_superseded.
      rewrite <- list_elem_of_In in Ha. pose proof (tbl_bound _ _ _ (ok_updates _ Hok)) as Hb.
      rewrite Forall_forall in Hb. specialize (Hb a Ha). unfold next_id. lia.
    + simpl. f_equal. rewrite superseded_by_digest by done. by apply drifted_new.
Qed.

Lemma RecordDrift_idempotent_witness :
  let w := demo_world demo_db in
  let up := demo_drift "sha256:newer" in
  let w1 := (@Updates.RecordDrift calm_env up w).2 in
  let w2 := (@Updates.RecordDrift calm_env up w1).2 in
  w1.(w_tick) = 5%nat /\ w2.(w_tick) = 10%nat /\ w2.(w_db) = w1.(w_db).
Proof.
  split_and!; [vm_compute; reflexivity..|].
  refine (proj2 (proj2 (@RecordDrift_idempotent calm_env (demo_drift "sha256:newer") (demo_world demo_db)
    2 true _ 2 false _ demo_db_ok _ _ _))); vm_compute; reflexivity.
Defined.
