(* ===== verification/StoreJobs.v ===== *)
(** * The jobs and job_logs repositories (internal/store/jobs.go) *)

From stdpp Require Import base list strings gmap.
From Stdlib Require Import Sorted.
From S2P Require Import Prelude GoStd Clock Db Integrity World StoreUpdates.

Local Open Scope Z_scope.

Definition job_set (status : string) (started finished code : option Z) (err : string) (j : Job) : Job :=
  mkJob j.(job_ID) j.(job_Type) j.(job_ProjectID) j.(job_ServiceID) status j.(job_Scope)
    j.(job_RequestedBy) j.(job_CreatedAt) started finished code err.

Definition job_status_in (l : list string) (j : Job) : bool := existsb (String.eqb j.(job_Status)) l.
Definition queued (j : Job) : bool := job_status_in ["queued"] j.
Definition running (j : Job) : bool := job_status_in ["running"] j.

(** [finishedStatuses] *)
Definition finished (j : Job) : bool := job_status_in ["success"; "failed"; "canceled"] j.

Module Jobs.

Definition ErrJobNotFound : error := Sentinel "job not found".

Definition insert_job (job : Job) (status scope by_ : string) : stmt Z := fun t d =>
  if negb (has_id_opt pr_ID d.(projects) job.(job_ProjectID)
           && has_id_opt sv_ID d.(services) job.(job_ServiceID))
  then Err ErrForeignKey
  else
    let id := next_id d.(jobs) in
    let row := mkJob id job.(job_Type) job.(job_ProjectID) job.(job_ServiceID) status scope by_
                 t None None None "" in
    Ok (id, with_jobs (insert_row row d.(jobs)) d).

Definition update_jobs (p : Job -> bool) (g : Job -> Job) : stmt Z := fun _ d =>
  Ok (count_where p d.(jobs).(rows), with_jobs (update_rows p g d.(jobs)) d).

(** The rows are in the order of their ids: the first one that is queued. *)
Definition oldest_queued (d : db) : option Job := List.find queued d.(jobs).(rows).

Definition claim (t : Z) (j : Job) : Job :=
  job_set "running" (Some t) j.(job_FinishedAt) j.(job_ExitCode) j.(job_Error) j.

Definition claim_stmt : stmt (option Job) := fun t d =>
  match oldest_queued d with
  | None => Ok (None, d)
  | Some j => Ok (Some (claim t j),
                  with_jobs (update_rows (fun k => k.(job_ID) =? j.(job_ID)) (claim t) d.(jobs)) d)
  end.

Definition find_job (d : db) (id : Z) : option Job :=
  List.find (fun j => j.(job_ID) =? id) d.(jobs).(rows).

(** The newest of the rows [p] selects: [ORDER BY id DESC LIMIT 1]. *)
Definition newest_job (p : Job -> bool) (d : db) : option Job :=
  List.find p (rev d.(jobs).(rows)).

Record JobListRow := mkJobListRow { row_Job : Job; row_ProjectName : string; row_ServiceName : string }.

Definition project_name (d : db) (o : option Z) : string :=
  match List.find (fun p => opt_Zeqb o p.(pr_ID)) d.(projects).(rows) with
  | Some p => p.(pr_Name) | None => ""
  end.
Definition service_name (d : db) (o : option Z) : string :=
  match List.find (fun s => opt_Zeqb o s.(sv_ID)) d.(services).(rows) with
  | Some s => s.(sv_Name) | None => ""
  end.

Definition clamp_limit (limit : Z) : Z := if (limit <=? 0) || (500 <? limit) then 50 else limit.

Definition list_jobs (limit : Z) (d : db) : list JobListRow :=
  map (fun j => mkJobListRow j (project_name d j.(job_ProjectID)) (service_name d j.(job_ServiceID)))
    (take (Z.to_nat (clamp_limit limit)) (rev d.(jobs).(rows))).

Section Repository.
Context {E : Env}.

Definition Enqueue (job : Job) : M world (result Z) :=
  let status := or_default job.(job_Status) "queued" in
  let scope := or_default job.(job_Scope) "service" in
  let by_ := or_default job.(job_RequestedBy) "user" in
  sql "jobs.Enqueue" 0 (insert_job job status scope by_).

(** [None]: the queue is empty ([ok = false]). *)
Definition ClaimNext : M world (result (option Job)) := sql "jobs.ClaimNext" 0 claim_stmt.

Definition Finish (id : Z) (status : string) (exitCode : option Z) (errMsg : string) : M world (result unit) :=
  try? sql ("jobs.Finish " +:+ status) id (fun t =>
    update_jobs (fun j => j.(job_ID) =? id)
      (fun j => job_set status j.(job_StartedAt) (Some t) exitCode errMsg j) t) in
  ret (Ok tt).

Definition ResumeRunning : M world (result Z) :=
  sql "jobs.ResumeRunning" 0
    (update_jobs running (fun j => job_set "queued" None j.(job_FinishedAt) j.(job_ExitCode) j.(job_Error) j)).

Definition Get (id : Z) : M world (result Job) :=
  sql "jobs.Get" id (fun _ d =>
    match find_job d id with Some j => Ok (j, d) | None => Err ErrJobNotFound end).

Definition ActiveByType (jobType : string) : M world (result (option Job)) :=
  sql "jobs.ActiveByType" 0 (query (newest_job
    (fun j => String.eqb j.(job_Type) jobType && job_status_in ["queued"; "running"] j))).

Definition List_ (limit : Z) : M world (result (list JobListRow)) :=
  sql "jobs.List" 0 (query (list_jobs limit)).

Definition DeleteFinished : M world (result Z) :=
  sql "jobs.DeleteFinished" 0 (fun _ d => Ok (count_where finished d.(jobs).(rows), delete_jobs finished d)).

(** The statement compares texts: [created_at] is as CURRENT_TIMESTAMP writes it, the
    cutoff as [sqliteTimeLayout] prints it. *)
Definition created_before (t : Z) (j : Job) : bool := str_less (sqlite_time j.(job_CreatedAt)) (sqlite_time t).

Definition DeleteFinishedBefore (t : Z) : M world (result Z) :=
  let p j := finished j && created_before t j in
  sql "jobs.DeleteFinishedBefore" 0 (fun _ d => Ok (count_where p d.(jobs).(rows), delete_jobs p d)).

End Repository.
End Jobs.

Module JobLogs.
Section Repository.
Context {E : Env}.

Definition Append (jobID : Z) (stream line : string) : M world (result unit) :=
  let stream := or_default stream "stdout" in
  try? sql "job_logs.Append" jobID (fun t d =>
    if negb (has_id job_ID d.(jobs) jobID) then Err ErrForeignKey
    else Ok (tt, with_job_logs (insert_row (mkJobLog (next_id d.(job_logs)) jobID stream line t)
                                 d.(job_logs)) d)) in
  ret (Ok tt).

Definition ListByJob (jobID : Z) : M world (result (list JobLog)) :=
  sql "job_logs.ListByJob" jobID (query (fun d =>
    List.filter (fun l => l.(log_JobID) =? jobID) d.(job_logs).(rows))).

End Repository.
End JobLogs.

(** ** Integrity *)

(** A change of a job that keeps its id, project and service. *)
Definition same_job (g : Job -> Job) : Prop :=
  forall j, (g j).(job_ID) = j.(job_ID) /\ (g j).(job_ProjectID) = j.(job_ProjectID) /\
            (g j).(job_ServiceID) = j.(job_ServiceID).

Lemma with_job_rows_ok p g d :
  same_job g -> db_ok d -> db_ok (with_jobs (update_rows p g d.(jobs)) d).
Proof.
  intros Hg H. destruct H; split; db_proj; try assumption.
  - apply tbl_ok_update; [intros; apply Hg..|done].
  - apply refers_update_right; [intros; apply Hg|done].
  - apply refers_opt_update_right; [intros; apply Hg|done].
  - apply refers_opt_update_right; [intros; apply Hg|done].
  - apply refers_opt_update_left; [|done]. intros a k. by destruct (Hg a) as (_ & _ & ->).
  - apply refers_opt_update_left; [|done]. intros a k. by destruct (Hg a) as (_ & -> & _).
Qed.

Lemma update_jobs_ok p (g : Z -> Job -> Job) :
  (forall t, same_job (g t)) -> stmt_keeps db_ok (fun t => Jobs.update_jobs p (g t) t).
Proof. intros Hg t d a d' Hd [= <- <-]. by apply with_job_rows_ok. Qed.

Lemma fresh_id {A} (id : A -> Z) {K} (key : A -> K) (t : table A) a :
  tbl_ok id key t -> a ∈ t.(rows) -> id a <> next_id t.
Proof.
  intros [_ Hb _] Ha. rewrite Forall_forall in Hb. specialize (Hb a Ha). unfold next_id. lia.
Qed.

Lemma fresh_id_map {A} (id : A -> Z) {K} (key : A -> K) (t : table A) :
  tbl_ok id key t -> next_id t ∉ map id t.(rows).
Proof. intros Hok (a & He & Ha)%elem_of_map_elim. by apply (fresh_id id key t a) in Hok. Qed.

Lemma has_id_opt_true {A} (id : A -> Z) (t : table A) o k :
  has_id_opt id t o = true -> o = Some k -> exists a, a ∈ t.(rows) /\ id a = k.
Proof. intros H ->. by apply has_id_true. Qed.

Lemma insert_job_ok job a b c : stmt_keeps db_ok (Jobs.insert_job job a b c).
Proof.
  intros t d id d' Hd. unfold Jobs.insert_job.
  destruct (_ && _) eqn:E; simpl; [|done]. apply andb_true_iff in E as [Hp Hs].
  intros [= <- <-]. pose proof (fresh_id_map job_ID job_ID _ (ok_jobs d Hd)) as Hf.
  destruct Hd; split; db_proj; try assumption; try db_clause.
  - by apply tbl_ok_insert.
  - apply refers_opt_insert_left; [assumption|]. simpl. intros k. by apply has_id_opt_true.
  - apply refers_opt_insert_left; [assumption|]. simpl. intros k. by apply has_id_opt_true.
Qed.

Lemma claim_stmt_ok : stmt_keeps db_ok Jobs.claim_stmt.
Proof.
  intros t d a d' Hd. unfold Jobs.claim_stmt. destruct (Jobs.oldest_queued d); intros [= <- <-]; [|done].
  by apply with_job_rows_ok.
Qed.

Lemma delete_jobs_stmt_ok p : stmt_keeps db_ok (fun _ d => Ok (count_where p d.(jobs).(rows), delete_jobs p d)).
Proof. intros t d a d' Hd [= <- <-]. by apply delete_jobs_ok. Qed.

Lemma append_log_ok jobID st line :
  stmt_keeps db_ok (fun t d =>
    if negb (has_id job_ID d.(jobs) jobID) then Err ErrForeignKey
    else Ok (tt, with_job_logs (insert_row (mkJobLog (next_id d.(job_logs)) jobID st line t)
                                 d.(job_logs)) d)).
Proof.
  intros t d a d' Hd. destruct (has_id _ _ _) eqn:E; simpl; [|done]. intros [= <- <-].
  pose proof (fresh_id_map log_ID log_ID _ (ok_logs d Hd)) as Hf.
  destruct Hd; split; db_proj; try assumption; try db_clause.
  - by apply tbl_ok_insert.
  - apply refers_insert_left; [assumption|]. by apply has_id_true.
Qed.

#[export] Hint Resolve insert_job_ok claim_stmt_ok delete_jobs_stmt_ok append_log_ok update_jobs_ok : keeps.
#[export] Hint Extern 1 (same_job _) => by intros [] : keeps.
#[export] Hint Extern 2 (stmt_keeps db_ok (Jobs.update_jobs ?p ?g)) =>
  refine (update_jobs_ok p (fun _ => g) _); intros _ : keeps.

(** ** Claiming *)

Lemma find_first_split {A} (p : A -> bool) l a :
  List.find p l = Some a -> exists l1 l2, l = l1 ++ a :: l2 /\ p a = true /\ Forall (fun x => p x = false) l1.
Proof.
  induction l as [|x l IH]; simpl; [done|]. destruct (p x) eqn:Ep.
  - intros [= <-]. by exists [], l.
  - intros H. destruct (IH H) as (l1 & l2 & -> & Hp & HF). exists (x :: l1), l2. simpl. auto.
Qed.

Lemma sorted_before {A} (id : A -> Z) l1 a l2 b :
  StronglySorted Z.lt (map id (l1 ++ a :: l2)) -> b ∈ l2 -> id a < id b.
Proof.
  induction l1 as [|x l1 IH]; simpl; intros Hs Hb; inversion Hs as [|? ? Hl Hx]; subst; [|auto].
  rewrite Forall_map, Forall_forall in Hx. by apply Hx.
Qed.

(** No row with this id is queued. *)
Definition not_queued (d : db) (id : Z) : Prop :=
  forall k, k ∈ d.(jobs).(rows) -> k.(job_ID) = id -> queued k = false.

(** What a claim may answer and leave. *)
Definition claims_oldest (w : world) (out : result (option Job) * world) : Prop :=
  match out with
  | (Ok (Some j), w') =>
      exists j0, j0 ∈ w.(w_db).(jobs).(rows) /\ queued j0 = true /\
        j.(job_ID) = j0.(job_ID) /\ j.(job_Status) = "running" /\ j.(job_Type) = j0.(job_Type) /\
        (forall k, k ∈ w.(w_db).(jobs).(rows) -> queued k = true -> j0.(job_ID) <= k.(job_ID)) /\
        j ∈ w'.(w_db).(jobs).(rows) /\ not_queued w'.(w_db) j.(job_ID) /\
        (forall k, k ∈ w.(w_db).(jobs).(rows) -> k.(job_ID) <> j.(job_ID) -> k ∈ w'.(w_db).(jobs).(rows))
  | (Ok None, w') =>
      w'.(w_db) = w.(w_db) /\ forall k, k ∈ w.(w_db).(jobs).(rows) -> queued k = false
  | (Err _, w') => w'.(w_db) = w.(w_db)
  end.

Lemma ClaimNext_claims `{Env} w : db_ok w.(w_db) -> claims_oldest w (Jobs.ClaimNext w).
Proof.
  intros Hok. unfold claims_oldest.
  destruct (Jobs.ClaimNext w) as [[[j|]|e] w'] eqn:E; unfold Jobs.ClaimNext in E.
  - apply sql_ok_inv in E as (Hst & _). unfold Jobs.claim_stmt in Hst.
    destruct (Jobs.oldest_queued w.(w_db)) as [j0|] eqn:Eo; [|done]. injection Hst as <- Hd.
    destruct (find_elem _ _ _ Eo) as (Hin & Hq). exists j0. rewrite <- Hd. split_and!; try done.
    + intros k Hk Hkq. destruct (find_first_split _ _ _ Eo) as (l1 & l2 & Hl & _ & HF).
      pose proof (tbl_sorted _ _ _ (ok_jobs _ Hok)) as Hs. rewrite Hl in Hs, Hk.
      rewrite elem_of_app, elem_of_cons in Hk. destruct Hk as [Hk|[->|Hk]]; [|lia|].
      * rewrite Forall_forall in HF. rewrite (HF k Hk) in Hkq. done.
      * pose proof (sorted_before job_ID _ _ _ _ Hs Hk). lia.
    + simpl. apply elem_of_update_where. exists j0. by rewrite Z.eqb_refl.
    + simpl. intros k (a & Ha & ->)%elem_of_update_where. destruct (_ =? _) eqn:Ei; [done|].
      simpl. intros He. apply Z.eqb_neq in Ei. done.
    + simpl. intros k Hk Hne. apply elem_of_update_where. exists k. split; [done|].
      by apply Z.eqb_neq in Hne as ->.
  - apply sql_ok_inv in E as (Hst & _). unfold Jobs.claim_stmt in Hst.
    destruct (Jobs.oldest_queued w.(w_db)) as [j0|] eqn:Eo; [done|]. injection Hst as <-.
    split; [done|]. intros k. by apply find_none_elem.
  - by apply sql_err_inv in E as ->.
Qed.

(** [ClaimNext] takes the oldest queued job, marks it running and touches
    no other row; it answers "none" exactly when nothing is queued; and it
    changes nothing when it fails. *)
Theorem ClaimNext_spec `{Env} w : db_ok w.(w_db) -> claims_oldest w (Jobs.ClaimNext w).
Proof. apply ClaimNext_claims. Qed.

Definition demo_job (id : Z) (type status : string) (project service : option Z) : Job :=
  mkJob id type project service status "service" "user" 1700000000 None None None "".

Definition demo_queue : db :=
  with_jobs (mkTable [demo_job 1 "check" "success" (Some 1) None;
                      demo_job 2 "apply" "queued" (Some 1) (Some 1);
                      demo_job 3 "sync" "queued" None None] 3) demo_db.

Lemma demo_queue_ok : db_ok demo_queue.
Proof. apply db_okb_ok. vm_compute. reflexivity. Qed.

Lemma ClaimNext_spec_witness :
  (@Jobs.ClaimNext calm_env (demo_world demo_queue)).1
    = Ok (Some (Jobs.claim 1700000000 (demo_job 2 "apply" "queued" (Some 1) (Some 1)))) /\
  not_queued (@Jobs.ClaimNext calm_env (demo_world demo_queue)).2.(w_db) 2.
Proof.
  pose proof (@ClaimNext_spec calm_env (demo_world demo_queue) demo_queue_ok) as Hc.
  split; [vm_compute; reflexivity|].
  vm_compute in Hc |- *. destruct Hc as (j0 & _ & _ & _ & _ & _ & _ & _ & Hn & _). exact Hn.
Defined.

(** *** Sequences of queue operations *)

Inductive queue_op :=
| OpEnqueue (job : Job)
| OpClaim
| OpFinish (id : Z) (status : string) (code : option Z) (msg : string)
| OpDeleteFinished
| OpDeleteFinishedBefore (t : Z).

(** A worker finishes a job with a terminal status. *)
Definition op_ok (o : queue_op) : Prop :=
  match o with OpFinish _ st _ _ => st ∈ ["success"; "failed"; "canceled"] | _ => True end.

(** The id a step claimed, if it claimed one. *)
Definition run_op `{Env} (o : queue_op) : M world (option Z) :=
  match o with
  | OpEnqueue job => do! Jobs.Enqueue job in ret None
  | OpClaim =>
      let! r := Jobs.ClaimNext in
      ret (match r with Ok (Some j) => Some j.(job_ID) | _ => None end)
  | OpFinish id st code msg => do! Jobs.Finish id st code msg in ret None
  | OpDeleteFinished => do! Jobs.DeleteFinished in ret None
  | OpDeleteFinishedBefore t => do! Jobs.DeleteFinishedBefore t in ret None
  end.

Fixpoint claims `{Env} (ops : list queue_op) (w : world) : list Z :=
  match ops with
  | [] => []
  | o :: ops' => let '(r, w') := run_op o w in
                 match r with Some id => id :: claims ops' w' | None => claims ops' w' end
  end.

(** The job [id] was claimed: it has an id, and nothing queued has it. *)
Definition claimed (id : Z) (d : db) : Prop := id <= d.(jobs).(seq) /\ not_queued d id.

Lemma claimed_update p (g : Z -> Job -> Job) id :
  (forall t j, (g t j).(job_ID) = j.(job_ID)) ->
  (forall t j, queued (g t j) = true -> queued j = true) ->
  stmt_keeps (claimed id) (fun t => Jobs.update_jobs p (g t) t).
Proof.
  intros Hi Hq t d a d' [Hs Hn] [= <- <-]. split; [done|]. simpl.
  intros k (j & Hj & ->)%elem_of_update_where Hk. destruct (p j); [|by apply Hn].
  destruct (queued (g t j)) eqn:E; [|done]. apply Hq in E. rewrite Hi in Hk.
  by rewrite (Hn j Hj Hk) in E.
Qed.

Lemma claimed_delete p id : stmt_keeps (claimed id) (fun _ d => Ok (count_where p d.(jobs).(rows), delete_jobs p d)).
Proof.
  intros t d a d' [Hs Hn] [= <- <-]. split; [done|]. simpl.
  intros k [Hk _]%elem_of_filterb. by apply Hn.
Qed.

Lemma claimed_insert job a b c id : stmt_keeps (claimed id) (Jobs.insert_job job a b c).
Proof.
  intros t d i d' [Hs Hn]. unfold Jobs.insert_job. destruct (_ && _); simpl; [|done].
  intros [= <- <-]. split; simpl; unfold next_id in *; [lia|].
  intros k [Hk| ->%list_elem_of_singleton]%elem_of_app; [by apply Hn|]. simpl. lia.
Qed.

Lemma claimed_claim id : stmt_keeps (claimed id) Jobs.claim_stmt.
Proof.
  intros t d a d' [Hs Hn]. unfold Jobs.claim_stmt. destruct (Jobs.oldest_queued d); intros [= <- <-]; [|done].
  split; [done|]. simpl. intros k (x & Hx & ->)%elem_of_update_where.
  destruct (_ =? _); [done|]. by apply Hn.
Qed.

Lemma run_op_keeps_ok `{Env} o : keeps (on_db db_ok) (run_op o).
Proof.
  destruct o; simpl; unfold Jobs.Enqueue, Jobs.ClaimNext, Jobs.Finish, Jobs.DeleteFinished,
    Jobs.DeleteFinishedBefore; keeps_walk.
Qed.

Lemma run_op_keeps_claimed `{Env} o id : op_ok o -> keeps (on_db (claimed id)) (run_op o).
Proof.
  intros Ho. destruct o; simpl in *; unfold Jobs.Enqueue, Jobs.ClaimNext, Jobs.Finish, Jobs.DeleteFinished,
    Jobs.DeleteFinishedBefore; keeps_walk; apply keeps_sql_db.
  - apply claimed_insert.
  - apply claimed_claim.
  - apply (claimed_update _ (fun t j => job_set status j.(job_StartedAt) (Some t) code msg j)); [done|].
    intros t j. simpl. unfold queued, job_status_in. simpl. set_solver.
  - apply claimed_delete.
  - apply claimed_delete.
Qed.

Lemma claims_fresh `{Env} ops w id :
  Forall op_ok ops -> db_ok w.(w_db) -> claimed id w.(w_db) -> id ∉ claims ops w.
Proof.
  revert w. induction ops as [|o ops IH]; intros w Hops Hok Hc; simpl; [set_solver|].
  inversion Hops as [|? ? Ho Hops']; subst.
  pose proof (run_op_keeps_claimed o id Ho w Hc) as Hc'.
  pose proof (run_op_keeps_ok o w Hok) as Hok'.
  destruct (run_op o w) as [r w'] eqn:Er. simpl in *. specialize (IH w' Hops' Hok' Hc').
  destruct r as [i|]; [|done]. apply not_elem_of_cons. split; [|done]. intros <-.
  destruct o; simpl in Er; apply bind_inv in Er as (x & w1 & Hx & Hr); try done.
  injection Hr as Hr <-. destruct x as [[j|]|]; try done. injection Hr as <-.
  pose proof (ClaimNext_claims w Hok) as Hspec. rewrite Hx in Hspec.
  destruct Hspec as (j0 & Hin & Hq & Hid & _). destruct Hc as [_ Hn].
  by rewrite (Hn j0 Hin (eq_sym Hid)) in Hq.
Qed.

(** No job is claimed twice: whatever is enqueued, claimed, finished or
    purged in between, and whatever statements fail, the ids the workers got
    from [ClaimNext] are pairwise different. *)
Theorem claims_NoDup `{Env} ops w :
  Forall op_ok ops -> db_ok w.(w_db) -> NoDup (claims ops w).
Proof.
  revert w. induction ops as [|o ops IH]; intros w Hops Hok; simpl; [constructor|].
  inversion Hops as [|? ? Ho Hops']; subst.
  pose proof (run_op_keeps_ok o w Hok) as Hok'.
  destruct (run_op o w) as [r w'] eqn:Er. simpl in *. destruct r as [i|]; [|by apply IH].
  constructor; [|by apply IH]. apply claims_fresh; [done..|].
  destruct o; simpl in Er; apply bind_inv in Er as (x & w1 & Hx & Hr); try done.
  injection Hr as Hr <-. destruct x as [[j|]|]; try done. injection Hr as <-.
  pose proof (ClaimNext_claims w Hok) as Hspec. rewrite Hx in Hspec.
  destruct Hspec as (j0 & _ & _ & _ & _ & _ & _ & Hj & Hn & _). split; [|done].
  pose proof (tbl_bound _ _ _ (ok_jobs _ Hok')) as Hb. rewrite Forall_forall in Hb. by apply Hb.
Qed.

Lemma claims_NoDup_witness :
  let ops := [OpClaim; OpEnqueue (demo_job 0 "check" "" (Some 1) None); OpClaim;
              OpFinish 2 "success" None ""; OpDeleteFinished; OpClaim; OpClaim] in
  @claims calm_env ops (demo_world demo_queue) = [2; 3; 4] /\
  NoDup (@claims calm_env ops (demo_world demo_queue)).
Proof.
  split; [vm_compute; reflexivity|].
  apply (@claims_NoDup calm_env); [repeat constructor; simpl; set_solver|apply demo_queue_ok].
Defined.
