(* ===== verification/Fifo.v ===== *)
(** * The order of the queue (internal/store/jobs.go)

    The table of the jobs seen as a queue of ids: enqueuing appends, claiming takes the
    head.  No job is overtaken, and none starves while claims are answered. *)

From stdpp Require Import base list strings gmap.
From Stdlib Require Import Sorted.
From S2P Require Import Prelude GoStd Clock Db Integrity World StoreUpdates StoreJobs.

Local Open Scope Z_scope.

(** The ids of the queued jobs, the oldest first. *)
Definition queue (d : db) : list Z := map job_ID (List.filter queued d.(jobs).(rows)).

(** The abstract queue: the last id given out, and the ids that wait, the next one
    first; and what each operation does to it. *)
Record fifo_state := mkFifo { issued : Z; waiting : list Z }.

Definition fifo_of (d : db) : fifo_state := mkFifo d.(jobs).(seq) (queue d).

Inductive fifo : queue_op -> fifo_state -> option Z -> fifo_state -> Prop :=
| fifo_push job s q : fifo (OpEnqueue job) (mkFifo s q) None (mkFifo (s + 1) (q ++ [s + 1]))
| fifo_unqueued job s q : fifo (OpEnqueue job) (mkFifo s q) None (mkFifo (s + 1) q)
| fifo_pop s q id : fifo OpClaim (mkFifo s (id :: q)) (Some id) (mkFifo s q)
| fifo_empty s : fifo OpClaim (mkFifo s []) None (mkFifo s [])
| fifo_leave id st code msg s q :
    fifo (OpFinish id st code msg) (mkFifo s q) None (mkFifo s (List.filter (fun i => negb (i =? id)) q))
| fifo_purge s : fifo OpDeleteFinished s None s
| fifo_purge_before t s : fifo (OpDeleteFinishedBefore t) s None s.

(** ** Lists of rows *)

Lemma filter_map_comm {A B} (p : B -> bool) (f : A -> B) l :
  List.filter p (map f l) = map f (List.filter (fun a => p (f a)) l).
Proof. induction l as [|a l IH]; [done|]. simpl. destruct (p (f a)); simpl; by rewrite IH. Qed.

Lemma filter_none {A} (p : A -> bool) l : Forall (fun a => p a = false) l -> List.filter p l = [].
Proof. induction 1 as [|a l Ha _ IH]; [done|]. simpl. by rewrite Ha. Qed.

Lemma filter_all {A} (p : A -> bool) l : Forall (fun a => p a = true) l -> List.filter p l = l.
Proof. induction 1 as [|a l Ha _ IH]; [done|]. simpl. by rewrite Ha, IH. Qed.

Lemma filter_update_where (p q : Job -> bool) g l :
  (forall j, p j = true -> q (g j) = false) ->
  (forall j, p j = true -> (g j).(job_ID) = j.(job_ID)) ->
  List.filter q (update_where p g l) = List.filter (fun j => q j && negb (p j)) l.
Proof.
  intros Hq Hi. induction l as [|j l IH]; [done|]. simpl. rewrite IH. destruct (p j) eqn:Ep.
  - rewrite (Hq j Ep), andb_false_r. done.
  - by rewrite andb_true_r.
Qed.

Lemma filter_and {A} (p q : A -> bool) l : List.filter (fun a => p a && q a) l = List.filter q (List.filter p l).
Proof.
  induction l as [|a l IH]; [done|]. simpl. destruct (p a); simpl; [|done]. by destruct (q a); rewrite IH.
Qed.

(** Taking the rows of an id out of the queue. *)
Lemma queue_update id g d :
  (forall j, queued (g j) = false) -> (forall j, (g j).(job_ID) = j.(job_ID)) ->
  queue (with_jobs (update_rows (fun j => j.(job_ID) =? id) g d.(jobs)) d)
    = List.filter (fun i => negb (i =? id)) (queue d).
Proof.
  intros Hq Hi. unfold queue. simpl. rewrite filter_update_where by auto.
  by rewrite filter_and, filter_map_comm.
Qed.

(** Deleting finished rows leaves the queue. *)
Lemma queue_delete p d : (forall j, p j = true -> queued j = false) -> queue (delete_jobs p d) = queue d.
Proof.
  intros Hp. unfold queue, delete_jobs. simpl. f_equal. induction d.(jobs).(rows) as [|j l IH]; [done|]. simpl.
  destruct (p j) eqn:Ep; simpl; [by rewrite (Hp j Ep)|]. by rewrite IH.
Qed.

Lemma finished_not_queued j : finished j = true -> queued j = false.
Proof.
  unfold finished, queued, job_status_in. intros (st & Hst & He)%existsb_exists. apply String.eqb_eq in He as ->.
  simpl in Hst. by destruct Hst as [<-|[<-|[<-|[]]]].
Qed.

Section Fifo.
Context {E : Env}.

(** The head of the queue is what a claim takes. *)
Lemma claim_pops t d r d' : db_ok d -> Jobs.claim_stmt t d = Ok (r, d') ->
  fifo OpClaim (fifo_of d) (job_ID <$> r) (fifo_of d').
Proof.
  intros Hok. unfold Jobs.claim_stmt, Jobs.oldest_queued. destruct (List.find _ _) as [j|] eqn:Ef; intros [= <- <-].
  - unfold fifo_of. rewrite queue_update by done. destruct (find_first_split _ _ _ Ef) as (l1 & l2 & Hl & Hj & Hno).
    pose proof (tbl_sorted _ _ _ (ok_jobs _ Hok)) as Hs. rewrite Hl in Hs.
    assert (Hq : queue d = j.(job_ID) :: map job_ID (List.filter queued l2)).
    { unfold queue. rewrite Hl, List.filter_app, (filter_none _ l1 Hno). simpl. by rewrite Hj. }
    rewrite Hq. simpl. rewrite Z.eqb_refl. simpl. rewrite (filter_all (fun i => negb (i =? j.(job_ID)))); [apply fifo_pop|].
    apply Forall_map, Forall_forall. intros k [Hk _]%elem_of_filterb.
    pose proof (sorted_before job_ID _ _ _ _ Hs Hk). apply negb_true_iff, Z.eqb_neq. lia.
  - assert (Hq : queue d = []).
    { unfold queue. rewrite (filter_none queued); [done|]. apply Forall_forall. intros j Hj. by eapply find_none_elem. }
    unfold fifo_of. rewrite Hq. apply fifo_empty.
Qed.

(** A new job goes to the end, if it is queued at all. *)
Lemma insert_pushes job st a b t d id d' : Jobs.insert_job job st a b t d = Ok (id, d') ->
  fifo (OpEnqueue job) (fifo_of d) None (fifo_of d').
Proof.
  unfold Jobs.insert_job. destruct (negb _); [done|]. intros [= <- <-].
  unfold fifo_of, queue. simpl. rewrite List.filter_app, map_app. simpl.
  match goal with |- context [queued ?j] => destruct (queued j) end; simpl; [apply fifo_push|].
  rewrite app_nil_r. apply fifo_unqueued.
Qed.

(** Does the statement of the operation succeed? *)
Definition answered (o : queue_op) (w : world) : bool :=
  match o with
  | OpEnqueue job => is_ok (Jobs.Enqueue job w).1
  | OpClaim => is_ok (Jobs.ClaimNext w).1
  | OpFinish id st code msg => is_ok (Jobs.Finish id st code msg w).1
  | OpDeleteFinished => is_ok (Jobs.DeleteFinished w).1
  | OpDeleteFinishedBefore t => is_ok (Jobs.DeleteFinishedBefore t w).1
  end.

(** An operation whose statement succeeds is a step of the queue; one whose statement
    fails changes nothing. *)
Lemma run_op_fifo o w r w' : db_ok w.(w_db) -> op_ok o -> run_op o w = (r, w') ->
  if answered o w then fifo o (fifo_of w.(w_db)) r (fifo_of w'.(w_db)) else r = None /\ w'.(w_db) = w.(w_db).
Proof.
  intros Hok Ho Hs. destruct o as [job| |id st code msg| |t]; simpl in *;
    apply bind_inv in Hs as (x & w1 & Hs & [= <- <-]).
  - unfold Jobs.Enqueue in Hs |- *. rewrite Hs. simpl. destruct x as [id|e]; simpl.
    + apply sql_ok_inv in Hs as (Hst & _). by eapply insert_pushes.
    + by apply sql_err_inv in Hs as ->.
  - rewrite Hs. unfold Jobs.ClaimNext in Hs. simpl. destruct x as [[j|]|e]; simpl; [| |by apply sql_err_inv in Hs as ->];
      apply sql_ok_inv in Hs as (Hst & _); exact (claim_pops _ _ _ _ Hok Hst).
  - rewrite Hs. simpl. unfold Jobs.Finish in Hs. apply bind_inv in Hs as (y & w2 & Hs & Hk). destruct y as [n|e]; simpl in Hk.
    + injection Hk as <- <-. apply sql_ok_inv in Hs as (Hst & _). injection Hst as _ Hd. rewrite <- Hd. simpl. unfold fifo_of.
      rewrite queue_update; [apply fifo_leave| |done]. intros j. unfold queued, job_status_in. simpl. set_solver.
    + injection Hk as <- <-. by apply sql_err_inv in Hs as ->.
  - rewrite Hs. unfold Jobs.DeleteFinished in Hs. simpl. destruct x as [n|e]; simpl; [|by apply sql_err_inv in Hs as ->].
    apply sql_ok_inv in Hs as ([= _ <-] & _). unfold fifo_of. rewrite queue_delete by apply finished_not_queued. apply fifo_purge.
  - rewrite Hs. unfold Jobs.DeleteFinishedBefore in Hs. simpl. destruct x as [n|e]; simpl; [|by apply sql_err_inv in Hs as ->].
    apply sql_ok_inv in Hs as ([= _ <-] & _). unfold fifo_of.
    rewrite queue_delete by (intros j [Hf _]%andb_true_iff; by apply finished_not_queued). apply fifo_purge_before.
Qed.

(** ** The abstract queue *)

(** Everything that waits, now or later, is after [b]. *)
Definition after (b : Z) (s : fifo_state) : Prop := b <= s.(issued) /\ Forall (fun i => b < i) s.(waiting).

(** What waits is in the order it came, under the last id. *)
Definition fifo_ok (s : fifo_state) : Prop :=
  StronglySorted Z.lt s.(waiting) /\ Forall (fun i => i <= s.(issued)) s.(waiting).

Lemma fifo_of_ok d : db_ok d -> fifo_ok (fifo_of d).
Proof.
  intros Hok. split; [apply (sorted_filter job_ID), (tbl_sorted _ _ _ (ok_jobs _ Hok))|].
  apply Forall_map, Forall_forall. intros k [Hk _]%elem_of_filterb.
  pose proof (tbl_bound _ _ _ (ok_jobs _ Hok)) as Hb. rewrite Forall_forall in Hb. by apply Hb.
Qed.

Lemma fifo_after o s r s' b : fifo o s r s' -> after b s ->
  after b s' /\ match r with Some id => b < id | None => True end.
Proof.
  unfold after. intros Hf [Hb Hq]. destruct Hf; simpl in *; try done.
  - split; [|done]. split; [lia|]. rewrite Forall_app, Forall_singleton. split; [done|lia].
  - split; [|done]. split; [lia|done].
  - inversion Hq; subst. done.
  - split; [|done]. split; [done|]. rewrite Forall_forall in *. intros i [Hi _]%elem_of_filterb. by apply Hq.
Qed.

(** What comes after a claim is after its job. *)
Lemma fifo_pop_after o s id s' : fifo_ok s -> fifo o s (Some id) s' -> after id s'.
Proof.
  intros [Hs Hb] Hf. inversion Hf; subst. simpl in *. inversion Hs as [|? ? _ Hl]; subst. inversion Hb; subst. by split.
Qed.

(** ** Every sequence of operations *)

(** How many claims are answered. *)
Fixpoint tries (ops : list queue_op) (w : world) : nat :=
  match ops with
  | [] => 0
  | o :: ops' =>
      let n := tries ops' (run_op o w).2 in
      match o with OpClaim => if answered o w then S n else n | _ => n end
  end.

(** Nobody finishes this job. *)
Definition leaves_alone (id : Z) (o : queue_op) : Prop :=
  match o with OpFinish i _ _ _ => i <> id | _ => True end.

Lemma claims_after ops b w : Forall op_ok ops -> db_ok w.(w_db) -> after b (fifo_of w.(w_db)) ->
  Forall (fun i => b < i) (claims ops w).
Proof.
  revert w. induction ops as [|o ops IH]; intros w Hops Hok Hb; simpl; [done|]. apply Forall_cons in Hops as [Ho Hops].
  pose proof (run_op_keeps_ok o w Hok) as Hok'. destruct (run_op o w) as [r w'] eqn:Hs. simpl in Hok'.
  pose proof (run_op_fifo o w r w' Hok Ho Hs) as Hf. destruct (answered o w).
  - destruct (fifo_after _ _ _ _ _ Hf Hb) as [Hb' Hr]. destruct r; [constructor; [done|]|]; by apply IH.
  - destruct Hf as [-> Hd]. apply IH; [done..|]. by rewrite Hd.
Qed.

Lemma claims_sorted ops w : Forall op_ok ops -> db_ok w.(w_db) -> StronglySorted Z.lt (claims ops w).
Proof.
  revert w. induction ops as [|o ops IH]; intros w Hops Hok; simpl; [constructor|]. apply Forall_cons in Hops as [Ho Hops].
  pose proof (run_op_keeps_ok o w Hok) as Hok'. destruct (run_op o w) as [r w'] eqn:Hs. simpl in Hok'.
  pose proof (run_op_fifo o w r w' Hok Ho Hs) as Hf. destruct r as [id|]; [|by apply IH].
  constructor; [by apply IH|]. apply claims_after; [done..|]. destruct (answered o w); [|by destruct Hf].
  eapply fifo_pop_after; [|exact Hf]. by apply fifo_of_ok.
Qed.

Lemma filter_length_le {A} (p : A -> bool) l : (length (List.filter p l) <= length l)%nat.
Proof. induction l as [|a l IH]; [done|]. simpl. destruct (p a); simpl; lia. Qed.

Lemma elem_of_take_le {A} (x : A) n m l : (n <= m)%nat -> x ∈ take n l -> x ∈ take m l.
Proof.
  intros Hle Hx. apply elem_of_take in Hx as (i & Hl & Hi). apply elem_of_take. exists i. split; [done|lia].
Qed.

(** One step for a job that waits: it is claimed, or somebody before it is, or nobody
    before it comes. *)
Lemma fifo_waits o s r s' id pre post : leaves_alone id o -> s.(waiting) = pre ++ id :: post -> fifo o s r s' ->
  match o with
  | OpClaim => exists i, r = Some i /\ (pre = [] /\ i = id \/ exists pre', pre = i :: pre' /\ s'.(waiting) = pre' ++ id :: post)
  | _ => r = None /\ exists pre' post', s'.(waiting) = pre' ++ id :: post' /\ (length pre' <= length pre)%nat
  end.
Proof.
  intros Ho Hw Hf. destruct Hf; simpl in *; subst; try (split; [done|]).
  - exists pre, (post ++ [s + 1]). by rewrite <- app_assoc.
  - by exists pre, post.
  - destruct pre as [|i pre]; injection Hw as -> ->; eexists; split; [done|by left|done|]. right. by exists pre.
  - by destruct pre.
  - rewrite List.filter_app. simpl. destruct (Z.eqb_spec id id0); [congruence|]. simpl. eexists _, _. split; [done|].
    apply filter_length_le.
  - by exists pre, post.
  - by exists pre, post.
Qed.

Lemma claims_served ops w pre id post :
  Forall op_ok ops -> Forall (leaves_alone id) ops -> db_ok w.(w_db) -> queue w.(w_db) = pre ++ id :: post ->
  (length pre < tries ops w)%nat -> id ∈ take (S (length pre)) (claims ops w).
Proof.
  revert w pre post. induction ops as [|o ops IH]; intros w pre post Hops Hal Hok Hq Ht; [simpl in Ht; lia|].
  apply Forall_cons in Hops as [Ho Hops]. apply Forall_cons in Hal as [Hao Hal].
  pose proof (run_op_keeps_ok o w Hok) as Hok'. cbn [claims tries] in *. destruct (run_op o w) as [r w'] eqn:Hs.
  cbn [fst snd] in *. pose proof (run_op_fifo o w r w' Hok Ho Hs) as Hf. destruct (answered o w) eqn:Ha.
  - pose proof (fifo_waits _ (fifo_of w.(w_db)) _ (fifo_of w'.(w_db)) id pre post Hao Hq Hf) as Hw. destruct o.
    2: { destruct Hw as (i & -> & [[-> ->]|(pre' & -> & Hw)]); simpl; [by left|]. right.
         apply (IH w' pre' post); simpl in *; [done..|lia]. }
    all: destruct Hw as (-> & pre' & post' & Hw & Hle);
      apply (elem_of_take_le _ (S (length pre'))); [lia|]; by apply (IH w' pre' post'); [..|lia].
  - destruct Hf as [-> Hd]. assert (Hq' : queue w'.(w_db) = pre ++ id :: post) by by rewrite Hd.
    apply (IH w' pre post); try done. by destruct o.
Qed.

End Fifo.

Definition demo_ops : list queue_op :=
  [OpEnqueue (demo_job 0 "check" "" (Some 1) None); OpClaim; OpEnqueue (demo_job 0 "sync" "" None None);
   OpFinish 2 "failed" None ""; OpDeleteFinished; OpClaim].

