(* ===== verification/StoreServices.v ===== *)
(** * The services and projects repositories
    (internal/store/services.go, internal/store/projects.go) *)

From stdpp Require Import base list strings gmap.
From S2P Require Import Prelude GoStd Db Integrity World StoreUpdates StoreJobs.

Local Open Scope Z_scope.

(** ** Services *)
Module Services.

Definition of_project (p : Z) (s : Service) : bool := s.(sv_ProjectID) =? p.
Definition named (n : string) (s : Service) : bool := String.eqb s.(sv_Name) n.

(** The columns [Upsert] owns; the user's override is kept. *)
Definition refresh (sv : Service) (t : Z) (s : Service) : Service :=
  mkService s.(sv_ID) s.(sv_ProjectID) s.(sv_Name) (map json_text sv.(sv_ContainerIDs)) sv.(sv_ImageRef)
    sv.(sv_CurrentDigest) sv.(sv_CurrentImageID) sv.(sv_ImageVersion) sv.(sv_Pinned) sv.(sv_Drifted)
    sv.(sv_State) None sv.(sv_Healthcheck) sv.(sv_ImageLocal) s.(sv_AutoUpdateEnabled) t.

Definition fresh (sv : Service) (id t : Z) : Service :=
  mkService id sv.(sv_ProjectID) sv.(sv_Name) (map json_text sv.(sv_ContainerIDs)) sv.(sv_ImageRef)
    sv.(sv_CurrentDigest) sv.(sv_CurrentImageID) sv.(sv_ImageVersion) sv.(sv_Pinned) sv.(sv_Drifted)
    sv.(sv_State) None sv.(sv_Healthcheck) sv.(sv_ImageLocal) sv.(sv_AutoUpdateEnabled) t.

Definition find_named (d : db) (project : Z) (name : string) : option Service :=
  List.find (fun s => of_project project s && named name s) d.(services).(rows).

Definition upsert_stmt (sv : Service) : stmt Z := fun t d =>
  match find_named d sv.(sv_ProjectID) sv.(sv_Name) with
  | Some s => Ok (s.(sv_ID), with_services (update_rows (fun x => x.(sv_ID) =? s.(sv_ID)) (refresh sv t)
                               d.(services)) d)
  | None =>
      if negb (has_id pr_ID d.(projects) sv.(sv_ProjectID)) then Err ErrForeignKey
      else let id := next_id d.(services) in
           Ok (id, with_services (insert_row (fresh sv id t) d.(services)) d)
  end.

(** [UPDATE services SET ... WHERE id=?] on one row; [updated_at] is stamped. *)
Definition set_row (ids : list string) (ref digest state : string) (gone : option Z)
    (auto : option bool) (t : Z) (s : Service) : Service :=
  mkService s.(sv_ID) s.(sv_ProjectID) s.(sv_Name) ids ref digest s.(sv_CurrentImageID)
    s.(sv_ImageVersion) s.(sv_Pinned) s.(sv_Drifted) state gone s.(sv_Healthcheck)
    s.(sv_ImageLocal) auto t.

Definition update_by_id (id : Z) (g : Z -> Service -> Service) : stmt Z := fun t d =>
  let p s := s.(sv_ID) =? id in
  Ok (count_where p d.(services).(rows), with_services (update_rows p (g t) d.(services)) d).

Definition by_name (a b : Service) : bool := str_less a.(sv_Name) b.(sv_Name).

Definition IsStoppedState (state : string) : bool :=
  if String.eqb state "exited" then true
  else if String.eqb state "dead" then true
  else if String.eqb state "created" then true
  else false.

Definition ErrServiceNotFound : error := Sentinel "service not found".

Definition find_service (d : db) (id : Z) : option Service :=
  List.find (fun s => s.(sv_ID) =? id) d.(services).(rows).

Section Repository.
Context {E : Env}.

Definition Upsert (sv : Service) : M world (result Z) :=
  sql "services.Upsert" sv.(sv_ProjectID) (upsert_stmt sv).

Definition ListByProject (projectID : Z) : M world (result (list Service)) :=
  sql "services.ListByProject" projectID (query (fun d =>
    sort_stable by_name (List.filter (of_project projectID) d.(services).(rows)))).

Definition MarkGone (id : Z) : M world (result unit) :=
  try? sql "services.MarkGone" id (update_by_id id (fun t s =>
    set_row s.(sv_ContainerIDs) s.(sv_ImageRef) s.(sv_CurrentDigest) "gone"
      (Some (default t s.(sv_GoneSince))) s.(sv_AutoUpdateEnabled) t s)) in
  ret (Ok tt).

Definition Get (id : Z) : M world (result Service) :=
  sql "services.Get" id (fun _ d =>
    match find_service d id with Some s => Ok (s, d) | None => Err ErrServiceNotFound end).

Definition SetAutoUpdate (id : Z) (enabled : option bool) : M world (result unit) :=
  try? sql "services.SetAutoUpdate" id (update_by_id id (fun t s =>
    set_row s.(sv_ContainerIDs) s.(sv_ImageRef) s.(sv_CurrentDigest) s.(sv_State)
      s.(sv_GoneSince) enabled t s)) in
  ret (Ok tt).

Definition UpdateRuntime (id : Z) (containerIDs : list string) (currentDigest : string) : M world (result unit) :=
  try? sql "services.UpdateRuntime" id (update_by_id id (fun t s =>
    set_row (map json_text containerIDs) s.(sv_ImageRef) currentDigest s.(sv_State)
      s.(sv_GoneSince) s.(sv_AutoUpdateEnabled) t s)) in
  ret (Ok tt).

Definition UpdateState (id : Z) (state : string) : M world (result unit) :=
  try? sql "services.UpdateState" id (update_by_id id (fun t s =>
    set_row s.(sv_ContainerIDs) s.(sv_ImageRef) s.(sv_CurrentDigest) state
      s.(sv_GoneSince) s.(sv_AutoUpdateEnabled) t s)) in
  ret (Ok tt).

Definition UpdateImageRef (id : Z) (imageRef : string) : M world (result unit) :=
  try? sql "services.UpdateImageRef" id (update_by_id id (fun t s =>
    set_row s.(sv_ContainerIDs) imageRef s.(sv_CurrentDigest) s.(sv_State)
      s.(sv_GoneSince) s.(sv_AutoUpdateEnabled) t s)) in
  ret (Ok tt).

Definition List_ : M world (result (list Service)) :=
  sql "services.List" 0 (query (fun d => d.(services).(rows))).

Definition delete_stmt (id : Z) : stmt unit := fun _ d =>
  Ok (tt, delete_services (fun s => s.(sv_ID) =? id) d).

Definition Delete (id : Z) : M world (result unit) := sql "services.Delete" id (delete_stmt id).

End Repository.
End Services.

(** ** Projects *)
Module Projects.

Definition on_host (h : Z) (p : Project) : bool := p.(pr_HostID) =? h.
Definition named (n : string) (p : Project) : bool := String.eqb p.(pr_Name) n.

Definition refresh (pr : Project) (p : Project) : Project :=
  mkProject p.(pr_ID) p.(pr_HostID) pr.(pr_Kind) p.(pr_Name) pr.(pr_WorkingDir)
    (map json_text pr.(pr_ConfigFiles)) p.(pr_Source) p.(pr_AutoUpdateEnabled) p.(pr_UpdatePolicy)
    p.(pr_Unmanaged) p.(pr_AutoNamed) pr.(pr_LastSyncedAt) p.(pr_CreatedAt).

Definition find_named (d : db) (host : Z) (name : string) : option Project :=
  List.find (fun p => on_host host p && named name p) d.(projects).(rows).

(** The one row of [hosts] is the local host, id 1. *)
Definition host_exists (h : Z) : bool := h =? 1.

Definition upsert_stmt (pr : Project) (source : string) : stmt Z := fun t d =>
  match find_named d pr.(pr_HostID) pr.(pr_Name) with
  | Some p => Ok (p.(pr_ID), with_projects (update_rows (fun x => x.(pr_ID) =? p.(pr_ID)) (refresh pr)
                               d.(projects)) d)
  | None =>
      if negb (host_exists pr.(pr_HostID)) then Err ErrForeignKey
      else
        let id := next_id d.(projects) in
        let row := mkProject id pr.(pr_HostID) pr.(pr_Kind) pr.(pr_Name) pr.(pr_WorkingDir)
                     (map json_text pr.(pr_ConfigFiles)) source pr.(pr_AutoUpdateEnabled) "{}" false
                     false pr.(pr_LastSyncedAt) t in
        Ok (id, with_projects (insert_row row d.(projects)) d)
  end.

Definition set_flags (auto unmanaged auto_named : bool) (p : Project) : Project :=
  mkProject p.(pr_ID) p.(pr_HostID) p.(pr_Kind) p.(pr_Name) p.(pr_WorkingDir) p.(pr_ConfigFiles)
    p.(pr_Source) auto p.(pr_UpdatePolicy) unmanaged auto_named p.(pr_LastSyncedAt) p.(pr_CreatedAt).

Definition update_by_id (id : Z) (g : Project -> Project) : stmt Z := fun _ d =>
  let p r := r.(pr_ID) =? id in
  Ok (count_where p d.(projects).(rows), with_projects (update_rows p g d.(projects)) d).

Definition by_name (a b : Project) : bool := str_less a.(pr_Name) b.(pr_Name).

Definition ErrProjectNotFound : error := Sentinel "project not found".

Definition find_project (d : db) (id : Z) : option Project :=
  List.find (fun p => p.(pr_ID) =? id) d.(projects).(rows).

Section Repository.
Context {E : Env}.

Definition Upsert (pr : Project) : M world (result Z) :=
  let source := or_default pr.(pr_Source) "discovered" in
  sql "projects.Upsert" 0 (upsert_stmt pr source).

Definition List_ : M world (result (list Project)) :=
  sql "projects.List" 0 (query (fun d => sort_stable by_name d.(projects).(rows))).

Definition Get (id : Z) : M world (result Project) :=
  sql "projects.Get" id (fun _ d =>
    match find_project d id with Some p => Ok (p, d) | None => Err ErrProjectNotFound end).

Definition SetAutoUpdate (id : Z) (enabled : bool) : M world (result unit) :=
  try? sql "projects.SetAutoUpdate" id
    (update_by_id id (fun p => set_flags enabled p.(pr_Unmanaged) p.(pr_AutoNamed) p)) in
  ret (Ok tt).

Definition delete_stmt (id : Z) : stmt unit := fun _ d =>
  Ok (tt, delete_projects (fun p => p.(pr_ID) =? id) d).

Definition Delete (id : Z) : M world (result unit) := sql "projects.Delete" id (delete_stmt id).

Definition SetUnmanaged (id : Z) (v : bool) : M world (result unit) :=
  try? sql "projects.SetUnmanaged" id
    (update_by_id id (fun p => set_flags p.(pr_AutoUpdateEnabled) v p.(pr_AutoNamed) p)) in
  ret (Ok tt).

Definition SetAutoNamed (id : Z) (v : bool) : M world (result unit) :=
  try? sql "projects.SetAutoNamed" id
    (update_by_id id (fun p => set_flags p.(pr_AutoUpdateEnabled) p.(pr_Unmanaged) v p)) in
  ret (Ok tt).

End Repository.
End Projects.

(** The gate of automatic updates. *)
Definition EffectiveAutoUpdate (p : Project) (s : Service) : bool :=
  if negb p.(pr_AutoUpdateEnabled) || (s.(sv_Pinned) && negb s.(sv_Drifted)) then false
  else match s.(sv_AutoUpdateEnabled) with None => true | Some b => b end.

(** ** Integrity *)

Definition same_service (g : Service -> Service) : Prop :=
  forall s, (g s).(sv_ID) = s.(sv_ID) /\ (g s).(sv_ProjectID) = s.(sv_ProjectID) /\
            (g s).(sv_Name) = s.(sv_Name).

Definition same_project (g : Project -> Project) : Prop :=
  forall p, (g p).(pr_ID) = p.(pr_ID) /\ (g p).(pr_HostID) = p.(pr_HostID) /\
            (g p).(pr_Name) = p.(pr_Name).

Lemma with_service_rows_ok p g d :
  same_service g -> db_ok d -> db_ok (with_services (update_rows p g d.(services)) d).
Proof.
  intros Hg H. assert (Hi : forall s, (g s).(sv_ID) = s.(sv_ID)) by apply Hg.
  destruct H; split; db_proj; try assumption.
  - apply tbl_ok_update; [done| |done]. intros s. by destruct (Hg s) as (_ & -> & ->).
  - apply refers_update_right; [done|assumption].
  - apply refers_update_left; [|assumption]. apply Hg.
  - apply refers_update_right; [done|assumption].
  - apply refers_update_right; [done|assumption].
  - apply refers_opt_update_right; [done|assumption].
Qed.

Lemma with_project_rows_ok p g d :
  same_project g -> db_ok d -> db_ok (with_projects (update_rows p g d.(projects)) d).
Proof.
  intros Hg H. assert (Hi : forall s, (g s).(pr_ID) = s.(pr_ID)) by apply Hg.
  destruct H; split; db_proj; try assumption.
  - apply tbl_ok_update; [done| |done]. intros s. by destruct (Hg s) as (_ & -> & ->).
  - apply refers_update_right; [done|assumption].
  - apply refers_opt_update_right; [done|assumption].
Qed.

Lemma named_absent {A} (f : A -> Z) (n : A -> string) (l : list A) k m :
  List.find (fun a => (f a =? k) && String.eqb (n a) m) l = None -> (k, m) ∉ map (fun a => (f a, n a)) l.
Proof.
  intros H (a & [= -> ->] & Ha)%elem_of_map_elim.
  pose proof (find_none_elem _ _ a H Ha) as Hf. cbv beta in Hf.
  by rewrite Z.eqb_refl, String.eqb_refl in Hf.
Qed.

Lemma services_upsert_ok sv : stmt_keeps db_ok (Services.upsert_stmt sv).
Proof.
  intros t d a d' Hd. unfold Services.upsert_stmt.
  destruct (Services.find_named _ _ _) as [s|] eqn:Ef.
  - intros [= <- <-]. by apply with_service_rows_ok.
  - destruct (has_id pr_ID _ _) eqn:Ep; simpl; [|done]. intros [= <- <-].
    apply named_absent in Ef.
    destruct Hd; split; db_proj; try assumption; try db_clause.
    + by apply tbl_ok_insert.
    + apply refers_insert_left; [assumption|]. by apply has_id_true.
Qed.

Lemma projects_upsert_ok pr src : stmt_keeps db_ok (Projects.upsert_stmt pr src).
Proof.
  intros t d a d' Hd. unfold Projects.upsert_stmt.
  destruct (Projects.find_named _ _ _) as [s|] eqn:Ef.
  - intros [= <- <-]. by apply with_project_rows_ok.
  - destruct (Projects.host_exists _); simpl; [|done]. intros [= <- <-].
    apply named_absent in Ef.
    destruct Hd; split; db_proj; try assumption; try db_clause.
    by apply tbl_ok_insert.
Qed.

Lemma services_update_ok id g : (forall t, same_service (g t)) -> stmt_keeps db_ok (Services.update_by_id id g).
Proof. intros Hg t d a d' Hd [= <- <-]. by apply with_service_rows_ok. Qed.

Lemma projects_update_ok id g : same_project g -> stmt_keeps db_ok (Projects.update_by_id id g).
Proof. intros Hg t d a d' Hd [= <- <-]. by apply with_project_rows_ok. Qed.

Lemma services_delete_ok id : stmt_keeps db_ok (Services.delete_stmt id).
Proof. intros t d a d' Hd [= <- <-]. by apply delete_services_ok. Qed.

Lemma projects_delete_ok id : stmt_keeps db_ok (Projects.delete_stmt id).
Proof. intros t d a d' Hd [= <- <-]. by apply delete_projects_ok. Qed.

#[export] Hint Resolve services_upsert_ok projects_upsert_ok services_update_ok projects_update_ok
  services_delete_ok projects_delete_ok : keeps.
#[export] Hint Extern 1 (same_service _) => by intros [] : keeps.
#[export] Hint Extern 1 (same_project _) => by intros [] : keeps.
