(* ===== verification/StoreMisc.v ===== *)
(** * The other repositories of internal/store

    images.go, images_remote_bulk.go, tag_digests.go, snapshots.go, events.go,
    settings.go, sessions.go, users.go, credentials.go, changelog_repos.go.
    Sealing (AES-GCM) is a parameter with its law. *)

From stdpp Require Import base list strings gmap.
From S2P Require Import Prelude GoStd Db Integrity World StoreUpdates StoreJobs.

Local Open Scope Z_scope.

(** [secret.Sealer]: [seal n p] is the envelope made at the [n]-th call (its
    nonce is random), [open_] what [Sealer.Open] answers. *)
Class Sealer := {
  seal : nat -> string -> result string;
  open_ : string -> result string;
  open_seal n p c : seal n p = Ok c -> open_ c = Ok p;
}.

(** Rows without a rowid: replace the first with this key, or append. *)
Fixpoint put_row {A} (same : A -> bool) (g : A -> A) (new : A) (l : list A) : list A :=
  match l with
  | [] => [new]
  | a :: l' => if same a then g a :: l' else a :: put_row same g new l'
  end.

Definition delete_where {A} (p : A -> bool) (l : list A) : list A := List.filter (fun a => negb (p a)) l.

(** ** Images *)
Module Images.

Definition same (repo digest : string) (i : Image) : bool :=
  String.eqb i.(img_Repo) repo && String.eqb i.(img_Digest) digest.

Definition refresh (img : Image) (labels : string) (i : Image) : Image :=
  mkImage i.(img_ID) i.(img_Repo) img.(img_Tag) i.(img_Digest) img.(img_MediaType) img.(img_OS)
    img.(img_Arch) img.(img_Size) img.(img_BuiltAt) labels img.(img_SourceURL) img.(img_Revision)
    i.(img_ResolvedVersion) i.(img_VersionResolved).

Definition find_image (d : db) (repo digest : string) : option Image :=
  List.find (same repo digest) d.(images).(rows).

Definition upsert_stmt (img : Image) (labels : string) : stmt Z := fun _ d =>
  match find_image d img.(img_Repo) img.(img_Digest) with
  | Some i => Ok (i.(img_ID), with_images (update_rows (fun x => x.(img_ID) =? i.(img_ID))
                                (refresh img labels) d.(images)) d)
  | None =>
      let id := next_id d.(images) in
      let row := mkImage id img.(img_Repo) img.(img_Tag) img.(img_Digest) img.(img_MediaType)
                   img.(img_OS) img.(img_Arch) img.(img_Size) img.(img_BuiltAt) labels
                   img.(img_SourceURL) img.(img_Revision) "" false in
      Ok (id, with_images (insert_row row d.(images)) d)
  end.

Definition set_version (version : string) (i : Image) : Image :=
  mkImage i.(img_ID) i.(img_Repo) i.(img_Tag) i.(img_Digest) i.(img_MediaType) i.(img_OS)
    i.(img_Arch) i.(img_Size) i.(img_BuiltAt) i.(img_Labels) i.(img_SourceURL) i.(img_Revision)
    version true.

Definition set_version_stmt (repo digest version : string) : stmt Z := fun _ d =>
  Ok (count_where (same repo digest) d.(images).(rows),
      with_images (update_rows (same repo digest) (set_version version) d.(images)) d).

Definition ErrImageNotFound : error := Sentinel "image not found".

Section Repository.
Context {E : Env}.

Definition Upsert (img : Image) : M world (result Z) :=
  sql "images.Upsert" 0 (upsert_stmt img (or_default img.(img_Labels) "{}")).

Definition GetByDigest (repo digest : string) : M world (result Image) :=
  sql "images.GetByDigest" 0 (fun _ d =>
    match find_image d repo digest with Some i => Ok (i, d) | None => Err ErrImageNotFound end).

Definition SetResolvedVersion (repo digest version : string) : M world (result unit) :=
  try? sql "images.SetResolvedVersion" 0 (set_version_stmt repo digest version) in ret (Ok tt).

End Repository.
End Images.

(** ** Remote states *)
Module RemoteStates.

Definition same (repo tag : string) (r : RemoteState) : bool :=
  String.eqb r.(rs_Repo) repo && String.eqb r.(rs_Tag) tag.

Definition stored (s : RemoteState) : RemoteState :=
  mkRemoteState s.(rs_Repo) s.(rs_Tag) s.(rs_RemoteDigest) s.(rs_ResolvedAt)
    (or_default s.(rs_ManifestLabels) "{}") (or_default s.(rs_Status) "ok").

Definition upsert_stmt (s : RemoteState) : stmt unit := fun _ d =>
  Ok (tt, with_remote_states
    (put_row (same s.(rs_Repo) s.(rs_Tag)) (fun _ => stored s) (stored s) d.(remote_states)) d).

Definition ErrRemoteStateNotFound : error := Sentinel "remote state not found".

Definition find_remote (d : db) (repo tag : string) : option RemoteState :=
  List.find (same repo tag) d.(remote_states).

Section Repository.
Context {E : Env}.

Definition Upsert (s : RemoteState) : M world (result unit) := sql "remote.Upsert" 0 (upsert_stmt s).

Definition Get (repo tag : string) : M world (result RemoteState) :=
  sql "remote.Get" 0 (fun _ d =>
    match find_remote d repo tag with Some r => Ok (r, d) | None => Err ErrRemoteStateNotFound end).

Definition all_map (d : db) : gmap (string * string) RemoteState :=
  fold_left (fun m r => <[(r.(rs_Repo), r.(rs_Tag)) := r]> m) d.(remote_states) ∅.

Definition All : M world (result (gmap (string * string) RemoteState)) :=
  sql "remote.All" 0 (query all_map).

End Repository.
End RemoteStates.

(** ** The tag digest cache *)
Module TagDigests.

Definition same (repo tag : string) (t : TagDigest) : bool :=
  String.eqb t.(td_Repo) repo && String.eqb t.(td_Tag) tag.

Definition put_stmt (repo tag digest : string) : stmt unit := fun _ d =>
  Ok (tt, with_tag_digests
    (put_row (same repo tag) (fun t => mkTagDigest t.(td_Repo) t.(td_Tag) digest)
       (mkTagDigest repo tag digest) d.(tag_digests)) d).

Section Repository.
Context {E : Env}.

(** [None]: no row ([ok = false]). *)
Definition Get (repo tag : string) : M world (result (option string)) :=
  sql "tag_digests.Get" 0 (query (fun d =>
    td_Digest <$> List.find (same repo tag) d.(tag_digests))).

Definition Put (repo tag digest : string) : M world (result unit) :=
  if String.eqb digest "" then ret (Ok tt)
  else sql "tag_digests.Put" 0 (put_stmt repo tag digest).

End Repository.
End TagDigests.

(** ** Snapshots *)
Module Snapshots.

Definition insert_stmt (sn : Snapshot) : stmt Z := fun t d =>
  if negb (has_id sv_ID d.(services) sn.(sn_ServiceID) && has_id_opt job_ID d.(jobs) sn.(sn_JobID))
  then Err ErrForeignKey
  else
    let id := next_id d.(snapshots) in
    let row := mkSnapshot id sn.(sn_ServiceID) sn.(sn_JobID) sn.(sn_PrevRepo) sn.(sn_PrevDigest)
                 sn.(sn_PrevImageID) (or_default sn.(sn_PrevContainerInspect) "{}")
                 sn.(sn_ComposeFileHash) sn.(sn_ComposeBlob) t in
    Ok (id, with_snapshots (insert_row row d.(snapshots)) d).

Definition ErrSnapshotNotFound : error := Sentinel "snapshot not found".

Definition latest (d : db) (serviceID : Z) : option Snapshot :=
  List.find (fun s => s.(sn_ServiceID) =? serviceID) (rev d.(snapshots).(rows)).

Section Repository.
Context {E : Env}.

Definition Insert (sn : Snapshot) : M world (result Z) :=
  sql "snapshots.Insert" sn.(sn_ServiceID) (insert_stmt sn).

Definition GetLatestForService (serviceID : Z) : M world (result Snapshot) :=
  sql "snapshots.GetLatestForService" serviceID (fun _ d =>
    match latest d serviceID with Some s => Ok (s, d) | None => Err ErrSnapshotNotFound end).

End Repository.
End Snapshots.

(** ** Service events *)
Module Events.

Definition insert_stmt (ev : Event) : stmt Z := fun t d =>
  if negb (has_id sv_ID d.(services) ev.(ev_ServiceID) && has_id_opt job_ID d.(jobs) ev.(ev_RefJobID))
  then Err ErrForeignKey
  else
    let id := next_id d.(events) in
    let row := mkEvent id ev.(ev_ServiceID) ev.(ev_Kind) ev.(ev_RefJobID) ev.(ev_FromDigest)
                 ev.(ev_ToDigest) ev.(ev_Message) t "" "" in
    Ok (id, with_events (insert_row row d.(events)) d).

(** The LEFT JOIN with the update of the same service and digest. *)
Definition join_update (d : db) (e : Event) : Event :=
  match Updates.find_target d e.(ev_ServiceID) e.(ev_ToDigest) with
  | Some u => mkEvent e.(ev_ID) e.(ev_ServiceID) e.(ev_Kind) e.(ev_RefJobID) e.(ev_FromDigest)
                e.(ev_ToDigest) e.(ev_Message) e.(ev_CreatedAt) u.(up_ChangelogURL) u.(up_ChangelogText)
  | None => mkEvent e.(ev_ID) e.(ev_ServiceID) e.(ev_Kind) e.(ev_RefJobID) e.(ev_FromDigest)
              e.(ev_ToDigest) e.(ev_Message) e.(ev_CreatedAt) "" ""
  end.

Section Repository.
Context {E : Env}.

Definition Insert (ev : Event) : M world (result Z) :=
  sql (String.append "events.Insert " ev.(ev_Kind)) ev.(ev_ServiceID) (insert_stmt ev).

Definition ListByService (serviceID : Z) : M world (result (list Event)) :=
  sql "events.ListByService" serviceID (query (fun d =>
    map (join_update d) (rev (List.filter (fun e => e.(ev_ServiceID) =? serviceID) d.(events).(rows))))).

End Repository.
End Events.

(** ** Settings *)
Module Settings.

Definition ErrSettingNotFound : error := Sentinel "setting not found".

Definition lookup (key : string) (d : db) : option string :=
  snd <$> List.find (fun kv => String.eqb kv.1 key) d.(settings).

Definition set_stmt (key value : string) : stmt unit := fun _ d =>
  Ok (tt, with_settings
    (put_row (fun kv => String.eqb kv.1 key) (fun kv => (kv.1, value)) (key, value) d.(settings)) d).

(** What [GetBoolDefault] makes of the stored text. *)
Definition bool_setting (v : string) (def : bool) : bool :=
  if String.eqb v "true" then true
  else if String.eqb v "false" then false
  else def.

Section Repository.
Context {E : Env} {SL : Sealer}.

Definition Get (key : string) : M world (result string) :=
  sql "settings.Get" 0 (fun _ d =>
    match lookup key d with Some v => Ok (v, d) | None => Err ErrSettingNotFound end).

Definition Set_ (key value : string) : M world (result unit) :=
  sql (String.append "settings.Set " key) 0 (set_stmt key value).

Definition seal_now (plaintext : string) : M world (result string) := fun w =>
  (seal w.(w_tick) plaintext, tick w).

Definition SetSecret (key plaintext : string) : M world (result unit) :=
  let? enc := seal_now plaintext in
  Set_ key enc.

Definition GetSecret (key : string) : M world (result string) :=
  let? enc := Get key in
  match open_ enc with
  | Err e => ret (Err e)
  | Ok b => ret (Ok b)
  end.

Definition GetBoolDefault (key : string) (def : bool) : M world bool :=
  let! r := Get key in
  match r with
  | Err _ => ret def
  | Ok v => ret (bool_setting v def)
  end.

End Repository.
End Settings.

(** ** Sessions *)
Module Sessions.

Definition ErrSessionNotFound : error := Sentinel "session not found".

Definition has_token (h : string) (s : Session) : bool := String.eqb s.(se_TokenHash) h.

Definition insert_stmt (tokenHash : string) (userID : Z) (csrf : string) (expiresAt : Z) : stmt unit :=
  fun t d =>
    if existsb (has_token tokenHash) d.(sessions) then Err ErrUnique
    else if negb (has_id us_ID d.(users) userID) then Err ErrForeignKey
    else Ok (tt, with_sessions (d.(sessions) ++ [mkSession tokenHash userID csrf t expiresAt]) d).

Definition delete_stmt (p : Session -> bool) : stmt Z := fun _ d =>
  Ok (count_where p d.(sessions), with_sessions (delete_where p d.(sessions)) d).

Section Repository.
Context {E : Env}.

Definition Create (tokenHash : string) (userID : Z) (csrf : string) (expiresAt : Z) : M world (result unit) :=
  sql "sessions.Create" userID (insert_stmt tokenHash userID csrf expiresAt).

Definition Delete (tokenHash : string) : M world (result unit) :=
  try? sql "sessions.Delete" 0 (delete_stmt (has_token tokenHash)) in ret (Ok tt).

Definition Get (tokenHash : string) (now_ : Z) : M world (result Session) :=
  let? sess := sql "sessions.Get" 0 (fun _ d =>
    match List.find (has_token tokenHash) d.(sessions) with
    | Some s => Ok (s, d) | None => Err ErrSessionNotFound end) in
  if negb (now_ <? sess.(se_ExpiresAt)) then
    do! Delete tokenHash in
    ret (Err ErrSessionNotFound)
  else ret (Ok sess).

Definition DeleteByUser (userID : Z) : M world (result unit) :=
  try? sql "sessions.DeleteByUser" userID (delete_stmt (fun s => s.(se_UserID) =? userID)) in ret (Ok tt).

Definition DeleteExpired (now_ : Z) : M world (result Z) :=
  sql "sessions.DeleteExpired" 0 (delete_stmt (fun s => s.(se_ExpiresAt) <=? now_)).

End Repository.
End Sessions.

(** ** Users *)
Module Users.

Definition ErrUserNotFound : error := Sentinel "user not found".

Definition create_stmt (username hash : string) : stmt Z := fun t d =>
  if existsb (fun u => String.eqb u.(us_Username) username) d.(users).(rows) then Err ErrUnique
  else let id := next_id d.(users) in
       Ok (id, with_users (insert_row (mkUser id username hash t) d.(users)) d).

Definition set_hash_stmt (id : Z) (hash : string) : stmt unit := fun _ d =>
  Ok (tt, with_users (update_rows (fun u => u.(us_ID) =? id)
            (fun u => mkUser u.(us_ID) u.(us_Username) hash u.(us_CreatedAt)) d.(users)) d).

Section Repository.
Context {E : Env}.

Definition Count : M world (result Z) :=
  sql "users.Count" 0 (query (fun d => Z.of_nat (length d.(users).(rows)))).

Definition Create (username passwordHash : string) : M world (result Z) :=
  sql "users.Create" 0 (create_stmt username passwordHash).

Definition GetByUsername (username : string) : M world (result User) :=
  sql "users.GetByUsername" 0 (fun _ d =>
    match List.find (fun u => String.eqb u.(us_Username) username) d.(users).(rows) with
    | Some u => Ok (u, d) | None => Err ErrUserNotFound end).

Definition GetByID (id : Z) : M world (result User) :=
  sql "users.GetByID" id (fun _ d =>
    match List.find (fun u => u.(us_ID) =? id) d.(users).(rows) with
    | Some u => Ok (u, d) | None => Err ErrUserNotFound end).

Definition UpdatePasswordHash (id : Z) (hash : string) : M world (result unit) :=
  sql "users.UpdatePasswordHash" id (set_hash_stmt id hash).

End Repository.
End Users.

(** ** Registry credentials *)
Module Credentials.

Definition host_is (h : string) (c : Credential) : bool := String.eqb c.(cr_RegistryHost) h.

Definition upsert_stmt (host username enc : string) : stmt Z := fun t d =>
  match List.find (host_is host) d.(credentials).(rows) with
  | Some c =>
      Ok (c.(cr_ID), with_credentials (update_rows (fun x => x.(cr_ID) =? c.(cr_ID))
        (fun x => mkCredential x.(cr_ID) x.(cr_RegistryHost) username enc x.(cr_CreatedAt)) d.(credentials)) d)
  | None =>
      let id := next_id d.(credentials) in
      Ok (id, with_credentials (insert_row (mkCredential id host username enc t) d.(credentials)) d)
  end.

Definition delete_stmt (host : string) : stmt unit := fun _ d =>
  Ok (tt, with_credentials (delete_rows (host_is host) d.(credentials)) d).

(** What [List] shows of a row. *)
Definition public (c : Credential) : Z * string * string * Z :=
  (c.(cr_ID), c.(cr_RegistryHost), c.(cr_Username), c.(cr_CreatedAt)).

Definition by_host (a b : Credential) : bool := str_less a.(cr_RegistryHost) b.(cr_RegistryHost).

Section Repository.
Context {E : Env} {SL : Sealer}.

Definition Upsert (host username secretPlaintext : string) : M world (result Z) :=
  let? enc := Settings.seal_now secretPlaintext in
  sql "credentials.Upsert" 0 (upsert_stmt host username enc).

Definition List_ : M world (result (list (Z * string * string * Z))) :=
  sql "credentials.List" 0 (query (fun d => map public (sort_stable by_host d.(credentials).(rows)))).

Definition Delete (host : string) : M world (result unit) := sql "credentials.Delete" 0 (delete_stmt host).

(** [None]: no credential, the resolver stays anonymous. *)
Definition Lookup (registryHost : string) : M world (option (string * string)) :=
  let! r := sql "credentials.Lookup" 0 (fun _ d =>
    match List.find (host_is registryHost) d.(credentials).(rows) with
    | Some c => Ok ((c.(cr_Username), c.(cr_Secret)), d)
    | None => Err ErrNoRows
    end) in
  match r with
  | Err _ => ret None
  | Ok (user, enc) =>
      match open_ enc with
      | Err _ => ret None
      | Ok pw => ret (Some (user, pw))
      end
  end.

End Repository.
End Credentials.

(** ** The image repository to GitHub repository cache *)
Module ChangelogRepos.

Definition is_repo (r : string) (c : ChangelogRepo) : bool := String.eqb c.(cl_ImageRepo) r.

Definition put_stmt (repo owner name : string) (nowSec : Z) : stmt unit := fun _ d =>
  let row := mkChangelogRepo repo owner name nowSec in
  Ok (tt, with_changelog_repos (put_row (is_repo repo) (fun _ => row) row d.(changelog_repos)) d).

Section Repository.
Context {E : Env}.

(** Owner, name and whether the answer is positive; [None]: not found or stale.
    [ttl] is in nanoseconds. *)
Definition Get (repo : string) (ttl : Z) : M world (result (option (string * string * bool))) :=
  let! r := sql "changelog_repos.Get" 0 (fun _ d =>
    match List.find (is_repo repo) d.(changelog_repos) with
    | Some c => Ok (c, d) | None => Err ErrNoRows end) in
  match r with
  | Err e => if errors_Is e "sql: no rows in result set" then ret (Ok None) else ret (Err e)
  | Ok c =>
      let! t := now in
      if ttl <? t - c.(cl_ResolvedAt) * second then ret (Ok None)
      else ret (Ok (Some (c.(cl_Owner), c.(cl_Name), negb (String.eqb c.(cl_Owner) ""))))
  end.

Definition Put (repo owner name : string) : M world (result unit) :=
  let! t := now in
  sql "changelog_repos.Put" 0 (put_stmt repo owner name (t / second)).

End Repository.
End ChangelogRepos.

(** ** Integrity *)

Lemma put_row_map {A B} (h : A -> B) same (g : A -> A) new l :
  (forall a, same a = true -> h (g a) = h a) ->
  (forall a, same a = true <-> h a = h new) ->
  NoDup (map h l) -> NoDup (map h (put_row same g new l)).
Proof.
  intros Hg Hs. assert (Hin : forall l x, x ∈ map h (put_row same g new l) -> x ∈ map h l \/ x = h new).
  { intros l0 x. induction l0 as [|a l0 IH]; simpl.
    - intros ->%list_elem_of_singleton. by right.
    - destruct (same a) eqn:E; simpl; rewrite !elem_of_cons.
      + rewrite Hg by done. auto.
      + intros [->|Hx]; [auto|]. destruct (IH Hx); auto. }
  induction l as [|a l IH]; simpl; intros Hn; [apply NoDup_singleton|].
  apply NoDup_cons in Hn as [Ha Hl]. destruct (same a) eqn:E; simpl.
  - rewrite Hg by done. by apply NoDup_cons.
  - apply NoDup_cons. split; [|by apply IH]. intros Hx. apply Hin in Hx as [Hx|Hx]; [done|].
    apply Hs in Hx. congruence.
Qed.

Ltac str_keys := intros []; simpl; rewrite ?andb_true_iff, ?String.eqb_eq; naive_solver.

Lemma images_upsert_ok img lb : stmt_keeps db_ok (Images.upsert_stmt img lb).
Proof.
  intros t d a d' Hd. unfold Images.upsert_stmt. destruct (Images.find_image _ _ _) eqn:Ef.
  - intros [= <- <-]. db_split Hd.
  - intros [= <- <-]. destruct Hd; split; db_proj; try assumption.
    apply tbl_ok_insert; [done..|]. intros (i & [= H1 H2] & Hi)%elem_of_map_elim.
    pose proof (find_none_elem _ _ i Ef Hi) as Hf. unfold Images.same in Hf.
    by rewrite H1, H2, !String.eqb_refl in Hf.
Qed.

Lemma images_version_ok a b c : stmt_keeps db_ok (Images.set_version_stmt a b c).
Proof. intros t d x d' Hd [= <- <-]. db_split Hd. Qed.

Lemma remote_upsert_ok s : stmt_keeps db_ok (RemoteStates.upsert_stmt s).
Proof.
  intros t d a d' Hd [= <- <-]. destruct Hd; split; db_proj; try assumption.
  apply put_row_map; [| |done]; unfold RemoteStates.same; str_keys.
Qed.

Lemma tag_put_ok a b c : stmt_keeps db_ok (TagDigests.put_stmt a b c).
Proof.
  intros t d x d' Hd [= <- <-]. destruct Hd; split; db_proj; try assumption.
  apply put_row_map; [| |done]; unfold TagDigests.same; str_keys.
Qed.

Lemma snapshots_insert_ok sn : stmt_keeps db_ok (Snapshots.insert_stmt sn).
Proof.
  intros t d a d' Hd. unfold Snapshots.insert_stmt. destruct (_ && _) eqn:E; simpl; [|done].
  apply andb_true_iff in E as [Hs Hj]. intros [= <- <-].
  pose proof (fresh_id_map sn_ID sn_ID _ (ok_snapshots d Hd)) as Hf.
  destruct Hd; split; db_proj; try assumption.
  - by apply tbl_ok_insert.
  - apply refers_insert_left; [assumption|]. by apply has_id_true.
  - apply refers_opt_insert_left; [assumption|]. simpl. intros k. by apply has_id_opt_true.
Qed.

Lemma events_insert_ok ev : stmt_keeps db_ok (Events.insert_stmt ev).
Proof.
  intros t d a d' Hd. unfold Events.insert_stmt. destruct (_ && _) eqn:E; simpl; [|done].
  apply andb_true_iff in E as [Hs Hj]. intros [= <- <-].
  pose proof (fresh_id_map ev_ID ev_ID _ (ok_events d Hd)) as Hf.
  destruct Hd; split; db_proj; try assumption.
  - by apply tbl_ok_insert.
  - apply refers_insert_left; [assumption|]. by apply has_id_true.
  - apply refers_opt_insert_left; [assumption|]. simpl. intros k. by apply has_id_opt_true.
Qed.

Lemma settings_set_ok k v : stmt_keeps db_ok (Settings.set_stmt k v).
Proof.
  intros t d x d' Hd [= <- <-]. destruct Hd; split; db_proj; try assumption.
  apply put_row_map; [| |done]; str_keys.
Qed.

Lemma sessions_insert_ok a b c e : stmt_keeps db_ok (Sessions.insert_stmt a b c e).
Proof.
  intros t d x d' Hd. unfold Sessions.insert_stmt. destruct (existsb _ _) eqn:Ee; [done|].
  destruct (has_id _ _ _) eqn:Eu; simpl; [|done]. intros [= <- <-].
  destruct Hd; split; db_proj; try assumption.
  - rewrite map_app. apply NoDup_app. split_and!; [done| |apply NoDup_singleton].
    simpl. intros y Hy ->%list_elem_of_singleton. apply elem_of_map_elim in Hy as (s & Hs & Hin).
    apply not_true_iff_false in Ee. apply Ee. apply existsb_elem. exists s. split; [done|].
    unfold Sessions.has_token. by rewrite Hs, String.eqb_refl.
  - apply refers_insert_left; [assumption|]. by apply has_id_true.
Qed.

Lemma sessions_delete_ok p : stmt_keeps db_ok (Sessions.delete_stmt p).
Proof.
  intros t d x d' Hd [= <- <-]. destruct Hd; split; db_proj; try assumption.
  - by apply NoDup_map_filter.
  - by apply refers_delete_left.
Qed.

Lemma users_create_ok a b : stmt_keeps db_ok (Users.create_stmt a b).
Proof.
  intros t d x d' Hd. unfold Users.create_stmt. destruct (existsb _ _) eqn:Ee; [done|].
  intros [= <- <-]. destruct Hd; split; db_proj; try assumption.
  - apply tbl_ok_insert; [done..|]. intros (u & Hu & Hin)%elem_of_map_elim.
    apply not_true_iff_false in Ee. apply Ee. apply existsb_elem. exists u. split; [done|].
    simpl in Hu. by rewrite Hu, String.eqb_refl.
  - by apply refers_insert_right.
Qed.

Lemma users_hash_ok a b : stmt_keeps db_ok (Users.set_hash_stmt a b).
Proof. intros t d x d' Hd [= <- <-]. db_split Hd. Qed.

Lemma credentials_upsert_ok a b c : stmt_keeps db_ok (Credentials.upsert_stmt a b c).
Proof.
  intros t d x d' Hd. unfold Credentials.upsert_stmt. destruct (List.find _ _) eqn:Ef.
  - intros [= <- <-]. db_split Hd.
  - intros [= <- <-]. destruct Hd; split; db_proj; try assumption.
    apply tbl_ok_insert; [done..|]. intros (i & Hi & Hin)%elem_of_map_elim.
    pose proof (find_none_elem _ _ i Ef Hin) as Hf. unfold Credentials.host_is in Hf.
    simpl in Hi. by rewrite Hi, String.eqb_refl in Hf.
Qed.

Lemma credentials_delete_ok h : stmt_keeps db_ok (Credentials.delete_stmt h).
Proof. intros t d x d' Hd [= <- <-]. db_split Hd. Qed.

Lemma repos_put_ok a b c e : stmt_keeps db_ok (ChangelogRepos.put_stmt a b c e).
Proof.
  intros t d x d' Hd [= <- <-]. destruct Hd; split; db_proj; try assumption.
  apply put_row_map; [| |done]; unfold ChangelogRepos.is_repo; str_keys.
Qed.

#[export] Hint Resolve images_upsert_ok images_version_ok remote_upsert_ok tag_put_ok
  snapshots_insert_ok events_insert_ok settings_set_ok sessions_insert_ok sessions_delete_ok
  users_create_ok users_hash_ok credentials_upsert_ok credentials_delete_ok repos_put_ok : keeps.
