(* ===== verification/Store.v ===== *)
(** * The store as a whole

    Every method of the repositories, in any order and under any failure of the
    database, keeps the integrity of the schema; and the promises that span
    several tables (purging jobs, expiring sessions, sealing settings). *)

From stdpp Require Import base list strings gmap relations.
From S2P Require Import Prelude GoStd Db Integrity World StoreUpdates StoreJobs StoreServices.
From S2P Require Import StoreMisc.

Local Open Scope Z_scope.

Section Store.
Context {E : Env} {SL : Sealer}.

(** The calls of the repositories that can change the database. *)
Inductive repo_call : forall {A}, M world A -> Prop :=
| c_updates_Upsert up : repo_call (Updates.Upsert up)
| c_updates_SupersedePriorOpen s k : repo_call (Updates.SupersedePriorOpen s k)
| c_updates_SupersedeAllOpen s : repo_call (Updates.SupersedeAllOpen s)
| c_updates_RecordDrift up : repo_call (Updates.RecordDrift up)
| c_updates_MarkRolledBack s dg : repo_call (Updates.MarkRolledBack s dg)
| c_updates_ReopenRolledBack s : repo_call (Updates.ReopenRolledBack s)
| c_updates_SetChangelog i u t : repo_call (Updates.SetChangelog i u t)
| c_updates_SetChangelogStatus i st : repo_call (Updates.SetChangelogStatus i st)
| c_updates_DeleteStaleCurrent s k : repo_call (Updates.DeleteStaleCurrent s k)
| c_updates_SetStatus i st : repo_call (Updates.SetStatus i st)
| c_updates_MarkApplied i : repo_call (Updates.MarkApplied i)
| c_jobs_Enqueue j : repo_call (Jobs.Enqueue j)
| c_jobs_ClaimNext : repo_call Jobs.ClaimNext
| c_jobs_Finish i st c m : repo_call (Jobs.Finish i st c m)
| c_jobs_ResumeRunning : repo_call Jobs.ResumeRunning
| c_jobs_DeleteFinished : repo_call Jobs.DeleteFinished
| c_jobs_DeleteFinishedBefore t : repo_call (Jobs.DeleteFinishedBefore t)
| c_logs_Append j st l : repo_call (JobLogs.Append j st l)
| c_services_Upsert s : repo_call (Services.Upsert s)
| c_services_MarkGone i : repo_call (Services.MarkGone i)
| c_services_SetAutoUpdate i b : repo_call (Services.SetAutoUpdate i b)
| c_services_UpdateRuntime i c dg : repo_call (Services.UpdateRuntime i c dg)
| c_services_UpdateState i st : repo_call (Services.UpdateState i st)
| c_services_UpdateImageRef i r : repo_call (Services.UpdateImageRef i r)
| c_services_Delete i : repo_call (Services.Delete i)
| c_projects_Upsert p : repo_call (Projects.Upsert p)
| c_projects_SetAutoUpdate i b : repo_call (Projects.SetAutoUpdate i b)
| c_projects_Delete i : repo_call (Projects.Delete i)
| c_projects_SetUnmanaged i b : repo_call (Projects.SetUnmanaged i b)
| c_projects_SetAutoNamed i b : repo_call (Projects.SetAutoNamed i b)
| c_images_Upsert i : repo_call (Images.Upsert i)
| c_images_SetResolvedVersion r dg v : repo_call (Images.SetResolvedVersion r dg v)
| c_remote_Upsert s : repo_call (RemoteStates.Upsert s)
| c_tags_Put r t dg : repo_call (TagDigests.Put r t dg)
| c_snapshots_Insert s : repo_call (Snapshots.Insert s)
| c_events_Insert e : repo_call (Events.Insert e)
| c_settings_Set k v : repo_call (Settings.Set_ k v)
| c_settings_SetSecret k v : repo_call (Settings.SetSecret k v)
| c_sessions_Create h u c e : repo_call (Sessions.Create h u c e)
| c_sessions_Get h t : repo_call (Sessions.Get h t)
| c_sessions_Delete h : repo_call (Sessions.Delete h)
| c_sessions_DeleteByUser u : repo_call (Sessions.DeleteByUser u)
| c_sessions_DeleteExpired t : repo_call (Sessions.DeleteExpired t)
| c_users_Create n h : repo_call (Users.Create n h)
| c_users_UpdatePasswordHash i h : repo_call (Users.UpdatePasswordHash i h)
| c_credentials_Upsert h u p : repo_call (Credentials.Upsert h u p)
| c_credentials_Delete h : repo_call (Credentials.Delete h)
| c_repos_Put r o n : repo_call (ChangelogRepos.Put r o n).

Inductive store_step (w : world) : world -> Prop :=
| store_call {A} (m : M world A) : repo_call m -> store_step w (m w).2.

Lemma keeps_seal_now P p : keeps (on_db P) (Settings.seal_now p).
Proof. by intros w Hw. Qed.
Hint Resolve keeps_seal_now RecordDrift_keeps_ok : keeps.

Lemma repo_call_ok {A} (m : M world A) : repo_call m -> keeps (on_db db_ok) m.
Proof.
  intros H. destruct H;
  unfold Updates.Upsert, Updates.SupersedePriorOpen, Updates.SupersedeAllOpen, Updates.MarkRolledBack,
    Updates.ReopenRolledBack, Updates.SetChangelog, Updates.SetChangelogStatus,
    Updates.DeleteStaleCurrent, Updates.SetStatus, Updates.MarkApplied, Updates.supersede_prior_stmt,
    Jobs.Enqueue, Jobs.ClaimNext, Jobs.Finish, Jobs.ResumeRunning, Jobs.DeleteFinished,
    Jobs.DeleteFinishedBefore, JobLogs.Append,
    Services.Upsert, Services.MarkGone, Services.SetAutoUpdate, Services.UpdateRuntime,
    Services.UpdateState, Services.UpdateImageRef, Services.Delete,
    Projects.Upsert, Projects.SetAutoUpdate, Projects.Delete, Projects.SetUnmanaged, Projects.SetAutoNamed,
    Images.Upsert, Images.SetResolvedVersion, RemoteStates.Upsert, TagDigests.Put, Snapshots.Insert,
    Events.Insert, Settings.SetSecret, Settings.Set_, Sessions.Create, Sessions.Get, Sessions.Delete,
    Sessions.DeleteByUser, Sessions.DeleteExpired, Users.Create, Users.UpdatePasswordHash,
    Credentials.Upsert, Credentials.Delete, ChangelogRepos.Put; keeps_walk.
Qed.


End Store.

(** A cipher for the examples: the envelope is the reversed plaintext. *)
Definition demo_sealer : Sealer := {|
  seal _ p := Ok (str_rev p);
  open_ c := Ok (str_rev c);
  open_seal _ p c H := ltac:(injection H as <-; by rewrite str_rev_involutive);
|}.


(** ** Purging the job history *)

(** A snapshot without the job it was taken by: what a rollback reads. *)
Definition snapshot_body (s : Snapshot) : Z * Z * (string * string * string) * option (string * string) :=
  (s.(sn_ID), s.(sn_ServiceID), (s.(sn_PrevRepo), s.(sn_PrevDigest), s.(sn_ComposeFileHash)),
   s.(sn_ComposeBlob)).

Lemma find_map_eq {A B} (h : A -> B) (p : A -> bool) (q : B -> bool) l l' :
  (forall a, p a = q (h a)) -> map h l = map h l' ->
  h <$> List.find p l = h <$> List.find p l'.
Proof.
  intros Hp. revert l'. induction l as [|a l IH]; intros [|b l']; simpl; try done.
  intros [= Hab Hl]. rewrite !Hp, Hab. destruct (q (h b)); simpl; [by rewrite Hab|by apply IH].
Qed.

Lemma latest_same d d' s :
  map snapshot_body d.(snapshots).(rows) = map snapshot_body d'.(snapshots).(rows) ->
  snapshot_body <$> Snapshots.latest d s = snapshot_body <$> Snapshots.latest d' s.
Proof.
  intros H. apply (find_map_eq snapshot_body _ (fun b => b.1.1.2 =? s)); [done|].
  by rewrite !map_rev, H.
Qed.

(** [DeleteFinished] deletes exactly the finished jobs and the logs of
    them, counts them, never a queued or a running one; every service keeps its
    latest snapshot (so a rollback finds what it would have found) and its
    events. *)
Theorem DeleteFinished_spec `{Env} w n w' :
  db_ok w.(w_db) ->
  Jobs.DeleteFinished w = (Ok n, w') ->
  w'.(w_db).(jobs).(rows) = List.filter (fun j => negb (finished j)) w.(w_db).(jobs).(rows) /\
  n = count_where finished w.(w_db).(jobs).(rows) /\
  (forall j, j ∈ w.(w_db).(jobs).(rows) -> queued j || running j = true -> j ∈ w'.(w_db).(jobs).(rows)) /\
  (forall l, l ∈ w'.(w_db).(job_logs).(rows) <->
     l ∈ w.(w_db).(job_logs).(rows) /\
     exists j, j ∈ w'.(w_db).(jobs).(rows) /\ j.(job_ID) = l.(log_JobID)) /\
  (forall s, snapshot_body <$> Snapshots.latest w'.(w_db) s = snapshot_body <$> Snapshots.latest w.(w_db) s) /\
  map ev_ID w'.(w_db).(events).(rows) = map ev_ID w.(w_db).(events).(rows).
Proof.
  intros Hok Hrun. unfold Jobs.DeleteFinished in Hrun.
  apply sql_ok_inv in Hrun as ([= <- <-] & _). simpl. split_and!; try done.
  - intros j Hj Hq. apply elem_of_filterb. split; [done|]. apply negb_true_iff.
    unfold queued, running, finished, job_status_in in *. simpl in *.
    destruct (String.eqb_spec j.(job_Status) "success") as [He|_]; [by rewrite He in Hq|].
    destruct (String.eqb_spec j.(job_Status) "failed") as [He|_]; [by rewrite He in Hq|].
    by destruct (String.eqb_spec j.(job_Status) "canceled") as [He|_]; [rewrite He in Hq|].
  - intros l. rewrite elem_of_filterb, negb_true_iff. split.
    + intros [Hl Hn]. split; [done|].
      destruct (fk_logs _ Hok l Hl) as (j & Hj & Hid). exists j. rewrite elem_of_filterb, negb_true_iff.
      split; [|done]. split; [done|]. destruct (finished j) eqn:Ef; [|done].
      rewrite <- Hid, (gone_id job_ID finished _ j Hj Ef) in Hn. done.
    + intros [Hl (j & [Hj Hf]%elem_of_filterb & Hid)]. split; [done|].
      apply not_true_iff_false. rewrite one_of_ids_true.
      intros (k & Hk & Hin)%elem_of_map_elim. apply elem_of_filterb in Hin as [Hin Hkf].
      rewrite negb_true_iff in Hf.
      assert (j = k) as -> by (apply (tbl_id_inj _ _ _ _ _ (ok_jobs _ Hok)); congruence). congruence.
  - intros s. apply latest_same. simpl. by apply map_update_where.
  - by apply map_update_where.
Qed.

Definition demo_history : db :=
  with_job_logs (mkTable [mkJobLog 1 1 "stdout" "pulled" 1700000000; mkJobLog 2 2 "stdout" "up" 1700000000] 2)
  (with_snapshots (mkTable [mkSnapshot 1 1 (Some 1) "ghost:5.1" "sha256:old" "" "{}" "" None 1700000000] 1)
     demo_queue).

Lemma DeleteFinished_spec_witness :
  let r := @Jobs.DeleteFinished calm_env (demo_world demo_history) in
  map job_ID r.2.(w_db).(jobs).(rows) = [2; 3] /\
  snapshot_body <$> Snapshots.latest r.2.(w_db) 1 = snapshot_body <$> Snapshots.latest demo_history 1.
Proof.
  assert (Hok : db_ok demo_history) by (apply db_okb_ok; vm_compute; reflexivity).
  split; [vm_compute; reflexivity|].
  refine (proj1 (proj2 (proj2 (proj2 (proj2
    (@DeleteFinished_spec calm_env (demo_world demo_history) 1 _ Hok _))))) 1).
  vm_compute. reflexivity.
Defined.

(** ** Sessions *)

Definition lives (t : Z) (s : Session) : Prop := t < s.(se_ExpiresAt).

(** A session is returned exactly while it lives: [Sessions.Get] answers a
    stored session with that token and an expiry after [now].  Otherwise it
    answers [ErrSessionNotFound], and no stored session of that token lives, or
    the failure of the lookup; no live session is lost then: what it deletes, if
    anything, is a session of that very token that has expired. *)
Theorem Sessions_Get_spec `{Env} h t w :
  NoDup (map se_TokenHash w.(w_db).(sessions)) ->
  match Sessions.Get h t w with
  | (Ok s, w') =>
      s ∈ w.(w_db).(sessions) /\ s.(se_TokenHash) = h /\ lives t s /\ w'.(w_db) = w.(w_db)
  | (Err e, w') =>
      (sql_fault w.(w_tick) = Some e \/ e = Sessions.ErrSessionNotFound /\
         forall s, s ∈ w.(w_db).(sessions) -> s.(se_TokenHash) = h -> ~ lives t s) /\
      forall s, s ∈ w.(w_db).(sessions) -> (s.(se_TokenHash) <> h \/ lives t s) ->
        s ∈ w'.(w_db).(sessions)
  end.
Proof.
  intros Hn. unfold lives, Sessions.Get, bind_ok, bind.
  destruct (sql "sessions.Get" 0 _ w) as [[s|e] w1] eqn:Es.
  - apply sql_ok_inv in Es as (Hf & _). destruct (List.find _ _) as [s'|] eqn:Ef; [|done].
    injection Hf as -> Hd. apply find_elem in Ef as [Hin Ht]. apply String.eqb_eq in Ht.
    assert (Hu : forall s0, s0 ∈ w.(w_db).(sessions) -> s0.(se_TokenHash) = h -> s0 = s).
    { intros s0 H0 Hh. apply (NoDup_key_inj se_TokenHash w.(w_db).(sessions)); congruence. }
    destruct (Z.ltb_spec t s.(se_ExpiresAt)) as [Hlt|Hge]; simpl; [by rewrite <- Hd|].
    unfold Sessions.Delete, bind_ok, bind.
    destruct (sql "sessions.Delete" 0 _ w1) as [[n|e] w2] eqn:Ed; simpl;
      (split; [right; split; [done|]; intros s0 H0 Hh; rewrite (Hu s0 H0 Hh); lia|]).
    + apply sql_ok_inv in Ed as ([= _ Hd2] & _). rewrite <- Hd2, <- Hd. simpl.
      intros s0 Hs0 Hc. apply elem_of_filterb. split; [done|]. apply negb_true_iff.
      unfold Sessions.has_token. apply String.eqb_neq. intros He. destruct Hc as [Hc|Hc]; [done|].
      rewrite (Hu s0 Hs0 He) in Hc. lia.
    + apply sql_err_inv in Ed as ->. simpl. rewrite <- Hd. auto.
  - simpl. split; [|apply sql_err_inv in Es as ->; simpl; auto].
    unfold sql in Es. destruct (sql_fault w.(w_tick)) as [e'|]; [injection Es as -> _; by left|].
    destruct (List.find _ _) as [s'|] eqn:Ef; simpl in Es; [done|]. injection Es as <- _. right.
    split; [done|]. intros s Hs Hh. exfalso. revert Hh. apply String.eqb_neq.
    exact (find_none_elem _ _ _ Ef Hs).
Qed.

Definition demo_login : db :=
  with_sessions [mkSession "h1" 1 "csrf1" 1700000000 1800000000000000000;
                 mkSession "h2" 1 "csrf2" 1600000000 1650000000000000000]
  (with_users (mkTable [mkUser 1 "admin" "argon" 1600000000] 1) demo_db).

Lemma Sessions_Get_spec_witness :
  let w := demo_world demo_login in
  (@Sessions.Get calm_env "h2" 1700000000000000000 w).1 = Err Sessions.ErrSessionNotFound /\
  map se_TokenHash (@Sessions.Get calm_env "h2" 1700000000000000000 w).2.(w_db).(sessions) = ["h1"] /\
  match (@Sessions.Get calm_env "h1" 1700000000000000000 w).1 with
  | Ok s => 1700000000000000000 < s.(se_ExpiresAt) | Err _ => False end.
Proof.
  split_and!; [vm_compute; reflexivity..|].
  assert (Hn : NoDup (map se_TokenHash (demo_world demo_login).(w_db).(sessions)))
    by (apply (bool_decide_eq_true_1 _); vm_compute; reflexivity).
  pose proof (@Sessions_Get_spec calm_env "h1" 1700000000000000000 (demo_world demo_login) Hn) as Hs.
  vm_compute in Hs |- *. exact (proj1 (proj2 (proj2 Hs))).
Defined.
