(* ===== verification/Files.v ===== *)
(** * Files (package os, and internal/compose/rewrite.go: WriteFileAtomic)

    A file is its content, its permission bits and its owner.  Each primitive
    is one system call: it fails as the environment says, and then has no
    effect, or it has its effect. *)

From stdpp Require Import base list strings gmap.
From Stdlib Require Import Ascii.
From S2P Require Import Prelude GoStd Db Integrity World.

Local Open Scope Z_scope.

Definition ErrNotExist : error := Sentinel "file does not exist".
Definition ErrExist : error := Sentinel "file already exists".

Abbreviation fs := (gmap string file).

(** [filepath.Dir] of a clean path. *)
Definition Dir (path : string) : string :=
  match LastIndexByte path "/" with
  | None => "."
  | Some O => "/"
  | Some i => path.[:i]
  end.

Definition set_content (c : string) (f : file) : file := mkFile c f.(f_mode) f.(f_owner).
Definition set_mode (m : Z) (f : file) : file := mkFile f.(f_content) m f.(f_owner).
Definition set_owner (o : Z * Z) (f : file) : file := mkFile f.(f_content) f.(f_mode) o.

Section Files.
Context {E : Env}.

(** A system call on the files. *)
Definition sys {A} (op path : string) (f : fs -> result (A * fs)) : M world (result A) := fun w =>
  match os_fault w.(w_tick) with
  | Some e => (Err e, tick w)
  | None =>
      match f w.(w_fs) with
      | Err e => (Err e, tick w)
      | Ok (a, m) => (Ok a, record (EvFile op path) (set_fs m (tick w)))
      end
  end.

Definition sys_ReadFile (path : string) : M world (result string) :=
  sys "read" path (fun m => match m !! path with
                            | Some f => Ok (f.(f_content), m) | None => Err ErrNotExist end).

Definition sys_Stat (path : string) : M world (result file) :=
  sys "stat" path (fun m => match m !! path with
                            | Some f => Ok (f, m) | None => Err ErrNotExist end).

(** A change of an existing file. *)
Definition sys_change (op path : string) (g : file -> file) : M world (result unit) :=
  sys op path (fun m => match m !! path with
                        | Some f => Ok (tt, <[path := g f]> m) | None => Err ErrNotExist end).

Definition sys_Remove (path : string) : M world (result unit) :=
  sys "remove" path (fun m => match m !! path with
                              | Some _ => Ok (tt, delete path m) | None => Err ErrNotExist end).

Definition sys_Rename (from to : string) : M world (result unit) :=
  sys "rename" to (fun m => match m !! from with
                            | Some f => Ok (tt, <[to := f]> (delete from m))
                            | None => Err ErrNotExist end).

(** The name the [n]-th call would give to a temporary file in [dir]. *)
Definition temp_path (dir pre suf : string) (n : nat) : string :=
  dir +:+ "/" +:+ pre +:+ random_name n +:+ suf.

(** [os.CreateTemp]: exclusive creation; the file is empty, mode 0600, ours. *)
Definition sys_CreateTemp (dir pre suf : string) : M world (result string) := fun w =>
  let name := temp_path dir pre suf w.(w_tick) in
  sys "create" name (fun m => match m !! name with
                              | Some _ => Err ErrExist
                              | None => Ok (name, <[name := mkFile "" 384 self_owner]> m) end) w.

Definition temp_name (dir : string) (n : nat) : string := temp_path dir ".dockbrr-write-" ".tmp" n.

(** [tmp.Close()]: it can report a failed write-back. *)
Definition sys_Close (path : string) : M world (result unit) := sys "close" path (fun m => Ok (tt, m)).

Definition restoreOwner (tmpName : string) (orig : file) : M world (result unit) :=
  if bool_decide (orig.(f_owner) = self_owner) then ret (Ok tt)
  else sys_change "chown" tmpName (set_owner orig.(f_owner)).

(** Every early return of [WriteFileAtomic] removes the temporary file. *)
Definition cleanup (tmpName : string) (e : error) : M world (result unit) :=
  do! sys_Remove tmpName in ret (Err e).

Definition or_cleanup (tmpName : string) (m : M world (result unit)) (k : M world (result unit)) :
    M world (result unit) :=
  let! r := m in
  match r with
  | Err e => cleanup tmpName e
  | Ok _ => k
  end.

Definition WriteFileAtomic (path content : string) : M world (result unit) :=
  let dir := Dir path in
  let? tmpName := sys_CreateTemp dir ".dockbrr-write-" ".tmp" in
  let! r := sys_change "write" tmpName (set_content content) in
  match r with
  | Err e => do! sys_Close tmpName in cleanup tmpName e
  | Ok _ =>
      or_cleanup tmpName (sys_Close tmpName) (
      let! info := sys_Stat path in
      let mode := match info with Ok f => f.(f_mode) | Err _ => 420 end in
      or_cleanup tmpName (sys_change "chmod" tmpName (set_mode mode)) (
      let finish := sys_Rename tmpName path in
      match info with
      | Ok orig => or_cleanup tmpName (restoreOwner tmpName orig) finish
      | Err _ => finish
      end))
  end.

(** ** What the primitives do *)

Lemma sys_ok_inv {A} op path (f : fs -> result (A * fs)) w a w' :
  sys op path f w = (Ok a, w') ->
  f w.(w_fs) = Ok (a, w'.(w_fs)) /\ w'.(w_db) = w.(w_db) /\
  w'.(w_trace) = EvFile op path :: w.(w_trace) /\ w'.(w_tick) = S w.(w_tick).
Proof.
  unfold sys. destruct (os_fault _); [done|].
  destruct (f _) as [[b m]|e] eqn:Ef; intros [= <- <-]. done.
Qed.

Lemma sys_err_inv {A} op path (f : fs -> result (A * fs)) w e w' :
  sys op path f w = (Err e, w') -> w' = tick w.
Proof.
  unfold sys. destruct (os_fault _); [by intros [= _ <-]|].
  destruct (f _) as [[b m]|e'] eqn:Ef; intros [= _ <-]. done.
Qed.

(** A predicate on the files. *)
Definition on_fs (P : fs -> Prop) : world -> Prop := fun w => P w.(w_fs).

Lemma keeps_sys_fs {A} (P : fs -> Prop) op path (f : fs -> result (A * fs)) :
  (forall m a m', P m -> f m = Ok (a, m') -> P m') -> keeps (on_fs P) (sys op path f).
Proof.
  intros H w Hw. destruct (sys op path f w) as [[a|e] w'] eqn:E1; simpl.
  - apply sys_ok_inv in E1 as (Hf & _). by eapply H.
  - by apply sys_err_inv in E1 as ->.
Qed.

(** The files but the one at [tmp]. *)
Definition agree_but (tmp : string) (m0 m : fs) : Prop := forall p, p <> tmp -> m !! p = m0 !! p.

Lemma keeps_change tmp m0 op g : keeps (on_fs (agree_but tmp m0)) (sys_change op tmp g).
Proof.
  apply keeps_sys_fs. intros m a m' Hm. destruct (m !! tmp); [|done]. intros [= _ <-] p Hp.
  rewrite lookup_insert_ne by done. by apply Hm.
Qed.

Lemma keeps_remove tmp m0 : keeps (on_fs (agree_but tmp m0)) (sys_Remove tmp).
Proof.
  apply keeps_sys_fs. intros m a m' Hm. destruct (m !! tmp); [|done]. intros [= _ <-] p Hp.
  rewrite lookup_delete_ne by done. by apply Hm.
Qed.

Lemma keeps_close tmp m0 p : keeps (on_fs (agree_but tmp m0)) (sys_Close p).
Proof. apply keeps_sys_fs. by intros m a m' Hm [= _ <-]. Qed.

Lemma keeps_stat tmp m0 p : keeps (on_fs (agree_but tmp m0)) (sys_Stat p).
Proof. apply keeps_sys_fs. intros m a m' Hm. destruct (m !! p); by intros [= _ <-]. Qed.

Lemma keeps_cleanup tmp m0 e : keeps (on_fs (agree_but tmp m0)) (cleanup tmp e).
Proof. unfold cleanup. keeps_walk. apply keeps_remove. Qed.

Lemma keeps_restore tmp m0 o : keeps (on_fs (agree_but tmp m0)) (restoreOwner tmp o).
Proof. unfold restoreOwner. keeps_walk. apply keeps_change. Qed.
End Files.

#[export] Hint Resolve keeps_change keeps_remove keeps_close keeps_stat keeps_cleanup keeps_restore : keeps.

(** ** WriteFileAtomic *)

Section Atomic.
Context {E : Env}.

Lemma lift_keeps {A} I (m : M world A) w a w' : keeps I m -> m w = (a, w') -> I w -> I w'.
Proof. intros H Hm Hw. specialize (H w Hw). by rewrite Hm in H. Qed.

Lemma or_cleanup_inv tmp m k w r w' :
  or_cleanup tmp m k w = (r, w') ->
  (exists w1, m w = (Ok tt, w1) /\ k w1 = (r, w')) \/
  (exists e w1, m w = (Err e, w1) /\ cleanup tmp e w1 = (r, w')).
Proof.
  unfold or_cleanup. intros (x & w1 & Hm & Hk)%bind_inv.
  destruct x as [[]|e]; [left; eauto|right; eauto].
Qed.

Lemma cleanup_err tmp e w r w' : cleanup tmp e w = (r, w') -> r = Err e.
Proof. unfold cleanup. intros (x & w1 & _ & [= <- _])%bind_inv. done. Qed.

Lemma change_ok op p g w x w' f :
  sys_change op p g w = (Ok x, w') -> w.(w_fs) !! p = Some f -> w'.(w_fs) = <[p := g f]> w.(w_fs).
Proof. intros (Hf & _)%sys_ok_inv Hp. rewrite Hp in Hf. by injection Hf as _ <-. Qed.

(** What the temporary file becomes, and the files after the rename. *)
Definition written (content : string) (info : result file) : file :=
  match info with
  | Ok f => mkFile content f.(f_mode) f.(f_owner)
  | Err _ => mkFile content 420 self_owner
  end.

Lemma restoreOwner_ok tmp o w x w' f :
  restoreOwner tmp o w = (Ok x, w') -> w.(w_fs) !! tmp = Some f -> f.(f_owner) = self_owner ->
  w'.(w_fs) = <[tmp := set_owner o.(f_owner) f]> w.(w_fs).
Proof.
  unfold restoreOwner. case_bool_decide as Ho.
  - intros [= _ <-] Hp Hf. rewrite Ho, <- Hf. symmetry. apply insert_id. rewrite Hp. by destruct f.
  - intros H Hp _. by apply (change_ok _ _ _ _ _ _ _ H).
Qed.

Lemma rename_tmp tmp path w x w' f m :
  sys_Rename tmp path w = (Ok x, w') -> w.(w_fs) = <[tmp := f]> m -> m !! tmp = None ->
  w'.(w_fs) = <[path := f]> m.
Proof.
  intros (Hf & _)%sys_ok_inv Hw Hm. rewrite Hw, lookup_insert_eq in Hf. injection Hf as _ <-.
  by rewrite delete_insert_id.
Qed.

(** The state between two steps: the files of the start, and the temporary one. *)
Definition with_tmp (tmp : string) (f : file) (m : fs) (w : world) : Prop := w.(w_fs) = <[tmp := f]> m.

Lemma with_tmp_lookup tmp f m w : with_tmp tmp f m w -> w.(w_fs) !! tmp = Some f.
Proof. unfold with_tmp. intros ->. apply lookup_insert_eq. Qed.

Lemma with_tmp_change op tmp g f m w x w' :
  with_tmp tmp f m w -> sys_change op tmp g w = (Ok x, w') -> with_tmp tmp (g f) m w'.
Proof.
  intros Hw Hc. unfold with_tmp. rewrite (change_ok _ _ _ _ _ _ f Hc) by by eapply with_tmp_lookup.
  rewrite Hw. apply insert_insert_eq.
Qed.

Lemma WriteFileAtomic_finish tmp path content info m w r w' :
  m !! tmp = None -> with_tmp tmp (mkFile content (f_mode (written content info)) self_owner) m w ->
  (match info with
   | Ok orig => or_cleanup tmp (restoreOwner tmp orig) (sys_Rename tmp path)
   | Err _ => sys_Rename tmp path
   end) w = (r, w') ->
  r = Ok tt -> w'.(w_fs) = <[path := written content info]> m.
Proof.
  intros Hm Hw Hrun ->. destruct info as [orig|e].
  - apply or_cleanup_inv in Hrun as [(w1 & Hr & Hrun)|(e & w1 & _ & Hc)].
    + eapply rename_tmp; [exact Hrun| |done].
      rewrite (restoreOwner_ok _ _ _ _ _ _ Hr (with_tmp_lookup _ _ _ _ Hw)) by done.
      rewrite Hw. apply insert_insert_eq.
    + by apply cleanup_err in Hc.
  - eapply rename_tmp; [exact Hrun|exact Hw|done].
Qed.

Lemma create_ok path w tmp w' :
  sys_CreateTemp (Dir path) ".dockbrr-write-" ".tmp" w = (Ok tmp, w') ->
  tmp = temp_name (Dir path) w.(w_tick) /\ w.(w_fs) !! tmp = None /\
  with_tmp tmp (mkFile "" 384 self_owner) w.(w_fs) w' /\ w'.(w_tick) = S w.(w_tick).
Proof.
  unfold sys_CreateTemp. intros (Hf & _ & _ & Ht)%sys_ok_inv.
  fold (temp_name (Dir path) w.(w_tick)) in Hf.
  destruct (w.(w_fs) !! temp_name (Dir path) w.(w_tick)) eqn:El; [done|].
  injection Hf as <- Hw. unfold with_tmp. auto.
Qed.

Lemma sys_tick {A} op p (f : fs -> result (A * fs)) w r w' : sys op p f w = (r, w') -> w'.(w_tick) = S w.(w_tick).
Proof.
  destruct r; [by intros (_ & _ & _ & ?)%sys_ok_inv|by intros ->%sys_err_inv].
Qed.

Lemma WriteFileAtomic_success path content w w' :
  path <> temp_name (Dir path) w.(w_tick) ->
  WriteFileAtomic path content w = (Ok tt, w') ->
  exists info, w'.(w_fs) = <[path := written content info]> w.(w_fs) /\
    (os_fault (3 + w.(w_tick))%nat = None ->
     info = match w.(w_fs) !! path with Some f => Ok f | None => Err ErrNotExist end).
Proof.
  intros Hne Hrun. unfold WriteFileAtomic in Hrun.
  apply bind_ok_inv in Hrun as (tmp & w1 & Hc & Hrun). apply create_ok in Hc as (Ht & Hm & Hw1 & Hk1).
  apply bind_inv in Hrun as (r2 & w2 & Hwr & Hrun). pose proof (sys_tick _ _ _ _ _ _ Hwr) as Hk2.
  destruct r2 as [u|e]; [|apply bind_inv in Hrun as (? & ? & _ & Hx); by apply cleanup_err in Hx].
  eapply with_tmp_change in Hwr; [|exact Hw1].
  apply or_cleanup_inv in Hrun as [(w3 & Hcl & Hrun)|(e & w3 & _ & Hx)]; [|by apply cleanup_err in Hx].
  pose proof (sys_tick _ _ _ _ _ _ Hcl) as Hk3.
  apply sys_ok_inv in Hcl as ([= Hf3] & _).
  assert (Hw3 : with_tmp tmp (set_content content (mkFile "" 384 self_owner)) w.(w_fs) w3)
    by (unfold with_tmp; by rewrite <- Hf3).
  apply bind_inv in Hrun as (info & w4 & Hst & Hrun).
  assert (Hw4 : with_tmp tmp (set_content content (mkFile "" 384 self_owner)) w.(w_fs) w4).
  { unfold with_tmp. destruct info as [f|e].
    - apply sys_ok_inv in Hst as (Hs & _). destruct (w3.(w_fs) !! path); [|done].
      injection Hs as _ <-. exact Hw3.
    - by apply sys_err_inv in Hst as ->. }
  apply or_cleanup_inv in Hrun as [(w5 & Hch & Hrun)|(e & w5 & _ & Hx)]; [|by apply cleanup_err in Hx].
  eapply with_tmp_change in Hch; [|exact Hw4]. exists info. split.
  - eapply WriteFileAtomic_finish; [exact Hm| |exact Hrun|done].
    revert Hch. by destruct info.
  - intros Hnf. unfold sys_Stat, sys in Hst. replace (w_tick w3) with (3 + w.(w_tick))%nat in Hst by lia.
    rewrite Hnf in Hst. unfold with_tmp in Hw3. rewrite Hw3 in Hst.
    rewrite lookup_insert_ne in Hst by by rewrite Ht.
    destruct (w.(w_fs) !! path); by injection Hst as <- _.
Qed.

Lemma rename_err tmp path w e w' : sys_Rename tmp path w = (Err e, w') -> w'.(w_fs) = w.(w_fs).
Proof. by intros ->%sys_err_inv. Qed.

Lemma or_cleanup_err tmp m0 m k w e w' :
  keeps (on_fs (agree_but tmp m0)) m ->
  (forall w1, on_fs (agree_but tmp m0) w1 -> forall w2, k w1 = (Err e, w2) -> on_fs (agree_but tmp m0) w2) ->
  on_fs (agree_but tmp m0) w -> or_cleanup tmp m k w = (Err e, w') -> on_fs (agree_but tmp m0) w'.
Proof.
  intros Hm Hk Hw [(w1 & Hr & Hrun)|(e1 & w1 & Hr & Hrun)]%or_cleanup_inv.
  - eapply Hk; [|exact Hrun]. by eapply lift_keeps.
  - eapply lift_keeps; [apply keeps_cleanup|exact Hrun|]. by eapply lift_keeps.
Qed.

Lemma WriteFileAtomic_failure path content w e w' :
  WriteFileAtomic path content w = (Err e, w') ->
  agree_but (temp_name (Dir path) w.(w_tick)) w.(w_fs) w'.(w_fs).
Proof.
  intros Hrun. unfold WriteFileAtomic in Hrun.
  set (tmp := temp_name (Dir path) w.(w_tick)). change (on_fs (agree_but tmp w.(w_fs)) w').
  apply bind_ok_err in Hrun as [Hc|(tmp' & w1 & Hc & Hrun)].
  { unfold sys_CreateTemp in Hc. by apply sys_err_inv in Hc as ->. }
  apply create_ok in Hc as (-> & _ & Hw1 & _). fold tmp in Hrun, Hw1.
  assert (H1 : on_fs (agree_but tmp w.(w_fs)) w1).
  { intros p Hp. rewrite Hw1. by rewrite lookup_insert_ne. }
  apply bind_inv in Hrun as (r2 & w2 & Hwr & Hrun).
  assert (H2 : on_fs (agree_but tmp w.(w_fs)) w2) by (eapply lift_keeps; [apply keeps_change|done..]).
  destruct r2 as [u|e2].
  2:{ eapply (lift_keeps _ (do! sys_Close tmp in cleanup tmp e2)); [keeps_walk|exact Hrun|done]. }
  eapply or_cleanup_err; [apply keeps_close| |exact H2|exact Hrun].
  intros w3 H3 w4 Hrun3. apply bind_inv in Hrun3 as (info & w5 & Hst & Hrun3).
  assert (H5 : on_fs (agree_but tmp w.(w_fs)) w5) by (eapply lift_keeps; [apply keeps_stat|done..]).
  eapply or_cleanup_err; [apply keeps_change| |exact H5|exact Hrun3].
  intros w6 H6 w7 Hrun6. destruct info as [orig|e6].
  - eapply or_cleanup_err; [apply keeps_restore| |exact H6|exact Hrun6].
    intros w8 H8 w9 Hrn. unfold on_fs. by rewrite (rename_err _ _ _ _ _ Hrn).
  - unfold on_fs. by rewrite (rename_err _ _ _ _ _ Hrun6).
Qed.

(** C27. [WriteFileAtomic] is all or nothing, whatever call fails and (with an
    environment where every call fails from some point on) wherever the process
    is killed: on success the path has exactly the new content, with the mode and
    the owner of the file it replaces whenever that file could be read, and no
    other file changed; otherwise no file changed but the temporary one. *)
Theorem WriteFileAtomic_spec path content w :
  path <> temp_name (Dir path) w.(w_tick) ->
  match WriteFileAtomic path content w with
  | (Ok _, w') =>
      exists mode owner,
        w'.(w_fs) = (<[path := mkFile content mode owner]> w.(w_fs) : fs) /\
        (os_fault (3 + w.(w_tick))%nat = None ->
           (mode, owner) = match w.(w_fs) !! path with
                           | Some f => (f.(f_mode), f.(f_owner))
                           | None => (420, self_owner)
                           end)
  | (Err _, w') => agree_but (temp_name (Dir path) w.(w_tick)) w.(w_fs) w'.(w_fs)
  end.
Proof.
  intros Hne. destruct (WriteFileAtomic path content w) as [[[]|e] w'] eqn:Hrun.
  - destruct (WriteFileAtomic_success _ _ _ _ Hne Hrun) as (info & Hfs & Hi).
    destruct info as [f|e]; eexists _, _; (split; [exact Hfs|]); intros Hnf; specialize (Hi Hnf);
      destruct (w.(w_fs) !! path); by inversion Hi.
  - by eapply WriteFileAtomic_failure.
Qed.
End Atomic.

Definition demo_files : fs :=
  <["/srv/blog/compose.yml" := mkFile "services: {}" 416 (1000, 1000)]> ∅.

Lemma WriteFileAtomic_spec_witness :
  let w := mkWorld demo_db demo_files [] 0 in
  let r := @WriteFileAtomic calm_env "/srv/blog/compose.yml" "services: {web: {}}" w in
  r.1 = Ok tt /\ r.2.(w_fs) !! "/srv/blog/compose.yml" = Some (mkFile "services: {web: {}}" 416 (1000, 1000)).
Proof.
  assert (Hne : "/srv/blog/compose.yml" <> @temp_name calm_env (Dir "/srv/blog/compose.yml") 0)
    by (vm_compute; discriminate).
  pose proof (@WriteFileAtomic_spec calm_env "/srv/blog/compose.yml" "services: {web: {}}"
    (mkWorld demo_db demo_files [] 0) Hne) as Hs.
  assert (Hr : (@WriteFileAtomic calm_env "/srv/blog/compose.yml" "services: {web: {}}"
    (mkWorld demo_db demo_files [] 0)).1 = Ok tt) by (vm_compute; reflexivity).
  split; [exact Hr|]. cbv zeta in *.
  destruct (@WriteFileAtomic calm_env _ _ _) as [[u|e] w']; [|discriminate Hr].
  destruct Hs as (mode & owner & Hfs & Hmo). specialize (Hmo eq_refl).
  simpl. rewrite Hfs, lookup_insert_eq. injection Hmo as -> ->. vm_compute. reflexivity.
Defined.

(** The temporary file is left behind when the rename itself fails. *)
Definition rename_fails : Env := {|
  sql_fault _ := None;
  os_fault n := if (n =? 6)%nat then Some (Errorf "rename: device or resource busy") else None;
  clock _ := 0;
  random_name _ := "x";
  self_owner := (0, 0);
  ctx_done _ := false;
|}.

Lemma WriteFileAtomic_leaves_temp :
  let r := @WriteFileAtomic rename_fails "/srv/blog/compose.yml" "new" (mkWorld demo_db demo_files [] 0) in
  r.1 = Err (Errorf "rename: device or resource busy") /\
  f_content <$> r.2.(w_fs) !! "/srv/blog/.dockbrr-write-x.tmp" = Some "new".
Proof. split; vm_compute; reflexivity. Qed.
