(* ===== verification/Compose.v ===== *)
(** * The compose surface (internal/compose: runner.go, dependents.go,
    rewrite.go, parse.go)

    The argv of every `docker compose` call, the specs the applier and the
    preview share, the namespace dependents, the edit of an image line, and the
    read-only parse.  The docker CLI, the YAML parser and the compose loader are
    parameters. *)

From stdpp Require Import base list strings gmap sets.
From Stdlib Require Import Ascii Sorted.
From S2P Require Import Prelude GoStd Db Integrity World Files.

Local Open Scope Z_scope.

(** ** runner.go *)

Definition ErrVerbNotAllowed : error := Sentinel "compose verb not allowed".

Definition allowedVerbs : list string := ["pull"; "up"; "down"; "ps"; "config"].

Record RunSpec := mkRunSpec {
  ConfigFiles : list string;
  ProjectDir : string;
  ProjectName : string;
  Verb : string;
  Args : list string;
}.

Definition file_flags (files : list string) : list string := concat (map (fun f => ["-f"; f]) files).
Definition flag_unless_empty (flag v : string) : list string :=
  if negb (String.eqb v "") then [flag; v] else [].

Definition buildArgs (spec : RunSpec) : result (list string) :=
  if negb (existsb (String.eqb spec.(Verb)) allowedVerbs)
  then Err (WrapAs (error_text ErrVerbNotAllowed +:+ ": " +:+ Quote spec.(Verb)) ErrVerbNotAllowed)
  else Ok (["compose"] ++ file_flags spec.(ConfigFiles)
           ++ flag_unless_empty "--project-directory" spec.(ProjectDir)
           ++ flag_unless_empty "-p" spec.(ProjectName)
           ++ [spec.(Verb)] ++ spec.(Args)).

Definition Preview (spec : RunSpec) : result string :=
  match buildArgs spec with
  | Err e => Err e
  | Ok args => Ok ("docker " +:+ Join args " ")
  end.

Definition ScopeTargets (scope service : string) : list string :=
  if String.eqb scope "service" && negb (String.eqb service "") then [service] else [].

Definition PullSpec (files : list string) (dir projectName scope service : string) : RunSpec :=
  mkRunSpec files dir projectName "pull" (ScopeTargets scope service).

Definition UpSpec (files : list string) (dir projectName scope service : string) : RunSpec :=
  let args := ["-d"] in
  let args := if String.eqb scope "service" && negb (String.eqb service "")
              then args ++ ["--no-deps"; service] else args in
  mkRunSpec files dir projectName "up" args.

Definition ForceRecreateSpec (files : list string) (dir projectName : string) (services : list string) : RunSpec :=
  mkRunSpec files dir projectName "up" (["-d"; "--no-deps"; "--force-recreate"] ++ services).

(** *** The filter on docker's pull progress *)

(** [\s] of the regular expression. *)
Definition re_space (a : ascii) : bool :=
  let n := byte a in ((n =? 9) || (n =? 10) || (n =? 12) || (n =? 13) || (n =? 32))%nat.

Fixpoint drop_while (p : ascii -> bool) (s : string) : string :=
  match s with
  | String a s' => if p a then drop_while p s' else s
  | "" => ""
  end.

Definition is_word (a : ascii) : bool :=
  let n := byte a in
  ((48 <=? n) && (n <=? 57) || (65 <=? n) && (n <=? 90) || (97 <=? n) && (n <=? 122) || (n =? 95))%nat.

Definition progress_words : list string :=
  ["Downloading"; "Extracting"; "Waiting"; "Verifying Checksum"; "Pending"; "Pulling fs layer";
   "Download complete"; "Pull complete"; "Already exists"].

(** The word and then a boundary: the word ends with a letter, so the next
    character must not continue it. *)
Definition word_here (s w : string) : bool :=
  HasPrefix s w && match s.[len w:] with String a _ => negb (is_word a) | "" => true end.

Definition transientProgressRe (line : string) : bool :=
  match drop_while re_space line with
  | "" => false
  | s1 =>
      match drop_while (fun a => negb (re_space a)) s1 with
      | "" => false
      | s2 => existsb (word_here (drop_while re_space s2)) progress_words
      end
  end.

Definition isTransientProgress (line : string) : bool := transientProgressRe line.

(** *** Running the CLI *)

(** What a process wrote, the lines of the two pipes in the order the sink got
    them; [Truncated]: the scanner of a pipe gave up. *)
Inductive out_line := Line (stream line : string) | Truncated (stream err : string).

(** [compose_run n argv]: the exit code of the process the [n]-th call starts
    (an error: it did not start), with what it wrote. *)
Class ComposeCLI := {
  compose_run : nat -> list string -> result Z * list out_line;
}.

Definition exit_of (r : result Z) : option Z := match r with Ok c => Some c | Err _ => None end.

Section Runner.
Context {E : Env} {CLI : ComposeCLI}.

Definition streamPipe (sink : string -> string -> M world unit) (l : out_line) : M world unit :=
  match l with
  | Line stream line => if isTransientProgress line then ret tt else sink stream line
  | Truncated stream err => sink stream ("[dockbrr: log stream truncated: " +:+ err +:+ "]")
  end.

(** [ExecRunner.Run]: the exit code of a process that started. *)
Definition Run (spec : RunSpec) (sink : string -> string -> M world unit) : M world (result Z) :=
  match buildArgs spec with
  | Err e => ret (Err e)
  | Ok args =>
      let! r := call (fun r => EvCompose args (exit_of r.1)) (fun n => compose_run n args) in
      let '(code, out) := r in
      do! for_each out (streamPipe sink) in
      ret code
  end.
End Runner.

(** ** parse.go and dependents.go *)

Module Compose.

Record Service := mkService {
  Name : string;
  Image : string;
  NetworkMode : string;
  Ipc : string;
  Pid : string;
  Build : bool;
}.

Record Project := mkProject { Project_Name : string; Services : list Service }.

(** compose-go's loader and dotenv, and the process environment.  The services
    of a loaded project are a Go map: their order is the loader's whim. *)
Class ComposeGo := {
  environ : list string;
  load_project : string -> list (string * string) -> gmap string string -> string ->
                 result (string * list Service);
  env_from_file : gmap string string -> string -> option (gmap string string);
}.

Definition env_entry (env : gmap string string) (kv : string) : gmap string string :=
  match IndexByte kv "=" with
  | Some (S i) => <[kv.[:(S i)] := kv.[(S (S i)):]]> env
  | _ => env
  end.

(** [strings.ToLower] followed by the filter of [projectName] on one run of
    bytes: the letters, digits, underscores and minuses of the lowered text.
    Two runes outside ASCII have an ASCII lower case: the Kelvin sign and the
    dotted capital I. *)
Definition legal_name_byte (a : ascii) : bool :=
  let n := byte a in
  ((97 <=? n) && (n <=? 122) || (48 <=? n) && (n <=? 57) || (n =? 95) || (n =? 45))%nat.

Definition lower_byte (a : ascii) : ascii :=
  let n := byte a in if ((65 <=? n) && (n <=? 90))%nat then ascii_of_nat (n + 32) else a.

Fixpoint lower_legal (s : string) : string :=
  match s with
  | "" => ""
  | String a s1 =>
      match s1 with
      | String b s2 =>
          if ((byte a =? 196) && (byte b =? 176))%nat then String "i" (lower_legal s2)
          else match s2 with
               | String c s3 =>
                   if ((byte a =? 226) && (byte b =? 132) && (byte c =? 170))%nat
                   then String "k" (lower_legal s3)
                   else if legal_name_byte (lower_byte a)
                        then String (lower_byte a) (lower_legal s1) else lower_legal s1
               | "" => if legal_name_byte (lower_byte a)
                       then String (lower_byte a) (lower_legal s1) else lower_legal s1
               end
      | "" => if legal_name_byte (lower_byte a) then String (lower_byte a) "" else ""
      end
  end.

(** [filepath.Base] *)
Definition Base (path : string) : string :=
  if String.eqb path "" then "."
  else
    let p := (fix trim (n : nat) (s : string) := match n with
               | O => s | S n' => if HasSuffix s "/" then trim n' (TrimSuffix s "/") else s end)
             (len path) path in
    if String.eqb p "" then "/"
    else match LastIndexByte p "/" with Some i => p.[(S i):] | None => p end.

Definition projectName (workingDir : string) : string :=
  let name := drop_while (one_of "_-") (lower_legal (Base workingDir)) in
  if String.eqb name "" then "dockbrr" else name.

Definition name_less (a b : Service) : bool := str_less a.(Name) b.(Name).

Section Parse.
Context {E : Env} {SS : SliceSort} {CG : ComposeGo}.

Definition buildEnv (workingDir : string) : M world (gmap string string) :=
  let env := fold_left env_entry environ ∅ in
  if String.eqb workingDir "" then ret env
  else
    let envPath := workingDir +:+ "/.env" in
    let! st := sys_Stat envPath in
    match st with
    | Err _ => ret env
    | Ok f =>
        match env_from_file env f.(f_content) with
        | None => ret env
        | Some fromFile => ret (env ∪ fromFile)
        end
    end.

Fixpoint read_files (files : list string) : M world (result (list (string * string))) :=
  match files with
  | [] => ret (Ok [])
  | f :: files' =>
      let! b := sys_ReadFile f in
      match b with
      | Err e => ret (Err (Wrap ("compose: read " +:+ f) e))
      | Ok c => let? rest := read_files files' in ret (Ok ((f, c) :: rest))
      end
  end.

Definition Parse (workingDir : string) (configFiles : list string) : M world (result Project) :=
  match configFiles with
  | [] => ret (Err (Errorf "compose: no config files"))
  | _ =>
      let? cfgs := read_files configFiles in
      let! env := buildEnv workingDir in
      match load_project workingDir cfgs env (projectName workingDir) with
      | Err e => ret (Err (Wrap "compose: load" e))
      | Ok (name, svcs) => ret (Ok (mkProject name (slice_sort name_less svcs)))
      end
  end.
End Parse.

Definition namespaceServicePrefix : string := "service:".

(** The loop of [NamespaceDependents]: [out] in the order of the services. *)
Definition dependents_step (want target : string) (out : list string) (s : Service) : list string :=
  if String.eqb s.(Name) target then out
  else if String.eqb s.(NetworkMode) want || String.eqb s.(Ipc) want || String.eqb s.(Pid) want then
    if existsb (String.eqb s.(Name)) out then out else out ++ [s.(Name)]
  else out.

Definition NamespaceDependents (services : list Service) (target : string) : list string :=
  let want := namespaceServicePrefix +:+ target in
  sort_strings (fold_left (dependents_step want target) services []).

End Compose.

(** [HashFiles]: sha256 is a parameter. *)
Class Sha256 := { sha256_hex : string -> string }.

Fixpoint hash_input `{Env} (files : list string) (acc : string) : M world (result string) :=
  match files with
  | [] => ret (Ok acc)
  | f :: files' =>
      let! b := sys_ReadFile f in
      match b with
      | Err e => ret (Err (Wrap ("compose: hash read " +:+ f) e))
      | Ok c => hash_input files' (acc +:+ c)
      end
  end.

Definition HashFiles `{Env} `{Sha256} (configFiles : list string) : M world (result string) :=
  let? bytes := hash_input configFiles "" in
  ret (Ok (sha256_hex bytes)).

(** ** rewrite.go *)

(** The part of [yaml.Node] the code reads. *)
Inductive NodeKind := DocumentNode | SequenceNode | MappingNode | ScalarNode | AliasNode.

#[export] Instance NodeKind_eq_dec : EqDecision NodeKind.
Proof. solve_decision. Defined.

Inductive Node := mkNode (Kind : NodeKind) (Value : string) (Line : Z) (Content : list Node).

Definition node_Kind (n : Node) := let 'mkNode k _ _ _ := n in k.
Definition node_Value (n : Node) := let 'mkNode _ v _ _ := n in v.
Definition node_Line (n : Node) := let 'mkNode _ _ l _ := n in l.
Definition node_Content (n : Node) := let 'mkNode _ _ _ c := n in c.

Class Yaml := { yaml_Unmarshal : string -> result Node }.

Record LocatedImage := mkLocated { li_File : string; li_Line : Z; li_OldRef : string; li_Rewritable : bool }.

Definition no_image : LocatedImage := mkLocated "" 0 "" false.

(** The pairs of a mapping node's content; a last odd node is not looked at. *)
Fixpoint map_pair (l : list Node) (key : string) : option Node :=
  match l with
  | k :: v :: l' => if String.eqb (node_Value k) key then Some v else map_pair l' key
  | _ => None
  end.

Definition mapValue (m : option Node) (key : string) : option Node :=
  match m with
  | None => None
  | Some m => if negb (bool_decide (node_Kind m = MappingNode)) then None
              else map_pair (node_Content m) key
  end.

Definition imageScalar (doc : Node) (service : string) : option Node :=
  match node_Content doc with
  | [] => None
  | root :: _ =>
      match mapValue (Some root) "services" with
      | None => None
      | Some services =>
          match mapValue (Some services) service with
          | None => None
          | Some svc => mapValue (Some svc) "image"
          end
      end
  end.

Definition located (f : string) (node : Node) : LocatedImage :=
  let val := node_Value node in
  mkLocated f (node_Line node) val
    (negb (Contains val "${" || bool_decide (node_Kind node = AliasNode) || String.eqb val "")).

Fixpoint locate_from `{Env} `{Yaml} (configFiles : list string) (service : string) (found : LocatedImage) :
    M world (result LocatedImage) :=
  match configFiles with
  | [] => ret (Ok found)
  | f :: files' =>
      let! data := sys_ReadFile f in
      match data with
      | Err e => ret (Err (Wrap ("read " +:+ f) e))
      | Ok data =>
          match yaml_Unmarshal data with
          | Err e => ret (Err (Wrap ("parse " +:+ f) e))
          | Ok doc =>
              match imageScalar doc service with
              | None => locate_from files' service found
              | Some node => locate_from files' service (located f node)
              end
          end
      end
  end.

Definition LocateImageLine `{Env} `{Yaml} (configFiles : list string) (service : string) :
    M world (result LocatedImage) := locate_from configFiles service no_image.

Definition nl : string := String newline "".

Definition ReplaceImageLine (content oldRef newRef : string) (line : Z) : result string :=
  let lines := Split content newline in
  if (line <? 1) || (Z.of_nat (length lines) <? line) then Err (Errorf ("line " +:+ Itoa line +:+ " out of range (" +:+ Itoa (Z.of_nat (length lines)) +:+ " lines)"))
  else
    let i := Z.to_nat (line - 1) in
    match lines !! i with
    | None => Err (Errorf "index out of range")
    | Some l =>
        if negb (Contains l oldRef) then Err (Errorf ("line " +:+ Itoa line +:+ " does not contain " +:+ Quote oldRef))
        else Ok (Join (<[i := Replace1 l oldRef newRef]> lines) nl)
    end.

(** ** The argv *)

(** How the CLI reads an argv: global flags with their values, the verb, and
    everything after it. *)
Fixpoint read_flags (l : list string) (files : list string) (dir name : string) : option RunSpec :=
  match l with
  | [] => None
  | flag :: l1 =>
      if existsb (String.eqb flag) allowedVerbs then Some (mkRunSpec files dir name flag l1)
      else match l1 with
           | [] => None
           | v :: l2 =>
               if String.eqb flag "-f" then read_flags l2 (files ++ [v]) dir name
               else if String.eqb flag "--project-directory" then read_flags l2 files v name
               else if String.eqb flag "-p" then read_flags l2 files dir v
               else None
           end
  end.

Definition read_argv (l : list string) : option RunSpec :=
  match l with "compose" :: l' => read_flags l' [] "" "" | _ => None end.

Lemma read_flags_files fs l files dir name :
  read_flags (file_flags fs ++ l) files dir name = read_flags l (files ++ fs) dir name.
Proof.
  revert files. induction fs as [|f fs IH]; intros files; [by rewrite app_nil_r|].
  change (file_flags (f :: fs)) with ("-f" :: f :: file_flags fs). simpl.
  by rewrite IH, <- app_assoc.
Qed.

Lemma buildArgs_verb spec :
  match buildArgs spec with
  | Ok _ => spec.(Verb) ∈ allowedVerbs
  | Err e => e = WrapAs (error_text ErrVerbNotAllowed +:+ ": " +:+ Quote spec.(Verb)) ErrVerbNotAllowed /\
             spec.(Verb) ∉ allowedVerbs
  end.
Proof.
  unfold buildArgs. destruct (existsb (String.eqb spec.(Verb)) allowedVerbs) eqn:Ev; simpl.
  - apply existsb_elem in Ev as (v & Hv & ->%String.eqb_eq). done.
  - split; [done|]. intros Hin. apply not_true_iff_false in Ev. apply Ev.
    apply existsb_elem. exists spec.(Verb). by rewrite String.eqb_refl.
Qed.

Lemma buildArgs_read spec args : buildArgs spec = Ok args -> read_argv args = Some spec.
Proof.
  destruct spec as [files dir name verb rest]. unfold buildArgs. simpl Verb.
  destruct (existsb (String.eqb verb) allowedVerbs) eqn:Ev; simpl negb; cbv iota; intros [= <-].
  cbn [app read_argv ConfigFiles ProjectDir ProjectName Args]. rewrite read_flags_files.
  assert (Hend : forall d n, read_flags (verb :: rest) files d n = Some (mkRunSpec files d n verb rest)).
  { intros d n. cbn [read_flags]. by rewrite Ev. }
  unfold flag_unless_empty.
  destruct (String.eqb_spec dir "") as [->|Hd], (String.eqb_spec name "") as [->|Hn];
    cbn [negb app]; apply Hend.
Qed.

(** C28. The argv says what the spec says, whatever the paths and names hold:
    reading it back gives the spec.  A verb outside the whitelist gives no argv
    at all. *)
Theorem buildArgs_roundtrip spec :
  match buildArgs spec with
  | Ok args => read_argv args = Some spec /\ spec.(Verb) ∈ allowedVerbs
  | Err e => errors_Is e "compose verb not allowed" = true /\ spec.(Verb) ∉ allowedVerbs
  end.
Proof.
  pose proof (buildArgs_verb spec) as Hv. destruct (buildArgs spec) as [args|e] eqn:Eb.
  - split; [by apply buildArgs_read|done].
  - by destruct Hv as [-> Hv].
Qed.

(** ** Namespace dependents *)

Section Dependents.
Context (services : list Compose.Service) (target : string).

Let want := Compose.namespaceServicePrefix +:+ target.

(** [s] borrows a namespace of the target. *)
Definition borrows (s : Compose.Service) : Prop :=
  s.(Compose.Name) <> target /\
  (s.(Compose.NetworkMode) = want \/ s.(Compose.Ipc) = want \/ s.(Compose.Pid) = want).

Lemma dependents_step_spec out s x :
  x ∈ Compose.dependents_step want target out s <->
  x ∈ out \/ (x = s.(Compose.Name) /\ borrows s).
Proof.
  unfold Compose.dependents_step, borrows.
  destruct (String.eqb_spec s.(Compose.Name) target) as [He|He]; [naive_solver|].
  destruct (String.eqb_spec s.(Compose.NetworkMode) want), (String.eqb_spec s.(Compose.Ipc) want),
    (String.eqb_spec s.(Compose.Pid) want); simpl; try naive_solver.
  all: destruct (existsb (String.eqb s.(Compose.Name)) out) eqn:Ex;
    [apply existsb_elem in Ex as (y & Hy & ->%String.eqb_eq); naive_solver
    |rewrite elem_of_app, list_elem_of_singleton; naive_solver].
Qed.

Lemma dependents_step_NoDup out s : NoDup out -> NoDup (Compose.dependents_step want target out s).
Proof.
  intros Hn. unfold Compose.dependents_step. destruct (String.eqb _ target); [done|].
  destruct (_ || _); [|done]. destruct (existsb (String.eqb s.(Compose.Name)) out) eqn:Ex; [done|].
  apply NoDup_app. split_and!; [done| |apply NoDup_singleton].
  intros x Hx ->%list_elem_of_singleton. apply not_true_iff_false in Ex. apply Ex.
  apply existsb_elem. exists s.(Compose.Name). by rewrite String.eqb_refl.
Qed.

Lemma dependents_fold svcs out x :
  x ∈ fold_left (Compose.dependents_step want target) svcs out <->
  x ∈ out \/ exists s, s ∈ svcs /\ x = s.(Compose.Name) /\ borrows s.
Proof.
  revert out. induction svcs as [|s svcs IH]; intros out; simpl.
  - split; [by left|]. intros [?|(s & Hs & _)]; [done|]. by apply not_elem_of_nil in Hs.
  - rewrite IH, dependents_step_spec. setoid_rewrite elem_of_cons. naive_solver.
Qed.

Lemma dependents_fold_NoDup svcs out :
  NoDup out -> NoDup (fold_left (Compose.dependents_step want target) svcs out).
Proof. revert out. induction svcs; simpl; auto using dependents_step_NoDup. Qed.
End Dependents.

(** [NamespaceDependents] is exactly the set of the names of the other
    services that borrow the target's network, ipc or pid namespace, each once,
    in the order of [sort.Strings]. *)
Theorem NamespaceDependents_spec services target :
  let out := Compose.NamespaceDependents services target in
  (forall x, x ∈ out <-> exists s, s ∈ services /\ x = s.(Compose.Name) /\ borrows target s) /\
  NoDup out /\ StronglySorted (not_after str_less) out /\ target ∉ out.
Proof.
  cbv zeta. unfold Compose.NamespaceDependents.
  assert (Hin : forall x, x ∈ sort_strings (fold_left (Compose.dependents_step
      (Compose.namespaceServicePrefix +:+ target) target) services []) <->
    exists s, s ∈ services /\ x = s.(Compose.Name) /\ borrows target s).
  { intros x. rewrite sort_strings_elem, dependents_fold. split; [|by right].
    intros [H|H]; [by apply not_elem_of_nil in H|done]. }
  split_and!.
  - exact Hin.
  - rewrite sort_strings_perm. apply dependents_fold_NoDup. constructor.
  - apply sort_strings_sorted.
  - rewrite Hin. intros (s & _ & -> & Hne & _). done.
Qed.

(** ** The edit of an image line *)

(** [ReplaceImageLine] changes one occurrence of the old reference on the
    line it is told and no other byte: the text before and after is the same,
    the change is inside line [line].  It fails exactly when there is no such
    line or the line does not hold the old reference. *)
Theorem ReplaceImageLine_spec content oldRef newRef line :
  match ReplaceImageLine content oldRef newRef line with
  | Ok r =>
      exists before a b after,
        content = before +:+ a +:+ oldRef +:+ b +:+ after /\
        r = before +:+ a +:+ newRef +:+ b +:+ after /\
        Z.of_nat (CountByte before newline) = line - 1 /\
        no_byte newline (a +:+ oldRef +:+ b) /\
        (after = "" \/ exists t, after = nl +:+ t)
  | Err _ =>
      line < 1 \/ Z.of_nat (S (CountByte content newline)) < line \/
      exists l, Split content newline !! Z.to_nat (line - 1) = Some l /\ Contains l oldRef = false
  end.
Proof.
  unfold ReplaceImageLine. rewrite Split_elem_len.
  destruct (Z.ltb_spec line 1); [by left|].
  destruct (Z.ltb_spec (Z.of_nat (S (CountByte content newline))) line); [by right; left|]. simpl.
  destruct (Split content newline !! Z.to_nat (line - 1)) as [l|] eqn:El.
  2:{ apply lookup_ge_None in El. rewrite Split_elem_len in El. lia. }
  destruct (Contains l oldRef) eqn:Ec; [|by right; right; exists l].
  destruct (Replace1_spec l oldRef newRef Ec) as (a & b & Hl & Hr). simpl.
  pose proof (list_elem_of_split_length _ _ _ El) as (l1 & l2 & Hs & Hlen).
  assert (Hall : Forall (no_byte newline) (Split content newline)).
  { apply Forall_forall. intros x. apply Split_elem_no_byte. }
  rewrite Hs in Hall. apply Forall_app in Hall as [H1 H2]. inversion H2 as [|? ? Hnl H3]; subst.
  exists (lines_before l1 nl), a, b, (lines_after l2 nl). split_and!.
  - rewrite <- (Join_Split content newline) at 1. rewrite Hs. fold nl.
    by rewrite Join_middle, !str_app_assoc.
  - rewrite Hs, Hlen. rewrite insert_app_r_alt by lia. rewrite Nat.sub_diag. simpl.
    by rewrite Join_middle, Hr, !str_app_assoc.
  - unfold nl. rewrite lines_before_count by done. rewrite <- Hlen. lia.
  - done.
  - destruct l2 as [|x l2]; [by left|right]. eexists. done.
Qed.
