(* ===== verification/Daemon.v ===== *)
(** * The Docker daemon and the registry, as the job engine sees them

    What the daemon answers to the [n]-th call is the environment's choice; the
    methods of [docker.Client] the engine uses are recorded with whether they
    succeeded.  Also the emission of a job's log lines (Engine.Emit as its
    callers see it) and protocols: automata over the trace, against which the
    handlers are proved. *)

From stdpp Require Import base list strings gmap.
From S2P Require Import Prelude GoStd Db World StoreUpdates StoreJobs StoreServices StoreMisc.
From S2P Require Import Files.

Local Open Scope Z_scope.

(** internal/docker/inspect.go *)
Record ContainerStatus := mkStatus { cs_State : string; cs_Health : string; cs_RawJSON : string }.

(** internal/registry: the resolved view of a reference; nil labels are the empty
    map, which is what every caller makes of them, and the zero time is [None]. *)
Record RemoteImage := mkRemote {
  ri_Ref : string;
  ri_Digest : string;
  ri_PlatformDigest : string;
  ri_ConfigDigest : string;
  ri_MediaType : string;
  ri_Labels : gmap string string;
  ri_BuiltAt : option Z;
  ri_OS : string;
  ri_Architecture : string;
}.

Class Docker := {
  daemon_inspect : nat -> string -> result ContainerStatus;
  daemon_pull : nat -> string -> result unit;
  daemon_stop : nat -> string -> result unit;
  daemon_start : nat -> string -> result unit;
  daemon_rename : nat -> string -> string -> result unit;
  daemon_remove : nat -> string -> result unit;
  daemon_create : nat -> string -> string -> string -> result string;
  daemon_id_by_name : nat -> string -> result (option string);
}.

(** What a resolver answers (registry.go is modelled in Registry.v; its clients
    depend on this interface, as in the source). *)
Class Resolver := { resolve : nat -> string -> result RemoteImage }.

(** [Rediscoverer.LocateService]: ids and running digest of a service. *)
Class Rediscoverer := { locate : nat -> string -> string -> result (list string * string) }.

(** The closures the appliers read the health gate's timeout and poll from. *)
Class HealthConfig := { healthTimeout : nat -> Z; healthPoll : nat -> Z }.

Section Calls.
Context {E : Env}.

Section Daemon.
Context {D : Docker}.

Definition InspectStatus (id : string) : M world (result ContainerStatus) :=
  call (fun r => EvDocker "inspect" id (is_ok r)) (fun n => daemon_inspect n id).
Definition ImagePull (ref : string) : M world (result unit) :=
  call (fun r => EvDocker "pull" ref (is_ok r)) (fun n => daemon_pull n ref).
Definition ContainerStop (id : string) : M world (result unit) :=
  call (fun r => EvDocker "stop" id (is_ok r)) (fun n => daemon_stop n id).
Definition ContainerStart (id : string) : M world (result unit) :=
  call (fun r => EvDocker "start" id (is_ok r)) (fun n => daemon_start n id).
Definition ContainerRename (id name : string) : M world (result unit) :=
  call (fun r => EvDocker ("rename to " +:+ name) id (is_ok r)) (fun n => daemon_rename n id name).
Definition ContainerRemove (id : string) : M world (result unit) :=
  call (fun r => EvDocker "remove" id (is_ok r)) (fun n => daemon_remove n id).
Definition ContainerCreateFromInspect (inspectJSON newImage name : string) : M world (result string) :=
  call (fun r => EvDocker "create" name (is_ok r)) (fun n => daemon_create n inspectJSON newImage name).
Definition ContainerIDByName (name : string) : M world (result (option string)) :=
  call (fun r => EvDocker "lookup" name (is_ok r)) (fun n => daemon_id_by_name n name).
End Daemon.

Definition Resolve {R : Resolver} (ref : string) : M world (result RemoteImage) :=
  call (fun r => EvRegistry "resolve" ref false (is_ok r)) (fun n => resolve n ref).

Definition LocateService {R : Rediscoverer} (projectName serviceName : string) :
    M world (result (list string * string)) :=
  call (fun r => EvDocker "locate" serviceName (is_ok r)) (fun n => locate n projectName serviceName).

(** [select { case <-ctx.Done(): ... case <-time.After(d): ... }]: true when the
    context was done. *)
Definition wait_done : M world bool := fun w => (ctx_done w.(w_tick), tick w).

(** [Engine.Emit]: the line is stored (a failure is only logged) and fanned out. *)
Definition Emit (jobID : Z) (stream line : string) : M world unit :=
  do! JobLogs.Append jobID stream line in
  emit (EvNotify "log" jobID).

(** *** The health gates of worker.go and standalone.go *)

Definition second_ns : Z := 1000000000.

Definition gate_timeout {H : HealthConfig} : M world Z := fun w =>
  let t := healthTimeout w.(w_tick) in ((if t <=? 0 then 120 * second_ns else t), tick w).
Definition gate_poll {H : HealthConfig} : M world Z := fun w =>
  let t := healthPoll w.(w_tick) in ((if t <=? 0 then 2 * second_ns else t), tick w).

(** A round of polling lasts at least one poll interval, so the deadline has
    passed after this many. *)
Definition gate_rounds (timeout poll : Z) : nat := S (Z.to_nat (timeout / poll)).

Definition healthy (st : ContainerStatus) : bool :=
  String.eqb st.(cs_State) "running"
  && (String.eqb st.(cs_Health) "" || String.eqb st.(cs_Health) "healthy").
Definition broken (st : ContainerStatus) : bool :=
  String.eqb st.(cs_State) "exited" || String.eqb st.(cs_Health) "unhealthy".

Definition not_healthy (id : string) (st : ContainerStatus) : error :=
  Errorf ("container " +:+ id +:+ " not healthy (state=" +:+ st.(cs_State) +:+ " health="
          +:+ st.(cs_Health) +:+ ")").

(** Repeat [round] until it decides or the wait ends. *)
Fixpoint poll_loop (fuel : nat) (timed_out : error) (round : M world (option (result unit))) :
    M world (result unit) :=
  match fuel with
  | O => ret (Err timed_out)
  | S fuel' =>
      let! r := round in
      match r with
      | Some out => ret out
      | None =>
          let! done := wait_done in
          if done : bool then ret (Err timed_out) else poll_loop fuel' timed_out round
      end
  end.

Section Gates.
Context {D : Docker} {H : HealthConfig}.

(** One pass of [Applier.healthGate] over the ids: [Some]: decided. *)
Fixpoint gate_round (ids : list string) (allReady : bool) : M world (option (result unit)) :=
  match ids with
  | [] => ret (if allReady then Some (Ok tt) else None)
  | id :: ids' =>
      let! r := InspectStatus id in
      match r with
      | Err _ => ret None
      | Ok st =>
          if broken st then ret (Some (Err (not_healthy id st)))
          else if healthy st then gate_round ids' allReady
          else gate_round ids' false
      end
  end.

Definition healthGate (ids : list string) : M world (result unit) :=
  match ids with
  | [] => ret (Ok tt)
  | _ =>
      let! timeout := gate_timeout in
      let! poll := gate_poll in
      poll_loop (gate_rounds timeout poll) (Errorf "health gate timed out") (gate_round ids true)
  end.

(** One pass of [StandaloneApplier.healthGate]. *)
Definition gate_round_one (id : string) : M world (option (result unit)) :=
  let! r := InspectStatus id in
  match r with
  | Err _ => ret None
  | Ok st =>
      if broken st then ret (Some (Err (not_healthy id st)))
      else if healthy st then ret (Some (Ok tt))
      else ret None
  end.

Definition healthGateOne (id : string) : M world (result unit) :=
  let! timeout := gate_timeout in
  let! poll := gate_poll in
  poll_loop (gate_rounds timeout poll) (Errorf ("container " +:+ id +:+ " not healthy in time"))
    (gate_round_one id).
End Gates.
End Calls.

(** ** Protocols *)

Definition str_in (l : list string) (s : string) : bool := existsb (String.eqb s) l.

Section Protocol.
Context {S : Type} (delta : S -> event -> option S) (start : S).

(** The state after a trace (newest event first), if the trace is allowed. *)
Fixpoint phase (l : list event) : option S :=
  match l with
  | [] => Some start
  | e :: l' => match phase l' with Some s => delta s e | None => None end
  end.

Definition at_phase (s : S) : world -> Prop := on_trace (fun l => phase l = Some s).

(** [m] may run in phase [s] and stays in it. *)
Notation quiet s m := (keeps (at_phase s) m).

Context {E : Env}.

Lemma at_phase_record s s' e w : at_phase s w -> delta s e = Some s' -> at_phase s' (record e w).
Proof. unfold at_phase, on_trace. simpl. intros ->. done. Qed.

Lemma quiet_sql {A} s op id (st : stmt A) : delta s (EvSql op id) = Some s -> quiet s (sql op id st).
Proof. intros Hd. apply keeps_sql_trace. intros l Hl. simpl. by rewrite Hl. Qed.

Lemma quiet_call {A} s ev (ans : nat -> A) : (forall a, delta s (ev a) = Some s) -> quiet s (call ev ans).
Proof. intros Hd. apply keeps_call_trace. intros l a Hl. simpl. by rewrite Hl. Qed.

Lemma quiet_emit s e : delta s e = Some s -> quiet s (emit e).
Proof. intros Hd. apply keeps_emit. intros w Hw. by eapply at_phase_record. Qed.

Lemma quiet_sys {A} s op p (f : fs -> result (A * fs)) :
  delta s (EvFile op p) = Some s -> quiet s (sys op p f).
Proof.
  intros Hd w Hw. destruct (sys op p f w) as [[a|e] w'] eqn:E1; simpl.
  - apply sys_ok_inv in E1 as (_ & _ & Ht & _). unfold at_phase, on_trace in *. rewrite Ht. simpl. by rewrite Hw.
  - by apply sys_err_inv in E1 as ->.
Qed.

Lemma quiet_now s : quiet s now.
Proof. by apply keeps_now. Qed.
Lemma quiet_wait s : quiet s wait_done.
Proof. by intros w Hw. Qed.
Lemma quiet_gate_timeout {H : HealthConfig} s : quiet s gate_timeout.
Proof. by intros w Hw. Qed.
Lemma quiet_gate_poll {H : HealthConfig} s : quiet s gate_poll.
Proof. by intros w Hw. Qed.

Lemma quiet_poll_loop s fuel e round : quiet s round -> quiet s (poll_loop fuel e round).
Proof.
  intros Hr. induction fuel as [|fuel IH]; simpl; [apply keeps_ret|].
  apply keeps_bind; [done|]. intros [out|]; [apply keeps_ret|].
  apply keeps_bind; [apply quiet_wait|]. intros []; [apply keeps_ret|done].
Qed.

(** A quiet part of a sequence. *)
Lemma triple_quiet {A B} s (m : M world A) (k : A -> M world B) Q :
  quiet s m -> (forall a, triple (at_phase s) (k a) Q) -> triple (at_phase s) (bind m k) Q.
Proof.
  intros Hm Hk. apply (triple_bind _ _ _ (fun _ => at_phase s)); [|done]. intros w Hw. by apply Hm.
Qed.

Lemma triple_quiet_end {A} s (m : M world A) (Q : A -> world -> Prop) :
  quiet s m -> (forall a w, at_phase s w -> Q a w) -> triple (at_phase s) m Q.
Proof. intros Hm HQ w Hw. apply HQ. by apply Hm. Qed.

(** A call that moves to the phase its answer decides. *)
Lemma triple_call {A B} s (next : A -> S) ev (ans : nat -> A) (k : A -> M world B) Q :
  (forall a, delta s (ev a) = Some (next a)) ->
  (forall a, triple (at_phase (next a)) (k a) Q) ->
  triple (at_phase s) (bind (call ev ans) k) Q.
Proof.
  intros Hd Hk. apply (triple_bind _ _ _ (fun a => at_phase (next a))); [|done].
  intros w Hw. simpl. by eapply at_phase_record.
Qed.

(** A statement that moves to another phase when it runs. *)
Lemma triple_sql {A} s s' op id (st : stmt A) :
  delta s (EvSql op id) = Some s' ->
  triple (at_phase s) (sql op id st)
    (fun r => match r with Ok _ => at_phase s' | Err _ => at_phase s end).
Proof.
  intros Hd w Hw. destruct (sql op id st w) as [[a|e] w'] eqn:E1; simpl.
  - apply sql_ok_inv in E1 as (_ & _ & Ht & _). unfold at_phase, on_trace in *. rewrite Ht. simpl. by rewrite Hw.
  - by apply sql_err_inv in E1 as ->.
Qed.
End Protocol.

Notation quiet delta start s m := (keeps (at_phase delta start s) m) (only parsing).

Create HintDb quiet discriminated.
Create HintDb repo discriminated.
#[export] Hint Resolve keeps_ret quiet_now quiet_wait quiet_gate_timeout quiet_gate_poll : quiet.

#[export] Hint Unfold Updates.Upsert Updates.ListOpen Updates.SupersedePriorOpen Updates.SupersedeAllOpen
  Updates.MarkRolledBack Updates.ReopenRolledBack Updates.SetChangelog Updates.SetChangelogStatus
  Updates.GetLatestOpenByService Updates.HasAnyByService Updates.HasSurfacedByService
  Updates.HasResolvedCurrentAtDigest Updates.DeleteStaleCurrent Updates.SetStatus Updates.MarkApplied
  Updates.Get Jobs.Enqueue Jobs.ClaimNext Jobs.Finish Jobs.Get Jobs.ActiveByType JobLogs.Append
  Services.Upsert Services.ListByProject Services.MarkGone Services.Get Services.UpdateRuntime
  Services.UpdateState Services.UpdateImageRef Services.List_ Services.Delete Projects.Upsert
  Projects.List_ Projects.Get Projects.Delete Projects.SetUnmanaged Projects.SetAutoNamed
  Images.Upsert Images.GetByDigest Images.SetResolvedVersion RemoteStates.Upsert RemoteStates.Get
  TagDigests.Get TagDigests.Put Snapshots.Insert Snapshots.GetLatestForService Events.Insert
  Settings.Get Settings.GetBoolDefault Emit InspectStatus ImagePull ContainerStop ContainerStart
  ContainerRename ContainerRemove ContainerCreateFromInspect ContainerIDByName Resolve LocateService
  gate_round_one healthGateOne
  sys_ReadFile sys_Stat sys_change sys_Remove sys_Rename sys_Close : repo.

(** Prove that a part of a handler is quiet: down its control flow, each
    primitive by computing the protocol on its event. *)
Ltac quiet_prim :=
  first
  [ apply quiet_sql; reflexivity
  | apply quiet_call; intros []; reflexivity
  | apply quiet_call; intros; reflexivity
  | apply quiet_emit; reflexivity
  | apply quiet_sys; reflexivity
  | apply quiet_poll_loop ].
Ltac quiet_step :=
  first [ progress autounfold with repo
        | solve [eauto with quiet nocore]
        | quiet_prim
        | keeps_step ].
Ltac quiet := repeat quiet_step.

(** ** What a health gate answers *)

Section GateSpec.
Context {E : Env} {D : Docker} {H : HealthConfig}.

(** A pass over the ids from the [t]-th call on that found all of them running
    and, when they have a health check, healthy. *)
Definition healthy_pass (t : nat) (ids : list string) : Prop :=
  forall i id, ids !! i = Some id ->
    exists st, daemon_inspect (t + i) id = Ok st /\ healthy st = true /\ broken st = false.

(** A container that was seen exited or unhealthy. *)
Definition seen_broken (ids : list string) : Prop :=
  exists n id st, id ∈ ids /\ daemon_inspect n id = Ok st /\ broken st = true.

Lemma gate_round_false ids w r w' : gate_round ids false w = (Some r, w') -> exists e, r = Err e.
Proof.
  revert w. induction ids as [|id ids IH]; intros w; simpl; [done|].
  unfold bind. simpl. destruct (daemon_inspect _ id) as [st|e]; [|done].
  destruct (broken st); [intros [= <- _]; eauto|]. destruct (healthy st); apply IH.
Qed.

Lemma gate_round_ok ids w w' : gate_round ids true w = (Some (Ok tt), w') -> healthy_pass w.(w_tick) ids.
Proof.
  revert w. induction ids as [|id ids IH]; intros w; simpl; [by intros _ i id0|].
  unfold bind. simpl. destruct (daemon_inspect _ id) as [st|e] eqn:Ei; [|done].
  destruct (broken st) eqn:Eb; [done|]. destruct (healthy st) eqn:Eh.
  - intros Hr. apply IH in Hr. simpl in Hr. intros [|i] id0; simpl.
    + intros [= <-]. exists st. by rewrite Nat.add_0_r.
    + intros Hi. destruct (Hr i id0 Hi) as (st0 & Hs & ?). exists st0. by rewrite <- Nat.add_succ_comm.
  - intros Hr. by destruct (gate_round_false _ _ _ _ Hr).
Qed.

Lemma gate_round_broken ids b w e w' : gate_round ids b w = (Some (Err e), w') -> seen_broken ids.
Proof.
  revert b w. induction ids as [|id ids IH]; intros b w; simpl; [by destruct b|].
  unfold bind. simpl. destruct (daemon_inspect _ id) as [st|e1] eqn:Ei; [|done].
  destruct (broken st) eqn:Eb.
  - intros _. exists (w_tick w), id, st. split; [by left|done].
  - intros Hr. assert (Hb : seen_broken ids) by (destruct (healthy st); by eapply IH).
    destruct Hb as (n & i & s & Hin & Hs). exists n, i, s. split; [by right|done].
Qed.

Lemma poll_loop_inv fuel e round w r w' :
  poll_loop fuel e round w = (r, w') ->
  r = Err e \/ exists w1 w2, round w1 = (Some r, w2).
Proof.
  revert w. induction fuel as [|fuel IH]; intros w; simpl; [intros [= <- _]; auto|].
  intros (o & w1 & Hr & Hk)%bind_inv. destruct o as [out|].
  - injection Hk as <- <-. right. eauto.
  - apply bind_inv in Hk as (d & w2 & _ & Hk). destruct d; [injection Hk as <- _; auto|by eapply IH].
Qed.

End GateSpec.
