(* ===== verification/Applier.v ===== *)
(** * The compose applier (internal/job/worker.go)

    [runApply] and [runRollback], with their prechecks, the snapshot, the staged
    edit or override, pull, up, the dependents, the health gate and the
    bookkeeping, in the order of the source.  Logging is left out. *)

From stdpp Require Import base list strings gmap.
From S2P Require Import Prelude GoStd Semver Db Integrity World StoreUpdates StoreJobs.
From S2P Require Import StoreServices StoreMisc Files Compose Daemon.

Local Open Scope Z_scope.

Definition some_id (id : Z) : option Z := Some id.

(** [fmt.Sprintf("... (code=%d err=%v)", code, err)] *)
Definition code_err (r : result Z) : string :=
  match r with
  | Ok c => "(code=" +:+ Itoa c +:+ " err=<nil>)"
  | Err e => "(code=-1 err=" +:+ error_text e +:+ ")"
  end.

(** [err != nil || code != 0] *)
Definition run_failed (r : result Z) : bool :=
  match r with Err _ => true | Ok c => negb (c =? 0) end.

Definition no_deps : list string := [].

Module Applier.
Section Applier.
Context {E : Env} {SS : SliceSort} {CG : Compose.ComposeGo} {SH : Sha256} {Y : Yaml}
        {CLI : ComposeCLI} {D : Docker} {R : Resolver} {RD : Rediscoverer} {HC : HealthConfig}.

(** ** Shared helpers *)

Definition emit_ (job : Job) (stream line : string) : M world unit := Emit job.(job_ID) stream line.
Definition sink (job : Job) (stream line : string) : M world unit := emit_ job stream line.

Definition derefJob (p : option Z) : Z := default 0 p.

Definition event_ (serviceID : Z) (kind : string) (jobID : option Z) (from to msg : string) : M world unit :=
  let! r := Events.Insert (mkEvent 0 serviceID kind jobID from to msg 0 "" "") in
  match r with
  | Err e => Emit (derefJob jobID) "system" ("event insert failed: " +:+ error_text e)
  | Ok _ => ret tt
  end.

Definition fail (job : Job) (msg : string) : M world unit :=
  do! emit_ job "system" msg in
  do! Jobs.Finish job.(job_ID) "failed" None msg in
  ret tt.

Definition succeed (job : Job) : M world unit :=
  do! Jobs.Finish job.(job_ID) "success" (Some 0) "" in
  ret tt.

Definition failApply (job : Job) (svc : Service) (upd : Update) (msg : string) : M world unit :=
  do! Updates.SetStatus upd.(up_ID) "failed" in
  do! event_ svc.(sv_ID) "failed" (Some job.(job_ID)) svc.(sv_CurrentDigest) upd.(up_ToDigest) msg in
  fail job msg.

Definition pullSpec (files : list string) (proj : Project) (scope service : string) : RunSpec :=
  PullSpec files proj.(pr_WorkingDir) proj.(pr_Name) scope service.
Definition upSpec (files : list string) (proj : Project) (scope service : string) : RunSpec :=
  UpSpec files proj.(pr_WorkingDir) proj.(pr_Name) scope service.

(** ** The snapshot *)

Definition snapshot_inspect (svc : Service) : M world string :=
  match svc.(sv_ContainerIDs) with
  | [] => ret "{}"
  | id :: _ =>
      let! st := InspectStatus id in
      match st with
      | Ok st => ret (if negb (String.eqb st.(cs_RawJSON) "") then st.(cs_RawJSON) else "{}")
      | Err _ => ret "{}"
      end
  end.

Definition snapshot (job : Job) (svc : Service) (proj : Project) (blob : option (string * string)) :
    M world (result unit) :=
  let! inspect := snapshot_inspect svc in
  let? hash := HashFiles proj.(pr_ConfigFiles) in
  let '(repo, _) := SplitRef svc.(sv_ImageRef) in
  try? Snapshots.Insert (mkSnapshot 0 svc.(sv_ID) (Some job.(job_ID)) repo svc.(sv_CurrentDigest)
         svc.(sv_CurrentImageID) inspect hash blob 0) in
  ret (Ok tt).

(** [blobJSON] and the column it goes to: the JSON text of the pair. *)
Definition blobJSON (path content : string) : string * string := (json_text path, json_text content).

(** ** The runtime override *)

Definition override_content (service repo tag digest : string) : string :=
  let ref := if negb (String.eqb tag "") then repo +:+ ":" +:+ tag +:+ "@" +:+ digest
             else repo +:+ "@" +:+ digest in
  "services:" +:+ nl +:+ "  " +:+ service +:+ ":" +:+ nl +:+ "    image: " +:+ ref +:+ nl.

(** [os.CreateTemp] takes an empty directory for the system's. *)
Definition temp_dir (dir : string) : string := if String.eqb dir "" then "/tmp" else dir.

Definition writePinOverride (dir service repo tag digest : string) : M world (result string) :=
  let content := override_content service repo tag digest in
  let? path := sys_CreateTemp (temp_dir dir) "dockbrr-rollback-" ".yml" in
  let! r := sys_change "write" path (set_content content) in
  match r with
  | Err e => do! sys_Close path in do! sys_Remove path in ret (Err e)
  | Ok _ =>
      let! r := sys_Close path in
      match r with
      | Err e => do! sys_Remove path in ret (Err e)
      | Ok _ => ret (Ok path)
      end
  end.

(** [defer cleanup()] *)
Definition with_cleanup (path : string) (body : M world unit) : M world unit :=
  do! body in do! sys_Remove path in ret tt.

(** ** Namespace dependents *)

Fixpoint refresh_dependents (job : Job) (proj : Project) (sibs : list Service) (deps : list string)
    (extraIDs : list string) : M world (list string) :=
  match deps with
  | [] => ret extraIDs
  | dep :: deps' =>
      match List.find (fun s => String.eqb s.(sv_Name) dep) (rev sibs) with
      | None => refresh_dependents job proj sibs deps' extraIDs
      | Some depSvc =>
          let! r := LocateService proj.(pr_Name) dep in
          match r with
          | Err e =>
              do! emit_ job "system" ("warning: namespace-dependent re-discovery failed for " +:+ dep
                                      +:+ ": " +:+ error_text e) in
              refresh_dependents job proj sibs deps' extraIDs
          | Ok ([], _) => refresh_dependents job proj sibs deps' extraIDs
          | Ok (dids, ddig) =>
              let digest := or_default ddig depSvc.(sv_CurrentDigest) in
              let! u := Services.UpdateRuntime depSvc.(sv_ID) dids digest in
              do! (match u with
                   | Err e => emit_ job "system" ("warning: namespace-dependent runtime refresh failed for "
                                +:+ dep +:+ ": " +:+ error_text e)
                   | Ok _ => ret tt
                   end) in
              refresh_dependents job proj sibs deps' (extraIDs ++ dids)
          end
      end
  end.

Definition forceRecreateNamespaceDependents (job : Job) (svc : Service) (proj : Project)
    (files nsDeps : list string) : M world (list string) :=
  match nsDeps with
  | [] => ret []
  | _ =>
      let spec := ForceRecreateSpec files proj.(pr_WorkingDir) proj.(pr_Name) nsDeps in
      let! r := Run spec (sink job) in
      if run_failed r then
        do! emit_ job "system" ("warning: force-recreate of namespace-sharing dependent(s) ["
              +:+ Join nsDeps ", " +:+ "] failed " +:+ code_err r) in
        ret []
      else
        let! sibs := Services.ListByProject svc.(sv_ProjectID) in
        match sibs with
        | Err e =>
            do! emit_ job "system" ("warning: namespace-dependent runtime refresh failed (list project services): "
                  +:+ error_text e) in
            ret []
        | Ok sibs => refresh_dependents job proj sibs nsDeps []
        end
  end.

(** ** Apply *)

(** The staged effect decided before any mutation. *)
Record edit := mkEdit { edit_blob : string * string; edit_file : string; edit_content : string }.

Definition plan_edit (svc : Service) (proj : Project) (repo newTag : string) : M world (option edit) :=
  let! loc := LocateImageLine proj.(pr_ConfigFiles) svc.(sv_Name) in
  match loc with
  | Err _ => ret None
  | Ok loc =>
      if loc.(li_Rewritable) && String.eqb loc.(li_OldRef) svc.(sv_ImageRef) then
        let! raw := sys_ReadFile loc.(li_File) in
        match raw with
        | Err _ => ret None
        | Ok raw =>
            match ReplaceImageLine raw loc.(li_OldRef) (repo +:+ ":" +:+ newTag) loc.(li_Line) with
            | Err _ => ret None
            | Ok newContent => ret (Some (mkEdit (blobJSON loc.(li_File) raw) loc.(li_File) newContent))
            end
        end
      else ret None
  end.

(** The close of the siblings' open updates after a project-scope apply. *)
Definition refresh_sibling (job : Job) (svc : Service) (proj : Project) (sib : Service) : M world unit :=
  if sib.(sv_ID) =? svc.(sv_ID) then ret tt
  else
    let! r := LocateService proj.(pr_Name) sib.(sv_Name) in
    match r with
    | Err e => emit_ job "system" ("warning: sibling re-discovery failed: " +:+ error_text e)
    | Ok ([], _) => ret tt
    | Ok (sids, sdig) =>
        if negb (String.eqb sdig "") && negb (String.eqb sdig sib.(sv_CurrentDigest)) then
          let! u := Services.UpdateRuntime sib.(sv_ID) sids sdig in
          do! (match u with
               | Err e => emit_ job "system" ("warning: sibling runtime refresh failed: " +:+ error_text e)
               | Ok _ => ret tt
               end) in
          let! sup := Updates.GetLatestOpenByService sib.(sv_ID) in
          match sup with
          | Ok sup =>
              if String.eqb sup.(up_ToDigest) sdig then
                do! Updates.MarkApplied sup.(up_ID) in
                event_ sib.(sv_ID) "succeeded" (Some job.(job_ID)) sib.(sv_CurrentDigest) sdig
                  "update applied (project scope)"
              else ret tt
          | Err _ => ret tt
          end
        else ret tt
    end.

(** From the success of the health gate on. *)
Definition apply_success (job : Job) (svc : Service) (proj : Project) (upd : Update)
    (pollIDs : list string) (newDigest : string) : M world unit :=
  let! r := Services.UpdateRuntime svc.(sv_ID) pollIDs newDigest in
  do! (match r with
       | Err e => emit_ job "system" ("warning: runtime refresh failed: " +:+ error_text e)
       | Ok _ => ret tt
       end) in
  do! Updates.MarkApplied upd.(up_ID) in
  do! event_ svc.(sv_ID) "succeeded" (Some job.(job_ID)) svc.(sv_CurrentDigest) upd.(up_ToDigest)
        "update applied" in
  do! (if String.eqb job.(job_Scope) "project" then
         let! sibs := Services.ListByProject svc.(sv_ProjectID) in
         match sibs with
         | Err e => emit_ job "system" ("warning: sibling refresh failed: " +:+ error_text e)
         | Ok sibs => for_each sibs (refresh_sibling job svc proj)
         end
       else ret tt) in
  do! emit_ job "system" "apply succeeded" in
  succeed job.

(** The ids to poll and the digest now running, after [compose up]. *)
Definition rediscover (job : Job) (svc : Service) (proj : Project) (digest what : string) :
    M world (list string * string) :=
  let! r := LocateService proj.(pr_Name) svc.(sv_Name) in
  match r with
  | Err e =>
      do! emit_ job "system" ("re-discovery failed, falling back to " +:+ what +:+ " ids: " +:+ error_text e) in
      ret (svc.(sv_ContainerIDs), digest)
  | Ok ([], _) => ret (svc.(sv_ContainerIDs), digest)
  | Ok (rids, dig) => ret (rids, or_default dig digest)
  end.

(** Pull, up, dependents, re-discovery, health gate. *)
Definition apply_files (job : Job) (svc : Service) (proj : Project) (upd : Update)
    (nsDeps files : list string) : M world unit :=
  let! r := Run (pullSpec files proj job.(job_Scope) svc.(sv_Name)) (sink job) in
  if run_failed r then failApply job svc upd ("pull failed " +:+ code_err r)
  else
    let! r := Run (upSpec files proj job.(job_Scope) svc.(sv_Name)) (sink job) in
    if run_failed r then failApply job svc upd ("up failed " +:+ code_err r)
    else
      let! extraIDs := forceRecreateNamespaceDependents job svc proj files nsDeps in
      let! found := rediscover job svc proj upd.(up_ToDigest) "pre-apply" in
      let '(ids, newDigest) := found in
      let pollIDs := ids ++ extraIDs in
      let! h := healthGate pollIDs in
      match h with
      | Err e => failApply job svc upd ("health gate: " +:+ error_text e)
      | Ok _ => apply_success job svc proj upd pollIDs newDigest
      end.

Definition crossTag (upd : Update) (trackedTag : string) : bool :=
  negb (String.eqb upd.(up_Tag) "") && negb (String.eqb upd.(up_Tag) trackedTag).

(** From the snapshot on: the only part that mutates. *)
Definition apply_mutate (job : Job) (svc : Service) (proj : Project) (upd : Update)
    (nsDeps : list string) (repo trackedTag : string) (plan : option edit) : M world unit :=
  let! s := snapshot job svc proj (edit_blob <$> plan) in
  match s with
  | Err e => fail job ("snapshot: " +:+ error_text e)
  | Ok _ =>
      do! event_ svc.(sv_ID) "apply_started" (Some job.(job_ID)) svc.(sv_CurrentDigest) upd.(up_ToDigest)
            "apply started" in
      match plan with
      | Some ed =>
          let! r := WriteFileAtomic ed.(edit_file) ed.(edit_content) in
          match r with
          | Err e => failApply job svc upd ("write compose file: " +:+ error_text e)
          | Ok _ => apply_files job svc proj upd nsDeps proj.(pr_ConfigFiles)
          end
      | None =>
          if crossTag upd trackedTag
             && negb (bool_decide (ClassifyTag svc.(sv_ImageRef) = TagFloating)) then
            let! r := writePinOverride proj.(pr_WorkingDir) svc.(sv_Name) repo upd.(up_Tag)
                        upd.(up_ToDigest) in
            match r with
            | Err e => failApply job svc upd ("write pin override: " +:+ error_text e)
            | Ok overridePath =>
                with_cleanup overridePath
                  (apply_files job svc proj upd nsDeps (proj.(pr_ConfigFiles) ++ [overridePath]))
            end
          else apply_files job svc proj upd nsDeps proj.(pr_ConfigFiles)
      end
  end.

Definition runApply (job : Job) : M world unit :=
  match job.(job_ServiceID) with
  | None => fail job "apply job has no service"
  | Some sid =>
  let! svc := Services.Get sid in
  match svc with
  | Err e => fail job ("load service: " +:+ error_text e)
  | Ok svc =>
  let! proj := Projects.Get svc.(sv_ProjectID) in
  match proj with
  | Err e => fail job ("load project: " +:+ error_text e)
  | Ok proj =>
  let! upd := Updates.GetLatestOpenByService svc.(sv_ID) in
  match upd with
  | Err e => fail job ("no open update to apply: " +:+ error_text e)
  | Ok upd =>
  let! parsedProj := Compose.Parse proj.(pr_WorkingDir) proj.(pr_ConfigFiles) in
  match parsedProj with
  | Err e => fail job ("precheck: compose unparseable: " +:+ error_text e)
  | Ok parsedProj =>
  let nsDeps := Compose.NamespaceDependents parsedProj.(Compose.Services) svc.(sv_Name) in
  let '(repo, trackedTag) := SplitRef svc.(sv_ImageRef) in
  let cross := crossTag upd trackedTag in
  let targetRef := if cross then repo +:+ ":" +:+ upd.(up_Tag) else svc.(sv_ImageRef) in
  let! remote := Resolve targetRef in
  match remote with
  | Err e => fail job ("precheck: re-resolve target: " +:+ error_text e)
  | Ok remote =>
  if negb (String.eqb remote.(ri_Digest) upd.(up_ToDigest))
     && negb (String.eqb remote.(ri_PlatformDigest) upd.(up_ToDigest)) then
    do! Updates.SetStatus upd.(up_ID) "superseded" in
    do! event_ svc.(sv_ID) "failed" (Some job.(job_ID)) svc.(sv_CurrentDigest) upd.(up_ToDigest)
          "superseded: remote digest moved before apply" in
    fail job "precheck: target digest moved; marked superseded"
  else
    let class := ClassifyTag svc.(sv_ImageRef) in
    let! writeBack := Settings.GetBoolDefault "write_back_compose" true in
    let newTag := if cross then upd.(up_Tag) else trackedTag in
    let! plan :=
      if writeBack && bool_decide (class = TagExact) && negb (String.eqb newTag trackedTag)
      then plan_edit svc proj repo newTag else ret None in
    apply_mutate job svc proj upd nsDeps repo trackedTag plan
  end end end end end end.

(** ** Rollback *)

Definition rollbackPullUp (job : Job) (svc : Service) (proj : Project) (prevDigest : string)
    (files : list string) : M world unit :=
  let! r := Run (PullSpec files proj.(pr_WorkingDir) proj.(pr_Name) job.(job_Scope) svc.(sv_Name)) (sink job) in
  if run_failed r then fail job ("rollback pull failed " +:+ code_err r)
  else
    let! parsed := Compose.Parse proj.(pr_WorkingDir) proj.(pr_ConfigFiles) in
    let! nsDeps :=
      match parsed with
      | Err e =>
          do! emit_ job "system" ("warning: namespace-dependent detection skipped (compose unparseable): "
                +:+ error_text e) in
          ret []
      | Ok p => ret (Compose.NamespaceDependents p.(Compose.Services) svc.(sv_Name))
      end in
    let! r := Run (UpSpec files proj.(pr_WorkingDir) proj.(pr_Name) job.(job_Scope) svc.(sv_Name)) (sink job) in
    if run_failed r then fail job ("rollback up failed " +:+ code_err r)
    else
      do! forceRecreateNamespaceDependents job svc proj files nsDeps in
      let! found := rediscover job svc proj prevDigest "pre-rollback" in
      let '(rbIDs, rbDigest) := found in
      let! u := Services.UpdateRuntime svc.(sv_ID) rbIDs rbDigest in
      do! (match u with
           | Err e => emit_ job "system" ("warning: runtime refresh failed: " +:+ error_text e)
           | Ok _ => ret tt
           end) in
      let! u := Updates.MarkRolledBack svc.(sv_ID) svc.(sv_CurrentDigest) in
      do! (match u with
           | Err e => emit_ job "system" ("warning: mark rolled_back failed: " +:+ error_text e)
           | Ok _ => ret tt
           end) in
      do! event_ svc.(sv_ID) "rolled_back" (Some job.(job_ID)) svc.(sv_CurrentDigest) prevDigest
            "rolled back to previous digest" in
      do! emit_ job "system" "rollback succeeded" in
      succeed job.

(** The repin with a runtime override. *)
Definition rollback_override (job : Job) (svc : Service) (proj : Project) (snap : Snapshot) : M world unit :=
  let! r := writePinOverride proj.(pr_WorkingDir) svc.(sv_Name) snap.(sn_PrevRepo) "" snap.(sn_PrevDigest) in
  match r with
  | Err e => fail job ("write pin override: " +:+ error_text e)
  | Ok overridePath =>
      with_cleanup overridePath
        (rollbackPullUp job svc proj snap.(sn_PrevDigest) (proj.(pr_ConfigFiles) ++ [overridePath]))
  end.

Definition runRollback (job : Job) : M world unit :=
  match job.(job_ServiceID) with
  | None => fail job "rollback job has no service"
  | Some sid =>
  let! svc := Services.Get sid in
  match svc with
  | Err e => fail job ("load service: " +:+ error_text e)
  | Ok svc =>
  let! proj := Projects.Get svc.(sv_ProjectID) in
  match proj with
  | Err e => fail job ("load project: " +:+ error_text e)
  | Ok proj =>
  let! snap := Snapshots.GetLatestForService svc.(sv_ID) in
  match snap with
  | Err e => fail job ("no snapshot to roll back to: " +:+ error_text e)
  | Ok snap =>
  if String.eqb snap.(sn_PrevDigest) "" then fail job "snapshot has no previous digest"
  else
    match snap.(sn_ComposeBlob) with
    | Some (path, content) =>
        if negb (String.eqb path "") then
          let! r := WriteFileAtomic path content in
          match r with
          | Err e => fail job ("rollback: restore compose file: " +:+ error_text e)
          | Ok _ => rollbackPullUp job svc proj snap.(sn_PrevDigest) proj.(pr_ConfigFiles)
          end
        else rollback_override job svc proj snap
    | None => rollback_override job svc proj snap
    end
  end end end end.

Definition Handle (job : Job) : M world unit :=
  if String.eqb job.(job_Type) "apply" then runApply job
  else if String.eqb job.(job_Type) "rollback" then runRollback job
  else fail job ("unknown job type: " +:+ job.(job_Type)).

End Applier.
End Applier.
