(* ===== verification/ApplierSpec.v ===== *)
(** * The protocol of the compose applier

    An automaton over what the applier does to the outside (the abstract
    specification of an apply), and the proof that [runApply] and [runRollback]
    follow it, whatever the daemon, the registry, the files and the database
    answer. *)

From stdpp Require Import base list strings gmap.
From S2P Require Import Prelude GoStd Semver Db Integrity World StoreUpdates StoreJobs.
From S2P Require Import StoreServices StoreMisc Files Compose Daemon Applier.

Local Open Scope Z_scope.

Inductive apply_phase := Start | Snapped | Pulled | PullFailed | Upped | UpFailed | Applied | Finished.

#[export] Instance apply_phase_eq_dec : EqDecision apply_phase.
Proof. solve_decision. Defined.

Definition exit_ok (exit : option Z) : bool := match exit with Some c => c =? 0 | None => false end.

(** What an apply may do next.  A snapshot comes first and once; then the
    compose file may be edited or an override made; one pull; only after a pull
    that exited 0, up; only after an up that exited 0 may a further up recreate
    dependents, an update be marked applied, or the job be finished as a success;
    a failed job is never one with an update marked applied; nothing but the
    removal of the override follows the end of the job. *)
Definition apply_delta (s : apply_phase) (e : event) : option apply_phase :=
  match e with
  | EvSql op _ =>
      if String.eqb op "snapshots.Insert" then
        match s with Start => Some Snapped | _ => None end
      else if String.eqb op "updates.MarkApplied" then
        match s with Upped | Applied => Some Applied | _ => None end
      else if String.eqb op "jobs.Finish success" then
        match s with Upped | Applied => Some Finished | _ => None end
      else if String.eqb op "jobs.Finish failed" then
        match s with
        | Start | Snapped | PullFailed | Upped | UpFailed => Some Finished
        | _ => None
        end
      else match s with Finished => None | _ => Some s end
  | EvCompose args exit =>
      match Verb <$> read_argv args with
      | Some "pull" =>
          match s with Snapped => Some (if exit_ok exit then Pulled else PullFailed) | _ => None end
      | Some "up" =>
          match s with
          | Pulled => Some (if exit_ok exit then Upped else UpFailed)
          | Upped => Some Upped
          | _ => None
          end
      | _ => None
      end
  | EvDocker op _ _ => if str_in ["inspect"; "locate"] op then Some s else None
  | EvRegistry _ _ _ _ => match s with Start => Some s | _ => None end
  | EvFile op _ =>
      if str_in ["read"; "stat"] op then Some s
      else if String.eqb op "remove" then match s with Start => None | _ => Some s end
      else match s with Snapped => Some s | _ => None end
  | EvNotify _ _ => match s with Finished => None | _ => Some s end
  | EvHttp _ _ => None
  end.

Section Spec.
Context {E : Env} {SS : SliceSort} {CG : Compose.ComposeGo} {SH : Sha256} {Y : Yaml}
        {CLI : ComposeCLI} {D : Docker} {R : Resolver} {RD : Rediscoverer} {HC : HealthConfig}.
Context (start : apply_phase).

Notation at_ s := (at_phase apply_delta start s).
Notation quiet_ s m := (quiet apply_delta start s m).

(** The database failed at some call: the terminal status may be lost. *)
Definition faulty : Prop := exists n e, sql_fault n = Some e.

(** The job is over: it was finished, or the statement that finishes it failed. *)
Definition over (w : world) : Prop :=
  exists s, at_ s w /\ s <> Start /\ (s = Finished \/ faulty).
Definition over_any (w : world) : Prop := exists s, at_ s w /\ (s = Finished \/ faulty).

Lemma over_weaken w : over w -> over_any w.
Proof. intros (s & Hs & _ & H). exists s. auto. Qed.

(** ** The quiet parts *)

Lemma quiet_emit_ s job st l : s <> Finished -> quiet_ s (Applier.emit_ job st l).
Proof. intros Hs. unfold Applier.emit_. destruct s; try done; quiet. Qed.

Lemma quiet_event s a b c d e f : s <> Finished -> quiet_ s (Applier.event_ a b c d e f).
Proof.
  intros Hs. unfold Applier.event_, Events.Insert.
  apply keeps_bind.
  - apply quiet_sql. unfold apply_delta. cbn [String.append String.eqb Ascii.eqb].
    destruct s; done.
  - intros [a1|e1]; [apply keeps_ret|]. destruct s; try done; quiet.
Qed.

Lemma quiet_read_files s files : s <> Finished -> quiet_ s (Compose.read_files files).
Proof.
  intros Hs. induction files as [|f files IH]; simpl; [apply keeps_ret|].
  apply keeps_bind; [destruct s; try done; quiet|]. intros [c|e]; [|apply keeps_ret].
  apply keeps_bind_ok; [done|]. intros rest. apply keeps_ret.
Qed.

Lemma quiet_Parse s dir files : s <> Finished -> quiet_ s (Compose.Parse dir files).
Proof.
  intros Hs. unfold Compose.Parse. destruct files as [|f files]; [apply keeps_ret|].
  apply keeps_bind_ok; [by apply quiet_read_files|]. intros cfgs.
  apply keeps_bind; [unfold Compose.buildEnv; destruct s; try done; quiet|].
  intros env. destruct (Compose.load_project _ _ _ _) as [[n sv]|e]; apply keeps_ret.
Qed.

Lemma quiet_hash s files acc : s <> Finished -> quiet_ s (hash_input files acc).
Proof.
  intros Hs. revert acc. induction files as [|f files IH]; intros acc; simpl; [apply keeps_ret|].
  apply keeps_bind; [destruct s; try done; quiet|]. intros [c|e]; [apply IH|apply keeps_ret].
Qed.

Lemma quiet_locate s files svc found : s <> Finished -> quiet_ s (locate_from files svc found).
Proof.
  intros Hs. revert found. induction files as [|f files IH]; intros found; simpl; [apply keeps_ret|].
  apply keeps_bind; [destruct s; try done; quiet|]. intros [c|e]; [|apply keeps_ret].
  destruct (yaml_Unmarshal c); [|apply keeps_ret]. destruct (imageScalar _ _); apply IH.
Qed.

Lemma quiet_plan svc proj repo tag : quiet_ Start (Applier.plan_edit svc proj repo tag).
Proof.
  unfold Applier.plan_edit. apply keeps_bind; [by apply quiet_locate|]. intros [loc|e]; quiet.
Qed.

Lemma quiet_gate_round s ids b : s <> Finished -> quiet_ s (gate_round ids b).
Proof.
  intros Hs. revert b. induction ids as [|i ids IH]; intros b; simpl; [apply keeps_ret|].
  apply keeps_bind; [destruct s; try done; quiet|]. intros [st|e]; [|apply keeps_ret].
  destruct (broken st); [apply keeps_ret|]. destruct (healthy st); apply IH.
Qed.

Lemma quiet_gate s ids : s <> Finished -> quiet_ s (healthGate ids).
Proof.
  intros Hs. unfold healthGate. destruct ids; [apply keeps_ret|].
  apply keeps_bind; [apply quiet_gate_timeout|]. intros t.
  apply keeps_bind; [apply quiet_gate_poll|]. intros p. apply quiet_poll_loop. by apply quiet_gate_round.
Qed.

Lemma quiet_refresh s job proj sibs deps ids :
  s = Upped -> quiet_ s (Applier.refresh_dependents job proj sibs deps ids).
Proof.
  intros ->. revert ids. induction deps as [|d deps IH]; intros ids; simpl; [apply keeps_ret|].
  destruct (List.find _ _); [|apply IH]. apply keeps_bind; [quiet|].
  intros [[[|i l] dg]|e].
  - apply IH.
  - apply keeps_bind; [quiet|]. intros u. apply keeps_bind; [|intros _; apply IH].
    destruct u; [apply keeps_ret|by apply quiet_emit_].
  - apply keeps_bind; [by apply quiet_emit_|]. intros _. apply IH.
Qed.

Lemma quiet_rediscover s job svc proj dg what :
  s <> Finished -> quiet_ s (Applier.rediscover job svc proj dg what).
Proof.
  intros Hs. unfold Applier.rediscover. apply keeps_bind; [destruct s; try done; quiet|].
  intros [[[|i l] d]|e]; [apply keeps_ret..|].
  apply keeps_bind; [by apply quiet_emit_|]. intros _. apply keeps_ret.
Qed.

Lemma quiet_write_atomic path content : quiet_ Snapped (WriteFileAtomic path content).
Proof.
  unfold WriteFileAtomic, or_cleanup, restoreOwner, cleanup.
  apply keeps_bind_ok; [|intros; quiet].
  intros w Hw. unfold sys_CreateTemp. by apply quiet_sys.
Qed.

Lemma quiet_override a b c d e : quiet_ Snapped (Applier.writePinOverride a b c d e).
Proof.
  unfold Applier.writePinOverride. apply keeps_bind_ok; [|intros; quiet].
  intros w Hw. unfold sys_CreateTemp. by apply quiet_sys.
Qed.

Hint Extern 1 (_ <> Finished) => discriminate : quiet.
Hint Resolve quiet_emit_ quiet_event quiet_Parse quiet_plan quiet_gate quiet_rediscover
  quiet_write_atomic quiet_override : quiet.

(** ** Runs of compose *)

Lemma quiet_sink s out job : s <> Finished -> quiet_ s (for_each out (streamPipe (Applier.sink job))).
Proof.
  intros Hs. apply keeps_for_each. intros [st l|st er]; unfold streamPipe, Applier.sink.
  - destruct (isTransientProgress l); [apply keeps_ret|by apply quiet_emit_].
  - by apply quiet_emit_.
Qed.

Lemma triple_run s next spec job :
  (forall args exit, read_argv args = Some spec -> apply_delta s (EvCompose args exit) = Some (next exit)) ->
  spec.(Verb) ∈ allowedVerbs -> (forall x, next x <> Finished) ->
  triple (at_ s) (Run spec (Applier.sink job)) (fun r => at_ (next (exit_of r))).
Proof.
  intros Hd Hv Hn. unfold Run. pose proof (buildArgs_verb spec) as Hb.
  destruct (buildArgs spec) as [args|e] eqn:Eb; [|by destruct Hb as [_ []]]. apply buildArgs_read in Eb.
  apply (triple_call apply_delta start s (fun r => next (exit_of r.1))).
  - intros [code out]. by apply Hd.
  - intros [code out]. simpl. apply triple_quiet; [by apply quiet_sink|].
    intros _ w Hw. exact Hw.
Qed.

Lemma verb_pull_allowed : "pull" ∈ allowedVerbs. Proof. vm_compute. repeat constructor. Qed.
Lemma verb_up_allowed : "up" ∈ allowedVerbs. Proof. vm_compute. repeat constructor. Qed.

Lemma run_failed_exit r : run_failed r = negb (exit_ok (exit_of r)).
Proof. by destruct r. Qed.

Lemma triple_pull spec job : spec.(Verb) = "pull" ->
  triple (at_ Snapped) (Run spec (Applier.sink job))
    (fun r => at_ (if run_failed r then PullFailed else Pulled)).
Proof.
  intros Hv. eapply triple_conseq.
  - apply (triple_run Snapped (fun x => if exit_ok x then Pulled else PullFailed)).
    + intros args exit Hr. simpl. by rewrite Hr; simpl; rewrite Hv.
    + rewrite Hv. apply verb_pull_allowed.
    + intros x. by destruct (exit_ok x).
  - done.
  - intros r w. rewrite run_failed_exit. by destruct (exit_ok (exit_of r)).
Qed.

Lemma triple_up spec job : spec.(Verb) = "up" ->
  triple (at_ Pulled) (Run spec (Applier.sink job))
    (fun r => at_ (if run_failed r then UpFailed else Upped)).
Proof.
  intros Hv. eapply triple_conseq.
  - apply (triple_run Pulled (fun x => if exit_ok x then Upped else UpFailed)).
    + intros args exit Hr. simpl. by rewrite Hr; simpl; rewrite Hv.
    + rewrite Hv. apply verb_up_allowed.
    + intros x. by destruct (exit_ok x).
  - done.
  - intros r w. rewrite run_failed_exit. by destruct (exit_ok (exit_of r)).
Qed.

Lemma quiet_force job svc proj files deps :
  quiet_ Upped (Applier.forceRecreateNamespaceDependents job svc proj files deps).
Proof.
  unfold Applier.forceRecreateNamespaceDependents. destruct deps as [|d deps]; [apply keeps_ret|].
  apply keeps_bind.
  - intros w Hw. apply (triple_run Upped (fun _ => Upped)); try done.
    + intros args exit Hr. simpl. by rewrite Hr.
    + apply verb_up_allowed.
  - intros r. destruct (run_failed r); [quiet|]. apply keeps_bind; [quiet|].
    intros [sibs|e]; [by apply quiet_refresh|quiet].
Qed.
Hint Resolve quiet_force : quiet.

(** ** The end of a job *)

Lemma sql_over {A} s op id (st : stmt A) w :
  (forall t d, exists a d', st t d = Ok (a, d')) ->
  apply_delta s (EvSql op id) = Some Finished -> at_ s w ->
  at_ Finished (sql op id st w).2 \/ (at_ s (sql op id st w).2 /\ faulty).
Proof.
  intros Hst Hd Hw. pose proof (triple_sql apply_delta start s Finished op id st Hd w Hw) as Ht.
  destruct (sql op id st w) as [[a|e] w'] eqn:Es; [by left|right]. split; [done|].
  unfold sql in Es. destruct (sql_fault w.(w_tick)) as [f|] eqn:Ef; [by exists w.(w_tick), f|].
  destruct (Hst (clock w.(w_tick) / second) w.(w_db)) as (a & d' & Hok). by rewrite Hok in Es.
Qed.

Lemma finish_over s id status code msg w :
  apply_delta s (EvSql ("jobs.Finish " +:+ status) id) = Some Finished -> at_ s w ->
  let w' := (Jobs.Finish id status code msg w).2 in at_ Finished w' \/ (at_ s w' /\ faulty).
Proof.
  intros Hd Hw. unfold Jobs.Finish, bind_ok, bind.
  pose proof (sql_over s _ id (fun t => Jobs.update_jobs (fun j => j.(job_ID) =? id)
    (fun j => job_set status j.(job_StartedAt) (Some t) code msg j) t) w
    ltac:(intros; eexists _, _; reflexivity) Hd Hw) as H.
  destruct (sql _ id _ w) as [[a|e] w']; exact H.
Qed.

Lemma triple_finish s id status code msg :
  apply_delta s (EvSql ("jobs.Finish " +:+ status) id) = Some Finished -> s <> Start ->
  triple (at_ s) (do! Jobs.Finish id status code msg in ret tt) (fun _ => over).
Proof.
  intros Hd Hs w Hw. unfold bind. pose proof (finish_over s id status code msg w Hd Hw) as H.
  destruct (Jobs.Finish _ _ _ _ w) as [r w']; simpl in *. destruct H as [H|[H F]].
  - exists Finished. auto.
  - exists s. auto.
Qed.

(** The phases a job can fail in after its snapshot. *)
Definition can_fail (s : apply_phase) : Prop := s ∈ [Snapped; PullFailed; UpFailed; Upped].

Lemma can_fail_open s : can_fail s -> s <> Finished /\ s <> Start /\
  (forall id, apply_delta s (EvSql "jobs.Finish failed" id) = Some Finished) /\
  (forall op id, str_in ["updates.SetStatus"] op = true -> apply_delta s (EvSql op id) = Some s).
Proof.
  unfold can_fail. rewrite !elem_of_cons, elem_of_nil. intros Hs.
  assert (forall op id, str_in ["updates.SetStatus"] op = true -> s <> Finished -> apply_delta s (EvSql op id) = Some s).
  { intros op id Hop Hf. unfold str_in in Hop. simpl in Hop. rewrite orb_false_r in Hop.
    apply String.eqb_eq in Hop as ->. by destruct s. }
  naive_solver.
Qed.

Lemma triple_fail s job msg : can_fail s -> triple (at_ s) (Applier.fail job msg) (fun _ => over).
Proof.
  intros (Hf & Hs & Hd & _)%can_fail_open. unfold Applier.fail.
  apply triple_quiet; [by apply quiet_emit_|]. intros _. by apply triple_finish.
Qed.

Lemma triple_failApply s job svc upd msg :
  can_fail s -> triple (at_ s) (Applier.failApply job svc upd msg) (fun _ => over).
Proof.
  intros Hc. destruct (can_fail_open s Hc) as (Hf & Hs & Hd & Hset). unfold Applier.failApply.
  apply triple_quiet.
  { unfold Updates.SetStatus. apply keeps_bind_ok; [by apply quiet_sql, Hset|intros; apply keeps_ret]. }
  intros _. apply triple_quiet; [by apply quiet_event|]. intros _. by apply triple_fail.
Qed.

(** Before the snapshot the job can only fail. *)
Lemma triple_fail_start job msg : triple (at_ Start) (Applier.fail job msg) (fun _ => over_any).
Proof.
  unfold Applier.fail. apply triple_quiet; [by apply quiet_emit_|]. intros _ w Hw.
  pose proof (finish_over Start job.(job_ID) "failed" None msg w eq_refl Hw) as H.
  unfold bind. destruct (Jobs.Finish _ _ _ _ w) as [r w']; simpl in *.
  destruct H as [H|[H F]]; eexists; eauto.
Qed.

Lemma triple_succeed s job : s = Upped \/ s = Applied -> triple (at_ s) (Applier.succeed job) (fun _ => over).
Proof.
  intros Hs. unfold Applier.succeed.
  apply triple_finish; destruct Hs as [-> | ->]; done.
Qed.

(** ** Success *)

(** [MarkApplied] may or may not have been recorded. *)
Definition marked (w : world) : Prop := at_ Upped w \/ at_ Applied w.

Lemma triple_or {A} (P1 P2 : world -> Prop) (m : M world A) Q :
  triple P1 m Q -> triple P2 m Q -> triple (fun w => P1 w \/ P2 w) m Q.
Proof. intros H1 H2 w [Hw|Hw]; auto. Qed.

Lemma keeps_marked {A} (m : M world A) :
  quiet_ Upped m -> quiet_ Applied m -> keeps marked m.
Proof. intros H1 H2 w [Hw|Hw]; [left; by apply H1|right; by apply H2]. Qed.

Lemma keeps_mark id : keeps marked (Updates.MarkApplied id).
Proof.
  unfold Updates.MarkApplied. intros w Hw. unfold bind_ok, bind.
  assert (Hm : marked (sql "updates.MarkApplied" id (fun t => Updates.update_stmt
            (fun u => u.(up_ID) =? id) (up_mark_applied t) t) w).2).
  { destruct Hw as [Hw|Hw].
    - pose proof (triple_sql apply_delta start Upped Applied "updates.MarkApplied" id
        (fun t => Updates.update_stmt (fun u => u.(up_ID) =? id) (up_mark_applied t) t) eq_refl w Hw) as H.
      destruct (sql _ _ _ w) as [[a|e] w']; [by right|by left].
    - right. by apply quiet_sql. }
  destruct (sql _ _ _ w) as [[a|e] w']; exact Hm.
Qed.

Ltac marked := apply keeps_marked; quiet.

Lemma keeps_sibling job svc proj sib : keeps marked (Applier.refresh_sibling job svc proj sib).
Proof.
  unfold Applier.refresh_sibling. destruct (_ =? _); [apply keeps_ret|].
  apply keeps_bind; [marked|]. intros [[[|i l] dg]|e]; [apply keeps_ret| |marked].
  destruct (_ && _); [|apply keeps_ret]. apply keeps_bind; [marked|]. intros u.
  apply keeps_bind; [destruct u; marked|]. intros _. apply keeps_bind; [marked|].
  intros [sup|e]; [|apply keeps_ret]. destruct (String.eqb _ dg); [|apply keeps_ret].
  apply keeps_bind; [apply keeps_mark|]. intros _. marked.
Qed.

Lemma triple_keeps {A B} I (m : M world A) (k : A -> M world B) Q :
  keeps I m -> (forall a, triple I (k a) Q) -> triple I (bind m k) Q.
Proof. intros Hm Hk. apply (triple_bind _ _ _ (fun _ => I)); [|done]. intros w Hw. by apply Hm. Qed.

Lemma triple_success job svc proj upd ids dg :
  triple (at_ Upped) (Applier.apply_success job svc proj upd ids dg) (fun _ => over).
Proof.
  apply (triple_conseq marked _ _ (fun _ => over)); [|by left|done].
  unfold Applier.apply_success.
  apply triple_keeps; [marked|]. intros u. apply triple_keeps; [destruct u; marked|]. intros _.
  apply triple_keeps; [apply keeps_mark|]. intros _. apply triple_keeps; [marked|]. intros _.
  apply triple_keeps.
  { destruct (String.eqb _ "project"); [|apply keeps_ret]. apply keeps_bind; [marked|].
    intros [sibs|e]; [|marked]. apply keeps_for_each. apply keeps_sibling. }
  intros _. apply triple_keeps; [marked|]. intros _.
  apply triple_or; apply triple_succeed; auto.
Qed.

Lemma can_fail_intro s : s = Snapped \/ s = PullFailed \/ s = UpFailed \/ s = Upped -> can_fail s.
Proof. unfold can_fail. rewrite !elem_of_cons. naive_solver. Qed.

(** Pull, then up, then the rest. *)
Lemma triple_files job svc proj upd deps files :
  triple (at_ Snapped) (Applier.apply_files job svc proj upd deps files) (fun _ => over).
Proof.
  unfold Applier.apply_files. eapply triple_bind; [by apply triple_pull|]. intros r. cbv beta.
  destruct (run_failed r); [apply triple_failApply, can_fail_intro; auto|].
  eapply triple_bind; [by apply triple_up|]. intros r2. cbv beta.
  destruct (run_failed r2); [apply triple_failApply, can_fail_intro; auto|].
  apply triple_quiet; [apply quiet_force|]. intros extra.
  apply triple_quiet; [by apply quiet_rediscover|]. intros [ids dg].
  apply triple_quiet; [by apply quiet_gate|]. intros [u|e]; [apply triple_success|].
  apply triple_failApply, can_fail_intro. auto.
Qed.

Lemma keeps_over_remove path : keeps over (sys_Remove path).
Proof.
  intros w (s & Hs & Hn & H). exists s. split; [|done].
  apply (quiet_sys apply_delta start s "remove" path); [|done]. by destruct s.
Qed.

Lemma triple_cleanup s path body :
  triple (at_ s) body (fun _ => over) -> triple (at_ s) (Applier.with_cleanup path body) (fun _ => over).
Proof.
  intros Hb. unfold Applier.with_cleanup. eapply triple_bind; [exact Hb|]. intros a. cbv beta.
  apply triple_keeps; [apply keeps_over_remove|]. intros _ w Hw. exact Hw.
Qed.

(** The snapshot, and everything after it. *)
Lemma triple_snapshot job svc proj blob :
  triple (at_ Start) (Applier.snapshot job svc proj blob)
    (fun r => match r with Ok _ => at_ Snapped | Err _ => at_ Start end).
Proof.
  unfold Applier.snapshot. apply triple_quiet; [unfold Applier.snapshot_inspect; quiet|]. intros ins.
  unfold bind_ok. apply triple_quiet.
  { unfold HashFiles. apply keeps_bind_ok; [by apply quiet_hash|]. intros; apply keeps_ret. }
  intros [h|e]; [|intros w Hw; exact Hw]. destruct (SplitRef _) as [repo tag].
  unfold Snapshots.Insert. eapply triple_bind; [by apply (triple_sql apply_delta start Start Snapped)|].
  intros [i|e] w Hw; exact Hw.
Qed.

Lemma triple_mutate job svc proj upd deps repo tag plan :
  triple (at_ Start) (Applier.apply_mutate job svc proj upd deps repo tag plan) (fun _ => over_any).
Proof.
  unfold Applier.apply_mutate. eapply triple_bind; [apply triple_snapshot|].
  intros [u|e]; [|apply triple_fail_start].
  eapply (triple_conseq (at_ Snapped) _ _ (fun _ => over)); [|done|by intros _; apply over_weaken].
  apply triple_quiet; [by apply quiet_event|]. intros _. destruct plan as [ed|].
  - apply triple_quiet; [apply quiet_write_atomic|]. intros [x|e]; [apply triple_files|].
    apply triple_failApply, can_fail_intro. auto.
  - destruct (_ && _); [|apply triple_files].
    apply triple_quiet; [apply quiet_override|]. intros [path|e]; [apply triple_cleanup, triple_files|].
    apply triple_failApply, can_fail_intro. auto.
Qed.

Lemma triple_runApply job : triple (at_ Start) (Applier.runApply job) (fun _ => over_any).
Proof.
  unfold Applier.runApply. destruct job.(job_ServiceID) as [sid|]; [|apply triple_fail_start].
  apply triple_quiet; [quiet|]. intros [svc|e]; [|apply triple_fail_start].
  apply triple_quiet; [quiet|]. intros [proj|e]; [|apply triple_fail_start].
  apply triple_quiet; [quiet|]. intros [upd|e]; [|apply triple_fail_start].
  apply triple_quiet; [by apply quiet_Parse|]. intros [parsed|e]; [|apply triple_fail_start].
  cbv zeta. destruct (SplitRef svc.(sv_ImageRef)) as [repo tag].
  apply triple_quiet; [quiet|]. intros [remote|e]; [|apply triple_fail_start].
  destruct (_ && _).
  - apply triple_quiet; [quiet|]. intros _. apply triple_quiet; [by apply quiet_event|].
    intros _. apply triple_fail_start.
  - apply triple_quiet; [quiet|]. intros wb. apply triple_quiet.
    { destruct (_ && _); [apply quiet_plan|apply keeps_ret]. }
    intros plan. apply triple_mutate.
Qed.

(** *** Rollback: the snapshot is there from the start *)

Lemma triple_rollback_tail job svc proj prev files :
  triple (at_ Snapped) (Applier.rollbackPullUp job svc proj prev files) (fun _ => over).
Proof.
  unfold Applier.rollbackPullUp. eapply triple_bind; [by apply triple_pull|]. intros r. cbv beta.
  destruct (run_failed r); [apply triple_fail, can_fail_intro; auto|].
  apply triple_quiet; [by apply quiet_Parse|]. intros parsed.
  apply triple_quiet; [destruct parsed; quiet|]. intros deps.
  eapply triple_bind; [by apply triple_up|]. intros r2. cbv beta.
  destruct (run_failed r2); [apply triple_fail, can_fail_intro; auto|].
  apply triple_quiet; [apply quiet_force|]. intros extra.
  apply triple_quiet; [by apply quiet_rediscover|]. intros [ids dg].
  apply triple_quiet; [quiet|]. intros u. apply triple_quiet; [destruct u; quiet|]. intros _.
  apply triple_quiet; [quiet|]. intros u2. apply triple_quiet; [destruct u2; quiet|]. intros _.
  apply triple_quiet; [by apply quiet_event|]. intros _. apply triple_quiet; [quiet|]. intros _.
  apply triple_succeed. auto.
Qed.

Lemma triple_rollback_override job svc proj snap :
  triple (at_ Snapped) (Applier.rollback_override job svc proj snap) (fun _ => over).
Proof.
  unfold Applier.rollback_override. apply triple_quiet; [apply quiet_override|].
  intros [path|e]; [apply triple_cleanup, triple_rollback_tail|].
  apply triple_fail, can_fail_intro. auto.
Qed.

Lemma triple_runRollback job : triple (at_ Snapped) (Applier.runRollback job) (fun _ => over).
Proof.
  assert (Hfail : forall msg, triple (at_ Snapped) (Applier.fail job msg) (fun _ => over)).
  { intros msg. apply triple_fail, can_fail_intro. auto. }
  unfold Applier.runRollback. destruct job.(job_ServiceID) as [sid|]; [|apply Hfail].
  apply triple_quiet; [quiet|]. intros [svc|e]; [|apply Hfail].
  apply triple_quiet; [quiet|]. intros [proj|e]; [|apply Hfail].
  apply triple_quiet; [quiet|]. intros [snap|e]; [|apply Hfail].
  destruct (String.eqb snap.(sn_PrevDigest) ""); [apply Hfail|].
  destruct snap.(sn_ComposeBlob) as [[path content]|]; [|apply triple_rollback_override].
  destruct (negb _); [|apply triple_rollback_override].
  apply triple_quiet; [apply quiet_write_atomic|]. intros [x|e]; [apply triple_rollback_tail|apply Hfail].
Qed.
End Spec.



(** ** A run of each *)

Definition demo_composego : Compose.ComposeGo := {|
  Compose.environ := ["HOME=/root"];
  Compose.load_project _ _ _ name := Ok (name, [Compose.mkService "web" "ghost:5.1" "" "" "" false;
                                                Compose.mkService "cron" "ghost:5.1" "service:web" "" "" false]);
  Compose.env_from_file _ _ := None;
|}.
Definition demo_sha : Sha256 := {| sha256_hex s := "hash of " +:+ s |}.
Definition demo_yaml : Yaml := {| yaml_Unmarshal _ := Err (Errorf "not needed") |}.
Definition demo_cli : ComposeCLI := {| compose_run _ _ := (Ok 0, [Line "stderr" " 575d46df Downloading 1.049MB";
                                                                  Line "stderr" "Image ghost Pulled"]) |}.
Definition demo_docker : Docker := {|
  daemon_inspect _ _ := Ok (mkStatus "running" "healthy" "{inspect}");
  daemon_pull _ _ := Ok tt; daemon_stop _ _ := Ok tt; daemon_start _ _ := Ok tt;
  daemon_rename _ _ _ := Ok tt; daemon_remove _ _ := Ok tt;
  daemon_create _ _ _ _ := Ok "newid"; daemon_id_by_name _ _ := Ok None;
|}.
Definition demo_resolver : Resolver := {|
  resolve _ _ := Ok (mkRemote "" "sha256:new" "sha256:new" "sha256:cfg2" "" ∅ None "linux" "amd64");
|}.
Definition demo_locator : Rediscoverer := {| locate _ _ _ := Ok (["newid"], "sha256:new") |}.
Definition demo_health : HealthConfig := {| healthTimeout _ := 0; healthPoll _ := 0 |}.

Definition demo_apply_job : Job := demo_job 1 "apply" "running" (Some 1) (Some 1).
Definition demo_rollback_job : Job := demo_job 2 "rollback" "running" (Some 1) (Some 1).

Definition demo_apply_db : db :=
  with_jobs (mkTable [demo_apply_job; demo_rollback_job] 2)
  (with_snapshots (mkTable [mkSnapshot 1 1 None "ghost" "sha256:old" "" "{}" "" None 1700000000] 1) demo_db).

Definition demo_start : world := mkWorld demo_apply_db demo_files [] 0.

(** The compose calls of a trace, oldest first. *)
Definition compose_calls (l : list event) : list (list string) :=
  rev (omap (fun e => match e with EvCompose a _ => Some a | _ => None end) l).

Definition demo_apply : world :=
  (@Applier.runApply calm_env stable_slice_sort demo_composego demo_sha demo_yaml demo_cli demo_docker
     demo_resolver demo_locator demo_health demo_apply_job demo_start).2.

Definition demo_rollback : world :=
  (@Applier.runRollback calm_env stable_slice_sort demo_composego demo_cli
     demo_locator demo_rollback_job demo_start).2.


