(* ===== verification/Standalone.v ===== *)
(** * The standalone applier (internal/job/standalone.go)

    Updates and rollbacks of a container that belongs to no compose project, by
    recreating it through the Docker API, and the restore of the old container
    when that fails. *)

From stdpp Require Import base list strings gmap.
From S2P Require Import Prelude GoStd Semver Db Integrity World StoreUpdates StoreJobs.
From S2P Require Import StoreServices StoreMisc Files Daemon.

Local Open Scope Z_scope.

Module Standalone.

Definition oldSuffix : string := "-dockbrr-old".

Section Standalone.
Context {E : Env} {D : Docker} {R : Resolver} {HC : HealthConfig}.

(** ** Helpers *)

Definition emit_ (job : Job) (stream line : string) : M world unit := Emit job.(job_ID) stream line.

Definition event_ (serviceID : Z) (kind : string) (jobID : option Z) (from to msg : string) : M world unit :=
  do! Events.Insert (mkEvent 0 serviceID kind jobID from to msg 0 "" "") in ret tt.

Definition fail (job : Job) (msg : string) : M world unit :=
  do! emit_ job "system" (job.(job_Type) +:+ " failed: " +:+ msg) in
  do! Jobs.Finish job.(job_ID) "failed" None msg in
  ret tt.

Definition succeed (job : Job) : M world unit :=
  do! Jobs.Finish job.(job_ID) "success" (Some 0) "" in
  ret tt.

Definition failApply (job : Job) (svc : Service) (upd : Update) (msg : string) : M world unit :=
  do! Updates.SetStatus upd.(up_ID) "failed" in
  do! event_ svc.(sv_ID) "failed" (Some job.(job_ID)) svc.(sv_CurrentDigest) upd.(up_ToDigest) msg in
  fail job msg.

Definition inspectErrMsg (err : option error) : string :=
  match err with Some e => error_text e | None => "empty inspect" end.

(** ** Recreating *)

Definition clearNameConflict (wantName keepID : string) : M world unit :=
  let! r := ContainerIDByName wantName in
  match r with
  | Err _ => ret tt
  | Ok None => ret tt
  | Ok (Some id) =>
      if String.eqb id keepID then ret tt
      else do! ContainerStop id in do! ContainerRemove id in ret tt
  end.

(** The new id ("" when the container was not created) and the error. *)
Definition recreate (oldID inspectJSON newImage name : string) : M world (string * option error) :=
  do! clearNameConflict (name +:+ oldSuffix) oldID in
  do! clearNameConflict name oldID in
  let! r := ContainerStop oldID in
  match r with
  | Err e => ret ("", Some (Wrap "stop old" e))
  | Ok _ =>
      let! r := ContainerRename oldID (name +:+ oldSuffix) in
      match r with
      | Err e => ret ("", Some (Wrap "rename old" e))
      | Ok _ =>
          let! r := ContainerCreateFromInspect inspectJSON newImage name in
          match r with
          | Err e => ret ("", Some (Wrap "create new" e))
          | Ok newID =>
              let! r := ContainerStart newID in
              match r with
              | Err e => ret (newID, Some (Wrap "start new" e))
              | Ok _ => ret (newID, None)
              end
          end
      end
  end.

Definition restoreOld (oldID name newID : string) : M world unit :=
  do! (if negb (String.eqb newID "") then
         do! ContainerStop newID in do! ContainerRemove newID in ret tt
       else ret tt) in
  do! ContainerRename oldID name in
  do! ContainerStart oldID in
  ret tt.

(** ** Apply *)

(** From the snapshot on. *)
Definition apply_mutate (job : Job) (svc : Service) (upd : Update) (repo targetRef oldID inspect : string) :
    M world unit :=
  let! s := Snapshots.Insert (mkSnapshot 0 svc.(sv_ID) (Some job.(job_ID)) repo svc.(sv_CurrentDigest)
              svc.(sv_CurrentImageID) inspect "" None 0) in
  match s with
  | Err e => fail job ("snapshot: " +:+ error_text e)
  | Ok _ =>
  do! emit_ job "system" "snapshot taken" in
  do! emit_ job "system" ("pulling " +:+ targetRef) in
  let! p := ImagePull targetRef in
  match p with
  | Err e => failApply job svc upd ("pull: " +:+ error_text e)
  | Ok _ =>
  do! emit_ job "system" "recreating container" in
  let! created := recreate oldID inspect targetRef svc.(sv_Name) in
  let '(newID, rerr) := created in
  match rerr with
  | Some e =>
      do! restoreOld oldID svc.(sv_Name) newID in
      failApply job svc upd ("recreate: " +:+ error_text e)
  | None =>
  do! emit_ job "system" "health-gating" in
  let! h := healthGateOne newID in
  match h with
  | Err e =>
      do! restoreOld oldID svc.(sv_Name) newID in
      failApply job svc upd ("health gate: " +:+ error_text e)
  | Ok _ =>
  do! ContainerRemove oldID in
  do! Services.UpdateRuntime svc.(sv_ID) [newID] upd.(up_ToDigest) in
  do! (if negb (String.eqb targetRef svc.(sv_ImageRef)) then
         do! Services.UpdateImageRef svc.(sv_ID) targetRef in ret tt
       else ret tt) in
  do! Updates.MarkApplied upd.(up_ID) in
  do! event_ svc.(sv_ID) "succeeded" (Some job.(job_ID)) svc.(sv_CurrentDigest) upd.(up_ToDigest)
        "update applied" in
  do! emit_ job "system" "apply succeeded" in
  succeed job
  end end end end.

Definition runApply (job : Job) : M world unit :=
  match job.(job_ServiceID) with
  | None => fail job "apply job has no service"
  | Some sid =>
  let! svc := Services.Get sid in
  match svc with
  | Err e => fail job ("load service: " +:+ error_text e)
  | Ok svc =>
  let! upd := Updates.GetLatestOpenByService svc.(sv_ID) in
  match upd with
  | Err e => fail job ("no open update to apply: " +:+ error_text e)
  | Ok upd =>
  match svc.(sv_ContainerIDs) with
  | [] => fail job "standalone apply: service has no container"
  | oldID :: _ =>
  do! emit_ job "system" "resolving target" in
  let '(repo, trackedTag) := SplitRef svc.(sv_ImageRef) in
  let targetRef := if negb (String.eqb upd.(up_Tag) "") && negb (String.eqb upd.(up_Tag) trackedTag)
                   then repo +:+ ":" +:+ upd.(up_Tag) else svc.(sv_ImageRef) in
  let! remote := Resolve targetRef in
  match remote with
  | Err e => fail job ("precheck: re-resolve: " +:+ error_text e)
  | Ok remote =>
  if negb (String.eqb remote.(ri_Digest) upd.(up_ToDigest))
     && negb (String.eqb remote.(ri_PlatformDigest) upd.(up_ToDigest)) then
    do! Updates.SetStatus upd.(up_ID) "superseded" in
    do! event_ svc.(sv_ID) "failed" (Some job.(job_ID)) svc.(sv_CurrentDigest) upd.(up_ToDigest)
          "superseded: remote digest moved before apply" in
    fail job "precheck: target digest moved; marked superseded"
  else
    let! st := InspectStatus oldID in
    match st with
    | Err e => fail job ("precheck: inspect current container: " +:+ inspectErrMsg (Some e))
    | Ok st =>
        if String.eqb st.(cs_RawJSON) ""
        then fail job ("precheck: inspect current container: " +:+ inspectErrMsg None)
        else apply_mutate job svc upd repo targetRef oldID st.(cs_RawJSON)
    end
  end end end end end.

(** ** Rollback *)

Definition rollback_mutate (job : Job) (svc : Service) (snap : Snapshot) (currentID oldRef : string) :
    M world unit :=
  let! created := recreate currentID snap.(sn_PrevContainerInspect) oldRef svc.(sv_Name) in
  let '(newID, rerr) := created in
  match rerr with
  | Some e =>
      do! restoreOld currentID svc.(sv_Name) newID in
      fail job ("rollback recreate: " +:+ error_text e)
  | None =>
      let! h := healthGateOne newID in
      match h with
      | Err e =>
          do! restoreOld currentID svc.(sv_Name) newID in
          fail job ("rollback health gate: " +:+ error_text e)
      | Ok _ =>
          do! ContainerRemove currentID in
          do! Services.UpdateRuntime svc.(sv_ID) [newID] snap.(sn_PrevDigest) in
          do! Updates.MarkRolledBack svc.(sv_ID) svc.(sv_CurrentDigest) in
          do! event_ svc.(sv_ID) "rolled_back" (Some job.(job_ID)) svc.(sv_CurrentDigest)
                snap.(sn_PrevDigest) "rolled back" in
          do! emit_ job "system" "rolled back" in
          succeed job
      end
  end.

Definition runRollback (job : Job) : M world unit :=
  match job.(job_ServiceID) with
  | None => fail job "rollback job has no service"
  | Some sid =>
  let! svc := Services.Get sid in
  match svc with
  | Err e => fail job ("load service: " +:+ error_text e)
  | Ok svc =>
  let! snap := Snapshots.GetLatestForService svc.(sv_ID) in
  match snap with
  | Err e => fail job ("no snapshot to roll back to: " +:+ error_text e)
  | Ok snap =>
  if String.eqb snap.(sn_PrevDigest) "" || String.eqb snap.(sn_PrevContainerInspect) ""
     || String.eqb snap.(sn_PrevContainerInspect) "{}"
  then fail job "snapshot lacks the previous container state"
  else
    match svc.(sv_ContainerIDs) with
    | [] => fail job "standalone rollback: service has no current container"
    | currentID :: _ =>
        do! emit_ job "system" "rolling back" in
        let oldRef := snap.(sn_PrevRepo) +:+ "@" +:+ snap.(sn_PrevDigest) in
        let! p := ImagePull oldRef in
        match p with
        | Err e => fail job ("rollback pull: " +:+ error_text e)
        | Ok _ => rollback_mutate job svc snap currentID oldRef
        end
    end
  end end end.

Definition Handle (job : Job) : M world unit :=
  if String.eqb job.(job_Type) "apply" then runApply job
  else if String.eqb job.(job_Type) "rollback" then runRollback job
  else fail job ("standalone: unknown job type: " +:+ job.(job_Type)).

End Standalone.
End Standalone.
