(* ===== verification/StandaloneSpec.v ===== *)
(** * The protocol of the standalone applier

    What may happen to the old container and to the new one, as an automaton
    over the daemon calls, and the proof that [runApply] and [runRollback] follow
    it: in particular a failed recreate never ends without the old container
    having been put back. *)

From stdpp Require Import base list strings gmap.
From S2P Require Import Prelude GoStd Semver Db Integrity World StoreUpdates StoreJobs.
From S2P Require Import StoreServices StoreMisc Files Daemon ApplierSpec Standalone.

Local Open Scope Z_scope.

Inductive swap_phase :=
| SStart          (* nothing touched *)
| SSnapped        (* the snapshot is stored *)
| SPulled | SPullFailed
| SStopped        (* the old container is stopped *)
| SAside          (* and renamed aside *)
| SCreated        (* the new one holds the name *)
| SStarted        (* and runs *)
| SBroken         (* something failed: the old one must be put back *)
| SRenamedBack | SRestored
| SReplaced       (* the old one is removed *)
| SFinished.

Section Delta.
Context (old name : string).

Definition to_aside : string := "rename to " +:+ (name +:+ Standalone.oldSuffix).
Definition to_name : string := "rename to " +:+ name.

Definition swap_docker (s : swap_phase) (op arg : string) (ok : bool) : option swap_phase :=
  if str_in ["inspect"; "lookup"] op then match s with SFinished => None | _ => Some s end
  else if String.eqb op "pull" then
    match s with SSnapped => Some (if ok then SPulled else SPullFailed) | _ => None end
  else if String.eqb op "create" then
    match s with SAside => Some (if ok then SCreated else SBroken) | _ => None end
  else if String.eqb arg old then
    if String.eqb op "stop" then
      match s with SPulled => Some (if ok then SStopped else SBroken) | _ => None end
    else if String.eqb op to_aside then
      match s with SStopped => Some (if ok then SAside else SBroken) | _ => None end
    else if String.eqb op to_name then
      match s with SBroken | SStarted => Some SRenamedBack | _ => None end
    else if String.eqb op "start" then
      match s with SRenamedBack => Some SRestored | _ => None end
    else if String.eqb op "remove" then
      match s with SStarted => Some SReplaced | _ => None end
    else None
  else
    if String.eqb op "start" then
      match s with SCreated => Some (if ok then SStarted else SBroken) | _ => None end
    else if String.eqb op "stop" then
      match s with SPulled => Some SPulled | SStarted | SBroken => Some SBroken | _ => None end
    else if String.eqb op "remove" then
      match s with SPulled => Some SPulled | SBroken => Some SBroken | _ => None end
    else None.

Definition swap_delta (s : swap_phase) (e : event) : option swap_phase :=
  match e with
  | EvDocker op arg ok => swap_docker s op arg ok
  | EvSql op _ =>
      if String.eqb op "snapshots.Insert" then match s with SStart => Some SSnapped | _ => None end
      else if String.eqb op "updates.MarkApplied" then match s with SReplaced => Some s | _ => None end
      else if String.eqb op "jobs.Finish success" then
        match s with SReplaced => Some SFinished | _ => None end
      else if String.eqb op "jobs.Finish failed" then
        match s with
        | SStart | SSnapped | SPullFailed | SRestored => Some SFinished
        | _ => None
        end
      else match s with SFinished => None | _ => Some s end
  | EvRegistry _ _ _ _ => match s with SStart => Some s | _ => None end
  | EvNotify _ _ => match s with SFinished => None | _ => Some s end
  | EvCompose _ _ | EvHttp _ _ | EvFile _ _ => None
  end.
End Delta.

Section Spec.
Context {E : Env} {D : Docker} {R : Resolver} {HC : HealthConfig}.
Context (old name : string) (start : swap_phase).

(** The daemon gives a new container an id of its own. *)
Context (fresh : forall n i im nm id, daemon_create n i im nm = Ok id -> id <> old).

Notation at_ s := (at_phase (swap_delta old name) start s).
Notation quiet_ s m := (quiet (swap_delta old name) start s m).
Notation delta := (swap_delta old name).

Definition sover (w : world) : Prop := exists s, at_ s w /\ (s = SFinished \/ faulty).

(** ** Quiet parts *)

Lemma quiet_emit_solo s job st l : s <> SFinished -> quiet_ s (Standalone.emit_ job st l).
Proof. intros Hs. unfold Standalone.emit_. destruct s; try done; quiet. Qed.

Lemma quiet_event_solo s a b c d e f : s <> SFinished -> quiet_ s (Standalone.event_ a b c d e f).
Proof.
  intros Hs. unfold Standalone.event_, Events.Insert. apply keeps_bind; [|intros; apply keeps_ret].
  apply quiet_sql. unfold swap_delta. cbn [String.append String.eqb Ascii.eqb]. destruct s; done.
Qed.

Lemma quiet_gate_one s id : s <> SFinished -> quiet_ s (healthGateOne id).
Proof.
  intros Hs. unfold healthGateOne. apply keeps_bind; [apply quiet_gate_timeout|]. intros t.
  apply keeps_bind; [apply quiet_gate_poll|]. intros p. apply quiet_poll_loop.
  unfold gate_round_one. destruct s; try done; quiet.
Qed.

Hint Extern 1 (_ <> SFinished) => discriminate : quiet.
Hint Resolve quiet_emit_solo quiet_event_solo quiet_gate_one : quiet.

(** ** Daemon calls, one by one *)

Lemma neq_eqb a b : a <> b -> String.eqb a b = false.
Proof. apply String.eqb_neq. Qed.

Lemma to_name_not_aside : String.eqb (to_name name) (to_aside name) = false.
Proof.
  apply String.eqb_neq. unfold to_name, to_aside. intros H.
  assert (len ("rename to " +:+ name) = len ("rename to " +:+ (name +:+ Standalone.oldSuffix)))%nat
    by by rewrite H.
  rewrite !len_app in H0. simpl in H0. lia.
Qed.

Lemma quiet_clear want : quiet_ SPulled (Standalone.clearNameConflict want old).
Proof.
  unfold Standalone.clearNameConflict. apply keeps_bind; [quiet|].
  intros [[id|]|e]; [|apply keeps_ret..].
  destruct (String.eqb_spec id old) as [->|Hne]; [apply keeps_ret|].
  apply neq_eqb in Hne.
  apply keeps_bind; [apply quiet_call; intros a; simpl; unfold swap_docker; by rewrite Hne|]. intros _.
  apply keeps_bind; [|intros; apply keeps_ret].
  apply quiet_call. intros a. simpl. unfold swap_docker. by rewrite Hne.
Qed.

(** What [recreate] leaves: the new container runs, or the old one has to be
    put back; the id it gives is never the old one's. *)
Definition recreated (r : string * option error) (w : world) : Prop :=
  (r.1 = "" \/ r.1 <> old) /\
  match r.2 with None => at_ SStarted w | Some _ => at_ SBroken w end.

Ltac docker_step next :=
  apply (triple_call delta start _ next);
  [intros a; simpl; unfold swap_docker, to_aside; rewrite ?String.eqb_refl; by destruct a|].

Lemma triple_recreate ins img :
  triple (at_ SPulled) (Standalone.recreate old ins img name) recreated.
Proof.
  unfold Standalone.recreate.
  apply triple_quiet; [apply quiet_clear|]. intros _. apply triple_quiet; [apply quiet_clear|]. intros _.
  docker_step (fun r : result unit => if is_ok r then SStopped else SBroken). intros [u|e]; simpl.
  2:{ intros w Hw. split; [by left|done]. }
  docker_step (fun r : result unit => if is_ok r then SAside else SBroken). intros [u1|e]; simpl.
  2:{ intros w Hw. split; [by left|done]. }
  unfold ContainerCreateFromInspect.
  apply (triple_bind _ _ _ (fun r w => at_ (if is_ok r then SCreated else SBroken) w /\
    match r with Ok id => id <> old | Err _ => True end)).
  { intros w Hw. simpl. split.
    - eapply at_phase_record; [exact Hw|]. simpl. by destruct (daemon_create _ _ _ _).
    - destruct (daemon_create _ _ _ _) as [id|e] eqn:Ec; [by eapply fresh|done]. }
  intros [id|e]; simpl; [|intros w [Hw _]; split; [by left|done]].
  intros w [Hw Hne]. revert w Hw. pose proof (neq_eqb _ _ Hne) as Hneb.
  change (triple (at_ SCreated) (let! r := ContainerStart id in
    match r with Ok _ => ret (id, None) | Err e => ret (id, Some (Wrap "start new" e)) end) recreated).
  apply (triple_call delta start _ (fun r : result unit => if is_ok r then SStarted else SBroken)).
  { intros a. simpl. unfold swap_docker. rewrite Hneb. by destruct a. }
  intros [u2|e2]; simpl; intros w Hw; split; auto.
Qed.

(** The old container gets its name back and is started, whatever fails. *)
Lemma triple_restore s newID :
  s = SBroken \/ s = SStarted -> newID = "" \/ newID <> old ->
  triple (at_ s) (Standalone.restoreOld old name newID) (fun _ => at_ SRestored).
Proof.
  intros Hs Hid. unfold Standalone.restoreOld.
  apply (triple_bind _ _ _ (fun _ w => at_ SBroken w \/ at_ SStarted w)).
  { destruct (String.eqb_spec newID "") as [->|Hne]; simpl.
    - intros w Hw. destruct Hs as [-> | ->]; auto.
    - destruct Hid as [|Hid]; [done|]. apply neq_eqb in Hid.
      apply (triple_call delta start _ (fun _ => SBroken)).
      { intros a. simpl. unfold swap_docker. rewrite Hid. by destruct Hs as [-> | ->]. }
      intros _. apply (triple_call delta start _ (fun _ => SBroken)).
      { intros a. simpl. unfold swap_docker. by rewrite Hid. }
      intros _ w Hw. by left. }
  intros _.
  assert (Hrest : forall s', s' = SBroken \/ s' = SStarted ->
    triple (at_ s') (do! ContainerRename old name in do! ContainerStart old in ret tt) (fun _ => at_ SRestored)).
  { intros s' Hs'. apply (triple_call delta start _ (fun _ => SRenamedBack)).
    { intros a. change ("rename to " +:+ name) with (to_name name).
      unfold swap_delta, swap_docker. rewrite String.eqb_refl, to_name_not_aside, String.eqb_refl.
      by destruct Hs' as [-> | ->]. }
    intros _. apply (triple_call delta start _ (fun _ => SRestored)).
    { intros a. simpl. unfold swap_docker. by rewrite String.eqb_refl. }
    intros _ w Hw. exact Hw. }
  intros w [Hw|Hw]; [apply (Hrest SBroken)|apply (Hrest SStarted)]; auto.
Qed.

(** ** The end of the job *)

Lemma finish_sover s job status code msg :
  delta s (EvSql ("jobs.Finish " +:+ status) job) = Some SFinished ->
  triple (at_ s) (do! Jobs.Finish job status code msg in ret tt) (fun _ => sover).
Proof.
  intros Hd w Hw. unfold bind, Jobs.Finish, bind_ok, bind.
  pose proof (triple_sql delta start s SFinished _ job (fun t => Jobs.update_jobs (fun j => j.(job_ID) =? job)
    (fun j => job_set status j.(job_StartedAt) (Some t) code msg j) t) Hd w Hw) as Ht.
  destruct (sql _ _ _ w) as [[a|e] w'] eqn:Es; simpl in *.
  - exists SFinished. auto.
  - exists s. split; [done|right]. unfold sql in Es.
    destruct (sql_fault w.(w_tick)) as [f|] eqn:Ef; [by exists w.(w_tick), f|done].
Qed.

Definition scan_fail (s : swap_phase) : Prop := s = SStart \/ s = SSnapped \/ s = SPullFailed \/ s = SRestored.

Lemma solo_fail s job msg : scan_fail s -> triple (at_ s) (Standalone.fail job msg) (fun _ => sover).
Proof.
  intros Hs. unfold Standalone.fail. apply triple_quiet.
  { apply quiet_emit_solo. unfold scan_fail in Hs. naive_solver. }
  intros _. apply finish_sover. unfold scan_fail in Hs. naive_solver.
Qed.

Lemma solo_failApply s job svc upd msg :
  scan_fail s -> triple (at_ s) (Standalone.failApply job svc upd msg) (fun _ => sover).
Proof.
  intros Hs. unfold Standalone.failApply. apply triple_quiet.
  { unfold scan_fail in Hs. destruct s; naive_solver (quiet). }
  intros _. apply triple_quiet; [apply quiet_event_solo; unfold scan_fail in Hs; naive_solver|].
  intros _. by apply solo_fail.
Qed.

Lemma triple_recreated {B} (k : string * option error -> M world B) Q ins img :
  (forall newID, newID = "" \/ newID <> old -> triple (at_ SStarted) (k (newID, None)) Q) ->
  (forall newID e, newID = "" \/ newID <> old -> triple (at_ SBroken) (k (newID, Some e)) Q) ->
  triple (at_ SPulled) (bind (Standalone.recreate old ins img name) k) Q.
Proof.
  intros Hok Herr. eapply triple_bind; [apply triple_recreate|].
  intros [newID [e|]] w [Hid Hw]; simpl in *; [by apply Herr|by apply Hok].
Qed.

Lemma triple_then {A} s s' (m : M world unit) (k : M world A) Q :
  triple (at_ s) m (fun _ => at_ s') -> triple (at_ s') k Q -> triple (at_ s) (bind m (fun _ => k)) Q.
Proof. intros Hm Hk. eapply triple_bind; [exact Hm|]. intros a. exact Hk. Qed.

Ltac sfail := first [apply solo_failApply|apply solo_fail]; unfold scan_fail; tauto.

Lemma triple_remove_old {A} (k : result unit -> M world A) Q :
  (forall r, triple (at_ SReplaced) (k r) Q) ->
  triple (at_ SStarted) (bind (ContainerRemove old) k) Q.
Proof.
  intros Hk. apply (triple_call delta start _ (fun _ => SReplaced)); [|exact Hk].
  intros a. simpl. unfold swap_docker, to_aside, to_name. by rewrite String.eqb_refl.
Qed.

Lemma solo_succeed job : triple (at_ SReplaced) (Standalone.succeed job) (fun _ => sover).
Proof. by apply finish_sover. Qed.

Lemma solo_mutate job svc upd repo ref inspect :
  svc.(sv_Name) = name ->
  triple (at_ SStart) (Standalone.apply_mutate job svc upd repo ref old inspect) (fun _ => sover).
Proof.
  intros Hn. unfold Standalone.apply_mutate. rewrite Hn. unfold Snapshots.Insert.
  eapply triple_bind; [by apply (triple_sql delta start SStart SSnapped)|].
  intros [i|e]; cbv beta iota; [|sfail].
  apply triple_quiet; [by apply quiet_emit_solo|]. intros _. apply triple_quiet; [by apply quiet_emit_solo|]. intros _.
  apply (triple_call delta start _ (fun r : result unit => if is_ok r then SPulled else SPullFailed));
    [by intros []|].
  intros [u|e]; simpl is_ok; cbv beta iota; [|sfail].
  apply triple_quiet; [by apply quiet_emit_solo|]. intros _.
  apply triple_recreated; intros newID; cbv beta iota.
  - intros Hid. apply triple_quiet; [by apply quiet_emit_solo|]. intros _.
    apply triple_quiet; [by apply quiet_gate_one|]. intros [u2|e2].
    + apply triple_remove_old. intros r. apply triple_quiet; [quiet|]. intros _.
      apply triple_quiet; [quiet|]. intros _. apply triple_quiet; [quiet|]. intros _.
      apply triple_quiet; [by apply quiet_event_solo|]. intros _. apply triple_quiet; [by apply quiet_emit_solo|].
      intros _. apply solo_succeed.
    + eapply triple_then; [apply triple_restore; auto|sfail].
  - intros e Hid. eapply triple_then; [apply triple_restore; auto|sfail].
Qed.

(** The service row of the job. *)
Lemma triple_get_service {B} s d sid svc (k : result Service -> M world B) Q :
  s <> SFinished -> Services.find_service d sid = Some svc ->
  triple (at_ s) (k (Ok svc)) Q -> (forall e, triple (at_ s) (k (Err e)) Q) ->
  triple (fun w => at_ s w /\ w.(w_db) = d) (bind (Services.Get sid) k) Q.
Proof.
  intros Hs Hf Hok Herr.
  apply (triple_bind _ _ _ (fun r w => at_ s w /\ match r with Ok x => x = svc | Err _ => True end)).
  - intros w [Hw Hd]. unfold Services.Get. split.
    + apply quiet_sql; [|done]. by destruct s.
    + destruct (sql _ _ _ w) as [[x|e] w'] eqn:Es; [|done]. simpl.
      apply sql_ok_inv in Es as (Hx & _). rewrite Hd, Hf in Hx. by injection Hx as ->.
  - intros [x|e] w [Hw Hx]; [subst x; by apply Hok|by apply Herr].
Qed.

Lemma solo_runApply job d sid svc :
  job.(job_ServiceID) = Some sid -> Services.find_service d sid = Some svc ->
  svc.(sv_Name) = name -> head svc.(sv_ContainerIDs) = Some old ->
  triple (fun w => at_ SStart w /\ w.(w_db) = d) (Standalone.runApply job) (fun _ => sover).
Proof.
  intros Hj Hf Hn Hids. unfold Standalone.runApply. rewrite Hj.
  apply (triple_get_service SStart d sid svc); [done|done| |intros e; sfail].
  apply triple_quiet; [quiet|]. intros [upd|e]; [|sfail].
  destruct svc.(sv_ContainerIDs) as [|oldID ids]; [done|]. injection Hids as ->.
  apply triple_quiet; [by apply quiet_emit_solo|]. intros _.
  destruct (SplitRef svc.(sv_ImageRef)) as [repo tag]. cbv zeta.
  apply triple_quiet; [quiet|]. intros [remote|e]; [|sfail].
  destruct (negb _ && negb _).
  - apply triple_quiet; [quiet|]. intros _. apply triple_quiet; [by apply quiet_event_solo|]. intros _. sfail.
  - apply triple_quiet; [quiet|]. intros [st|e]; [|sfail].
    destruct (String.eqb st.(cs_RawJSON) ""); [sfail|]. by apply solo_mutate.
Qed.

(** *** Rollback *)

Lemma triple_rollback_mutate job svc snap ref :
  svc.(sv_Name) = name ->
  triple (at_ SPulled) (Standalone.rollback_mutate job svc snap old ref) (fun _ => sover).
Proof.
  intros Hn. unfold Standalone.rollback_mutate. rewrite Hn.
  apply triple_recreated; intros newID; cbv beta iota.
  - intros Hid. apply triple_quiet; [by apply quiet_gate_one|]. intros [u2|e2].
    + apply triple_remove_old. intros r. apply triple_quiet; [quiet|]. intros _.
      apply triple_quiet; [quiet|]. intros _.
      apply triple_quiet; [by apply quiet_event_solo|]. intros _. apply triple_quiet; [by apply quiet_emit_solo|].
      intros _. apply solo_succeed.
    + eapply triple_then; [apply triple_restore; auto|sfail].
  - intros e Hid. eapply triple_then; [apply triple_restore; auto|sfail].
Qed.

Lemma solo_runRollback job d sid svc :
  job.(job_ServiceID) = Some sid -> Services.find_service d sid = Some svc ->
  svc.(sv_Name) = name -> head svc.(sv_ContainerIDs) = Some old ->
  triple (fun w => at_ SSnapped w /\ w.(w_db) = d) (Standalone.runRollback job) (fun _ => sover).
Proof.
  intros Hj Hf Hn Hids. unfold Standalone.runRollback. rewrite Hj.
  apply (triple_get_service SSnapped d sid svc); [done|done| |intros e; sfail].
  apply triple_quiet; [quiet|]. intros [snap|e]; [|sfail].
  destruct (_ || _); [sfail|].
  destruct svc.(sv_ContainerIDs) as [|oldID ids]; [done|]. injection Hids as ->.
  apply triple_quiet; [by apply quiet_emit_solo|]. intros _.
  apply (triple_call delta start _ (fun r : result unit => if is_ok r then SPulled else SPullFailed));
    [by intros []|].
  intros [u|e]; simpl is_ok; cbv beta iota; [|sfail]. by apply triple_rollback_mutate.
Qed.
End Spec.


(** The same for a standalone rollback: it pulls first, and a failed
    recreate or health gate puts the current container back. *)
Theorem standalone_rollback_protocol `{Env} `{Docker} `{HealthConfig} job sid svc old w :
  (forall n i im nm id, daemon_create n i im nm = Ok id -> id <> old) ->
  job.(job_ServiceID) = Some sid -> Services.find_service w.(w_db) sid = Some svc ->
  head svc.(sv_ContainerIDs) = Some old -> w.(w_trace) = [] ->
  exists s, phase (swap_delta old svc.(sv_Name)) SSnapped (Standalone.runRollback job w).2.(w_trace) = Some s /\
    (s = SFinished \/ exists n e, sql_fault n = Some e).
Proof.
  intros Hfresh Hj Hf Hids Hw.
  apply (solo_runRollback old svc.(sv_Name) SSnapped Hfresh job w.(w_db) sid svc); try done.
  split; [|done]. unfold at_phase, on_trace. by rewrite Hw.
Qed.

(** A new container that exits at once. *)
Definition broken_docker : Docker := {|
  daemon_inspect _ id := Ok (if String.eqb id "newid" then mkStatus "exited" "" "{new}"
                             else mkStatus "running" "" "{old}");
  daemon_pull _ _ := Ok tt; daemon_stop _ _ := Ok tt; daemon_start _ _ := Ok tt;
  daemon_rename _ _ _ := Ok tt; daemon_remove _ _ := Ok tt;
  daemon_create _ _ _ _ := Ok "newid"; daemon_id_by_name _ _ := Ok None;
|}.

Definition docker_calls (l : list event) : list (string * string) :=
  rev (omap (fun e => match e with EvDocker op a _ => Some (op, a) | _ => None end) l).

Definition demo_failed_apply : world :=
  (@Standalone.runApply calm_env broken_docker demo_resolver demo_health demo_apply_job demo_start).2.


Definition demo_rollback_db : db :=
  with_snapshots (mkTable [mkSnapshot 1 1 None "ghost" "sha256:older" "" "{old}" "" None 1700000000] 1)
    demo_apply_db.

Definition demo_standalone_rollback : world :=
  (@Standalone.runRollback calm_env demo_docker demo_health demo_rollback_job
     (mkWorld demo_rollback_db ∅ [] 0)).2.

Lemma standalone_rollback_protocol_witness :
  map job_Status demo_standalone_rollback.(w_db).(jobs).(rows) = ["running"; "success"] /\
  map sv_CurrentDigest demo_standalone_rollback.(w_db).(services).(rows) = ["sha256:older"] /\
  exists s, phase (swap_delta "c0ffee" "web") SSnapped demo_standalone_rollback.(w_trace) = Some s /\
    (s = SFinished \/ exists n e, @sql_fault calm_env n = Some e).
Proof.
  split_and!; [vm_compute; reflexivity..|].
  refine (@standalone_rollback_protocol calm_env demo_docker demo_health demo_rollback_job 1
    demo_service "c0ffee" (mkWorld demo_rollback_db ∅ [] 0) _ eq_refl eq_refl eq_refl eq_refl).
  intros n i im nm id H. injection H as <-. discriminate.
Defined.
