(* ===== verification/Lifecycle.v ===== *)
(** * Start, stop, restart and remove (internal/job/lifecycle.go) *)

From stdpp Require Import base list strings gmap.
From S2P Require Import Prelude GoStd Semver Db Integrity World StoreUpdates StoreJobs.
From S2P Require Import StoreServices StoreMisc Files Compose Daemon ApplierSpec.

Local Open Scope Z_scope.

Module Lifecycle.
Section Lifecycle.
Context {E : Env} {SS : SliceSort} {CG : Compose.ComposeGo} {D : Docker} {RD : Rediscoverer}.

Definition emit_ (job : Job) (stream line : string) : M world unit := Emit job.(job_ID) stream line.

Definition succeed (job : Job) : M world unit :=
  do! Jobs.Finish job.(job_ID) "success" (Some 0) "" in ret tt.

Definition fail (job : Job) (msg : string) : M world unit :=
  do! Jobs.Finish job.(job_ID) "failed" None msg in ret tt.

Definition event_ (serviceID : Z) (kind : string) (jobID : option Z) : M world unit :=
  do! Events.Insert (mkEvent 0 serviceID kind jobID "" "" "" 0 "" "") in ret tt.

Definition eventKind (jobType : string) : string :=
  if String.eqb jobType "start" then "started"
  else if String.eqb jobType "stop" then "stopped"
  else if String.eqb jobType "restart" then "restarted"
  else if String.eqb jobType "remove" then "removed"
  else jobType.

(** ** Dependents and order *)

Definition dependentContainerIDs (svc : Service) (proj : Project) : M world (list string) :=
  if negb (String.eqb proj.(pr_Kind) "compose") || bool_decide (proj.(pr_ConfigFiles) = []) then ret []
  else
    let! parsed := Compose.Parse proj.(pr_WorkingDir) proj.(pr_ConfigFiles) in
    match parsed with
    | Err _ => ret []
    | Ok parsed =>
        match Compose.NamespaceDependents parsed.(Compose.Services) svc.(sv_Name) with
        | [] => ret []
        | depNames =>
            let! svcs := Services.ListByProject proj.(pr_ID) in
            match svcs with
            | Err _ => ret []
            | Ok svcs =>
                ret (concat (map sv_ContainerIDs
                       (List.filter (fun s => existsb (String.eqb s.(sv_Name)) depNames) svcs)))
            end
        end
    end.

(** The two verbs [runOrderedWithDeps] knows. *)
Definition verb_call (verb id : string) : M world (result unit) :=
  if String.eqb verb "stop" then ContainerStop id
  else if String.eqb verb "start" then ContainerStart id
  else ret (Ok tt).

Fixpoint run_order (verb : string) (order : list string) : M world (result unit) :=
  match order with
  | [] => ret (Ok tt)
  | id :: order' =>
      let! r := verb_call verb id in
      match r with
      | Err e => ret (Err (Wrap (verb +:+ " " +:+ id) e))
      | Ok _ => run_order verb order'
      end
  end.

Definition runOrderedWithDeps (svc : Service) (depIDs : list string) (verb : string) : M world (result unit) :=
  let targetIDs := svc.(sv_ContainerIDs) in
  if String.eqb verb "stop" then run_order verb (depIDs ++ targetIDs)
  else if String.eqb verb "start" then run_order verb (targetIDs ++ depIDs)
  else ret (Err (Errorf ("runOrdered: bad verb " +:+ Quote verb))).

Definition runOrdered (svc : Service) (proj : Project) (verb : string) : M world (result unit) :=
  let! depIDs := dependentContainerIDs svc proj in
  runOrderedWithDeps svc depIDs verb.

Definition runRestart (svc : Service) (proj : Project) : M world (result unit) :=
  let! depIDs := dependentContainerIDs svc proj in
  try? runOrderedWithDeps svc depIDs "stop" in
  runOrderedWithDeps svc depIDs "start".

(** ** Remove *)

(** The live check of every container. *)
Fixpoint refuse_running (name : string) (ids : list string) : M world (result unit) :=
  match ids with
  | [] => ret (Ok tt)
  | id :: ids' =>
      let! st := InspectStatus id in
      match st with
      | Ok st =>
          if String.eqb st.(cs_State) "running" || String.eqb st.(cs_State) "restarting"
          then ret (Err (Errorf ("remove refused: " +:+ name +:+ " is running (live state="
                                 +:+ st.(cs_State) +:+ ")")))
          else refuse_running name ids'
      | Err _ => refuse_running name ids'
      end
  end.

Fixpoint remove_all (ids : list string) : M world (result unit) :=
  match ids with
  | [] => ret (Ok tt)
  | id :: ids' =>
      let! r := ContainerRemove id in
      match r with
      | Err e => ret (Err (Wrap ("remove " +:+ id) e))
      | Ok _ => remove_all ids'
      end
  end.

Definition runRemove (svc : Service) (proj : Project) : M world (result unit) :=
  if negb (String.eqb proj.(pr_Kind) "standalone")
  then ret (Err (Errorf ("remove refused: " +:+ svc.(sv_Name) +:+ " is not a standalone container")))
  else if negb (Services.IsStoppedState svc.(sv_State))
  then ret (Err (Errorf ("remove refused: " +:+ svc.(sv_Name) +:+ " is not stopped (state="
                         +:+ svc.(sv_State) +:+ ")")))
  else
    try? refuse_running svc.(sv_Name) svc.(sv_ContainerIDs) in
    remove_all svc.(sv_ContainerIDs).

(** ** The handler *)

Definition rediscover (svc : Service) (proj : Project) : M world unit :=
  let! r := LocateService proj.(pr_Name) svc.(sv_Name) in
  match r with
  | Err _ => ret tt
  | Ok ([], _) => ret tt
  | Ok (id :: ids, digest) =>
      let digest := or_default digest svc.(sv_CurrentDigest) in
      do! Services.UpdateRuntime svc.(sv_ID) (id :: ids) digest in
      let! st := InspectStatus id in
      match st with
      | Ok st =>
          if negb (String.eqb st.(cs_State) "") then
            do! Services.UpdateState svc.(sv_ID) st.(cs_State) in ret tt
          else ret tt
      | Err _ => ret tt
      end
  end.

(** The operation of a type, [None] for an unknown one. *)
Definition operation (jobType : string) (svc : Service) (proj : Project) : option (M world (result unit)) :=
  if String.eqb jobType "start" then Some (runOrdered svc proj "start")
  else if String.eqb jobType "stop" then Some (runOrdered svc proj "stop")
  else if String.eqb jobType "restart" then Some (runRestart svc proj)
  else if String.eqb jobType "remove" then Some (runRemove svc proj)
  else None.

Definition Handle (job : Job) : M world unit :=
  match job.(job_ServiceID) with
  | None => fail job "lifecycle job has no service"
  | Some sid =>
  let! svc := Services.Get sid in
  match svc with
  | Err e => fail job ("load service: " +:+ error_text e)
  | Ok svc =>
  let! proj := Projects.Get svc.(sv_ProjectID) in
  match proj with
  | Err e => fail job ("load project: " +:+ error_text e)
  | Ok proj =>
  do! emit_ job "system" (job.(job_Type) +:+ " " +:+ svc.(sv_Name)) in
  match operation job.(job_Type) svc proj with
  | None => fail job ("unknown lifecycle type: " +:+ job.(job_Type))
  | Some op =>
  let! r := op in
  match r with
  | Err e =>
      do! emit_ job "system" (job.(job_Type) +:+ " failed: " +:+ error_text e) in
      fail job (error_text e)
  | Ok _ =>
      do! (if negb (String.eqb job.(job_Type) "remove") then rediscover svc proj else ret tt) in
      do! emit_ job "system" (job.(job_Type) +:+ " complete") in
      do! succeed job in
      event_ svc.(sv_ID) (eventKind job.(job_Type)) (Some job.(job_ID))
  end end end end end.

End Lifecycle.
End Lifecycle.

(** ** Properties *)

Section Spec.
Context {E : Env} {SS : SliceSort} {CG : Compose.ComposeGo} {D : Docker} {RD : Rediscoverer}.

(** The daemon calls of an ordered run: a prefix of the order, all but the last
    one succeeded, and all of it when the run succeeds. *)
Definition ordered_calls (verb : string) (order : list string) (r : result unit) (l : list event) : Prop :=
  match r with
  | Ok _ => l = rev (map (fun id => EvDocker verb id true) order)
  | Err _ => exists pre id post, order = pre ++ id :: post /\
               l = EvDocker verb id false :: rev (map (fun id => EvDocker verb id true) pre)
  end.

Definition known_verb (v : string) : Prop := v = "stop" \/ v = "start".

Lemma verb_call_trace v id w r w' :
  known_verb v -> Lifecycle.verb_call v id w = (r, w') ->
  w'.(w_trace) = EvDocker v id (is_ok r) :: w.(w_trace) /\ w'.(w_db) = w.(w_db).
Proof.
  intros [-> | ->]; unfold Lifecycle.verb_call; simpl; intros [= <- <-]; done.
Qed.

Lemma run_order_trace v order w r w' :
  known_verb v -> Lifecycle.run_order v order w = (r, w') ->
  w'.(w_db) = w.(w_db) /\ exists l, w'.(w_trace) = l ++ w.(w_trace) /\ ordered_calls v order r l.
Proof.
  intros Hv. revert w. induction order as [|id order IH]; intros w; simpl.
  - intros [= <- <-]. split; [done|]. by exists [].
  - intros (x & w1 & Hc & Hk)%bind_inv. apply verb_call_trace in Hc as [Ht Hd]; [|done].
    destruct x as [u|e].
    + destruct (IH _ Hk) as (Hd2 & l & Hl & Ho). split; [congruence|].
      exists (l ++ [EvDocker v id true]). rewrite Hl, Ht. split; [by rewrite <- app_assoc|].
      destruct r as [u2|e2]; simpl in *.
      * by rewrite Ho.
      * destruct Ho as (pre & i & post & -> & ->). exists (id :: pre), i, post. done.
    + injection Hk as <- <-. split; [done|]. exists [EvDocker v id false]. rewrite Ht.
      split; [done|]. by exists [], id, order.
Qed.

(** A stop goes to the services that borrow the target's namespaces first
    and to the target last, a start the other way round, and it stops at the
    first container the daemon refuses: the calls are exactly a prefix of that
    order. *)
Theorem runOrderedWithDeps_spec svc depIDs verb w r w' :
  known_verb verb -> Lifecycle.runOrderedWithDeps svc depIDs verb w = (r, w') ->
  w'.(w_db) = w.(w_db) /\
  exists l, w'.(w_trace) = l ++ w.(w_trace) /\
    ordered_calls verb (if String.eqb verb "stop" then depIDs ++ svc.(sv_ContainerIDs)
                        else svc.(sv_ContainerIDs) ++ depIDs) r l.
Proof.
  intros Hv. unfold Lifecycle.runOrderedWithDeps.
  destruct Hv as [-> | ->]; simpl; apply run_order_trace; [by left|by right].
Qed.

(** No [remove] call in a piece of trace. *)
Definition no_remove (l : list event) : Prop := forall id ok, EvDocker "remove" id ok ∉ l.

(** What the daemon answers about a container does not say it is live. *)
Definition not_live (st : result ContainerStatus) : Prop :=
  match st with
  | Ok st => cs_State st <> "running" /\ cs_State st <> "restarting"
  | Err _ => True
  end.

Lemma not_live_dec st : not_live st \/ exists s, st = Ok s /\
  (String.eqb s.(cs_State) "running" || String.eqb s.(cs_State) "restarting") = true.
Proof.
  destruct st as [s|e]; [|by left]. unfold not_live.
  destruct (String.eqb_spec (cs_State s) "running"); [right; exists s; subst; by rewrite e|].
  destruct (String.eqb_spec (cs_State s) "restarting"); [right; exists s; by rewrite e|]. by left.
Qed.

(** One container of the live check. *)
Lemma refuse_running_cons name id ids w :
  let w1 := record (EvDocker "inspect" id (is_ok (daemon_inspect w.(w_tick) id))) (tick w) in
  (not_live (daemon_inspect w.(w_tick) id) /\
   Lifecycle.refuse_running name (id :: ids) w = Lifecycle.refuse_running name ids w1) \/
  exists e, Lifecycle.refuse_running name (id :: ids) w = (Err e, w1).
Proof.
  intros w1. unfold Lifecycle.refuse_running at 1 3; fold Lifecycle.refuse_running.
  unfold bind, InspectStatus, call. fold w1. cbv beta iota.
  destruct (not_live_dec (daemon_inspect w.(w_tick) id)) as [Hn|(s & Hs & Hb)].
  - left. split; [done|]. destruct (daemon_inspect _ _) as [s|e]; [|done].
    destruct Hn as [Hn1 Hn2].
    by rewrite (proj2 (String.eqb_neq _ _) Hn1), (proj2 (String.eqb_neq _ _) Hn2).
  - right. rewrite Hs, Hb. by eexists.
Qed.

Lemma refuse_running_trace name ids w r w' :
  Lifecycle.refuse_running name ids w = (r, w') ->
  exists l, w'.(w_trace) = l ++ w.(w_trace) /\ no_remove l /\
    (is_ok r = true -> forall i id, ids !! i = Some id -> not_live (daemon_inspect (w.(w_tick) + i) id)).
Proof.
  revert w w'. induction ids as [|id ids IH]; intros w w'.
  - simpl. intros [= <- <-]. exists []. split; [done|].
    split; [intros ? ?; apply not_elem_of_nil|]. by intros _ ? ?.
  - assert (Hnr : forall b, no_remove [EvDocker "inspect" id b]).
    { intros b i ok. rewrite list_elem_of_singleton. congruence. }
    destruct (refuse_running_cons name id ids w) as [[Hn ->]|[e ->]].
    + intros (l & Hl & Hnl & Hok)%IH. eexists (l ++ [_]). rewrite Hl. simpl.
      split; [by rewrite <- app_assoc|].
      split; [intros i ok [?|?]%elem_of_app; [by eapply Hnl|by eapply Hnr]|].
      intros Hr [|i] id0; simpl; [intros [= <-]; by rewrite Nat.add_0_r|].
      intros Hi. rewrite <- Nat.add_succ_comm. by apply Hok.
    + intros [= <- <-]. by eexists [_].
Qed.

(** C30. A removal is guarded: no [remove] is sent unless the project is
    standalone, the stored state is a stopped one, and the daemon, asked about
    every container right before, reported none of them running or restarting. *)
Theorem runRemove_guard svc proj w :
  let '(r, w') := Lifecycle.runRemove svc proj w in
  (exists l, w'.(w_trace) = l ++ w.(w_trace) /\ no_remove l) \/
  (proj.(pr_Kind) = "standalone" /\ Services.IsStoppedState svc.(sv_State) = true /\
   forall i id, svc.(sv_ContainerIDs) !! i = Some id ->
     not_live (daemon_inspect (w.(w_tick) + i) id)).
Proof.
  destruct (Lifecycle.runRemove svc proj w) as [r w'] eqn:Hrun. unfold Lifecycle.runRemove in Hrun.
  assert (Hnone : forall w2, w2 = w -> exists l, w2.(w_trace) = l ++ w.(w_trace) /\ no_remove l).
  { intros w2 ->. exists []. split; [done|]. intros ? ?. apply not_elem_of_nil. }
  destruct (String.eqb_spec proj.(pr_Kind) "standalone") as [Hk|Hk]; simpl in Hrun;
    [|injection Hrun as <- <-; left; by apply Hnone].
  destruct (Services.IsStoppedState svc.(sv_State)) eqn:Hs; simpl in Hrun;
    [|injection Hrun as <- <-; left; by apply Hnone].
  unfold bind_ok, bind in Hrun.
  destruct (Lifecycle.refuse_running _ _ w) as [r1 w1] eqn:Hr.
  apply refuse_running_trace in Hr as (l & Hl & Hn & Hok). destruct r1 as [u|e].
  - right. auto.
  - injection Hrun as <- <-. left. by exists l.
Qed.
End Spec.

Lemma runOrderedWithDeps_spec_witness :
  let svc := Services.set_row ["c0"; "c1"] "" "" "" None None 0 demo_service in
  let r := @Lifecycle.runOrderedWithDeps demo_docker svc ["d0"] "stop" demo_start in
  exists l, r.2.(w_trace) = l ++ [] /\ ordered_calls "stop" (["d0"] ++ ["c0"; "c1"]) r.1 l.
Proof.
  destruct (@runOrderedWithDeps_spec demo_docker
    (Services.set_row ["c0"; "c1"] "" "" "" None None 0 demo_service) ["d0"] "stop" demo_start _ _
    (or_introl eq_refl) (surjective_pairing _)) as (_ & l & Hl & Ho).
  exists l. split; [exact Hl|exact Ho].
Defined.
