(* ===== verification/SelfUpdate.v ===== *)
(** * Updating dockbrr itself

    The release checker with its cache (internal/selfupdate/checker.go), the
    swap of dockbrr's own container by the detached helper
    (internal/docker/selfupdate.go) and the runner of a self_update job
    (internal/job/selfupdate.go).  The GitHub API, the daemon and the JSON codec
    of the cache row are classes; logging is left out. *)

From stdpp Require Import base list strings gmap sets.
From S2P Require Import Prelude GoStd Semver Db World StoreJobs StoreMisc Files Daemon ApplierSpec.

Local Open Scope Z_scope.

(** ** The release checker *)
Module Checker.

Definition ErrRateLimited : error := Sentinel "selfupdate: github rate limited".

Definition keyCache : string := "selfupdate_cache".
Definition repoPath : string := "yorah/dockbrr".

Record cacheEntry := mkEntry { ce_Tag : string; ce_URL : string; ce_CheckedAt : option Z }.

Record Result := mkResult {
  Current : string;
  Latest : string;
  HTMLURL : string;
  UpdateAvailable : bool;
  CheckedAt : option Z;
  FetchErr : option error;
}.

(** The answer of the releases/latest endpoint: the fields of the response the
    code reads, the body as the JSON decoder gives it (tag_name, html_url). *)
Record Response := mkResponse {
  StatusCode : Z;
  RateRemaining : string;
  Body : result (string * string);
}.

(** The GitHub API under a token, and the text of a cache row ([None] for a text
    that does not parse; a zero time is [None]). *)
Class Releases := {
  releases_latest : nat -> string -> result Response;
  cache_marshal : cacheEntry -> string;
  cache_unmarshal : string -> option cacheEntry;
}.

Record Checker := mkChecker { current : string; ttl : Z; apiBase : string }.

Definition NewChecker (current apiBase : string) (ttl : Z) : Checker :=
  mkChecker current ttl (if String.eqb apiBase "" then "https://api.github.com" else apiBase).

Definition isNewer (current latest : string) : bool :=
  match parseCore current, parseCore latest with
  | Some cur, Some lat => coreLess cur lat
  | _, _ => false
  end.

Section Checker.
Context {E : Env} {G : Releases} (tokenFn : M world string) (c : Checker).

(** [CheckedAt] is [None] for the zero time. *)
Definition result_ (tag url : string) (checkedAt : Z) : Result :=
  mkResult c.(current) tag url (isNewer c.(current) tag) (Some checkedAt) None.

Definition http_get (url token : string) : M world (result Response) :=
  call (fun _ => EvHttp "GET" url) (fun n => releases_latest n token).

Definition fetchLatest : M world (result (string * string)) :=
  let! tok := tokenFn in
  let? resp := http_get (c.(apiBase) +:+ "/repos/" +:+ repoPath +:+ "/releases/latest") tok in
  if negb (resp.(StatusCode) =? 200) then
    if ((resp.(StatusCode) =? 403) || (resp.(StatusCode) =? 429)) && String.eqb resp.(RateRemaining) "0"
    then ret (Err ErrRateLimited)
    else ret (Err (Errorf ("github releases/latest: status " +:+ Itoa resp.(StatusCode))))
  else
    match resp.(Body) with
    | Err e => ret (Err e)
    | Ok (tag, url) =>
        if String.eqb tag "" then ret (Err (Errorf "github releases/latest: empty tag_name"))
        else ret (Ok (tag, url))
    end.

Definition readCache : M world (option (string * string * Z)) :=
  let! raw := Settings.Get keyCache in
  match raw with
  | Err _ => ret None
  | Ok raw =>
      if String.eqb raw "" then ret None
      else
        match cache_unmarshal raw with
        | None => ret None
        | Some e =>
            if String.eqb e.(ce_Tag) "" then ret None
            else match e.(ce_CheckedAt) with
                 | None => ret None
                 | Some t => ret (Some (e.(ce_Tag), e.(ce_URL), t))
                 end
        end
  end.

Definition writeCache (tag url : string) (at_ : Z) : M world unit :=
  do! Settings.Set_ keyCache (cache_marshal (mkEntry tag url (Some at_))) in ret tt.

Definition refresh (cache : option (string * string * Z)) : M world (Result * option error) :=
  let! f := fetchLatest in
  match f with
  | Err err =>
      match cache with
      | Some (tag, url, checkedAt) =>
          let res := result_ tag url checkedAt in
          ret (mkResult res.(Current) res.(Latest) res.(HTMLURL) res.(UpdateAvailable) res.(CheckedAt)
                 (Some err), None)
      | None => ret (mkResult c.(current) "" "" false None (Some err), Some err)
      end
  | Ok (fTag, fURL) =>
      let! t := now in
      do! writeCache fTag fURL t in
      ret (result_ fTag fURL t, None)
  end.

Definition Check : M world (Result * option error) :=
  let! cache := readCache in
  match cache with
  | Some (tag, url, checkedAt) =>
      let! t := now in
      if t - checkedAt <? c.(ttl) then ret (result_ tag url checkedAt, None)
      else refresh cache
  | None => refresh cache
  end.

Definition CheckFresh : M world (Result * option error) :=
  let! cache := readCache in refresh cache.
End Checker.
End Checker.

(** ** The swap *)

(** What [docker inspect] gives that the swap reads (Name and Config.Image). *)
Class InspectJSON := { inspect_meta : string -> result (string * string) }.

Definition UpdaterContainerName : string := "dockbrr-self-update".
Definition SelfUpdateLabel : string := "dockbrr.self-update".

(** The parts of the helper's Config and HostConfig the code sets. *)
Record UpdaterConfig := mkUpdaterConfig {
  uc_Image : string;
  uc_Cmd : list string;
  uc_Labels : gmap string string;
  uc_Healthcheck : list string;
  uc_Mounts : list (string * string);   (* bind mounts, source and target *)
  uc_RestartPolicy : string;
  uc_AutoRemove : bool;
}.

Class SelfDocker := {
  daemon_force_remove : nat -> string -> result unit;
  daemon_config_image : nat -> string -> result (option string);
  daemon_image_labels : nat -> string -> result (option (gmap string string));
  daemon_create_updater : nat -> UpdaterConfig -> string -> result string;
}.

Section Swap.
Context {E : Env} {D : Docker} {SD : SelfDocker} {IJ : InspectJSON}.

Definition ContainerForceRemove (id : string) : M world (result unit) :=
  call (fun r => EvDocker "force-remove" id (is_ok r)) (fun n => daemon_force_remove n id).

Definition parseInspectNameImage (rawJSON : string) : result (string * string) :=
  if String.eqb (TrimSpace rawJSON) "" then Err (Errorf "docker: empty inspect JSON")
  else match inspect_meta rawJSON with
       | Err e => Err (Wrap "docker: parse inspect" e)
       | Ok (name, image) => Ok (TrimPrefix name "/", image)
       end.

Definition swap_failed (cause : error) (how : string) (e : error) : error :=
  WrapAs ("swap failed (" +:+ error_text cause +:+ ") and " +:+ how +:+ ": " +:+ error_text e) cause.

(** The second half of [rollback]: the old container again. *)
Definition recreate_old (rawJSON oldImage name : string) (cause : error) : M world (result unit) :=
  let! r := ContainerCreateFromInspect rawJSON oldImage name in
  match r with
  | Err e => ret (Err (swap_failed cause "rollback failed" e))
  | Ok id =>
      let! r := ContainerStart id in
      match r with
      | Err e => ret (Err (swap_failed cause "rollback start failed" e))
      | Ok _ => ret (Err (Wrap "swap failed, rolled back to previous image" cause))
      end
  end.

Definition rollback (rawJSON oldImage name : string) (cause : error) : M world (result unit) :=
  let! r := ContainerIDByName name in
  match r with
  | Err e => ret (Err (swap_failed cause "rollback failed: check for name collision" e))
  | Ok (Some id) =>
      let! r := ContainerForceRemove id in
      match r with
      | Err e => ret (Err (swap_failed cause ("rollback failed: free name " +:+ name) e))
      | Ok _ => recreate_old rawJSON oldImage name cause
      end
  | Ok None => recreate_old rawJSON oldImage name cause
  end.

(** From the removal of the old container on. *)
Definition install (rawJSON newImage oldImage name : string) : M world (result unit) :=
  let! r := ContainerCreateFromInspect rawJSON newImage name in
  match r with
  | Err e => rollback rawJSON oldImage name (Wrap "create new container" e)
  | Ok newID =>
      let! r := ContainerStart newID in
      match r with
      | Err e =>
          do! ContainerRemove newID in
          rollback rawJSON oldImage name (Wrap "start new container" e)
      | Ok _ => ret (Ok tt)
      end
  end.

Definition swapContainer (targetID newImage : string) : M world (result unit) :=
  let! st := InspectStatus targetID in
  match st with
  | Err e => ret (Err (Wrap "swap: inspect target" e))
  | Ok st =>
  match parseInspectNameImage st.(cs_RawJSON) with
  | Err e => ret (Err (Wrap "swap" e))
  | Ok (name, oldImage) =>
  let! r := ContainerStop targetID in
  match r with
  | Err e => ret (Err (Wrap "swap: stop target" e))
  | Ok _ =>
  let! r := ContainerRemove targetID in
  match r with
  | Err e => ret (Err (Wrap "swap: remove target" e))
  | Ok _ => install st.(cs_RawJSON) newImage oldImage name
  end end end end.

Definition updaterContainerConfig (image : string) (cmd : list string) (socketPath : string) : UpdaterConfig :=
  mkUpdaterConfig image cmd {[ SelfUpdateLabel := "1" ]} ["NONE"] [(socketPath, socketPath)] "no" false.

Definition create_updater (cfg : UpdaterConfig) : M world (result string) :=
  call (fun r => EvDocker "spawn" UpdaterContainerName (is_ok r))
       (fun n => daemon_create_updater n cfg UpdaterContainerName).

Definition SpawnUpdater (image : string) (cmd : list string) (socketPath : string) : M world (result string) :=
  let! r := ContainerIDByName UpdaterContainerName in
  let! cleared :=
    match r with
    | Err e => ret (Err (Wrap "docker: check for leftover updater" e))
    | Ok (Some id) =>
        let! r := ContainerForceRemove id in
        match r with
        | Err e => ret (Err (Wrap "docker: remove leftover updater" e))
        | Ok _ => ret (Ok tt)
        end
    | Ok None => ret (Ok tt)
    end in
  match cleared with
  | Err e => ret (Err e)
  | Ok _ =>
      let! r := create_updater (updaterContainerConfig image cmd socketPath) in
      match r with
      | Err e => ret (Err (Wrap "docker: create updater" e))
      | Ok id =>
          let! r := ContainerStart id in
          match r with
          | Err e => ret (Err (Wrap "docker: start updater" e))
          | Ok _ => ret (Ok id)
          end
      end
  end.

Definition RemoveLeftoverUpdater : M world unit :=
  let! r := ContainerIDByName UpdaterContainerName in
  match r with
  | Ok (Some id) => do! ContainerRemove id in ret tt
  | _ => ret tt
  end.

Definition ContainerImageRef (id : string) : M world (result string) :=
  let! r := call (fun r => EvDocker "inspect" id (is_ok r)) (fun n => daemon_config_image n id) in
  match r with
  | Err e => ret (Err (Wrap ("docker: inspect " +:+ id) e))
  | Ok None => ret (Err (Errorf ("docker: inspect " +:+ id +:+ ": no config")))
  | Ok (Some image) => ret (Ok image)
  end.

Definition version_label : string := "org.opencontainers.image.version".

Definition ImageVersion (ref : string) : M world (result string) :=
  let! r := call (fun r => EvDocker "inspect image" ref (is_ok r)) (fun n => daemon_image_labels n ref) in
  match r with
  | Err e => ret (Err (Wrap ("docker: inspect image " +:+ ref) e))
  | Ok None => ret (Ok "")
  | Ok (Some labels) => ret (Ok (default "" (labels !! version_label)))
  end.

End Swap.

(** ** The self_update job *)
Module SelfUpdater.

(** [socket] and [selfID] are fixed at boot; [emitter] is whether one is wired. *)
Record SelfUpdater := mkSelfUpdater { emitter : bool; selfID : string; socket : string }.

Definition targetSelfImage (currentRef latestTag : string) : string :=
  let hasDigest := Contains currentRef "@" in
  let '(repo, tag) := SplitRef currentRef in
  let norm := TrimPrefix latestTag "v" in
  if String.eqb norm "" then currentRef
  else if negb hasDigest && String.eqb tag "latest" then currentRef
  else repo +:+ ":" +:+ norm.

Section Handle.
Context {E : Env} {D : Docker} {SD : SelfDocker} {G : Checker.Releases}.
Context (tokenFn : M world string) (checker : Checker.Checker) (u : SelfUpdater).

Definition verifyPulledVersion (newImage latest : string) : M world string :=
  let! got := ImageVersion newImage in
  match got with
  | Err e => ret ("could not read the pulled image's version: " +:+ error_text e)
  | Ok got =>
      let bad :=
        let pulled := if String.eqb got "" then "an image with no version label" else got in
        "the " +:+ latest +:+ " image is not published to the registry yet (pulled " +:+ pulled
        +:+ "); the update stays available, try again in a few minutes" in
      match parseCore got, parseCore latest with
      | Some gotCore, Some wantCore => if negb (coreLess gotCore wantCore) then ret "" else ret bad
      | _, _ => ret bad
      end
  end.

Definition emit_ (job : Job) (msg : string) : M world unit :=
  if u.(emitter) then Emit job.(job_ID) "system" msg else ret tt.

Definition fail (job : Job) (msg : string) : M world unit :=
  do! emit_ job msg in
  do! Jobs.Finish job.(job_ID) "failed" None msg in ret tt.

Definition succeed (job : Job) : M world unit :=
  do! Jobs.Finish job.(job_ID) "success" None "" in ret tt.

Definition swap_cmd (newImage : string) : list string :=
  ["self-update-swap"; "--socket"; u.(socket); "--target"; u.(selfID); "--image"; newImage].

Definition Handle (job : Job) : M world unit :=
  if String.eqb u.(selfID) "" then fail job "self-update is only available when dockbrr runs in a container"
  else
  let! chk := Checker.Check tokenFn checker in
  let '(res, err) := chk in
  match err with
  | Some e => fail job ("could not check for a dockbrr update: " +:+ error_text e)
  | None =>
  if negb res.(Checker.UpdateAvailable) then
    do! emit_ job "dockbrr is already up to date, nothing to do" in
    succeed job
  else
  do! emit_ job ("this is dockbrr updating itself: the new image is pulled, then a short-lived helper swaps "
        +:+ "the container. A normal compose apply is not used here, and dockbrr will restart.") in
  let! currentRef := ContainerImageRef u.(selfID) in
  match currentRef with
  | Err e => fail job ("could not resolve dockbrr's own image: " +:+ error_text e)
  | Ok currentRef =>
  let newImage := targetSelfImage currentRef res.(Checker.Latest) in
  do! emit_ job ("pulling " +:+ newImage) in
  let! r := ImagePull newImage in
  match r with
  | Err e => fail job ("pull " +:+ newImage +:+ " failed: " +:+ error_text e)
  | Ok _ =>
  let! msg := verifyPulledVersion newImage res.(Checker.Latest) in
  if negb (String.eqb msg "") then fail job msg
  else
  let! r := SpawnUpdater currentRef (swap_cmd newImage) u.(socket) in
  match r with
  | Err e => fail job ("could not start the update helper: " +:+ error_text e)
  | Ok _ =>
      do! emit_ job ("pulled " +:+ newImage +:+ "; restarting into the new version (dockbrr will be briefly unavailable)") in
      succeed job
  end end end end.

End Handle.
End SelfUpdater.

(** ** Properties of the swap *)

Section SwapSpec.
Context {D : Docker} {SD : SelfDocker} {IJ : InspectJSON}.

(** The last thing that happened is that a container made from the captured
    configuration and [img], under [name], was started. *)
Definition installed (raw img name : string) (w : world) : Prop :=
  exists n id l, daemon_create n raw img name = Ok id /\ w.(w_trace) = EvDocker "start" id true :: l.

(** The daemon just refused a call. *)
Definition refused (w : world) : Prop := exists op arg l, w.(w_trace) = EvDocker op arg false :: l.

(** The captured configuration: what the target was before the swap. *)
Definition captured (target raw old name : string) : Prop :=
  exists n st, daemon_inspect n target = Ok st /\ raw = st.(cs_RawJSON) /\
    parseInspectNameImage raw = Ok (name, old).

Lemma call_inv {A} (ev : A -> event) (ans : nat -> A) w a w' :
  call ev ans w = (a, w') -> a = ans w.(w_tick) /\ w'.(w_trace) = ev a :: w.(w_trace).
Proof. unfold call. by intros [= <- <-]. Qed.

Lemma create_start {B} raw img name (k1 : error -> M world B) (k2 : string -> result unit -> M world B) w b w' :
  (let! r := ContainerCreateFromInspect raw img name in
   match r with Err e => k1 e | Ok id => let! s := ContainerStart id in k2 id s end) w = (b, w') ->
  exists w1, (exists e, k1 e w1 = (b, w') /\ refused w1) \/
    exists id, (k2 id (Ok tt) w1 = (b, w') /\ installed raw img name w1) \/
      exists e, k2 id (Err e) w1 = (b, w') /\ refused w1.
Proof.
  intros (r & w1 & [Hr Ht]%call_inv & Hk)%bind_inv. destruct r as [id|e].
  - apply bind_inv in Hk as (s & w2 & [Hs Ht2]%call_inv & Hk). exists w2. right. exists id.
    destruct s as [[]|e]; [left|right; exists e]; (split; [done|]).
    + exists w.(w_tick), id, w1.(w_trace). by rewrite <- Hr.
    + by exists "start", id, w1.(w_trace).
  - exists w1. left. exists e. split; [done|]. by exists "create", name, w.(w_trace).
Qed.

Lemma recreate_old_spec raw old name cause w r w' :
  recreate_old raw old name cause w = (r, w') ->
  (exists e, r = Err e) /\ (installed raw old name w' \/ refused w').
Proof.
  intros [w1 [(e & [= <- <-] & Hr)|(id & [[[= <- <-] Hr]|(e & [= <- <-] & Hr)])]]%create_start;
    (split; [by eexists|]); auto.
Qed.

Lemma rollback_spec raw old name cause w r w' :
  rollback raw old name cause w = (r, w') ->
  (exists e, r = Err e) /\ (installed raw old name w' \/ refused w').
Proof.
  intros (q & w1 & [_ Ht]%call_inv & Hk)%bind_inv. destruct q as [[id|]|e].
  - apply bind_inv in Hk as (q & w2 & [_ Ht2]%call_inv & Hk). destruct q as [u|e].
    + by apply recreate_old_spec in Hk.
    + injection Hk as <- <-. split; [by eexists|]. right. by exists "force-remove", id, w1.(w_trace).
  - by apply recreate_old_spec in Hk.
  - injection Hk as <- <-. split; [by eexists|]. right. by exists "lookup", name, w.(w_trace).
Qed.

Lemma install_spec raw new old name w r w' :
  install raw new old name w = (r, w') ->
  match r with
  | Ok _ => installed raw new name w'
  | Err _ => installed raw old name w' \/ refused w'
  end.
Proof.
  intros [w1 [(e & Hk & _)|(id & [[[= <- <-] Hr]|(e & Hk & _)])]]%create_start; [|done|].
  - by apply rollback_spec in Hk as [[e' ->] H].
  - apply bind_inv in Hk as (q & w2 & _ & Hk). by apply rollback_spec in Hk as [[e' ->] H].
Qed.

End SwapSpec.

(** ** Properties of the checker *)

Section CheckerSpec.
Context {E : Env} {G : Checker.Releases} (tokenFn : M world string) (c : Checker.Checker).

Notation cached w := (Checker.readCache w).1.

(** A release the API answered with status 200 and a tag. *)
Definition released (tag url : string) : Prop :=
  tag <> "" /\ exists n tok limit, Checker.releases_latest n tok = Ok (Checker.mkResponse 200 limit (Ok (tag, url))).

Lemma fetchLatest_ok w tag url w' :
  Checker.fetchLatest tokenFn c w = (Ok (tag, url), w') -> released tag url.
Proof.
  intros (tok & w1 & _ & Hk)%bind_inv. apply bind_ok_inv in Hk as (resp & w2 & [Hr _]%call_inv & Hk).
  destruct (Z.eqb_spec resp.(Checker.StatusCode) 200) as [Hs|]; simpl in Hk.
  2:{ by destruct (_ && _). }
  destruct resp as [st lim [[tag' url']|e]]; simpl in *; [|done].
  destruct (String.eqb_spec tag' "") as [|Hne]; [done|]. injection Hk as -> -> <-.
  split; [done|]. exists w1.(w_tick), tok, lim. by rewrite <- Hr, Hs.
Qed.

(** The row a fetch leaves. *)
Definition stored (tag url : string) (t : Z) (w : world) : Prop :=
  Settings.lookup Checker.keyCache w.(w_db) =
    Some (Checker.cache_marshal (Checker.mkEntry tag url (Some t))).

Lemma lookup_set key v t u d d' :
  Settings.set_stmt key v t d = Ok (u, d') -> Settings.lookup key d' = Some v.
Proof.
  unfold Settings.set_stmt, Settings.lookup. intros [= _ <-]. simpl.
  induction (settings d) as [|[k x] l IH]; simpl; [by rewrite String.eqb_refl|].
  destruct (String.eqb_spec k key) as [->|Hne]; simpl; [by rewrite String.eqb_refl|].
  by rewrite (proj2 (String.eqb_neq _ _) Hne).
Qed.

Lemma writeCache_stored tag url t w :
  let w' := (Checker.writeCache tag url t w).2 in stored tag url t w' \/ exists n e, sql_fault n = Some e.
Proof.
  unfold Checker.writeCache, Settings.Set_, bind. simpl.
  destruct (sql _ _ _ w) as [[u|e] w'] eqn:Es; simpl.
  - left. apply sql_ok_inv in Es as (Hs & _). eapply lookup_set. exact Hs.
  - right. unfold sql in Es. destruct (sql_fault w.(w_tick)) eqn:Ef; [by eauto|done].
Qed.

(** What an answer of [Check] or [CheckFresh] may be. *)
Definition verdict (cache : option (string * string * Z)) (res : Checker.Result) (err : option error)
    (w' : world) : Prop :=
  res.(Checker.Current) = c.(Checker.current) /\
  match err, res.(Checker.FetchErr) with
  | Some e, fe => fe = Some e /\ cache = None /\ res.(Checker.UpdateAvailable) = false
  | None, Some _ =>
      exists tag url t, cache = Some (tag, url, t) /\ res.(Checker.Latest) = tag /\
        res.(Checker.HTMLURL) = url /\ res.(Checker.CheckedAt) = Some t /\
        res.(Checker.UpdateAvailable) = Checker.isNewer c.(Checker.current) tag
  | None, None =>
      exists t, res.(Checker.CheckedAt) = Some t /\
        res.(Checker.UpdateAvailable) = Checker.isNewer c.(Checker.current) res.(Checker.Latest) /\
        released res.(Checker.Latest) res.(Checker.HTMLURL) /\
        (stored res.(Checker.Latest) res.(Checker.HTMLURL) t w' \/ exists n e, sql_fault n = Some e)
  end.

Lemma refresh_verdict cache w res err w' :
  Checker.refresh tokenFn c cache w = ((res, err), w') -> verdict cache res err w'.
Proof.
  intros (f & w1 & Hf & Hk)%bind_inv. destruct f as [[tag url]|e].
  - apply fetchLatest_ok in Hf. apply bind_inv in Hk as (t & w2 & _ & Hk).
    apply bind_inv in Hk as (u & w3 & Hw & Hk). injection Hk as <- <- <-.
    split; [done|]. exists t. split; [done|]. split; [done|]. split; [exact Hf|].
    pose proof (writeCache_stored tag url t w2) as Hs. by rewrite Hw in Hs.
  - destruct cache as [[[tag url] t]|]; injection Hk as <- <- <-; (split; [done|]).
    + by exists tag, url, t.
    + done.
Qed.

(** The release checker answers from its cache, without a request, exactly
    while the cached verdict is younger than the TTL.  Otherwise it asks GitHub:
    a fetched tag is the answer and is written back; when the fetch fails the
    stale cached verdict is served with the failure noted, and only with no
    cache is there an error, and then no update is announced.  An update is
    announced exactly when the tag is newer than the running version. *)
Theorem Check_spec w :
  let '((res, err), w') := Checker.Check tokenFn c w in
  match cached w with
  | Some (tag, url, t) =>
      let '(n, w1) := (let! x := Checker.readCache in now) w in
      if n - t <? c.(Checker.ttl)
      then res = Checker.result_ c tag url t /\ err = None /\ w' = w1
      else verdict (cached w) res err w'
  | None => verdict None res err w'
  end.
Proof.
  destruct (Checker.Check tokenFn c w) as [[res err] w'] eqn:Hc. revert Hc.
  unfold Checker.Check, bind at 1. destruct (Checker.readCache w) as [cache w1] eqn:Er. simpl.
  unfold bind. rewrite Er. destruct cache as [[[tag url] t]|]; simpl.
  - destruct (_ <? _); [by intros [= <- <- <-]|]. apply refresh_verdict.
  - apply refresh_verdict.
Qed.

Lemma verdict_available cache res err w' :
  verdict cache res err w' -> res.(Checker.UpdateAvailable) = true ->
  Checker.isNewer c.(Checker.current) res.(Checker.Latest) = true.
Proof.
  unfold verdict. intros [_ Hv] Ha. destruct err as [e|]; [by destruct Hv as (_ & _ & ?); congruence|].
  destruct (Checker.FetchErr res) as [fe|].
  - destruct Hv as (tag & url & t & _ & <- & _ & _ & <-). done.
  - destruct Hv as (t & _ & <- & _). done.
Qed.

Lemma Check_available w res err w' :
  Checker.Check tokenFn c w = ((res, err), w') -> res.(Checker.UpdateAvailable) = true ->
  Checker.isNewer c.(Checker.current) res.(Checker.Latest) = true.
Proof.
  intros (cache & w1 & _ & Hk)%bind_inv. destruct cache as [[[tag url] t]|].
  - apply bind_inv in Hk as (n & w2 & _ & Hk). destruct (_ <? _).
    + by injection Hk as <- <- <-.
    + eapply verdict_available. by eapply refresh_verdict.
  - eapply verdict_available. by eapply refresh_verdict.
Qed.
End CheckerSpec.

(** ** Properties of the job *)

Section HandleSpec.
Context {E : Env} {D : Docker} {SD : SelfDocker} {G : Checker.Releases}.
Context (tokenFn : M world string) (c : Checker.Checker) (u : SelfUpdater.SelfUpdater).

(** What a self_update job may do: whether it touched a helper container, and
    whether it has ended.  It never stops, renames or removes a container. *)
Definition self_delta (s : bool * bool) (e : event) : option (bool * bool) :=
  let '(helper, ended) := s in
  if ended then None
  else match e with
  | EvSql op _ => Some (helper, str_in ["jobs.Finish success"; "jobs.Finish failed"] op)
  | EvDocker op _ _ =>
      if str_in ["spawn"; "force-remove"; "start"] op then Some (true, false)
      else if str_in ["inspect"; "inspect image"; "lookup"; "pull"] op then Some s
      else None
  | EvHttp _ _ | EvNotify _ _ => Some s
  | _ => None
  end.

Notation at_ s := (at_phase self_delta (false, false) s).

(** The image handed to the helper: pulled, newer than the running version, and
    by its own label at least the announced release. *)
Definition verified : Prop :=
  exists cur latest img vcur vlatest got vgot n labels m,
    img = SelfUpdater.targetSelfImage cur latest /\ daemon_pull m img = Ok tt /\
    parseCore c.(Checker.current) = Some vcur /\ parseCore latest = Some vlatest /\
    coreLess vcur vlatest = true /\
    daemon_image_labels n img = Ok (Some labels) /\ labels !! version_label = Some got /\
    parseCore got = Some vgot /\ coreLess vgot vlatest = false.

Context (token_quiet : forall s, s.2 = false -> keeps (at_ s) tokenFn).

Definition job_over (w : world) : Prop :=
  exists h d, at_ (h, d) w /\ (h = true -> verified) /\ (d = true \/ exists n e, sql_fault n = Some e).

Lemma verify_quiet img latest : keeps (at_ (false, false)) (SelfUpdater.verifyPulledVersion img latest).
Proof. unfold SelfUpdater.verifyPulledVersion, ImageVersion. quiet. Qed.

Lemma verify_ok img latest w w' :
  SelfUpdater.verifyPulledVersion img latest w = ("", w') ->
  exists n labels got vgot vlatest,
    daemon_image_labels n img = Ok (Some labels) /\ labels !! version_label = Some got /\
    parseCore got = Some vgot /\ parseCore latest = Some vlatest /\ coreLess vgot vlatest = false.
Proof.
  intros (got & w1 & Hg & Hk)%bind_inv. destruct got as [got|e]; [|done].
  apply bind_inv in Hg as (r & w2 & [Hr _]%call_inv & Hg).
  destruct (parseCore got) as [vg|] eqn:Eg; [|by destruct (String.eqb got "")].
  destruct (parseCore latest) as [vl|] eqn:El; [|by destruct (String.eqb got "")].
  destruct (coreLess vg vl) eqn:Ec; [by destruct (String.eqb got "")|].
  destruct r as [[labels|]|e]; [|injection Hg as <- <-; discriminate|discriminate].
  destruct (labels !! version_label) as [g|] eqn:Eg2; injection Hg as <- <-; [|discriminate].
  by exists w.(w_tick), labels, g, vg, vl.
Qed.

Lemma self_emit_quiet s job msg : s.2 = false -> keeps (at_ s) (SelfUpdater.emit_ u job msg).
Proof. destruct s as [h []]; [done|]. intros _. unfold SelfUpdater.emit_. quiet. Qed.

Lemma self_finish h job status code msg :
  str_in ["jobs.Finish success"; "jobs.Finish failed"] ("jobs.Finish " +:+ status) = true ->
  (h = true -> verified) ->
  triple (at_ (h, false)) (do! Jobs.Finish job status code msg in ret tt) (fun _ => job_over).
Proof.
  intros Hs Hv w Hw. unfold bind, Jobs.Finish, bind_ok, bind.
  pose proof (triple_sql self_delta (false, false) (h, false) (h, true) ("jobs.Finish " +:+ status) job
    (fun t => Jobs.update_jobs (fun j => j.(job_ID) =? job)
    (fun j => job_set status j.(job_StartedAt) (Some t) code msg j) t)) as Ht.
  specialize (Ht ltac:(unfold self_delta; by rewrite Hs) w Hw).
  destruct (sql _ _ _ w) as [[a|e] w'] eqn:Es; simpl in *.
  - exists h, true. auto.
  - exists h, false. split; [done|]. split; [done|right]. unfold sql in Es.
    destruct (sql_fault w.(w_tick)) as [f|] eqn:Ef; [by exists w.(w_tick), f|done].
Qed.

Lemma self_fail h job msg :
  (h = true -> verified) -> triple (at_ (h, false)) (SelfUpdater.fail u job msg) (fun _ => job_over).
Proof.
  intros Hv. unfold SelfUpdater.fail. apply triple_quiet; [by apply self_emit_quiet|].
  intros _. by apply self_finish.
Qed.

Lemma refresh_quiet cache : keeps (at_ (false, false)) (Checker.refresh tokenFn c cache).
Proof.
  unfold Checker.refresh, Checker.fetchLatest, Checker.http_get, Checker.writeCache, Settings.Set_.
  pose proof (token_quiet (false, false) eq_refl). quiet.
Qed.

Lemma check_quiet : keeps (at_ (false, false)) (Checker.Check tokenFn c).
Proof.
  unfold Checker.Check, Checker.readCache. pose proof refresh_quiet. quiet.
Qed.

(** Once the image is verified, the rest may touch helper containers. *)
Definition running (w : world) : Prop := exists h, at_ (h, false) w.

Lemma running_call {A} ev (ans : nat -> A) :
  (forall h a, exists h', self_delta (h, false) (ev a) = Some (h', false)) -> keeps running (call ev ans).
Proof.
  intros Hd w [h Hw]. simpl. destruct (Hd h (ans w.(w_tick))) as [h' Hh]. exists h'.
  by eapply at_phase_record.
Qed.

Lemma running_spawn image cmd sock : keeps running (SpawnUpdater image cmd sock).
Proof.
  unfold SpawnUpdater, ContainerIDByName, ContainerForceRemove, create_updater, ContainerStart.
  repeat first [ apply running_call; intros h ?; solve [exists true; reflexivity|exists h; reflexivity]
               | keeps_step ].
Qed.

Lemma running_emit job msg : keeps running (SelfUpdater.emit_ u job msg).
Proof. intros w [h Hw]. exists h. by apply self_emit_quiet. Qed.

Lemma triple_tail job currentRef cmd sock img :
  verified ->
  triple running
    (let! r := SpawnUpdater currentRef cmd sock in
     match r with
     | Err e => SelfUpdater.fail u job ("could not start the update helper: " +:+ error_text e)
     | Ok _ =>
         do! SelfUpdater.emit_ u job ("pulled " +:+ img +:+ "; restarting into the new version (dockbrr will be briefly unavailable)") in
         SelfUpdater.succeed job
     end) (fun _ => job_over).
Proof.
  intros Hv. apply (triple_bind _ _ _ (fun _ => running)); [intros w Hw; by apply running_spawn|].
  intros [id|e].
  - apply (triple_bind _ _ _ (fun _ => running)); [intros w Hw; by apply running_emit|].
    intros a w [h Hw]. exact (self_finish h job.(job_ID) "success" None "" eq_refl (fun _ => Hv) w Hw).
  - intros w [h Hw]. exact (self_fail h job _ (fun _ => Hv) w Hw).
Qed.

(** What is known of a value a quiet step returned. *)
Lemma triple_known {A B} s (m : M world A) (k : A -> M world B) Q :
  keeps (at_ s) m ->
  (forall a, (exists w w', m w = (a, w')) -> triple (at_ s) (k a) Q) -> triple (at_ s) (bind m k) Q.
Proof.
  intros Hm Hk w Hw. unfold bind. specialize (Hm w Hw). destruct (m w) as [a w'] eqn:Ea.
  exact (Hk a (ex_intro _ w (ex_intro _ w' Ea)) w' Hm).
Qed.

Lemma triple_self_handle job : triple (at_ (false, false)) (SelfUpdater.Handle tokenFn c u job) (fun _ => job_over).
Proof.
  assert (Hf : forall msg, triple (at_ (false, false)) (SelfUpdater.fail u job msg) (fun _ => job_over))
    by (intros msg; by apply self_fail).
  unfold SelfUpdater.Handle. destruct (String.eqb _ ""); [apply Hf|].
  apply triple_known; [apply check_quiet|]. intros [res [e|]] (w0 & w0' & Hchk); [apply Hf|].
  destruct (Checker.UpdateAvailable res) eqn:Eav; cbn [negb].
  2:{ apply triple_quiet; [by apply self_emit_quiet|]. intros _. by apply self_finish. }
  apply Check_available in Hchk; [|done]. unfold Checker.isNewer in Hchk.
  destruct (parseCore (Checker.current c)) as [vcur|] eqn:Ecur; [|done].
  destruct (parseCore (Checker.Latest res)) as [vl|] eqn:El; [|done].
  apply triple_quiet; [by apply self_emit_quiet|]. intros _.
  apply triple_quiet; [unfold ContainerImageRef; quiet|]. intros [cur|e]; [|apply Hf].
  apply triple_quiet; [by apply self_emit_quiet|]. intros _.
  apply triple_known; [quiet|]. intros [[]|e] (w1 & w1' & Hpull); [|apply Hf].
  apply triple_known; [apply verify_quiet|]. intros msg (w2 & w2' & Hv).
  destruct (String.eqb_spec msg "") as [->|]; cbn [negb]; [|apply Hf].
  apply verify_ok in Hv as (n & labels & got & vg & vl' & H1 & H2 & H3 & H4 & H5).
  apply call_inv in Hpull as [Hpull _].
  intros w Hw. apply triple_tail; [|by exists false].
  exists cur, (Checker.Latest res), (SelfUpdater.targetSelfImage cur (Checker.Latest res)), vcur, vl, got, vg, n, labels, w1.(w_tick).
  repeat split; try done. congruence.
Qed.
End HandleSpec.


(** ** A run *)

(** Release v1.2.0 is out, its image is published, dockbrr runs 1.1.0. *)
Definition demo_releases : Checker.Releases := {|
  Checker.releases_latest _ _ := Ok (Checker.mkResponse 200 "59" (Ok ("v1.2.0", "https://example/v1.2.0")));
  Checker.cache_marshal e := e.(Checker.ce_Tag);
  Checker.cache_unmarshal s := Some (Checker.mkEntry s "" (Some 0));
|}.

Definition demo_self_docker : SelfDocker := {|
  daemon_force_remove _ _ := Ok tt;
  daemon_config_image _ _ := Ok (Some "ghcr.io/yorah/dockbrr:1.1.0");
  daemon_image_labels _ _ := Ok (Some {[ version_label := "1.2.0" ]});
  daemon_create_updater _ _ _ := Ok "helper";
|}.

Definition demo_checker : Checker.Checker := Checker.NewChecker "1.1.0" "" 1000.
Definition demo_self : SelfUpdater.SelfUpdater := SelfUpdater.mkSelfUpdater true "self" "/var/run/docker.sock".

