(* ===== verification/Dispatch.v ===== *)
(** * Routing a claimed job (internal/job/dispatch.go)

    The dispatcher, the guard that keeps dockbrr from operating on its own
    container, and the detection of that container's id. *)

From Stdlib Require Import Ascii.
From stdpp Require Import base list strings gmap sets.
From S2P Require Import Prelude GoStd Semver Db Integrity World StoreUpdates StoreJobs.
From S2P Require Import StoreServices StoreMisc Store Files Compose Daemon Applier ApplierSpec.
From S2P Require Import Standalone Lifecycle SelfUpdate.

Local Open Scope Z_scope.

(** ** Which container is this? *)

Definition is_hex (a : ascii) : bool := is_digit a || ((97 <=? byte a)%nat && (byte a <=? 102)%nat).

(** The next [n] bytes are lower-case hexadecimal digits. *)
Fixpoint hex_run (n : nat) (s : string) : bool :=
  match n, s with
  | O, _ => true
  | S n', String a s' => is_hex a && hex_run n' s'
  | S _, "" => false
  end.

(** [containerIDRe.FindString]: the leftmost 64 hexadecimal digits, or empty. *)
Fixpoint containerIDRe (s : string) : string :=
  if hex_run 64 s then s.[:64]
  else match s with "" => "" | String _ s' => containerIDRe s' end.

Fixpoint mountinfo_scan (lines : list string) : string :=
  match lines with
  | [] => ""
  | line :: lines' =>
      match Index line "/containers/" with
      | None => mountinfo_scan lines'
      | Some i =>
          let rest := line.[i + len "/containers/" :] in
          let id := containerIDRe rest in
          if negb (String.eqb id "") && HasPrefix rest id then id else mountinfo_scan lines'
      end
  end.

Definition parseContainerIDFromMountinfo (content : string) : string := mountinfo_scan (Split content newline).

Fixpoint cgroup_scan (lines : list string) : string :=
  match lines with
  | [] => ""
  | line :: lines' =>
      let id := containerIDRe line in
      if negb (String.eqb id "") then id else cgroup_scan lines'
  end.

Definition parseContainerIDFromCgroup (content : string) : string := cgroup_scan (Split content newline).

Definition parseContainerIDFromHostname (hostname : string) : string :=
  if negb (Nat.eqb (len hostname) 12) then ""
  else if hex_run 12 hostname then hostname else "".

(** [os.Hostname] *)
Class Host := { os_Hostname : nat -> result string }.

Section SelfID.
Context {E : Env} {H : Host}.

Definition read_id (path : string) (parse : string -> string) : M world string :=
  let! b := sys_ReadFile path in
  match b with Ok b => ret (parse b) | Err _ => ret "" end.

Definition hostname_id : M world string := fun w =>
  (match os_Hostname w.(w_tick) with Ok h => parseContainerIDFromHostname h | Err _ => "" end, tick w).

Definition SelfContainerID : M world string :=
  let! id := read_id "/proc/self/mountinfo" parseContainerIDFromMountinfo in
  if negb (String.eqb id "") then ret id
  else
    let! id := read_id "/proc/self/cgroup" parseContainerIDFromCgroup in
    if negb (String.eqb id "") then ret id
    else
      let! id := hostname_id in
      if negb (String.eqb id "") then ret id else ret "".
End SelfID.

(** ** The dispatcher *)
Module Dispatcher.

(** The pointers the dispatcher tests against nil are whether they are wired;
    [SetSelfGuard] sets [selfID], [services] and [emitter]. *)
Record Dispatcher := mkDispatcher {
  projects : bool;
  jobs : bool;
  selfID : string;
  services : bool;
  emitter : bool;
  selfUpdater : option SelfUpdater.SelfUpdater;
}.

Definition NewDispatcher : Dispatcher := mkDispatcher true true "" false false None.
Definition SetSelfGuard (selfID : string) (d : Dispatcher) : Dispatcher :=
  mkDispatcher d.(projects) d.(jobs) selfID true true d.(selfUpdater).
Definition SetSelfUpdater (u : SelfUpdater.SelfUpdater) (d : Dispatcher) : Dispatcher :=
  mkDispatcher d.(projects) d.(jobs) d.(selfID) d.(services) d.(emitter) (Some u).

Definition mutatingTypes (t : string) : bool :=
  str_in ["apply"; "rollback"; "start"; "stop"; "restart"; "remove"] t.

(** Ids are compared by prefix either way: both may be short. *)
Definition same_container (selfID cid : string) : bool := HasPrefix cid selfID || HasPrefix selfID cid.

Definition service_is_self (selfID : string) (s : Service) : bool :=
  existsb (same_container selfID) s.(sv_ContainerIDs).

Definition refusal : string :=
  "refused: this job targets dockbrr's own container. dockbrr cannot update or restart itself "
  +:+ "(the operation would kill dockbrr mid-job); manage this container from the host instead".

Section Dispatch.
Context {E : Env} {SS : SliceSort} {CG : Compose.ComposeGo} {SH : Sha256} {Y : Yaml}
        {CLI : ComposeCLI} {D : Docker} {R : Resolver} {RD : Rediscoverer} {HC : HealthConfig}
        {SD : SelfDocker} {G : Checker.Releases}.
Context (tokenFn : M world string) (checker : Checker.Checker) (d : Dispatcher).

Definition targetsSelf (job : Job) : M world bool :=
  match job.(job_ServiceID) with
  | Some sid =>
      let! svc := Services.Get sid in
      match svc with
      | Err _ => ret false
      | Ok svc => ret (existsb (service_is_self d.(selfID)) [svc])
      end
  | None =>
      match job.(job_ProjectID) with
      | Some pid =>
          let! svcs := Services.ListByProject pid in
          match svcs with
          | Err _ => ret false
          | Ok svcs => ret (existsb (service_is_self d.(selfID)) svcs)
          end
      | None => ret false
      end
  end.

Definition refuse (job : Job) : M world bool :=
  do! (if d.(emitter) then Emit job.(job_ID) "system" refusal else ret tt) in
  do! Jobs.Finish job.(job_ID) "failed" None refusal in
  ret true.

Definition refuseSelfTarget (job : Job) : M world bool :=
  if String.eqb d.(selfID) "" || negb d.(services) || negb d.(jobs) || negb (mutatingTypes job.(job_Type))
  then ret false
  else
    let! self := targetsSelf job in
    if negb self then ret false else refuse job.

Definition isStandalone (job : Job) : M world bool :=
  match job.(job_ProjectID) with
  | None => ret false
  | Some pid =>
      if negb d.(projects) then ret false
      else
        let! proj := Projects.Get pid in
        match proj with
        | Err _ => ret false
        | Ok proj => ret (String.eqb proj.(pr_Kind) "standalone")
        end
  end.

Definition no_updater : string := "self-update is not available: not running in a container".

(** The runner of a job the guard let through. *)
Definition route (job : Job) : M world unit :=
  if str_in ["start"; "stop"; "restart"; "remove"] job.(job_Type) then Lifecycle.Handle job
  else if str_in ["apply"; "rollback"] job.(job_Type) then
    let! alone := isStandalone job in
    if alone then Standalone.Handle job else Applier.Handle job
  else Applier.Handle job.

Definition Handle (job : Job) : M world unit :=
  if String.eqb job.(job_Type) "self_update" then
    match d.(selfUpdater) with
    | None =>
        do! (if d.(emitter) then Emit job.(job_ID) "system" no_updater else ret tt) in
        if d.(jobs) then do! Jobs.Finish job.(job_ID) "failed" None no_updater in ret tt else ret tt
    | Some u => SelfUpdater.Handle tokenFn checker u job
    end
  else
    let! refused := refuseSelfTarget job in
    if refused then ret tt else route job.

End Dispatch.
End Dispatcher.

(** ** The container id *)

(** A line of mountinfo that names a container's own mount, and the id in it. *)
Definition names_container (line id : string) : Prop :=
  exists i, Index line "/containers/" = Some i /\ hex_run 64 line.[i + len "/containers/" :] = true /\
    id = line.[i + len "/containers/" :].[:64].

Lemma hex_run_take n s : hex_run n s = true -> hex_run n s.[:n] = true /\ len s.[:n] = n.
Proof.
  revert s. induction n as [|n IH]; intros [|a s]; cbn; try done.
  intros [-> Hs]%andb_true_iff. apply IH in Hs as [H1 H2]. split; [done|]. by f_equal.
Qed.

Lemma hex_run_prefix n p s : hex_run n p = true -> len p = n -> prefix p s = true -> hex_run n s = true.
Proof.
  revert p s. induction n as [|n IH]; intros [|a p] [|b s]; cbn; try done.
  intros [Ha Hp]%andb_true_iff [= Hl] [<-%Ascii.eqb_eq Hs]%andb_true_iff. rewrite Ha. by eapply IH.
Qed.

Lemma containerIDRe_hex s : containerIDRe s = "" \/ hex_run 64 (containerIDRe s) = true /\ len (containerIDRe s) = 64%nat.
Proof.
  induction s as [|a s IH]; [by left|]. unfold containerIDRe; fold containerIDRe.
  destruct (hex_run 64 (String a s)) eqn:Eh; [right; by apply hex_run_take|exact IH].
Qed.

(** The anchored search: an id right after the marker, or nothing. *)
Lemma containerIDRe_anchored rest :
  let id := containerIDRe rest in
  negb (String.eqb id "") && HasPrefix rest id = hex_run 64 rest /\ (hex_run 64 rest = true -> id = rest.[:64]).
Proof.
  cbv zeta. destruct (hex_run 64 rest) eqn:Eh.
  - assert (containerIDRe rest = rest.[:64]) as ->.
    { destruct rest; [done|]. unfold containerIDRe. by rewrite Eh. }
    split; [|done]. apply hex_run_take in Eh as [_ Hl]. unfold HasPrefix.
    assert (prefix rest.[:64] rest = true) as ->
      by (apply prefix_app; exists rest.[64:]; by rewrite take_drop_str).
    rewrite andb_true_r.
    apply negb_true_iff, String.eqb_neq. intros Hn. by rewrite Hn in Hl.
  - split; [|done]. destruct (containerIDRe_hex rest) as [->|[Hx Hl]]; [done|].
    apply not_true_iff_false. intros [_ Hp]%andb_true_iff. apply not_true_iff_false in Eh. apply Eh.
    by apply (hex_run_prefix _ _ _ Hx Hl).
Qed.

(** The id read from mountinfo is the one of the first line that names a
    container's own mount, that is, 64 hexadecimal digits right after the first
    "/containers/" of the line; with no such line there is none. *)
Theorem parseContainerIDFromMountinfo_spec content :
  let lines := Split content newline in
  let id := parseContainerIDFromMountinfo content in
  (exists k line, lines !! k = Some line /\ names_container line id /\
     forall j l x, (j < k)%nat -> lines !! j = Some l -> ~ names_container l x) \/
  id = "" /\ forall line x, line ∈ lines -> ~ names_container line x.
Proof.
  cbv zeta. unfold parseContainerIDFromMountinfo. generalize (Split content newline). intros lines.
  induction lines as [|line lines IH]; [right; split; [done|set_solver]|]. cbn [mountinfo_scan].
  assert (Hno : (forall x, ~ names_container line x) ->
    (exists k l, (line :: lines) !! k = Some l /\ names_container l (mountinfo_scan lines) /\
       forall j l x, (j < k)%nat -> (line :: lines) !! j = Some l -> ~ names_container l x) \/
    mountinfo_scan lines = "" /\ forall l x, l ∈ line :: lines -> ~ names_container l x).
  { intros Hn. destruct IH as [(k & l & Hk & Hl & Hb)|[Hid Hb]].
    - left. exists (S k), l. split; [done|]. split; [done|]. intros [|j] l' x Hj; simpl.
      + intros [= <-]. apply Hn.
      + apply Hb. lia.
    - right. split; [done|]. intros l x [->|Hin]%elem_of_cons; [apply Hn|by apply Hb]. }
  destruct (Index line "/containers/") as [i|] eqn:Ei.
  2:{ apply Hno. intros x (i & Hi & _). congruence. }
  destruct (containerIDRe_anchored line.[i + len "/containers/" :]) as [Ha Hid]. rewrite Ha.
  destruct (hex_run 64 line.[i + len "/containers/" :]) eqn:Eh.
  - left. exists 0%nat, line. split; [done|]. split; [|lia]. exists i. auto.
  - apply Hno. intros x (i' & Hi & Hx & _). rewrite Ei in Hi. injection Hi as <-. congruence.
Qed.

(** ** The guard *)

Section Guard.
Context {E : Env} {SS : SliceSort} {CG : Compose.ComposeGo} {SH : Sha256} {Y : Yaml}
        {CLI : ComposeCLI} {D : Docker} {R : Resolver} {RD : Rediscoverer} {HC : HealthConfig}
        {SD : SelfDocker} {G : Checker.Releases}.
Context (tokenFn : M world string) (checker : Checker.Checker).

(** The services a job is about, as the guard reads them. *)
Definition guarded_services (job : Job) (d : db) : list Service :=
  match job.(job_ServiceID), job.(job_ProjectID) with
  | Some sid, _ => match Services.find_service d sid with Some s => [s] | None => [] end
  | None, Some pid => List.filter (Services.of_project pid) d.(services).(rows)
  | None, None => []
  end.

(** The job touches nothing but the database and the log. *)
Definition bookkeeping (e : event) : Prop :=
  match e with EvSql _ _ | EvNotify _ _ => True | _ => False end.

Definition only_bookkeeping (w w' : world) : Prop :=
  exists l, w'.(w_trace) = l ++ w.(w_trace) /\ Forall bookkeeping l.

Lemma bookkeeping_refl w : only_bookkeeping w w.
Proof. exists []. split; [done|constructor]. Qed.

Lemma bookkeeping_trans w1 w2 w3 : only_bookkeeping w1 w2 -> only_bookkeeping w2 w3 -> only_bookkeeping w1 w3.
Proof.
  intros (l1 & H1 & F1) (l2 & H2 & F2). exists (l2 ++ l1). rewrite H2, H1, app_assoc. split; [done|].
  by apply Forall_app.
Qed.

Lemma bookkeeping_sql {A} op id (st : stmt A) w : only_bookkeeping w (sql op id st w).2.
Proof.
  destruct (sql op id st w) as [[a|e] w'] eqn:Es; simpl.
  - apply sql_ok_inv in Es as (_ & _ & Ht & _). exists [EvSql op id]. rewrite Ht. split; [done|].
    by repeat constructor.
  - apply sql_err_inv in Es as ->. exists []. split; [done|constructor].
Qed.

Lemma bookkeeping_bind {A B} (m : M world A) (k : A -> M world B) w :
  only_bookkeeping w (m w).2 -> (forall a w1, only_bookkeeping w1 (k a w1).2) ->
  only_bookkeeping w (bind m k w).2.
Proof.
  intros Hm Hk. unfold bind. destruct (m w) as [a w1]. by eapply bookkeeping_trans.
Qed.

Lemma bookkeeping_emit id s l w : only_bookkeeping w (Emit id s l w).2.
Proof.
  apply bookkeeping_bind.
  - apply bookkeeping_bind; [apply bookkeeping_sql|]. intros [a|e] w1; apply bookkeeping_refl.
  - intros a w1. exists [EvNotify "log" id]. split; [done|]. by repeat constructor.
Qed.

(** What the guard answers, and that looking changes nothing. *)
Lemma targetsSelf_spec d job w :
  sql_fault w.(w_tick) = None ->
  exists w1, Dispatcher.targetsSelf d job w =
      (existsb (Dispatcher.service_is_self d.(Dispatcher.selfID)) (guarded_services job w.(w_db)), w1) /\
    only_bookkeeping w w1 /\ w1.(w_db) = w.(w_db).
Proof.
  intros Hf. unfold Dispatcher.targetsSelf, guarded_services.
  destruct job.(job_ServiceID) as [sid|]; [|destruct job.(job_ProjectID) as [pid|]].
  - unfold bind, Services.Get, sql. rewrite Hf. destruct (Services.find_service _ sid) as [svc|].
    + eexists. split; [reflexivity|]. split; [|done]. exists [EvSql "services.Get" sid].
      split; [done|by repeat constructor].
    + eexists. split; [reflexivity|]. split; [|done]. exists []. split; [done|constructor].
  - unfold bind, Services.ListByProject, sql. rewrite Hf. simpl. eexists. split.
    + f_equal. apply eq_bool_prop_intro. rewrite !Is_true_true, !existsb_elem.
      setoid_rewrite (sort_stable_perm Services.by_name). done.
    + split; [|done]. exists [EvSql "services.ListByProject" pid]. split; [done|by repeat constructor].
  - exists w. split; [done|]. split; [apply bookkeeping_refl|done].
Qed.

Lemma finish_books id status msg w :
  let w' := (Jobs.Finish id status None msg w).2 in
  only_bookkeeping w w' /\
  (EvSql ("jobs.Finish " +:+ status) id ∈ w'.(w_trace) \/ exists n e, sql_fault n = Some e).
Proof.
  cbv zeta. split; [apply bookkeeping_bind; [apply bookkeeping_sql|intros [a|e] w1; apply bookkeeping_refl]|].
  unfold Jobs.Finish, bind_ok, bind. destruct (sql _ id _ w) as [[r|e] w1] eqn:Es; simpl.
  - apply sql_ok_inv in Es as (_ & _ & -> & _). left. by left.
  - right. unfold sql in Es. destruct (sql_fault w.(w_tick)) as [f|] eqn:Ef; [by eauto|done].
Qed.

Lemma refuse_spec d job w :
  let w' := (Dispatcher.refuse d job w).2 in
  (Dispatcher.refuse d job w).1 = true /\ only_bookkeeping w w' /\
  (EvSql "jobs.Finish failed" job.(job_ID) ∈ w'.(w_trace) \/ exists n e, sql_fault n = Some e).
Proof.
  unfold Dispatcher.refuse, bind.
  match goal with |- context [(if ?b then ?x else ?y) w] => destruct ((if b then x else y) w) as [a w1] eqn:Ea end.
  assert (H1 : only_bookkeeping w w1).
  { destruct (Dispatcher.emitter d); [|injection Ea as <- <-; apply bookkeeping_refl].
    pose proof (bookkeeping_emit job.(job_ID) "system" Dispatcher.refusal w) as Hb. by rewrite Ea in Hb. }
  pose proof (finish_books job.(job_ID) "failed" Dispatcher.refusal w1) as [H2 H3].
  destruct (Jobs.Finish _ _ _ _ w1) as [r w2]. simpl in *.
  split; [done|]. split; [by eapply bookkeeping_trans|done].
Qed.

(** How a mutating job is dispatched when the guard is on. *)
Lemma guarded_dispatch d job w :
  d.(Dispatcher.selfID) <> "" -> d.(Dispatcher.services) = true -> d.(Dispatcher.jobs) = true ->
  Dispatcher.mutatingTypes job.(job_Type) = true -> sql_fault w.(w_tick) = None ->
  let w' := (Dispatcher.Handle tokenFn checker d job w).2 in
  if existsb (Dispatcher.service_is_self d.(Dispatcher.selfID)) (guarded_services job w.(w_db)) then
    only_bookkeeping w w' /\
    (EvSql "jobs.Finish failed" job.(job_ID) ∈ w'.(w_trace) \/ exists n e, sql_fault n = Some e)
  else
    exists w1, only_bookkeeping w w1 /\ w1.(w_db) = w.(w_db) /\ w' = (Dispatcher.route d job w1).2.
Proof.
  intros Hid%String.eqb_neq Hs Hj Ht Hf.
  assert (Hu : String.eqb job.(job_Type) "self_update" = false).
  { apply String.eqb_neq. intros He. by rewrite He in Ht. }
  unfold Dispatcher.Handle, Dispatcher.refuseSelfTarget. rewrite Hu, Hid, Hs, Hj, Ht. cbn [negb orb].
  destruct (targetsSelf_spec d job w Hf) as (w1 & Hself & Hb & Hd).
  unfold bind. rewrite Hself. destruct (existsb _ _); cbn [negb].
  - pose proof (refuse_spec d job w1) as (Hr & Hb2 & Hend).
    destruct (Dispatcher.refuse d job w1) as [r w2]. simpl in *. subst r. simpl.
    split; [by eapply bookkeeping_trans|done].
  - exists w1. split; [done|]. split; [done|]. done.
Qed.

End Guard.

(** ** Runs *)

(** dockbrr runs in container d0c6..., the service "dockbrr" of the project the
    service "web" (container c0ffee) belongs to. *)
Definition demo_self_service : Service :=
  mkService 2 1 "dockbrr" ["d0c6d0c6d0c6"] "ghcr.io/yorah/dockbrr:latest" "sha256:d" "" "" false false
    "running" None false false None 1700000000.
Definition demo_guard_db : db :=
  with_services (mkTable [demo_service; demo_self_service] 2) demo_apply_db.
Definition demo_guard_world : world := mkWorld demo_guard_db demo_files [] 0.

Definition demo_handle (selfID : string) (job : Job) : world :=
  (@Dispatcher.Handle calm_env stable_slice_sort demo_composego demo_sha demo_yaml demo_cli demo_docker
     demo_resolver demo_locator demo_health demo_self_docker demo_releases (ret "") demo_checker
     (Dispatcher.SetSelfGuard selfID Dispatcher.NewDispatcher) job demo_guard_world).2.


(** The guard looks at the service of the job even when the job's scope is the
    whole project: a project-scope apply asked for on "web" is let through, and
    recreates every service of the project, dockbrr's own container included. *)
Definition demo_project_job : Job :=
  mkJob 1 "apply" (Some 1) (Some 1) "running" "project" "user" 1700000000 None None None "".

Lemma project_scope_escapes_guard :
  let w' := demo_handle "d0c6d0c6d0c6" demo_project_job in
  Dispatcher.service_is_self "d0c6d0c6d0c6" demo_self_service = true /\
  demo_self_service.(sv_ProjectID) = default 0 demo_project_job.(job_ProjectID) /\
  ["compose"; "-f"; "/srv/blog/compose.yml"; "--project-directory"; "/srv/blog"; "-p"; "blog"; "up"; "-d"]
    ∈ compose_calls w'.(w_trace).
Proof. split; [reflexivity|]. split; [reflexivity|]. apply (bool_decide_eq_true_1 _). vm_compute. reflexivity. Qed.
