(* ===== verification/Queue.v ===== *)
(** * The job engine (internal/job/queue.go, internal/job/lock.go)

    Workers claim jobs from the table, serialise on a mutex per project, run the
    handler and close the streams of the job.  The goroutines interleave: every
    operation that is atomic in the source (a critical section, a channel
    operation, a statement) is one action of a step function, and what the rest
    of the process does to the world meanwhile is an action too. *)

From stdpp Require Import base list strings gmap sets.
From S2P Require Import Prelude GoStd Db Integrity World StoreUpdates StoreJobs.
From S2P Require Import Files Daemon.

Local Open Scope Z_scope.

(** ** The keyed mutex: one mutex per key, held or not *)

Notation keyedMutex := (gmap Z bool).

(** The critical section of [Lock]: the mutex of the key, created on first use. *)
Definition lock_entry (key : Z) (k : keyedMutex) : keyedMutex :=
  match k !! key with Some _ => k | None => <[key := false]> k end.

(** [m.Lock()] goes through only when the mutex is free. *)
Definition lock_acquire (key : Z) (k : keyedMutex) : option keyedMutex :=
  if decide (k !! key = Some false) then Some (<[key := true]> k) else None.

(** [Unlock]: no entry is a no-op; unlocking a free mutex would be fatal. *)
Definition lock_release (key : Z) (k : keyedMutex) : option keyedMutex :=
  match k !! key with
  | None => Some k
  | Some true => Some (<[key := false]> k)
  | Some false => None
  end.

(** ** Channels *)

Record LogLine := mkLine { Stream : string; Line : string }.

(** A buffered channel; [ch_job] is the job it was made for (not in the code). *)
Record chan := mkChan { ch_buf : list LogLine; ch_cap : nat; ch_closed : bool; ch_job : Z }.

(** [select { case ch <- l: default: }]; [None] is the panic on a closed one. *)
Definition try_send (l : LogLine) (c : chan) : option chan :=
  if c.(ch_closed) then None
  else if (length c.(ch_buf) <? c.(ch_cap))%nat
  then Some (mkChan (c.(ch_buf) ++ [l]) c.(ch_cap) false c.(ch_job)) else Some c.

(** [close(ch)]; closing twice panics. *)
Definition close_chan (c : chan) : option chan :=
  if c.(ch_closed) then None else Some (mkChan c.(ch_buf) c.(ch_cap) true c.(ch_job)).

(** ** The engine *)
Module Engine.

(** Where a worker goroutine is. *)
Inductive worker :=
| Idle                                             (* about to claim *)
| Waiting (job : Job)                              (* claimed; entering Lock *)
| Blocked (job : Job)                              (* at m.Lock() *)
| Running (job : Job) (sends : list (nat * LogLine)) (* in the handler; Emit's pending sends *)
| Returned (job : Job)                             (* the handler is done *)
| Unlocked (job : Job)                             (* the lock is released *)
| Closing (job : Job) (chs : list nat)             (* in closeStreams, after the critical section *)
| Stopped.                                         (* the context was cancelled *)

Record Engine := mkEngine {
  locks : keyedMutex;
  subs : gmap Z (list nat);
  finished : gset Z;
  chans : gmap nat chan;
  workers : gmap nat worker;
  handler : bool;                (* whether one is set *)
  panicked : bool;
  e_world : world;
}.

Definition key (job : Job) : Z := default 0 job.(job_ProjectID).
Definition subs_of (id : Z) (e : Engine) : list nat := default [] (e.(subs) !! id).

(** [NewEngine] with [n] workers, as [Start] makes them. *)
Definition NewEngine (n : nat) (h : bool) (w : world) : Engine :=
  mkEngine ∅ ∅ ∅ ∅ (list_to_map (map (fun i : nat => (i, Idle)) (List.seq 0%nat (Nat.max 1 n)))) h false w.

Definition set_worker (i : nat) (x : worker) (e : Engine) : Engine :=
  mkEngine e.(locks) e.(subs) e.(finished) e.(chans) (<[i := x]> e.(workers)) e.(handler) e.(panicked) e.(e_world).
Definition set_world (w : world) (e : Engine) : Engine :=
  mkEngine e.(locks) e.(subs) e.(finished) e.(chans) e.(workers) e.(handler) e.(panicked) w.
Definition set_locks (k : keyedMutex) (e : Engine) : Engine :=
  mkEngine k e.(subs) e.(finished) e.(chans) e.(workers) e.(handler) e.(panicked) e.(e_world).
Definition set_chan (ch : nat) (c : chan) (e : Engine) : Engine :=
  mkEngine e.(locks) e.(subs) e.(finished) (<[ch := c]> e.(chans)) e.(workers) e.(handler) e.(panicked) e.(e_world).
Definition set_streams (s : gmap Z (list nat)) (f : gset Z) (e : Engine) : Engine :=
  mkEngine e.(locks) s f e.(chans) e.(workers) e.(handler) e.(panicked) e.(e_world).
Definition panic (e : Engine) : Engine :=
  mkEngine e.(locks) e.(subs) e.(finished) e.(chans) e.(workers) e.(handler) true e.(e_world).

(** A channel nobody has. *)
Definition new_chan (e : Engine) : nat := fresh (dom e.(chans) : gset nat).

(** The critical section of [Stream], which gives the channel: a closed one for
    a job that is over, else a new subscription with a buffer of 256. *)
Definition subscribe (id : Z) (e : Engine) : nat * Engine :=
  let ch := new_chan e in
  if decide (id ∈ e.(finished)) then (ch, set_chan ch (mkChan [] 0 true id) e)
  else (ch, set_streams (<[id := subs_of id e ++ [ch]]> e.(subs)) e.(finished)
              (set_chan ch (mkChan [] 256 false id) e)).

(** The critical section of [closeStreams]. *)
Definition take_streams (id : Z) (e : Engine) : list nat * Engine :=
  (subs_of id e, set_streams (delete id e.(subs)) ({[id]} ∪ e.(finished)) e).

(** The subscribers [Emit] reads in its critical section, and what it will send. *)
Definition fan_out (l : LogLine) (id : Z) (e : Engine) : list (nat * LogLine) :=
  map (fun ch => (ch, l)) (subs_of id e).

(** What runs on a channel, in place; a missing channel cannot occur. *)
Definition on_chan (ch : nat) (f : chan -> option chan) (e : Engine) : Engine :=
  match e.(chans) !! ch with
  | None => panic e
  | Some c => match f c with Some c' => set_chan ch c' e | None => panic e end
  end.

Section Engine.
Context {E : Env}.

(** [Engine.Stream] as one caller sees it: unknown ids are an error. *)
Definition Stream (id : Z) (e : Engine) : result nat * Engine :=
  let '(r, w') := Jobs.Get id e.(e_world) in
  let e := set_world w' e in
  match r with
  | Err err => (Err err, e)
  | Ok _ => let '(ch, e') := subscribe id e in (Ok ch, e')
  end.

(** The pipes of a compose run emit from two goroutines, so sends of several
    [Emit]s can be pending. *)

(** How a handler ended: it returned, or it panicked and [dispatch] recovered. *)
Inductive ending := Normal | Panicked (msg : string).

Inductive action :=
| Claim (i : nat)
| Stop (i : nat)
| EnterLock (i : nat)
| Acquire (i : nat)
| EmitLine (i : nat) (stream line : string)
| Send (i k : nat)
| Return (i : nat) (how : ending)
| Release (i : nat)
| TakeStreams (i : nat)
| CloseOne (i : nat)
| Done (i : nat)
| Subscribe (id : Z)
| Receive (ch : nat)
| World (w : world).

(** A job whose handler panicked, or for which there is none, is failed. *)
Definition end_job (job : Job) (how : ending) (h : bool) (w : world) : world :=
  match h, how with
  | false, _ => (Jobs.Finish job.(job_ID) "failed" None "no handler configured" w).2
  | true, Normal => w
  | true, Panicked msg => (Jobs.Finish job.(job_ID) "failed" None ("handler panic: " +:+ msg) w).2
  end.

(** One step of a worker that is at [x]; [None] when the action is not its next
    one, or has to wait. *)
Definition worker_step (a : action) (i : nat) (x : worker) (e : Engine) : option Engine :=
  match a, x with
  | Claim _, Idle =>
      let '(r, w') := Jobs.ClaimNext e.(e_world) in
      let e := set_world w' e in
      match r with
      | Ok (Some job) => Some (set_worker i (Waiting job) e)
      | _ => Some e
      end
  | Stop _, Idle => Some (set_worker i Stopped e)
  | EnterLock _, Waiting job =>
      Some (set_worker i (Blocked job) (set_locks (lock_entry (key job) e.(locks)) e))
  | Acquire _, Blocked job =>
      match lock_acquire (key job) e.(locks) with
      | Some k => Some (set_worker i (Running job []) (set_locks k e))
      | None => None
      end
  | EmitLine _ stream line, Running job sends =>
      if e.(handler) then
        let w' := (JobLogs.Append job.(job_ID) stream line e.(e_world)).2 in
        Some (set_worker i (Running job (sends ++ fan_out (mkLine stream line) job.(job_ID) e)) (set_world w' e))
      else None
  | Send _ k, Running job sends =>
      match sends !! k with
      | Some (ch, l) => Some (set_worker i (Running job (delete k sends)) (on_chan ch (try_send l) e))
      | None => None
      end
  | Return _ how, Running job _ =>
      Some (set_worker i (Returned job) (set_world (end_job job how e.(handler) e.(e_world)) e))
  | Release _, Returned job =>
      match lock_release (key job) e.(locks) with
      | Some k => Some (set_worker i (Unlocked job) (set_locks k e))
      | None => Some (panic e)
      end
  | TakeStreams _, Unlocked job =>
      let '(chs, e') := take_streams job.(job_ID) e in Some (set_worker i (Closing job chs) e')
  | CloseOne _, Closing job (ch :: chs) => Some (set_worker i (Closing job chs) (on_chan ch close_chan e))
  | Done _, Closing job [] => Some (set_worker i Idle e)
  | _, _ => None
  end.

Definition actor (a : action) : option nat :=
  match a with
  | Claim i | Stop i | EnterLock i | Acquire i | EmitLine i _ _ | Send i _ | Return i _ | Release i
  | TakeStreams i | CloseOne i | Done i => Some i
  | Subscribe _ | Receive _ | World _ => None
  end.

Definition receive (c : chan) : option chan :=
  Some (mkChan (tail c.(ch_buf)) c.(ch_cap) c.(ch_closed) c.(ch_job)).

Definition step (a : action) (e : Engine) : option Engine :=
  match actor a with
  | Some i => match e.(workers) !! i with Some x => worker_step a i x e | None => None end
  | None =>
      match a with
      | Subscribe id => Some (subscribe id e).2
      | Receive ch =>
          match e.(chans) !! ch with Some c => Some (on_chan ch receive e) | None => None end
      | World w => Some (set_world w e)
      | _ => None
      end
  end.

End Engine.
End Engine.

(** ** Properties *)

Section Spec.
Context {E : Env}.
Import Engine.

(** What the rest of the process may do to the world between two actions: it
    keeps the integrity of the database and never re-queues a claimed job. *)
Definition others (w w' : world) : Prop :=
  (db_ok w.(w_db) -> db_ok w'.(w_db)) /\ forall id, claimed id w.(w_db) -> claimed id w'.(w_db).

Definition act_ok (e : Engine) (a : action) : Prop :=
  match a with World w => others e.(e_world) w | _ => True end.

(** The queue operations the API and the handlers use are such. *)
Lemma run_op_others o w : op_ok o -> others w (run_op o w).2.
Proof.
  intros Ho. split; [apply run_op_keeps_ok|]. intros id. by apply run_op_keeps_claimed.
Qed.

Inductive reachable (n : nat) (h : bool) : Engine -> Prop :=
| reach_start w : db_ok w.(w_db) -> reachable n h (NewEngine n h w)
| reach_step e a e' : reachable n h e -> act_ok e a -> step a e = Some e' -> reachable n h e'.

(** The job a worker is on, and the key it holds. *)
Definition job_of (x : worker) : option Job :=
  match x with
  | Idle | Stopped => None
  | Waiting j | Blocked j | Running j _ | Returned j | Unlocked j | Closing j _ => Some j
  end.

Definition holds (x : worker) : option Z :=
  match x with Running j _ | Returned j => Some (key j) | _ => None end.

(** *** The locks *)

Record lock_inv (e : Engine) : Prop := {
  li_held : forall i x k, e.(workers) !! i = Some x -> holds x = Some k -> e.(locks) !! k = Some true;
  li_excl : forall i i' x x' k, e.(workers) !! i = Some x -> e.(workers) !! i' = Some x' ->
    holds x = Some k -> holds x' = Some k -> i = i';
  li_holder : forall k, e.(locks) !! k = Some true -> exists i x, e.(workers) !! i = Some x /\ holds x = Some k;
  li_entry : forall i j, e.(workers) !! i = Some (Blocked j) -> is_Some (e.(locks) !! key j);
}.

(** A worker moves without touching the locks. *)
Lemma lock_inv_move e e' i x y :
  lock_inv e -> e.(workers) !! i = Some x -> e'.(workers) = <[i := y]> e.(workers) ->
  e'.(locks) = e.(locks) -> holds y = holds x -> (forall j, y = Blocked j -> is_Some (e.(locks) !! key j)) ->
  lock_inv e'.
Proof.
  intros [H1 H2 H3 H4] Hx Hw Hl Hh Hb. split; rewrite ?Hl, ?Hw.
  - intros i' x' k [[<- <-]|[_ Hi]]%lookup_insert_Some Hk; [|by eapply H1]. rewrite Hh in Hk. by eapply H1.
  - intros i1 i2 x1 x2 k [[<- <-]|[_ Hi1]]%lookup_insert_Some [[<- <-]|[_ Hi2]]%lookup_insert_Some Hk1 Hk2;
      rewrite ?Hh in *; [done|by eapply H2..].
  - intros k Hk. destruct (H3 k Hk) as (i' & x' & Hi & Hk'). destruct (decide (i = i')) as [<-|Hne].
    + exists i, y. rewrite lookup_insert_eq. split; [done|]. rewrite Hh. congruence.
    + exists i', x'. by rewrite lookup_insert_ne.
  - intros i' j [[<- Hj]|[_ Hi]]%lookup_insert_Some; [by apply Hb|by eapply H4].
Qed.

(** Actions that leave the locks and the workers alone. *)
Lemma lock_inv_same e e' : lock_inv e -> e'.(workers) = e.(workers) -> e'.(locks) = e.(locks) -> lock_inv e'.
Proof. intros [H1 H2 H3 H4] Hw Hl. split; rewrite ?Hl, ?Hw; eauto. Qed.

Lemma on_chan_workers ch f e : (on_chan ch f e).(workers) = e.(workers).
Proof. unfold on_chan. destruct (chans e !! ch); [destruct (f c)|]; done. Qed.
Lemma on_chan_locks ch f e : (on_chan ch f e).(locks) = e.(locks).
Proof. unfold on_chan. destruct (chans e !! ch); [destruct (f c)|]; done. Qed.
Lemma on_chan_world ch f e : (on_chan ch f e).(e_world) = e.(e_world).
Proof. unfold on_chan. destruct (chans e !! ch); [destruct (f c)|]; done. Qed.
Lemma on_chan_subs ch f e : (on_chan ch f e).(subs) = e.(subs).
Proof. unfold on_chan. destruct (chans e !! ch); [destruct (f c)|]; done. Qed.
Lemma on_chan_finished ch f e : (on_chan ch f e).(finished) = e.(finished).
Proof. unfold on_chan. destruct (chans e !! ch); [destruct (f c)|]; done. Qed.

Lemma lock_inv_entry e i j :
  lock_inv e -> e.(workers) !! i = Some (Waiting j) ->
  lock_inv (set_worker i (Blocked j) (set_locks (lock_entry (key j) e.(locks)) e)).
Proof.
  intros [H1 H2 H3 H4] Hi. unfold lock_entry.
  assert (Hmono : forall k b, e.(locks) !! k = Some b ->
    (match e.(locks) !! key j with Some _ => e.(locks) | None => <[key j := false]> e.(locks) end) !! k = Some b).
  { intros k b Hk. destruct (locks e !! key j) eqn:Ek; [done|]. rewrite lookup_insert_ne; [done|congruence]. }
  split; simpl.
  - intros i' x' k [[<- <-]|[_ Hi']]%lookup_insert_Some Hk; [done|]. apply Hmono. by eapply H1.
  - intros i1 i2 x1 x2 k [[<- <-]|[_ Hi1]]%lookup_insert_Some [[<- <-]|[_ Hi2]]%lookup_insert_Some Hk1 Hk2;
      [done..|by eapply H2].
  - intros k Hk. assert (Hk' : e.(locks) !! k = Some true).
    { destruct (locks e !! key j) eqn:Ek; [done|]. by apply lookup_insert_Some in Hk as [[_ ?]|[_ ?]]. }
    destruct (H3 k Hk') as (i' & x' & Hi' & Hh). exists i', x'.
    split; [|done]. rewrite lookup_insert_ne; [done|]. intros <-. rewrite Hi in Hi'. by injection Hi' as <-.
  - intros i' j' [[<- [= <-]]|[_ Hi']]%lookup_insert_Some.
    + destruct (locks e !! key j) eqn:Ek; [by exists b|]. exists false. by rewrite lookup_insert_eq.
    + destruct (H4 i' j' Hi') as [b Hb]. exists b. by apply Hmono.
Qed.

Lemma lock_inv_acquire e i j k :
  lock_inv e -> e.(workers) !! i = Some (Blocked j) -> lock_acquire (key j) e.(locks) = Some k ->
  lock_inv (set_worker i (Running j []) (set_locks k e)).
Proof.
  intros [H1 H2 H3 H4] Hi. unfold lock_acquire. case_decide as Hf; [|done]. intros [= <-].
  assert (Hfree : forall i' x', e.(workers) !! i' = Some x' -> holds x' <> Some (key j)).
  { intros i' x' Hi' Hh. specialize (H1 _ _ _ Hi' Hh). congruence. }
  split; simpl.
  - intros i' x' k [[<- <-]|[_ Hi']]%lookup_insert_Some Hk; [injection Hk as <-; by rewrite lookup_insert_eq|].
    destruct (decide (key j = k)) as [<-|Hne]; [by rewrite lookup_insert_eq|].
    rewrite lookup_insert_ne by done. by eapply H1.
  - intros i1 i2 x1 x2 k [[<- <-]|[_ Hi1]]%lookup_insert_Some [[<- <-]|[_ Hi2]]%lookup_insert_Some Hk1 Hk2.
    + done.
    + injection Hk1 as <-. by destruct (Hfree _ _ Hi2).
    + injection Hk2 as <-. by destruct (Hfree _ _ Hi1).
    + by eapply H2.
  - intros k [[<- _]|[Hne Hk]]%lookup_insert_Some.
    + exists i, (Running j []). by rewrite lookup_insert_eq.
    + destruct (H3 k Hk) as (i' & x' & Hi' & Hh). exists i', x'. split; [|done].
      rewrite lookup_insert_ne; [done|]. intros <-. rewrite Hi in Hi'. by injection Hi' as <-.
  - intros i' j' [[<- Hj]|[_ Hi']]%lookup_insert_Some; [done|].
    destruct (decide (key j = key j')) as [->|Hne]; [exists true; by rewrite lookup_insert_eq|].
    rewrite lookup_insert_ne by done. by eapply H4.
Qed.

Lemma lock_inv_release e i j k :
  lock_inv e -> e.(workers) !! i = Some (Returned j) -> lock_release (key j) e.(locks) = Some k ->
  lock_inv (set_worker i (Unlocked j) (set_locks k e)).
Proof.
  intros [H1 H2 H3 H4] Hi. unfold lock_release. rewrite (H1 _ _ _ Hi eq_refl). intros [= <-].
  assert (Hown : forall i' x', e.(workers) !! i' = Some x' -> i' <> i -> holds x' <> Some (key j)).
  { intros i' x' Hi' Hne Hh. apply Hne. by eapply (H2 i' i). }
  split; simpl.
  - intros i' x' k [[<- <-]|[Hne Hi']]%lookup_insert_Some Hk; [done|].
    destruct (decide (key j = k)) as [<-|Hnk]; [by destruct (Hown _ _ Hi' (not_eq_sym Hne))|].
    rewrite lookup_insert_ne by done. by eapply H1.
  - intros i1 i2 x1 x2 k [[<- <-]|[_ Hi1]]%lookup_insert_Some [[<- <-]|[_ Hi2]]%lookup_insert_Some Hk1 Hk2;
      [done..|by eapply H2].
  - intros k [[<- ?]|[Hne Hk]]%lookup_insert_Some; [done|].
    destruct (H3 k Hk) as (i' & x' & Hi' & Hh). exists i', x'. split; [|done].
    rewrite lookup_insert_ne; [done|]. intros <-. rewrite Hi in Hi'. injection Hi' as <-. by injection Hh.
  - intros i' j' [[<- Hj]|[_ Hi']]%lookup_insert_Some; [done|].
    destruct (decide (key j = key j')) as [->|Hne]; [exists false; by rewrite lookup_insert_eq|].
    rewrite lookup_insert_ne by done. by eapply H4.
Qed.
Lemma lock_inv_worker a i x e e' :
  lock_inv e -> e.(workers) !! i = Some x -> worker_step a i x e = Some e' -> lock_inv e'.
Proof.
  intros He Hi. destruct a, x; simpl; try done.
  - destruct (Jobs.ClaimNext (e_world e)) as [[[job|]|err] w']; intros [= <-].
    + by eapply (lock_inv_move e _ i _ (Waiting job)).
    + by eapply lock_inv_same.
    + by eapply lock_inv_same.
  - intros [= <-]. by eapply (lock_inv_move e _ i _ Stopped).
  - intros [= <-]. by apply lock_inv_entry.
  - destruct (lock_acquire _ _) as [k|] eqn:Ek; intros [= <-]. by apply lock_inv_acquire.
  - destruct (handler e); intros [= <-]. by eapply (lock_inv_move e _ i _ (Running job _)).
  - destruct (sends !! k) as [[ch l]|]; intros [= <-].
    eapply (lock_inv_move e _ i _ (Running job (delete k sends))); try done; simpl;
      by rewrite ?on_chan_workers, ?on_chan_locks.
  - intros [= <-]. by eapply (lock_inv_move e _ i _ (Returned job)).
  - destruct (lock_release _ _) as [k|] eqn:Ek; intros [= <-]; [by apply lock_inv_release|].
    by eapply lock_inv_same.
  - intros [= <-]. by eapply (lock_inv_move e _ i _ (Closing job _)).
  - destruct chs as [|ch chs]; intros [= <-].
    eapply (lock_inv_move e _ i _ (Closing job chs)); try done; simpl;
      by rewrite ?on_chan_workers, ?on_chan_locks.
  - destruct chs as [|ch chs]; intros [= <-]. by eapply (lock_inv_move e _ i _ Idle).
Qed.

Lemma subscribe_workers id e : (subscribe id e).2.(workers) = e.(workers).
Proof. unfold subscribe. by case_decide. Qed.
Lemma subscribe_locks id e : (subscribe id e).2.(locks) = e.(locks).
Proof. unfold subscribe. by case_decide. Qed.

Lemma step_inv a e e' :
  step a e = Some e' ->
  (exists i x, e.(workers) !! i = Some x /\ worker_step a i x e = Some e') \/
  (exists id, a = Subscribe id /\ e' = (subscribe id e).2) \/
  (exists ch c, a = Receive ch /\ e.(chans) !! ch = Some c /\ e' = on_chan ch receive e) \/
  (exists w, a = World w /\ e' = set_world w e).
Proof.
  unfold step. destruct (actor a) as [i|] eqn:Ea.
  - destruct (workers e !! i) as [x|] eqn:Ei; [|done]. intros H. left. by exists i, x.
  - destruct a; try done; simpl in *.
    + intros [= <-]. right; left. by eexists.
    + destruct (chans e !! ch) as [c|] eqn:Ec; intros [= <-]. right; right; left. by exists ch, c.
    + intros [= <-]. right; right; right. by eexists.
Qed.

Lemma lock_inv_step a e e' : lock_inv e -> step a e = Some e' -> lock_inv e'.
Proof.
  intros He [(i & x & Hi & Hs)|[(id & _ & ->)|[(ch & c & _ & _ & ->)|(w & _ & ->)]]]%step_inv.
  - by eapply lock_inv_worker.
  - eapply lock_inv_same; [done|apply subscribe_workers|apply subscribe_locks].
  - eapply lock_inv_same; [done|apply on_chan_workers|apply on_chan_locks].
  - by eapply lock_inv_same.
Qed.

Lemma start_worker n h w i x : (NewEngine n h w).(workers) !! i = Some x -> x = Idle.
Proof.
  simpl. intros H%elem_of_list_to_map_2. apply list_elem_of_In, in_map_iff in H as (k & [= _ <-] & _). done.
Qed.

Lemma reachable_lock_inv n h e : reachable n h e -> lock_inv e.
Proof.
  induction 1 as [w Hw|e a e' _ IH _ Hs]; [|by eapply lock_inv_step].
  split.
  - intros i x k Hx%start_worker. by subst.
  - intros i i' x x' k Hx%start_worker. by subst.
  - intros k. simpl. by rewrite lookup_empty.
  - by intros i j Hx%start_worker.
Qed.

(** *** The jobs *)

Record job_inv (e : Engine) : Prop := {
  ji_db : db_ok e.(e_world).(w_db);
  ji_claimed : forall i x j, e.(workers) !! i = Some x -> job_of x = Some j -> claimed j.(job_ID) e.(e_world).(w_db);
  ji_finished : forall id, id ∈ e.(finished) -> claimed id e.(e_world).(w_db);
  ji_distinct : forall i i' x x' j j', e.(workers) !! i = Some x -> e.(workers) !! i' = Some x' ->
    job_of x = Some j -> job_of x' = Some j' -> j.(job_ID) = j'.(job_ID) -> i = i';
}.

(** A worker moves on, or ends its job, while the world changes harmlessly. *)
Lemma job_inv_move e e' i x y :
  job_inv e -> e.(workers) !! i = Some x -> e'.(workers) = <[i := y]> e.(workers) ->
  others e.(e_world) e'.(e_world) ->
  (forall id, id ∈ e'.(finished) -> id ∈ e.(finished) \/ exists j, job_of x = Some j /\ j.(job_ID) = id) ->
  job_of y = job_of x \/ job_of y = None -> job_inv e'.
Proof.
  intros [H1 H2 H3 H4] Hx Hw [Ho1 Ho2] Hf Hy.
  assert (Hj : forall i' x' j, e'.(workers) !! i' = Some x' -> job_of x' = Some j ->
    exists x0, e.(workers) !! i' = Some x0 /\ job_of x0 = Some j).
  { intros i' x' j. rewrite Hw. intros [[<- <-]|[_ Hi]]%lookup_insert_Some Hj; [|by exists x'].
    exists x. split; [done|]. destruct Hy; congruence. }
  split.
  - auto.
  - intros i' x' j Hi Hjo. destruct (Hj _ _ _ Hi Hjo) as (x0 & Hx0 & Hj0). eauto.
  - intros id [Hid|(j & Hjo & <-)]%Hf; [eauto|]. eauto.
  - intros i1 i2 x1 x2 j1 j2 Hi1 Hi2 Hj1 Hj2 Hid.
    destruct (Hj _ _ _ Hi1 Hj1) as (y1 & Hy1 & Hjy1), (Hj _ _ _ Hi2 Hj2) as (y2 & Hy2 & Hjy2).
    by eapply (H4 i1 i2).
Qed.

Lemma others_refl w : others w w.
Proof. split; auto. Qed.

(** The only place where a job appears: it was queued, so no one has it. *)
Lemma job_inv_claim e i r w' :
  job_inv e -> e.(workers) !! i = Some Idle -> Jobs.ClaimNext e.(e_world) = (r, w') ->
  job_inv (match r with
           | Ok (Some job) => set_worker i (Waiting job) (set_world w' e)
           | _ => set_world w' e
           end) /\
  forall job, r = Ok (Some job) -> job.(job_ID) ∉ e.(finished) /\
    forall i' x' j, e.(workers) !! i' = Some x' -> job_of x' = Some j -> j.(job_ID) <> job.(job_ID).
Proof.
  intros [H1 H2 H3 H4] Hi Hc.
  assert (Ho : others e.(e_world) w').
  { pose proof (run_op_others OpClaim e.(e_world) I) as Ho. simpl in Ho. unfold bind in Ho.
    by rewrite Hc in Ho. }
  destruct Ho as [Ho1 Ho2]. pose proof (ClaimNext_claims e.(e_world) H1) as Hs. rewrite Hc in Hs.
  assert (Hsame : job_inv (set_world w' e)) by (split; simpl; eauto).
  destruct r as [[job|]|err]; [|split; [done|discriminate]..].
  destruct Hs as (j0 & Hin & Hq & Hid & Hold & Hrest & Hcol & Hj & Hn & Hmore).
  assert (Hnew : forall id, claimed id e.(e_world).(w_db) -> id <> job.(job_ID)).
  { intros id [_ Hc0] ->. rewrite Hid in Hc0. by rewrite (Hc0 j0 Hin eq_refl) in Hq. }
  split.
  - split; simpl; [auto|..].
    + intros i' x' j [[<- <-]|[_ Hi']]%lookup_insert_Some; [|eauto]. simpl. intros [= <-].
      split; [|done]. pose proof (tbl_bound _ _ _ (ok_jobs _ (Ho1 H1))) as Hb. rewrite Forall_forall in Hb.
      by apply Hb.
    + eauto.
    + intros i1 i2 x1 x2 j1 j2 [[<- <-]|[Hn1 Hi1]]%lookup_insert_Some [[<- <-]|[Hn2 Hi2]]%lookup_insert_Some; simpl.
      * done.
      * intros [= <-] Hj2 He. by destruct (Hnew j2.(job_ID)); [eauto|].
      * intros Hj1 [= <-] He. by destruct (Hnew j1.(job_ID)); [eauto|].
      * by eapply H4.
  - intros job' [= <-]. split.
    + intros Hf. by destruct (Hnew job.(job_ID)); [eauto|].
    + intros i' x' j Hi' Hj' He. by destruct (Hnew j.(job_ID)); [eauto|].
Qed.

Lemma append_others id s l w : others w (JobLogs.Append id s l w).2.
Proof.
  split.
  - revert w. change (keeps (on_db db_ok) (JobLogs.Append id s l)). unfold JobLogs.Append. keeps_walk.
  - intros k. revert w. change (keeps (on_db (claimed k)) (JobLogs.Append id s l)).
    unfold JobLogs.Append. keeps_walk. apply keeps_sql_db. intros t d a d' Hc.
    destruct (negb _); intros [= <- <-]. exact Hc.
Qed.

Lemma end_job_others job how h w : others w (end_job job how h w).
Proof.
  assert (Hf : forall msg, others w (Jobs.Finish job.(job_ID) "failed" None msg w).2).
  { intros msg. pose proof (run_op_others (OpFinish job.(job_ID) "failed" None msg) w) as Ho. simpl in Ho.
    unfold bind in Ho. destruct (Jobs.Finish _ _ _ _ w). apply Ho. set_solver. }
  destruct h, how; simpl; [apply others_refl|apply Hf..].
Qed.

Lemma job_inv_same e e' :
  job_inv e -> e'.(workers) = e.(workers) -> e'.(finished) = e.(finished) -> others e.(e_world) e'.(e_world) -> job_inv e'.
Proof. intros [H1 H2 H3 H4] Hw Hf [Ho1 Ho2]. split; rewrite ?Hw, ?Hf; eauto. Qed.

Ltac move_job e i y :=
  eapply (job_inv_move e _ i _ y); simpl; rewrite ?on_chan_workers, ?on_chan_world, ?on_chan_finished; eauto using others_refl.

Lemma job_inv_worker a i x e e' :
  job_inv e -> e.(workers) !! i = Some x -> worker_step a i x e = Some e' -> job_inv e'.
Proof.
  intros He Hi. destruct a, x; simpl; try done.
  - destruct (Jobs.ClaimNext (e_world e)) as [r w'] eqn:Ec. pose proof (job_inv_claim e i r w' He Hi Ec) as [Hc _].
    destruct r as [[job|]|err]; intros [= <-]; exact Hc.
  - intros [= <-]. move_job e i Stopped.
  - intros [= <-]. move_job e i (Blocked job).
  - destruct (lock_acquire _ _) as [k|] eqn:Ek; intros [= <-]. move_job e i (Running job []).
  - destruct (handler e); intros [= <-]. eapply (job_inv_move e _ i _ (Running job _)); simpl; eauto.
    apply append_others.
  - destruct (sends !! k) as [[ch l]|]; intros [= <-]. move_job e i (Running job (delete k sends)).
  - intros [= <-]. eapply (job_inv_move e _ i _ (Returned job)); simpl; eauto. apply end_job_others.
  - destruct (lock_release _ _) as [k|] eqn:Ek; intros [= <-]; [move_job e i (Unlocked job)|].
    eapply job_inv_same; eauto using others_refl.
  - intros [= <-]. eapply (job_inv_move e _ i _ (Closing job _)); simpl; eauto using others_refl.
    intros id [->%elem_of_singleton|?]%elem_of_union; eauto.
  - destruct chs as [|ch chs]; intros [= <-]. move_job e i (Closing job chs).
  - destruct chs as [|ch chs]; intros [= <-]. move_job e i Idle.
Qed.

Lemma subscribe_world id e : (subscribe id e).2.(e_world) = e.(e_world).
Proof. unfold subscribe. by case_decide. Qed.
Lemma subscribe_finished id e : (subscribe id e).2.(finished) = e.(finished).
Proof. unfold subscribe. by case_decide. Qed.

Lemma reachable_job_inv n h e : reachable n h e -> job_inv e.
Proof.
  induction 1 as [w Hw|e a e' _ IH Ha Hs].
  - split; [done|..].
    + by intros i x j Hx%start_worker; subst.
    + intros id. simpl. set_solver.
    + by intros i i' x x' j j' Hx%start_worker; subst.
  - apply step_inv in Hs as [(i & x & Hi & Hs)|[(id & _ & ->)|[(ch & c & _ & _ & ->)|(w & -> & ->)]]].
    + by eapply job_inv_worker.
    + eapply job_inv_same; [done|apply subscribe_workers|apply subscribe_finished|].
      rewrite subscribe_world. apply others_refl.
    + eapply job_inv_same; [done|apply on_chan_workers|apply on_chan_finished|].
      rewrite on_chan_world. apply others_refl.
    + by eapply job_inv_same.
Qed.

(** *** The streams *)

(** The job of a worker that has not closed its streams yet. *)
Definition early (x : worker) : option Job :=
  match x with Closing _ _ => None | _ => job_of x end.

Definition open_for (e : Engine) (ch : nat) (id : Z) : Prop :=
  exists c, e.(chans) !! ch = Some c /\ c.(ch_closed) = false /\ c.(ch_job) = id.

Definition being_closed (e : Engine) (ch : nat) (id : Z) : Prop :=
  exists i j chs, e.(workers) !! i = Some (Closing j chs) /\ j.(job_ID) = id /\ ch ∈ chs.

Record stream_inv (e : Engine) : Prop := {
  si_early : forall i x j, e.(workers) !! i = Some x -> early x = Some j -> j.(job_ID) ∉ e.(finished);
  si_after : forall i j chs, e.(workers) !! i = Some (Closing j chs) -> j.(job_ID) ∈ e.(finished);
  si_over : forall id, id ∈ e.(finished) -> subs_of id e = [];
  si_subs : forall id ch, ch ∈ subs_of id e -> open_for e ch id;
  si_once : forall id, NoDup (subs_of id e);
  si_sends : forall i j sends ch l, e.(workers) !! i = Some (Running j sends) -> (ch, l) ∈ sends ->
    ch ∈ subs_of j.(job_ID) e;
  si_closing : forall i j chs, e.(workers) !! i = Some (Closing j chs) ->
    NoDup chs /\ forall ch, ch ∈ chs -> open_for e ch j.(job_ID);
  si_open : forall ch id, open_for e ch id -> ch ∈ subs_of id e \/ being_closed e ch id;
  si_calm : e.(panicked) = false;
}.

Lemma stream_inv_move e e' i x y :
  stream_inv e -> e.(workers) !! i = Some x -> e'.(workers) = <[i := y]> e.(workers) ->
  e'.(subs) = e.(subs) -> e'.(finished) = e.(finished) -> e'.(chans) = e.(chans) -> e'.(panicked) = e.(panicked) ->
  (forall j, early y = Some j -> early x = Some j \/ j.(job_ID) ∉ e.(finished)) ->
  (forall j chs, y <> Closing j chs) -> (forall j chs, x = Closing j chs -> chs = []) ->
  (forall j sends ch l, y = Running j sends -> (ch, l) ∈ sends -> ch ∈ subs_of j.(job_ID) e) ->
  stream_inv e'.
Proof.
  intros [H1 H2 H3 H4 H5 H6 H7 H8 H9] Hx Hw Hs Hf Hc Hp Hy Hny Hnx Hsend.
  assert (Hso : forall id, subs_of id e' = subs_of id e) by (intros id; unfold subs_of; by rewrite Hs).
  assert (Hop : forall ch id, open_for e' ch id <-> open_for e ch id) by (intros; unfold open_for; by rewrite Hc).
  split; try setoid_rewrite Hso; try setoid_rewrite Hop; rewrite ?Hf, ?Hp, ?Hw; auto.
  - intros i' x' j [[<- <-]|[_ Hi]]%lookup_insert_Some; [|by eapply H1]. intros [Hj|Hj]%Hy; [by eapply H1|done].
  - intros i' j chs [[_ Hj]|[_ Hi]]%lookup_insert_Some; [by destruct (Hny j chs)|by eapply H2].
  - intros i' j sends ch l [[_ Hj]|[_ Hi]]%lookup_insert_Some; [by eapply Hsend|by eapply H6].
  - intros i' j chs [[_ Hj]|[_ Hi]]%lookup_insert_Some; [by destruct (Hny j chs)|by eapply H7].
  - intros ch id [Hin|(i' & j & chs & Hi' & Hid & Hin)]%H8; [by left|right].
    exists i', j, chs. rewrite Hw. split; [|done]. rewrite lookup_insert_ne; [done|]. intros <-.
    rewrite Hx in Hi'. injection Hi' as ->. by rewrite (Hnx j chs eq_refl) in Hin; set_solver.
Qed.

(** What happens in a channel that stays open, or closed, changes nothing. *)
Lemma stream_inv_chan e ch c c' :
  stream_inv e -> e.(chans) !! ch = Some c -> c'.(ch_closed) = c.(ch_closed) -> c'.(ch_job) = c.(ch_job) ->
  stream_inv (set_chan ch c' e).
Proof.
  intros [H1 H2 H3 H4 H5 H6 H7 H8 H9] Hc Hcl Hj.
  assert (Hop : forall k id, open_for (set_chan ch c' e) k id <-> open_for e k id).
  { intros k id. unfold open_for. simpl. destruct (decide (ch = k)) as [<-|Hne].
    - rewrite lookup_insert_eq, Hc. split; intros (x & [= <-] & ? & ?); eexists; (split; [done|]); split; congruence.
    - by rewrite lookup_insert_ne. }
  split; try setoid_rewrite Hop; auto.
Qed.

Lemma stream_inv_take e i j :
  job_inv e -> stream_inv e -> e.(workers) !! i = Some (Unlocked j) ->
  stream_inv (set_worker i (Closing j (subs_of j.(job_ID) e)) (take_streams j.(job_ID) e).2).
Proof.
  intros Hji [H1 H2 H3 H4 H5 H6 H7 H8 H9] Hi. unfold take_streams. simpl.
  set (e' := set_worker _ _ _).
  assert (Hw : e'.(workers) = <[i := Closing j (subs_of j.(job_ID) e)]> e.(workers)) by done.
  assert (Hf : e'.(finished) = {[j.(job_ID)]} ∪ e.(finished)) by done.
  assert (Hso : forall id, id <> j.(job_ID) -> subs_of id e' = subs_of id e).
  { intros id Hne. unfold subs_of. simpl. by rewrite lookup_delete_ne. }
  assert (Hso1 : subs_of j.(job_ID) e' = []) by (unfold subs_of; simpl; by rewrite lookup_delete_eq).
  assert (Hop : forall ch id, open_for e' ch id <-> open_for e ch id) by done.
  assert (Hdist : forall i' x' j', e.(workers) !! i' = Some x' -> i <> i' -> job_of x' = Some j' -> j'.(job_ID) <> j.(job_ID)).
  { intros i' x' j' Hi' Hne Hj' He. apply Hne. by eapply (ji_distinct e Hji i i'). }
  split; rewrite ?Hw, ?Hf; auto.
  - intros i' x' j' [[<- <-]|[Hne Hi']]%lookup_insert_Some; [done|]. intros Hj'.
    rewrite elem_of_union, elem_of_singleton. intros [He|Hin]; [|by eapply H1].
    eapply (Hdist i' x' j'); [done..| |done]. by destruct x'.
  - intros i' j' chs [[<- [= <- <-]]|[Hne Hi']]%lookup_insert_Some; simpl; [set_solver|].
    apply elem_of_union_r. by eapply H2.
  - intros id Hid. destruct (decide (id = j.(job_ID))) as [->|Hne]; [done|]. rewrite Hso by done.
    apply H3. set_solver.
  - intros id ch. destruct (decide (id = j.(job_ID))) as [->|Hne]; [rewrite Hso1; set_solver|].
    rewrite Hso by done. apply H4.
  - intros id. destruct (decide (id = j.(job_ID))) as [->|Hne]; [rewrite Hso1; constructor|]. by rewrite Hso.
  - intros i' j' sends ch l [[<- ?]|[Hne Hi']]%lookup_insert_Some; [done|]. intros Hin.
    rewrite Hso by by eapply (Hdist i'). by eapply H6.
  - intros i' j' chs [[<- [= <- <-]]|[Hne Hi']]%lookup_insert_Some; [|by eapply H7].
    split; [done|]. intros ch Hch. by apply H4.
  - intros ch id Ho. destruct (decide (id = j.(job_ID))) as [->|Hne].
    + apply H8 in Ho as [Hin|(i' & j' & chs & Hi' & Hid & Hin)].
      * right. exists i, j, (subs_of j.(job_ID) e). simpl. by rewrite lookup_insert_eq.
      * right. exists i', j', chs. simpl. rewrite lookup_insert_ne; [done|]. intros <-. congruence.
    + rewrite Hso by done. apply H8 in Ho as [Hin|(i' & j' & chs & Hi' & Hid & Hin)]; [by left|right].
      exists i', j', chs. simpl. rewrite lookup_insert_ne; [done|]. intros <-. congruence.
Qed.

Lemma stream_inv_close e i j ch chs :
  job_inv e -> stream_inv e -> e.(workers) !! i = Some (Closing j (ch :: chs)) ->
  stream_inv (set_worker i (Closing j chs) (on_chan ch close_chan e)).
Proof.
  intros Hji [H1 H2 H3 H4 H5 H6 H7 H8 H9] Hi.
  destruct (H7 _ _ _ Hi) as [[Hnin Hnd]%NoDup_cons Hopen].
  destruct (Hopen ch ltac:(by left)) as (c & Hc & Hcl & Hcj).
  unfold on_chan. rewrite Hc. unfold close_chan. rewrite Hcl. set (e' := set_worker _ _ _).
  assert (Hw : e'.(workers) = <[i := Closing j chs]> e.(workers)) by done.
  assert (Hop : forall k id, open_for e' k id <-> open_for e k id /\ k <> ch).
  { intros k id. unfold open_for. simpl. destruct (decide (ch = k)) as [<-|Hne].
    - rewrite lookup_insert_eq. split; [|naive_solver]. by intros (x & [= <-] & ? & ?).
    - rewrite lookup_insert_ne by done. naive_solver. }
  assert (Hnotsub : forall id, ch ∉ subs_of id e).
  { intros id Hin. destruct (H4 _ _ Hin) as (c' & Hc' & _ & Hj'). rewrite Hc in Hc'. injection Hc' as <-.
    assert (id = j.(job_ID)) as -> by congruence. rewrite H3 in Hin; [set_solver|]. by eapply H2. }
  split; rewrite ?Hw; auto.
  - intros i' x' j' [[<- <-]|[Hne Hi']]%lookup_insert_Some; [done|by eapply H1].
  - intros i' j' chs' [[<- [= <- <-]]|[Hne Hi']]%lookup_insert_Some; by eapply H2.
  - intros id k Hk. apply Hop. split; [by apply H4|]. intros ->. by eapply Hnotsub.
  - intros i' j' sends k l [[<- ?]|[Hne Hi']]%lookup_insert_Some; [done|]. by eapply H6.
  - intros i' j' chs' [[<- [= <- <-]]|[Hne Hi']]%lookup_insert_Some.
    + split; [done|]. intros k Hk. apply Hop. split; [apply Hopen; by right|]. by intros ->.
    + destruct (H7 _ _ _ Hi') as [Hn Ho]. split; [done|]. intros k Hk. apply Hop. split; [by apply Ho|].
      intros ->. destruct (Ho _ Hk) as (c' & Hc' & _ & Hj'). rewrite Hc in Hc'. injection Hc' as <-.
      apply Hne. eapply (ji_distinct e Hji i i'); [done..|]. congruence.
  - intros k id [Ho Hne]%Hop. apply H8 in Ho as [Hin|(i' & j' & chs' & Hi' & Hid & Hin)]; [by left|right].
    destruct (decide (i = i')) as [<-|Hni].
    + rewrite Hi in Hi'. injection Hi' as <- <-. exists i, j, chs. simpl. rewrite lookup_insert_eq.
      split; [done|]. split; [done|]. by apply elem_of_cons in Hin as [->|?].
    + exists i', j', chs'. simpl. by rewrite lookup_insert_ne.
Qed.

Lemma stream_inv_subscribe e id : stream_inv e -> stream_inv (subscribe id e).2.
Proof.
  intros [H1 H2 H3 H4 H5 H6 H7 H8 H9]. unfold subscribe.
  assert (Hfresh : e.(chans) !! new_chan e = None) by exact (proj1 (not_elem_of_dom _ _) (is_fresh (dom e.(chans) : gset nat))).
  assert (Hnew : forall id k, open_for e k id -> k <> new_chan e).
  { intros id' k (c & Hc & _) ->. congruence. }
  case_decide as Hf; simpl.
  - assert (Hop : forall k id', open_for (set_chan (new_chan e) (mkChan [] 0 true id) e) k id' <-> open_for e k id').
    { intros k id'. unfold open_for. simpl. destruct (decide (new_chan e = k)) as [<-|Hne].
      - rewrite lookup_insert_eq, Hfresh. naive_solver.
      - by rewrite lookup_insert_ne. }
    split; try setoid_rewrite Hop; auto.
  - set (e' := set_streams _ _ _).
    assert (Hop : forall k id', open_for e' k id' <-> open_for e k id' \/ k = new_chan e /\ id' = id).
    { intros k id'. unfold open_for. simpl. destruct (decide (new_chan e = k)) as [<-|Hne].
      - rewrite lookup_insert_eq, Hfresh. naive_solver.
      - rewrite lookup_insert_ne by done. naive_solver. }
    assert (Hso : forall id', subs_of id' e' = subs_of id' e ++ (if decide (id' = id) then [new_chan e] else [])).
    { intros id'. unfold subs_of. simpl. case_decide as He; [subst; by rewrite lookup_insert_eq|].
      by rewrite lookup_insert_ne, app_nil_r by done. }
    split; auto.
    + intros id' Hid'. rewrite Hso, H3 by done. case_decide as He; [by subst|done].
    + intros id' k. rewrite Hso, elem_of_app. intros [Hk|Hk]; apply Hop; [left; by apply H4|right].
      case_decide; set_solver.
    + intros id'. rewrite Hso. apply NoDup_app. split; [done|]. split; [|case_decide; repeat constructor; set_solver].
      intros k Hk Hn. case_decide; [|set_solver]. apply list_elem_of_singleton in Hn as ->.
      by eapply Hnew; [eapply H4|].
    + intros i j sends ch l Hi Hin. rewrite Hso. apply elem_of_app. left. by eapply H6.
    + intros i j chs Hi. destruct (H7 _ _ _ Hi) as [Hn Ho]. split; [done|]. intros k Hk. apply Hop. left. by apply Ho.
    + intros k id' [Ho|[-> ->]]%Hop.
      * apply H8 in Ho as [Hin|Hb]; [left; rewrite Hso; apply elem_of_app; by left|by right].
      * left. rewrite Hso, decide_True by done. apply elem_of_app. right. by left.
Qed.

Lemma stream_inv_worker a i x e e' :
  lock_inv e -> job_inv e -> stream_inv e -> e.(workers) !! i = Some x -> worker_step a i x e = Some e' -> stream_inv e'.
Proof.
  intros Hl Hj He Hi. destruct a, x; simpl; try done.
  - destruct (Jobs.ClaimNext (e_world e)) as [r w'] eqn:Ec. pose proof (job_inv_claim e i r w' Hj Hi Ec) as [_ Hc].
    assert (Hw : stream_inv (set_world w' e)) by (destruct He; by split).
    destruct r as [[job|]|err]; intros [= <-]; [|exact Hw..].
    eapply (stream_inv_move (set_world w' e) _ i Idle (Waiting job)); try done.
    intros j [= <-]. right. by apply (Hc job).
  - intros [= <-]. by eapply (stream_inv_move e _ i _ Stopped).
  - intros [= <-]. eapply (stream_inv_move e _ i _ (Blocked job)); try done. by left.
  - destruct (lock_acquire _ _) as [k|] eqn:Ek; intros [= <-].
    eapply (stream_inv_move e _ i _ (Running job [])); try done; [by left|].
    intros j s ch l [= <- <-]. set_solver.
  - destruct (handler e); intros [= <-].
    eapply (stream_inv_move e _ i _ (Running job _)); try done; [by left|].
    intros j s ch l [= <- <-]. rewrite elem_of_app. intros [Hin|Hin]; [by eapply (si_sends e He)|].
    unfold fan_out in Hin. apply list_elem_of_In, in_map_iff in Hin as (k & [= <- _] & Hk).
    by apply list_elem_of_In.
  - destruct (sends !! k) as [[ch l]|] eqn:Ek; intros [= <-].
    assert (Hin : ch ∈ subs_of job.(job_ID) e).
    { eapply (si_sends e He); [exact Hi|]. apply list_elem_of_lookup. by exists k. }
    destruct (si_subs e He _ _ Hin) as (c & Hc & Hcl & Hcj). unfold on_chan. rewrite Hc. unfold try_send. rewrite Hcl.
    assert (Hs : forall c', c'.(ch_closed) = false -> c'.(ch_job) = c.(ch_job) -> 
      stream_inv (set_worker i (Running job (delete k sends)) (set_chan ch c' e))).
    { intros c' H1 H2. eapply (stream_inv_move (set_chan ch c' e) _ i (Running job sends) (Running job (delete k sends))); try done.
      - apply (stream_inv_chan e ch c c'); [done|done| |done]. congruence.
      - by left.
      - intros j s ch' l' [= <- <-] Hin'. change (ch' ∈ subs_of job.(job_ID) e).
        eapply (si_sends e He _ _ _ _ l' Hi). apply list_elem_of_lookup in Hin' as [m Hm].
        rewrite list_lookup_delete in Hm. case_decide; apply list_elem_of_lookup; by eexists. }
    destruct (_ <? _)%nat; by apply Hs.
  - intros [= <-]. eapply (stream_inv_move e _ i _ (Returned job)); try done. by left.
  - unfold lock_release. rewrite (li_held e Hl _ _ _ Hi eq_refl). intros [= <-].
    eapply (stream_inv_move e _ i _ (Unlocked job)); try done. by left.
  - intros [= <-]. by apply stream_inv_take.
  - destruct chs as [|ch chs]; intros [= <-]. by apply stream_inv_close.
  - destruct chs as [|ch chs]; intros [= <-].
    eapply (stream_inv_move e _ i _ Idle); try done. by intros j chs [= _ <-].
Qed.

Lemma reachable_stream_inv n h e : reachable n h e -> stream_inv e.
Proof.
  induction 1 as [w Hw|e a e' Hr IH Ha Hs].
  - split; simpl; try done.
    + by intros i x j Hx%start_worker; subst.
    + intros id ch. unfold subs_of. simpl. rewrite lookup_empty. set_solver.
    + intros id. unfold subs_of. simpl. rewrite lookup_empty. constructor.
    + by intros i j sends ch l Hx%start_worker.
    + by intros i j chs Hx%start_worker.
    + intros ch id (c & Hc & _). simpl in Hc. by rewrite lookup_empty in Hc.
  - pose proof (reachable_lock_inv n h e Hr) as Hl. pose proof (reachable_job_inv n h e Hr) as Hj.
    apply step_inv in Hs as [(i & x & Hi & Hs)|[(id & _ & ->)|[(ch & c & _ & Hc & ->)|(w & -> & ->)]]].
    + by eapply stream_inv_worker.
    + by apply stream_inv_subscribe.
    + unfold on_chan. rewrite Hc. simpl. by apply (stream_inv_chan e ch c).
    + destruct IH; by split.
Qed.

(** C4. One job in flight per project: in every reachable state of the engine,
    whatever the interleaving of the workers and of the rest of the process, two
    workers whose handlers are running are on different projects. *)
Theorem one_in_flight n h e i i' j j' sends sends' :
  reachable n h e ->
  e.(workers) !! i = Some (Running j sends) -> e.(workers) !! i' = Some (Running j' sends') ->
  key j = key j' -> i = i'.
Proof.
  intros Hr Hi Hi' Hk. eapply (li_excl e (reachable_lock_inv n h e Hr)); [done..|simpl; by rewrite <- Hk].
Qed.

(** C20. The workers never deadlock: in every reachable state, if some worker is
    not stopped, some worker that is not stopped has a step of its own to take
    (a handler's return counts as one).  A worker waits only for the lock of a
    project, and only while a worker that waits for nothing holds it. *)
Theorem engine_progress n h e i x :
  reachable n h e -> e.(workers) !! i = Some x -> x <> Stopped ->
  exists a i' e', actor a = Some i' /\ step a e = Some e' /\
    (i' = i \/ exists j x', x = Blocked j /\ e.(workers) !! i' = Some x' /\ holds x' = Some (key j)).
Proof.
  intros Hr Hi Hx. pose proof (reachable_lock_inv n h e Hr) as [H1 H2 H3 H4].
  assert (Hself : forall a e', actor a = Some i -> worker_step a i x e = Some e' ->
    exists a i' e', actor a = Some i' /\ step a e = Some e' /\
      (i' = i \/ exists j x', x = Blocked j /\ e.(workers) !! i' = Some x' /\ holds x' = Some (key j))).
  { intros a e' Ha Hs. exists a, i, e'. unfold step. rewrite Ha, Hi. auto. }
  destruct x as [|job|job|job sends|job|job|job chs|]; [..|done].
  - eapply (Hself (Stop i)); done.
  - by eapply (Hself (EnterLock i)).
  - destruct (H4 i job Hi) as [[] Hk].
    + destruct (H3 _ Hk) as (i' & x' & Hi' & Hh).
      assert (Hst : exists a e', actor a = Some i' /\ step a e = Some e').
      { destruct x' as [| | |j' s'|j'| | |]; try done.
        - exists (Return i' Normal). unfold step. simpl. rewrite Hi'. by eexists.
        - exists (Release i'). unfold step. simpl. rewrite Hi'. simpl.
          destruct (lock_release _ _); by eexists. }
      destruct Hst as (a & e' & Ha & Hs). exists a, i', e'. split; [done|]. split; [done|].
      right. by exists job, x'.
    + eapply (Hself (Acquire i)); [done|]. simpl. unfold lock_acquire. by rewrite decide_True.
  - by eapply (Hself (Return i Normal)).
  - simpl in *. destruct (lock_release (key job) (locks e)) eqn:Ek;
      eapply (Hself (Release i)); try done; simpl; by rewrite Ek.
  - by eapply (Hself (TakeStreams i)).
  - destruct chs; [by eapply (Hself (Done i))|by eapply (Hself (CloseOne i))].
Qed.

(** C31. The log streams of a job are closed when it is over, once, and nothing is
    sent on a closed one: in every reachable state no operation on a channel (nor
    on a lock) has panicked, the channels of a job whose streams were closed are
    all closed but for the ones its worker is closing right now, and a channel
    subscribed after that is closed from the start. *)
Theorem streams_closed n h e :
  reachable n h e ->
  e.(panicked) = false /\
  forall id, id ∈ e.(finished) ->
    (forall ch c, e.(chans) !! ch = Some c -> c.(ch_job) = id -> c.(ch_closed) = true \/ being_closed e ch id) /\
    let '(ch, e') := subscribe id e in
    exists c, e'.(chans) !! ch = Some c /\ c.(ch_closed) = true /\ c.(ch_buf) = [].
Proof.
  intros Hr. pose proof (reachable_stream_inv n h e Hr) as He. split; [apply He|]. intros id Hid. split.
  - intros ch c Hc Hj. destruct (ch_closed c) eqn:Ecl; [by left|right].
    destruct (si_open e He ch id) as [Hin|Hb]; [by exists c| |done].
    rewrite (si_over e He id Hid) in Hin. set_solver.
  - unfold subscribe. rewrite decide_True by done. simpl. eexists. by rewrite lookup_insert_eq.
Qed.
End Spec.

(** ** Runs *)

Section Run.
Context {E : Env}.
Import Engine.

Fixpoint run (acts : list action) (e : Engine) : option Engine :=
  match acts with
  | [] => Some e
  | a :: acts' => match step a e with Some e' => run acts' e' | None => None end
  end.

Definition own_action (a : action) : bool := match a with World _ => false | _ => true end.

Lemma run_reachable n h acts e e' :
  reachable n h e -> forallb own_action acts = true -> run acts e = Some e' -> reachable n h e'.
Proof.
  revert e. induction acts as [|a acts IH]; intros e He; simpl; [by intros _ [= <-]|].
  intros [Ha Hs]%andb_true_iff. destruct (step a e) as [e1|] eqn:Es; [|done]. apply IH; [|done].
  eapply reach_step; [exact He| |exact Es]. by destruct a.
Qed.
End Run.

(** Two jobs of project 1 and one of project 2 are queued; two workers. *)
Definition demo_engine_db : db :=
  with_jobs (mkTable [demo_job 1 "apply" "queued" (Some 1) (Some 1);
                      demo_job 2 "apply" "queued" (Some 1) (Some 1);
                      demo_job 3 "sync" "queued" None None] 3) demo_db.

Lemma demo_engine_db_ok : db_ok demo_engine_db.
Proof. apply db_okb_ok. vm_compute. reflexivity. Qed.

Definition demo_engine : Engine.Engine := Engine.NewEngine 2 true (demo_world demo_engine_db).

Definition demo_run (acts : list Engine.action) : Engine.Engine :=
  default demo_engine (@run calm_env acts demo_engine).

Lemma demo_run_reachable acts :
  forallb own_action acts = true -> match @run calm_env acts demo_engine with Some _ => true | None => false end = true ->
  @reachable calm_env 2 true (demo_run acts).
Proof.
  intros Ho. unfold demo_run. destruct (@run calm_env acts demo_engine) as [e|] eqn:Er; [|done]. intros _.
  eapply run_reachable; [apply (reach_start 2 true (demo_world demo_engine_db)), demo_engine_db_ok|exact Ho|exact Er].
Qed.

(** Worker 0 runs job 1, a client follows it, worker 1 waits for the project with
    job 2. *)
Definition demo_waiting : list Engine.action :=
  [Engine.Claim 0; Engine.EnterLock 0; Engine.Acquire 0; Engine.Subscribe 1; Engine.EmitLine 0 "stdout" "pulling";
   Engine.Claim 1; Engine.EnterLock 1; Engine.Send 0 0].

(** The other way round: job 1 is over, and worker 0 took job 3. *)
Definition demo_parallel : list Engine.action :=
  demo_waiting ++ [Engine.Return 0 (Engine.Panicked "oops"); Engine.Release 0; Engine.TakeStreams 0;
    Engine.CloseOne 0; Engine.Done 0; Engine.Acquire 1; Engine.Claim 0; Engine.EnterLock 0; Engine.Acquire 0].

Definition running_job (i : nat) (e : Engine.Engine) : Job :=
  match e.(Engine.workers) !! i with
  | Some (Engine.Running j _) => j | _ => demo_job 0 "" "" None None
  end.

Lemma one_in_flight_witness :
  let e := demo_run demo_parallel in
  (running_job 0 e).(job_ID) = 3 /\ (running_job 1 e).(job_ID) = 2 /\
  Engine.key (running_job 0 e) <> Engine.key (running_job 1 e).
Proof.
  split; [vm_compute; reflexivity|]. split; [vm_compute; reflexivity|]. intros Hk.
  assert (H : 0%nat = 1%nat); [|discriminate].
  refine (@one_in_flight calm_env 2 true (demo_run demo_parallel) 0 1 _ _ [] []
    (demo_run_reachable demo_parallel eq_refl ltac:(vm_compute; reflexivity)) _ _ Hk); vm_compute; reflexivity.
Defined.

Lemma engine_progress_witness :
  let e := demo_run demo_waiting in
  (exists j, e.(Engine.workers) !! 1%nat = Some (Engine.Blocked j)) /\
  exists a i' e', Engine.actor a = Some i' /\ @Engine.step calm_env a e = Some e'.
Proof.
  assert (Hb : exists j, (demo_run demo_waiting).(Engine.workers) !! 1%nat = Some (Engine.Blocked j))
    by (vm_compute; eexists; reflexivity).
  split; [exact Hb|]. destruct Hb as [j Hj].
  destruct (@engine_progress calm_env 2 true (demo_run demo_waiting) 1 (Engine.Blocked j)
    (demo_run_reachable demo_waiting eq_refl ltac:(vm_compute; reflexivity)) Hj ltac:(discriminate)) as (a & i' & e' & H1 & H2 & _).
  by exists a, i', e'.
Defined.

Lemma streams_closed_witness :
  let e := demo_run demo_parallel in
  e.(Engine.panicked) = false /\ (1 ∈ e.(Engine.finished)) /\
  map_to_list e.(Engine.chans) = [(0%nat, mkChan [mkLine "stdout" "pulling"] 256 true 1)] /\
  map job_Status e.(Engine.e_world).(w_db).(jobs).(rows) = ["failed"; "running"; "running"].
Proof.
  pose proof (@streams_closed calm_env 2 true (demo_run demo_parallel)
    (demo_run_reachable demo_parallel eq_refl ltac:(vm_compute; reflexivity))) as [Hp _].
  split; [exact Hp|]. split; [apply (bool_decide_eq_true_1 _); vm_compute; reflexivity|].
  split; vm_compute; reflexivity.
Defined.
