(* ===== verification/Registry.v ===== *)
(** * The registry client (internal/registry/registry.go)

    Anonymous first: stored credentials are looked up, and sent, only after the
    registry answered an anonymous request with a 401.  go-containerregistry
    (the parsing of references, the requests and what a descriptor gives) is the
    class [ContainerRegistry]; the credential store is the table-backed one. *)

From stdpp Require Import base list strings gmap sets.
From S2P Require Import Prelude GoStd Db World StoreMisc Files Daemon.

Local Open Scope Z_scope.

Record Platform := mkPlatform { pl_OS : string; pl_Arch : string }.

(** [runtime.GOOS] and [runtime.GOARCH]. *)
Class Runtime := { GOOS : string; GOARCH : string }.
Definition HostPlatform {R : Runtime} : Platform := mkPlatform GOOS GOARCH.

(** A parsed reference: its full text and the host of its registry. *)
Record Reference := mkReference { rf_String : string; rf_Registry : string }.

(** What a config file gives: labels, creation time, os, architecture. *)
Record ConfigFile := mkConfigFile {
  cf_Labels : gmap string string;
  cf_Created : option Z;
  cf_OS : string;
  cf_Architecture : string;
}.

Class ContainerRegistry := {
  Descriptor : Type;
  V1Image : Type;
  ParseReference : string -> result Reference;
  NewRepository : string -> result Reference;
  remote_get : nat -> string -> Platform -> option (string * string) -> result Descriptor;
  remote_list : nat -> string -> option (string * string) -> result (list string);
  remote_head : nat -> string -> option (string * string) -> result string;
  desc_Digest : Descriptor -> string;
  desc_MediaType : Descriptor -> string;
  desc_Image : nat -> Descriptor -> result V1Image;
  image_Digest : nat -> V1Image -> result string;
  image_ConfigName : nat -> V1Image -> result string;
  image_ConfigFile : nat -> V1Image -> result (option ConfigFile);
}.

(** *** Errors, by the status of the first transport error of the chain *)

Definition has_status (code : Z) (e : error) : bool :=
  match errors_As_transport e with Some c => c =? code | None => false end.

Definition IsRateLimited (e : error) : bool := has_status 429 e.
Definition IsUnauthorized (e : error) : bool := has_status 401 e.
Definition IsNotFound (e : error) : bool := has_status 404 e.

Module Resolver.
Section Resolver.
Context {E : Env} {SL : Sealer} {CR : ContainerRegistry}.

(** Whether a credential store is wired ([r.creds != nil]). *)
Context (creds : bool).

(** What [get], [ListTags] and [Head] do about a 401; [request] is the call to
    the registry under an authentication, [what] the text of its errors. *)
Definition request {A} (op ref : string) (auth : option (string * string))
    (answer : nat -> option (string * string) -> result A) : M world (result A) :=
  call (fun r => EvRegistry op ref (bool_decide (auth <> None)) (is_ok r)) (fun n => answer n auth).

Definition with_retry {A} (op ref registry what : string)
    (answer : nat -> option (string * string) -> result A) : M world (result A) :=
  let! r := request op ref None answer in
  match r with
  | Ok a => ret (Ok a)
  | Err e =>
      if negb (IsUnauthorized e) || negb creds
      then ret (Err (Wrap ("registry: " +:+ op +:+ " " +:+ Quote what) e))
      else
        let! auth := Credentials.Lookup registry in
        match auth with
        | None => ret (Err (Wrap ("registry: " +:+ op +:+ " " +:+ Quote what) e))
        | Some up =>
            let! r := request op ref (Some up) answer in
            match r with
            | Err e => ret (Err (Wrap ("registry: " +:+ op +:+ " " +:+ Quote what +:+ " (with creds)") e))
            | Ok a => ret (Ok a)
            end
        end
  end.

Definition get (ref : Reference) (platform : Platform) : M world (result Descriptor) :=
  with_retry "get" ref.(rf_String) ref.(rf_Registry) ref.(rf_String)
    (fun n auth => remote_get n ref.(rf_String) platform auth).

Definition ListTags (repo : string) : M world (result (list string)) :=
  match NewRepository repo with
  | Err e => ret (Err (Wrap ("registry: parse repo " +:+ Quote repo) e))
  | Ok rep =>
      with_retry "list" rep.(rf_String) rep.(rf_Registry) repo (fun n auth => remote_list n rep.(rf_String) auth)
  end.

Definition Head (ref : string) : M world (result string) :=
  match ParseReference ref with
  | Err e => ret (Err (Wrap ("registry: parse ref " +:+ Quote ref) e))
  | Ok parsed =>
      with_retry "head" parsed.(rf_String) parsed.(rf_Registry) ref (fun n auth => remote_head n parsed.(rf_String) auth)
  end.

(** A read through a descriptor that was fetched. *)
Definition fetch {A} (answer : nat -> A) : M world A := fun w => (answer w.(w_tick), tick w).

Definition Resolve (ref : string) (plat : Platform) : M world (result RemoteImage) :=
  match ParseReference ref with
  | Err e => ret (Err (Wrap ("registry: parse ref " +:+ Quote ref) e))
  | Ok parsed =>
      let? desc := get parsed plat in
      let! img := fetch (fun n => desc_Image n desc) in
      match img with
      | Err e => ret (Err (Wrap ("registry: resolve image " +:+ Quote ref) e))
      | Ok img =>
          let! h := fetch (fun n => image_Digest n img) in
          let! cn := fetch (fun n => image_ConfigName n img) in
          let! cf := fetch (fun n => image_ConfigFile n img) in
          let digest := desc_Digest desc in
          let plat_digest := match h with Ok h => h | Err _ => "" end in
          let config := match cf with Ok (Some c) => c | _ => mkConfigFile ∅ None "" "" end in
          ret (Ok (mkRemote ref digest
                     (if String.eqb plat_digest "" then digest else plat_digest)
                     (match cn with Ok cn => cn | Err _ => "" end)
                     (desc_MediaType desc) config.(cf_Labels) config.(cf_Created)
                     config.(cf_OS) config.(cf_Architecture)))
      end
  end.

Definition ConfigDigest (ref : string) (plat : Platform) : M world (result string) :=
  match ParseReference ref with
  | Err e => ret (Err (Wrap ("registry: parse ref " +:+ Quote ref) e))
  | Ok parsed =>
      let? desc := get parsed plat in
      let! img := fetch (fun n => desc_Image n desc) in
      match img with
      | Err e => ret (Err (Wrap ("registry: resolve image " +:+ Quote ref) e))
      | Ok img =>
          let! cn := fetch (fun n => image_ConfigName n img) in
          match cn with
          | Err e => ret (Err (Wrap ("registry: config name " +:+ Quote ref) e))
          | Ok cn => ret (Ok cn)
          end
      end
  end.
End Resolver.
End Resolver.

(** ** Properties *)

Section Spec.
Context {E : Env} {SL : Sealer} {CR : ContainerRegistry} (creds : bool).

Definition registry_events (l : list event) : list event :=
  List.filter (fun e => match e with EvRegistry _ _ _ _ => true | _ => false end) l.

(** The requests of one call, newest first: an anonymous one that decided, or an
    anonymous one the registry answered with 401 and then one with the stored
    credentials. *)
Definition anonymous_first {A} (op ref : string) (answer : nat -> option (string * string) -> result A)
    (r : result A) (l : list event) : Prop :=
  (exists n, registry_events l = [EvRegistry op ref false (is_ok r)] /\
     match answer n None with Ok a => r = Ok a | Err e => exists e', r = Err e' /\ errors_As_transport e' = errors_As_transport e end) \/
  (creds = true /\ exists n e m auth, answer n None = Err e /\ IsUnauthorized e = true /\
     registry_events l = [EvRegistry op ref true (is_ok r); EvRegistry op ref false false] /\
     match answer m (Some auth) with Ok a => r = Ok a | Err e => exists e', r = Err e' /\ errors_As_transport e' = errors_As_transport e end).

Lemma lookup_events host w r w' :
  Credentials.Lookup host w = (r, w') -> exists l, w'.(w_trace) = l ++ w.(w_trace) /\ registry_events l = [].
Proof.
  intros (q & w1 & Hs & Hk)%bind_inv.
  assert (H1 : exists l, w1.(w_trace) = l ++ w.(w_trace) /\ registry_events l = []).
  { destruct q as [a|e].
    - apply sql_ok_inv in Hs as (_ & _ & -> & _). by exists [EvSql "credentials.Lookup" 0].
    - apply sql_err_inv in Hs as ->. by exists []. }
  destruct q as [[u enc]|e]; [destruct (open_ enc)|]; injection Hk as <- <-; exact H1.
Qed.

(** C32. Credentials are never sent unasked: every [get], [ListTags] and [Head]
    starts with an anonymous request, and a second one, with the stored
    credentials, is made only when a store is wired and the registry answered
    the first with a 401.  The answer is the last request's, and its error keeps
    the status code. *)
Theorem with_retry_spec {A} op ref registry what (answer : nat -> option (string * string) -> result A) w :
  let '(r, w') := Resolver.with_retry creds op ref registry what answer w in
  exists l, w'.(w_trace) = l ++ w.(w_trace) /\ anonymous_first op ref answer r l.
Proof.
  destruct (Resolver.with_retry _ _ _ _ _ _ w) as [r w'] eqn:Hr. unfold Resolver.with_retry in Hr.
  apply bind_inv in Hr as (r1 & w1 & H1 & Hk). unfold Resolver.request, call in H1. injection H1 as Hr1 <-.
  rewrite Hr1 in Hk. destruct r1 as [a|e]; cbn [is_ok] in Hk.
  - injection Hk as <- <-. eexists [_]. split; [done|]. left. exists w.(w_tick). by rewrite Hr1.
  - destruct (negb (IsUnauthorized e) || negb creds) eqn:Eu.
    { injection Hk as <- <-. eexists [_]. split; [done|]. left. exists w.(w_tick). rewrite Hr1. eauto. }
    apply orb_false_iff in Eu as [Hu%negb_false_iff Hc%negb_false_iff].
    apply bind_inv in Hk as (auth & w2 & Hl & Hk). apply lookup_events in Hl as (l & Hl & Hno).
    destruct auth as [up|].
    2:{ injection Hk as <- <-. exists (l ++ [EvRegistry op ref false false]). rewrite Hl. simpl.
        split; [by rewrite <- app_assoc|]. left. exists w.(w_tick). rewrite Hr1. split; [|eauto].
        unfold registry_events in *. by rewrite List.filter_app, Hno. }
    apply bind_inv in Hk as (r2 & w3 & H2 & Hk). unfold Resolver.request, call in H2. injection H2 as Hr2 <-.
    exists (EvRegistry op ref true (is_ok r2) :: l ++ [EvRegistry op ref false false]).
    assert (Hfin : (record (EvRegistry op ref true (is_ok r2)) (tick w2)).(w_trace) =
      (EvRegistry op ref true (is_ok r2) :: l ++ [EvRegistry op ref false false]) ++ w.(w_trace)).
    { simpl. rewrite Hl. simpl. by rewrite <- app_assoc. }
    assert (Hev : registry_events (EvRegistry op ref true (is_ok r2) :: l ++ [EvRegistry op ref false false]) =
      [EvRegistry op ref true (is_ok r2); EvRegistry op ref false false]).
    { unfold registry_events in *. simpl. by rewrite List.filter_app, Hno. }
    destruct r2 as [a|e2]; injection Hk as <- <-; rewrite Hr2; (split; [exact Hfin|]); right; split; [done| |done|];
      exists w.(w_tick), e, w2.(w_tick), up; (split; [done|]); (split; [done|]); (split; [exact Hev|]);
      rewrite Hr2; eauto.
Qed.
End Spec.
