(* ===== verification/Detect.v ===== *)
(** * Drift detection (internal/detect/detect.go)

    The detector compares what a service runs with what the registry serves and
    records an update on drift.  It knows the registry through the interface of
    the source, here a class of operations with the law the detector relies on:
    a registry call leaves the database and the files alone.  The client of
    Registry.v is an instance.  Logging is left out. *)

From stdpp Require Import base list strings gmap sets.
From S2P Require Import Prelude GoStd Semver Db Integrity World StoreUpdates StoreServices StoreMisc.
From S2P Require Import Files Daemon Registry.

Local Open Scope Z_scope.

(** ** The registry, as the detector sees it *)

(** Events of a scan: statements, requests to the registry and the changelog
    sources, hints to the dashboard; no container, no file. *)
Definition scan_event (e : event) : bool :=
  match e with EvSql _ _ | EvRegistry _ _ _ _ | EvHttp _ _ | EvNotify _ _ => true | _ => false end.

(** [m] leaves the database and the files alone and makes only such events. *)
Definition reads {A} (m : M world A) : Prop := forall w,
  (m w).2.(w_db) = w.(w_db) /\ (m w).2.(w_fs) = w.(w_fs) /\
  exists l, (m w).2.(w_trace) = l ++ w.(w_trace) /\ forallb scan_event l = true.

Class RegistryAPI := {
  api_Resolve : string -> M world (result RemoteImage);
  api_ListTags : string -> M world (result (list string));
  api_ConfigDigest : string -> M world (result string);
  api_Head : string -> M world (result string);
}.

Class RegistryReads (A : RegistryAPI) : Prop := {
  reads_Resolve ref : reads (api_Resolve ref);
  reads_ListTags repo : reads (api_ListTags repo);
  reads_ConfigDigest ref : reads (api_ConfigDigest ref);
  reads_Head ref : reads (api_Head ref);
}.

(** encoding/json on a map of labels, and back: what is in a nil map after
    [Unmarshal], whose error is ignored. *)
Class LabelsJSON := {
  labels_Marshal : gmap string string -> string;
  labels_Unmarshal : string -> gmap string string;
}.

(** ** The detector *)
Module Detector.

(** Which of the repositories [NewDetector] was given are not nil. *)
Record Detector := mkDetector { updates : bool; images : bool; tagCache : bool }.

Definition NewDetector : Detector := mkDetector true true true.

Definition version_label : string := "org.opencontainers.image.version".
Definition label (k : string) (l : gmap string string) : string := default "" (l !! k).

Definition reverseScanCap : nat := 50.

Section Detector.
Context {E : Env} {SS : SliceSort} {A : RegistryAPI} {LJ : LabelsJSON} (d : Detector).

(** Cached for good, or asked for and cached. *)
Definition lookupConfigDigest (repo tag : string) : M world (result string) :=
  let! cd := api_ConfigDigest (repo +:+ ":" +:+ tag) in
  match cd with
  | Err e => ret (Err e)
  | Ok cd =>
      do! (if d.(tagCache) then do! TagDigests.Put repo tag cd in ret tt else ret tt) in
      ret (Ok cd)
  end.

Definition candidateConfigDigest (repo tag : string) : M world (result string) :=
  if d.(tagCache) then
    let! cached := TagDigests.Get repo tag in
    match cached with
    | Ok (Some cd) => ret (Ok cd)
    | _ => lookupConfigDigest repo tag
    end
  else lookupConfigDigest repo tag.

Fixpoint match_candidates (repo configDigest : string) (cands : list string) : M world (string * bool) :=
  match cands with
  | [] => ret ("", true)
  | t :: cands' =>
      let! cd := candidateConfigDigest repo t in
      match cd with
      | Err e => if IsRateLimited e then ret ("", false) else match_candidates repo configDigest cands'
      | Ok cd => if String.eqb cd configDigest then ret (t, true) else match_candidates repo configDigest cands'
      end
  end.

Definition scan_tags (repo configDigest : string) : M world (string * bool) :=
  let! tags := api_ListTags repo in
  match tags with
  | Err _ => ret ("", false)
  | Ok tags => match_candidates repo configDigest (take reverseScanCap (semverTagsDesc tags))
  end.

Definition matchVersionByDigest (repo configDigest preferTag : string) : M world (string * bool) :=
  if String.eqb configDigest "" then ret ("", true)
  else if negb (String.eqb preferTag "") then
    let! cd := candidateConfigDigest repo preferTag in
    match cd with
    | Ok cd => if String.eqb cd configDigest then ret (preferTag, true) else scan_tags repo configDigest
    | Err _ => scan_tags repo configDigest
    end
  else scan_tags repo configDigest.

Definition closeStaleUpdates (serviceID : Z) : M world unit :=
  if d.(updates) then do! Updates.SupersedeAllOpen serviceID in ret tt else ret tt.

(** A floating tag that carries no version. *)
Definition fully_floating (repo tag : string) : bool :=
  String.eqb (semverOrEmpty tag) "" && bool_decide (ClassifyTag (repo +:+ ":" +:+ tag) = TagFloating).

Definition name_current (repo digest cd label_ : string) : M world unit :=
  let! m := matchVersionByDigest repo cd (semverTagPref label_) in
  let '(tagName, conclusive) := m in
  if String.eqb tagName "" && negb conclusive then ret tt
  else
    let ver := if String.eqb tagName "" || negb (preferDigestTag tagName label_) then label_ else tagName in
    do! Images.SetResolvedVersion repo digest ver in ret tt.

Definition resolveCurrentVersion (repo tag digest configDigest : string) (remote : RemoteImage) : M world unit :=
  if negb d.(images) || String.eqb digest "" then ret tt
  else if negb (fully_floating repo tag) then ret tt
  else
    let! img := Images.GetByDigest repo digest in
    let cd := if String.eqb configDigest "" then remote.(ri_ConfigDigest) else configDigest in
    let name := name_current repo digest cd (label version_label remote.(ri_Labels)) in
    match img with
    | Ok img => if img.(img_VersionResolved) then ret tt else name
    | Err _ => name
    end.

Definition recordImage (repo tag : string) (remote : RemoteImage) (labelsJSON : string) : M world unit :=
  do! Images.Upsert (mkImage 0 repo tag remote.(ri_Digest) remote.(ri_MediaType) remote.(ri_OS)
        remote.(ri_Architecture) 0 remote.(ri_BuiltAt) labelsJSON
        (label "org.opencontainers.image.source" remote.(ri_Labels))
        (label "org.opencontainers.image.revision" remote.(ri_Labels)) "" false) in
  ret tt.

Definition drift_update (svc : Service) (tag toDigest fromVer toVer severity : string) : Update :=
  mkUpdate 0 svc.(sv_ID) svc.(sv_CurrentDigest) toDigest fromVer toVer tag severity "" "" "" "available" 0 None.

Definition with_id (id : Z) (u : Update) : Update :=
  mkUpdate id u.(up_ServiceID) u.(up_FromDigest) u.(up_ToDigest) u.(up_FromVersion) u.(up_ToVersion)
    u.(up_Tag) u.(up_Severity) u.(up_ChangelogURL) u.(up_ChangelogText) u.(up_ChangelogStatus)
    u.(up_Status) u.(up_DetectedAt) u.(up_AppliedAt).

(** [record] of the source. *)
Definition record_ (svc : Service) (tag toDigest fromVer toVer severity : string) :
    M world (result (option Update)) :=
  let up := drift_update svc tag toDigest fromVer toVer severity in
  let! r := Updates.RecordDrift up in
  match r with
  | Err e => ret (Err e)
  | Ok (id, isNew) =>
      if isNew then
        let! ev := Events.Insert (mkEvent 0 svc.(sv_ID) "detected" None svc.(sv_CurrentDigest) toDigest
                     "update available" 0 "" "") in
        match ev with
        | Err e => ret (Err e)
        | Ok _ => ret (Ok (Some (with_id id up)))
        end
      else ret (Ok (Some (with_id id up)))
  end.

(** The HEAD confirmed the running digest. *)
Definition head_unchanged (svc : Service) (repo tag served : string) (now_ : Z) : M world bool :=
  let! prev := RemoteStates.Get repo tag in
  let labels := match prev with
                | Ok p => if String.eqb p.(rs_ManifestLabels) "" then "{}" else p.(rs_ManifestLabels)
                | Err _ => "{}"
                end in
  do! RemoteStates.Upsert (mkRemoteState repo tag served (Some now_) labels "ok") in
  do! closeStaleUpdates svc.(sv_ID) in
  ret true.

Definition headShortcut (svc : Service) (repo tag : string) (now_ : Z) : M world bool :=
  if negb d.(images) then ret false
  else if negb (bool_decide (ClassifyTag (repo +:+ ":" +:+ tag) = TagFloating)) then ret false
  else
    let! img := Images.GetByDigest repo svc.(sv_CurrentDigest) in
    match img with
    | Err _ => ret false
    | Ok img =>
        if negb img.(img_VersionResolved) then ret false
        else
          let! served := api_Head svc.(sv_ImageRef) in
          match served with
          | Err _ => ret false
          | Ok served =>
              if negb (String.eqb served svc.(sv_CurrentDigest)) then ret false
              else head_unchanged svc repo tag served now_
          end
    end.

(** The status of a failed resolution. *)
Definition failure_status (e : error) : string :=
  if IsRateLimited e then "rate_limited"
  else if IsUnauthorized e || IsNotFound e then "not_found"
  else "error".

(** Step 2b: the newer tag an exact pin should move to, with its image. *)
Definition semver_scan (repo tag : string) (remote : RemoteImage) : M world (string * RemoteImage) :=
  if bool_decide (ClassifyTag (repo +:+ ":" +:+ tag) = TagExact) then
    let! tags := api_ListTags repo in
    match tags with
    | Err _ => ret (tag, remote)
    | Ok tags =>
        match NewerSemverTag tag tags with
        | None => ret (tag, remote)
        | Some newer =>
            let! nr := api_Resolve (repo +:+ ":" +:+ newer) in
            match nr with
            | Err _ => ret (tag, remote)
            | Ok nr => ret (newer, nr)
            end
        end
    end
  else ret (tag, remote).

(** Step 4: the two version names. *)
Definition name_ends (svc : Service) (repo tag targetTag : string) (targetRemote : RemoteImage) :
    M world (string * string) :=
  let fromVer := semverOrEmpty tag in
  let fromVer := if String.eqb fromVer "" then svc.(sv_ImageVersion) else fromVer in
  let toVer := if negb (String.eqb targetTag tag) then semverOrEmpty targetTag else "" in
  let toLabel := label version_label targetRemote.(ri_Labels) in
  let toVer := if String.eqb toVer "" then toLabel else toVer in
  let! vers :=
    if fully_floating repo tag then
      let! m1 := matchVersionByDigest repo svc.(sv_CurrentImageID) (semverTagPref svc.(sv_ImageVersion)) in
      let fromVer' := if negb (String.eqb m1.1 "") && preferDigestTag m1.1 fromVer then m1.1 else fromVer in
      let! m2 := matchVersionByDigest repo targetRemote.(ri_ConfigDigest) (semverTagPref toLabel) in
      let toVer' := if negb (String.eqb m2.1 "") && preferDigestTag m2.1 toVer then m2.1 else toVer in
      ret (fromVer', toVer')
    else ret (fromVer, toVer) in
  let '(fromVer, toVer) := vers in
  ret (fromVer, if String.eqb toVer "" then fromVer else toVer).

(** From the comparison on. *)
Definition compare_and_record (svc : Service) (repo tag : string) (remote : RemoteImage)
    (targetTag : string) (targetRemote : RemoteImage) : M world (result (option Update)) :=
  if String.eqb targetRemote.(ri_Digest) svc.(sv_CurrentDigest)
     || String.eqb targetRemote.(ri_PlatformDigest) svc.(sv_CurrentDigest) then
    do! closeStaleUpdates svc.(sv_ID) in
    do! resolveCurrentVersion repo tag svc.(sv_CurrentDigest) svc.(sv_CurrentImageID) remote in
    ret (Ok None)
  else
    let! vers := name_ends svc repo tag targetTag targetRemote in
    let '(fromVer, toVer) := vers in
    record_ svc targetTag targetRemote.(ri_Digest) fromVer toVer (Severity fromVer toVer).

(** From an ok resolution on. *)
Definition detect_resolved (svc : Service) (repo tag : string) (now_ : Z) (remote : RemoteImage) :
    M world (result (option Update)) :=
  let labelsStr := labels_Marshal remote.(ri_Labels) in
  do! RemoteStates.Upsert (mkRemoteState repo tag remote.(ri_Digest) (Some now_) labelsStr "ok") in
  do! recordImage repo tag remote labelsStr in
  let! target := semver_scan repo tag remote in
  let '(targetTag, targetRemote) := target in
  do! (if negb (String.eqb targetTag tag)
       then recordImage repo targetTag targetRemote (labels_Marshal targetRemote.(ri_Labels)) else ret tt) in
  compare_and_record svc repo tag remote targetTag targetRemote.

Definition Detect (svc : Service) : M world (result (option Update)) :=
  if String.eqb svc.(sv_ImageRef) "" || String.eqb svc.(sv_CurrentDigest) "" then ret (Ok None)
  else
    let '(repo, tag) := SplitRef svc.(sv_ImageRef) in
    let! now_ := now in
    if svc.(sv_ImageLocal) then
      do! RemoteStates.Upsert (mkRemoteState repo tag "" (Some now_) "" "local") in ret (Ok None)
    else
      let! short := headShortcut svc repo tag now_ in
      if short then ret (Ok None)
      else
        let! remote := api_Resolve svc.(sv_ImageRef) in
        match remote with
        | Err e =>
            do! RemoteStates.Upsert (mkRemoteState repo tag "" (Some now_) "" (failure_status e)) in
            ret (Ok None)
        | Ok remote => detect_resolved svc repo tag now_ remote
        end.

End Detector.
End Detector.

(** ** The client of Registry.v keeps the promise *)

Section Reads.
Context {E : Env}.

Lemma reads_ret {A} (a : A) : reads (ret a).
Proof. intros w. split; [done|]. split; [done|]. by exists []. Qed.

Lemma reads_bind {A B} (m : M world A) (k : A -> M world B) : reads m -> (forall a, reads (k a)) -> reads (bind m k).
Proof.
  intros Hm Hk w. unfold bind. specialize (Hm w). destruct (m w) as [a w1].
  destruct Hm as (H1 & H2 & l1 & H3 & H4), (Hk a w1) as (H5 & H6 & l2 & H7 & H8). simpl in *.
  split; [congruence|]. split; [congruence|]. exists (l2 ++ l1). rewrite H7, H3, app_assoc.
  split; [done|]. by rewrite forallb_app, H4, H8.
Qed.

Lemma reads_bind_ok {A B} (m : M world (result A)) (k : A -> M world (result B)) :
  reads m -> (forall a, reads (k a)) -> reads (bind_ok m k).
Proof. intros Hm Hk. apply reads_bind; [done|]. intros [a|e]; [apply Hk|apply reads_ret]. Qed.

Lemma reads_request {A} (ev : A -> event) (ans : nat -> A) : (forall a, scan_event (ev a) = true) -> reads (call ev ans).
Proof.
  intros He w. split; [done|]. split; [done|]. exists [ev (ans w.(w_tick))]. simpl. by rewrite He.
Qed.

Lemma reads_lookup {SL : Sealer} host : reads (Credentials.Lookup host).
Proof.
  apply reads_bind.
  - intros w. destruct (sql _ _ _ w) as [[a|e] w'] eqn:Es.
    + apply sql_ok_inv in Es as (Hs & Hf & Ht & _).
      destruct (List.find _ _); [|done]. injection Hs as _ Hd. simpl. rewrite Ht. split; [done|]. split; [done|].
      by exists [EvSql "credentials.Lookup" 0].
    + apply sql_err_inv in Es as ->. split; [done|]. split; [done|]. by exists [].
  - intros [[u enc]|e]; [|apply reads_ret]. destruct (open_ enc); apply reads_ret.
Qed.

Context {SL : Sealer} {CR : ContainerRegistry} (creds : bool) (plat : Platform).

Lemma reads_with_retry {A} op ref reg what (answer : nat -> option (string * string) -> result A) :
  reads (Resolver.with_retry creds op ref reg what answer).
Proof.
  apply reads_bind; [by apply reads_request|]. intros [a|e]; [apply reads_ret|].
  destruct (_ || _); [apply reads_ret|]. apply reads_bind; [apply reads_lookup|].
  intros [up|]; [|apply reads_ret]. apply reads_bind; [by apply reads_request|].
  intros [a|e']; apply reads_ret.
Qed.

Lemma reads_fetch {A} (ans : nat -> A) : reads (Resolver.fetch ans).
Proof. intros w. split; [done|]. split; [done|]. by exists []. Qed.

Instance registry_api : RegistryAPI := {
  api_Resolve ref := Resolver.Resolve creds ref plat;
  api_ListTags := Resolver.ListTags creds;
  api_ConfigDigest ref := Resolver.ConfigDigest creds ref plat;
  api_Head := Resolver.Head creds;
}.

Ltac reads_walk := repeat first
  [ apply reads_with_retry | apply reads_fetch | apply reads_ret | apply reads_bind_ok | apply reads_bind
  | progress intros | match goal with |- reads (match ?x with _ => _ end) => destruct x end ].

(** The registry client is what the detector asks for. *)
#[export] Instance registry_reads : RegistryReads registry_api.
Proof.
  split; simpl; intros; unfold Resolver.Resolve, Resolver.ListTags, Resolver.ConfigDigest, Resolver.Head, Resolver.get;
    reads_walk.
Qed.
End Reads.

(** ** Properties of the detector *)

Section Spec.
Context {E : Env} {SS : SliceSort} {A : RegistryAPI} {LJ : LabelsJSON} (d : Detector.Detector).
Import Detector.

(** The registry answered [r] for [ref], at some moment. *)
Definition resolved (ref : string) (r : RemoteImage) : Prop := exists w, (api_Resolve ref w).1 = Ok r.
Definition listed (repo : string) (tags : list string) : Prop := exists w, (api_ListTags repo w).1 = Ok tags.

(** The image the service should run, under the tag it should be pulled by: the
    tracked tag's, or for an exact pin a newer tag's of the same stream. *)
Definition target_of (imageRef repo tag targetTag : string) (r : RemoteImage) : Prop :=
  (targetTag = tag /\ resolved imageRef r) \/
  (ClassifyTag (repo +:+ ":" +:+ tag) = TagExact /\
   (exists tags, listed repo tags /\ NewerSemverTag tag tags = Some targetTag) /\
   resolved (repo +:+ ":" +:+ targetTag) r).

Lemma semver_scan_target imageRef repo tag remote w t r w' :
  resolved imageRef remote -> semver_scan repo tag remote w = ((t, r), w') -> target_of imageRef repo tag t r.
Proof.
  intros Hr. unfold semver_scan. case_bool_decide as Hc.
  2:{ intros [= <- <- <-]. by left. }
  intros (tags & w1 & Ht & Hk)%bind_inv. destruct tags as [tags|e].
  2:{ injection Hk as <- <- <-. by left. }
  destruct (NewerSemverTag tag tags) as [newer|] eqn:En.
  2:{ injection Hk as <- <- <-. by left. }
  apply bind_inv in Hk as (nr & w2 & Hn & Hk). destruct nr as [nr|e]; injection Hk as <- <- <-; [right|by left].
  split; [done|]. split; [exists tags; split; [by exists w; rewrite Ht|done]|]. exists w1. by rewrite Hn.
Qed.

Lemma record_answer svc t dg f v s w u w' :
  record_ svc t dg f v s w = (Ok (Some u), w') ->
  exists w1 id isNew w2, Updates.RecordDrift (drift_update svc t dg f v s) w1 = (Ok (id, isNew), w2) /\
    u = with_id id (drift_update svc t dg f v s).
Proof.
  intros (r & w1 & Hr & Hk)%bind_inv. destruct r as [[id isNew]|e]; [|done].
  exists w, id, isNew, w1. split; [done|]. destruct isNew.
  - apply bind_inv in Hk as (ev & w2 & _ & Hk). destruct ev; [|done]. by injection Hk as <- <-.
  - by injection Hk as <- <-.
Qed.

Lemma record_no_none svc t dg f v s w w' : record_ svc t dg f v s w <> (Ok None, w').
Proof.
  intros (r & w1 & Hr & Hk)%bind_inv. destruct r as [[id []]|e]; [|done|done].
  apply bind_inv in Hk as (ev & w2 & _ & Hk). by destruct ev.
Qed.

Lemma compare_answer svc repo tag remote t r w u w' :
  compare_and_record d svc repo tag remote t r w = (Ok (Some u), w') ->
  r.(ri_Digest) <> svc.(sv_CurrentDigest) /\ r.(ri_PlatformDigest) <> svc.(sv_CurrentDigest) /\
  exists f v w1 id isNew w2,
    Updates.RecordDrift (drift_update svc t r.(ri_Digest) f v (Severity f v)) w1 = (Ok (id, isNew), w2) /\
    u = with_id id (drift_update svc t r.(ri_Digest) f v (Severity f v)).
Proof.
  unfold compare_and_record.
  destruct (String.eqb_spec r.(ri_Digest) svc.(sv_CurrentDigest)) as [|H1];
    [|destruct (String.eqb_spec r.(ri_PlatformDigest) svc.(sv_CurrentDigest)) as [|H2]]; cbn [orb].
  1-2: intros (x & w1 & _ & (y & w2 & _ & Hk)%bind_inv)%bind_inv; discriminate.
  intros ([f v] & w1 & _ & Hk)%bind_inv. split; [done|]. split; [done|].
  apply record_answer in Hk as (w2 & id & isNew & w3 & Hk). by exists f, v, w2, id, isNew, w3.
Qed.

End Spec.

(** *** A detection only observes *)

(** What a scan has no business with in the database. *)
Definition untouched (d0 d : db) : Prop :=
  d.(jobs) = d0.(jobs) /\ d.(job_logs) = d0.(job_logs) /\ d.(services) = d0.(services) /\
  d.(projects) = d0.(projects) /\ d.(snapshots) = d0.(snapshots) /\ d.(settings) = d0.(settings) /\
  d.(sessions) = d0.(sessions) /\ d.(users) = d0.(users) /\ d.(credentials) = d0.(credentials).

(** Nor with the updates, save through the few statements made for it. *)
Definition aside (d0 d : db) : Prop := untouched d0 d /\ d.(updates) = d0.(updates).

Definition observes (w0 w : world) : Prop :=
  db_ok w.(w_db) /\ untouched w0.(w_db) w.(w_db) /\ w.(w_fs) = w0.(w_fs) /\
  exists l, w.(w_trace) = l ++ w0.(w_trace) /\ forallb scan_event l = true.

(** A call that observes and leaves the updates alone. *)
Definition consults {A} (m : M world A) : Prop := forall w, db_ok w.(w_db) ->
  observes w (m w).2 /\ (m w).2.(w_db).(updates) = w.(w_db).(updates).

Lemma observes_refl w : db_ok w.(w_db) -> observes w w.
Proof. intros H. split; [done|]. split; [by repeat split|]. split; [done|]. by exists []. Qed.

Lemma observes_trans w0 w1 w2 : observes w0 w1 -> observes w1 w2 -> observes w0 w2.
Proof.
  intros (_ & H1 & H2 & l & H3 & H4) (G0 & G1 & G2 & l' & G3 & G4). split; [done|].
  split; [|split; [congruence|]].
  - destruct H1 as (?&?&?&?&?&?&?&?&?), G1 as (?&?&?&?&?&?&?&?&?). repeat split; congruence.
  - exists (l' ++ l). rewrite G3, H3, app_assoc. split; [done|]. by rewrite forallb_app, G4, H4.
Qed.

(** An invariant a scan keeps: one that calls that only consult keep, and the two
    operations on the updates of a detection. *)
Record scan_inv `{Env} (I : world -> Prop) : Prop := {
  si_ok w : I w -> db_ok w.(w_db);
  si_consults {A} (m : M world A) : consults m -> keeps I m;
  si_close n : keeps I (Updates.SupersedeAllOpen n);
  si_drift up : keeps I (Updates.RecordDrift up);
}.

Create HintDb observe discriminated.

Lemma aside_refl d : aside d d.
Proof. by repeat split. Qed.

Lemma consults_sql `{Env} {A} op id (st : stmt A) :
  stmt_keeps db_ok st -> (forall d0, stmt_keeps (aside d0) st) -> consults (sql op id st).
Proof.
  intros Hok Ha w Hd. destruct (sql op id st w) as [[a|e] w'] eqn:Es; simpl.
  - apply sql_ok_inv in Es as (Hs & Hf & Ht & _).
    destruct (Ha w.(w_db) _ _ _ _ (aside_refl _) Hs) as [Hu Hup]. split; [|done].
    split; [by eapply Hok|]. split; [done|]. split; [done|]. by exists [EvSql op id].
  - apply sql_err_inv in Es as ->. split; [by apply (observes_refl w)|done].
Qed.

Lemma consults_reads {A} (m : M world A) : reads m -> consults m.
Proof.
  intros Hm w Hd. destruct (Hm w) as (G1 & G2 & l & G3 & G4). unfold observes. rewrite G1, G2. split; [|done].
  split; [done|]. split; [by repeat split|]. split; [done|]. by exists l.
Qed.

Lemma consults_now `{Env} : consults now.
Proof. intros w Hd. split; [by apply (observes_refl w)|done]. Qed.

Lemma consults_emit e : scan_event e = true -> consults (emit e).
Proof.
  intros He w Hd. split; [|done]. split; [done|]. split; [by repeat split|]. split; [done|]. exists [e].
  split; [done|]. simpl. by rewrite He.
Qed.

Ltac beside_stmt :=
  let Hd := fresh in let Heq := fresh in
  intros ? ? ? ? ? Hd; cbv beta zeta delta [query Updates.insert_stmt Updates.update_stmt Updates.upsert_stmt
    Updates.delete_stmt Images.upsert_stmt Images.set_version_stmt RemoteStates.upsert_stmt TagDigests.put_stmt
    Events.insert_stmt];
  repeat case_match; intros Heq; try discriminate Heq; injection Heq; intros; subst; exact Hd.

Section Observe.
Context {E : Env} (w0 : world).

Lemma observes_sql {A} op id (st : stmt A) :
  stmt_keeps db_ok st -> (forall d0, stmt_keeps (untouched d0) st) -> keeps (observes w0) (sql op id st).
Proof.
  intros Hok Hun w (H1 & H2 & H3 & l & H4 & H5). destruct (sql op id st w) as [[a|e] w'] eqn:Es; simpl.
  - apply sql_ok_inv in Es as (Hs & Hf & Ht & _). split; [by eapply Hok|]. split; [by eapply Hun|].
    split; [congruence|]. exists (EvSql op id :: l). rewrite Ht, H4. by rewrite <- H5.
  - apply sql_err_inv in Es as ->. split; [done|]. split; [done|]. split; [done|]. by exists l.
Qed.

Lemma observes_drift_tx d0 up sev st :
  db_ok d0 -> untouched w0.(w_db) d0 -> keeps (observes w0) (Updates.drift_tx d0 up sev st).
Proof.
  intros Hok Hun. assert (Hrb : forall e, keeps (observes w0) (Updates.rollback (A := Z * bool) d0 e)).
  { intros e w (_ & _ & H). by split. }
  unfold Updates.drift_tx, Updates.drift_row, Updates.supersede_prior_stmt.
  repeat first
    [ apply Hrb | apply keeps_bind_ok | apply keeps_bind | apply keeps_ret
    | apply observes_sql; [solve [eauto with keeps]|beside_stmt]
    | progress intros
    | match goal with |- keeps _ (match ?x with _ => _ end) => destruct x end ].
Qed.

Lemma observes_inv : scan_inv (observes w0).
Proof.
  split.
  - by intros w [].
  - intros A m Hm w Hw. apply (observes_trans _ w); [done|]. apply Hm, Hw.
  - intros n. apply observes_sql; [eauto with keeps|beside_stmt].
  - intros up w Hw. pose proof Hw as (H1 & H2 & _). by apply observes_drift_tx.
Qed.
End Observe.

(** Down a handler whose statements keep the integrity and whose other calls only
    consult, with the facts about its parts in the context or the database. *)
Ltac observe_step :=
  first
  [ solve [eauto with observe nocore]
  | match goal with Hi : scan_inv ?I |- keeps ?I _ => apply (si_consults I Hi) end;
    first [ apply consults_reads; first [apply reads_Resolve|apply reads_ListTags|apply reads_ConfigDigest|apply reads_Head]
          | apply consults_now | apply consults_emit; reflexivity
          | apply consults_sql; [solve [eauto with keeps]|beside_stmt] ]
  | keeps_step ].
Ltac observe := repeat observe_step.

#[export] Hint Resolve si_close si_drift : observe.

Section Observes.
Context {E : Env} {SS : SliceSort} {A : RegistryAPI} {LJ : LabelsJSON} {RR : RegistryReads A}.
Context (d : Detector.Detector) (I : world -> Prop) (Hinv : scan_inv I).
Import Detector.

Notation observing m := (keeps I m).

Lemma observe_candidate repo tag : observing (candidateConfigDigest d repo tag).
Proof. unfold candidateConfigDigest, lookupConfigDigest, TagDigests.Get, TagDigests.Put. observe. Qed.
Hint Resolve observe_candidate : observe.

Lemma observe_candidates repo cd cands : observing (match_candidates d repo cd cands).
Proof. induction cands as [|t cands IH]; simpl; observe. Qed.
Hint Resolve observe_candidates : observe.

Lemma observe_match repo cd pref : observing (matchVersionByDigest d repo cd pref).
Proof. unfold matchVersionByDigest, scan_tags. observe. Qed.
Hint Resolve observe_match : observe.

Lemma observe_close n : observing (closeStaleUpdates d n).
Proof. unfold closeStaleUpdates. observe. Qed.
Hint Resolve observe_close : observe.

Lemma observe_current repo tag dg cd r : observing (resolveCurrentVersion d repo tag dg cd r).
Proof.
  unfold resolveCurrentVersion, name_current, Images.GetByDigest, Images.SetResolvedVersion. observe.
Qed.
Hint Resolve observe_current : observe.

Lemma observe_image repo tag r l : observing (recordImage repo tag r l).
Proof. unfold recordImage, Images.Upsert. observe. Qed.
Hint Resolve observe_image : observe.

Lemma observe_record svc t dg f v s : observing (record_ svc t dg f v s).
Proof. unfold record_, Events.Insert. observe. Qed.
Hint Resolve observe_record : observe.

Lemma observe_shortcut svc repo tag n : observing (headShortcut d svc repo tag n).
Proof. unfold headShortcut, head_unchanged, Images.GetByDigest, RemoteStates.Get, RemoteStates.Upsert. observe. Qed.
Hint Resolve observe_shortcut : observe.

Lemma observe_ends svc repo tag t r : observing (name_ends d svc repo tag t r).
Proof. unfold name_ends. observe. Qed.
Hint Resolve observe_ends : observe.

Lemma observe_resolved svc repo tag n r : observing (detect_resolved d svc repo tag n r).
Proof. unfold detect_resolved, semver_scan, compare_and_record, RemoteStates.Upsert. observe. Qed.
Hint Resolve observe_resolved : observe.

Lemma observe_detect svc : observing (Detect d svc).
Proof. unfold Detect, RemoteStates.Upsert. observe. Qed.
End Observes.

(** Detection only observes: against any registry whose calls only read, it
    touches no container and no file, makes nothing but statements and registry
    requests, keeps the integrity of the schema, and leaves the jobs, services,
    projects, snapshots, settings, users and credentials as they were. *)
Theorem Detect_observes `{Env} `{SliceSort} `{LabelsJSON} {A : RegistryAPI} {RR : RegistryReads A} d svc w :
  db_ok w.(w_db) -> observes w (Detector.Detect d svc w).2.
Proof. intros Hok. apply (observe_detect d (observes w)); [apply observes_inv|by apply observes_refl]. Qed.

(** *** Naming an image by its digest *)

Section Naming.
Context {E : Env} {SS : SliceSort} {A : RegistryAPI} (d : Detector.Detector) (repo configDigest : string).
Import Detector.

(** What was learnt of the config digest of a tag. *)
Definition learnt (t : string) (r : result string) : Prop := exists w, (candidateConfigDigest d repo t w).1 = r.

Definition differs (t : string) : Prop :=
  exists r, learnt t r /\ match r with Ok c => c <> configDigest | Err e => IsRateLimited e = false end.

Definition rate_limited (t : string) : Prop := exists e, learnt t (Err e) /\ IsRateLimited e = true.

(** The three ways a scan of candidates ends. *)
Definition scan_outcome (cands : list string) (name : string) (conclusive : bool) : Prop :=
  (conclusive = true /\ name ∈ cands /\ learnt name (Ok configDigest)) \/
  (conclusive = true /\ name = "" /\ forall t, t ∈ cands -> differs t) \/
  (conclusive = false /\ name = "" /\ exists t, t ∈ cands /\ rate_limited t).

Lemma match_candidates_spec cands w name c w' :
  match_candidates d repo configDigest cands w = ((name, c), w') -> scan_outcome cands name c.
Proof.
  revert w. induction cands as [|t cands IH]; intros w; simpl.
  { intros [= <- <- <-]. right; left. split; [done|]. split; [done|set_solver]. }
  intros (r & w1 & Hr & Hk)%bind_inv.
  assert (Hl : learnt t r) by (exists w; by rewrite Hr).
  assert (Hrec : differs t -> match_candidates d repo configDigest cands w1 = ((name, c), w') ->
    scan_outcome (t :: cands) name c).
  { intros Hd [(Hc & Hin & Hn)|[(Hc & Hn & Hall)|(Hc & Hn & t' & Hin & Hrl)]]%IH.
    - left. split; [done|]. split; [by right|done].
    - right; left. split; [done|]. split; [done|]. by intros t' [->|Hin]%elem_of_cons; [|apply Hall].
    - right; right. split; [done|]. split; [done|]. exists t'. split; [by right|done]. }
  destruct r as [cd|e].
  - destruct (String.eqb_spec cd configDigest) as [->|Hne].
    + injection Hk as <- <- <-. left. split; [done|]. split; [by left|done].
    + apply Hrec; [|done]. by exists (Ok cd).
  - destruct (IsRateLimited e) eqn:Erl.
    + injection Hk as <- <- <-. right; right. split; [done|]. split; [done|]. exists t. split; [by left|].
      by exists e.
    + apply Hrec; [|done]. by exists (Err e).
Qed.

(** Naming an image is sound and bounded: a name is one of at most
    [reverseScanCap] newest stable tags of the repository (or the image's own
    version label, when it is a full version) and its config digest is the
    image's; the search is inconclusive only when the tag list failed or a
    candidate was rate limited, and an empty conclusive answer means every one of
    those candidates was looked at and differs (or its lookup failed). *)
Theorem matchVersionByDigest_spec preferTag w :
  let '((name, conclusive), w') := matchVersionByDigest d repo configDigest preferTag w in
  (configDigest = "" /\ name = "" /\ conclusive = true) \/
  (preferTag <> "" /\ name = preferTag /\ conclusive = true /\ learnt name (Ok configDigest)) \/
  (conclusive = false /\ name = "" /\ exists w1 e, (api_ListTags repo w1).1 = Err e) \/
  (exists tags, listed repo tags /\
     let cands := take reverseScanCap (semverTagsDesc tags) in
     (length cands <= 50)%nat /\ scan_outcome cands name conclusive).
Proof.
  destruct (matchVersionByDigest _ _ _ _ w) as [[name c] w'] eqn:Hm. revert Hm. unfold matchVersionByDigest.
  destruct (String.eqb_spec configDigest "") as [->|Hcd]; [intros [= <- <- <-]; by left|].
  assert (Hscan : forall w, scan_tags d repo configDigest w = ((name, c), w') ->
    (c = false /\ name = "" /\ exists w1 e, (api_ListTags repo w1).1 = Err e) \/
    exists tags, listed repo tags /\
      let cands := take reverseScanCap (semverTagsDesc tags) in (length cands <= 50)%nat /\ scan_outcome cands name c).
  { intros w1 (tags & w2 & Ht & Hk)%bind_inv. destruct tags as [tags|e].
    - right. exists tags. split; [exists w1; by rewrite Ht|]. split; [unfold reverseScanCap; rewrite length_take; lia|].
      by eapply match_candidates_spec.
    - injection Hk as <- <- <-. left. split; [done|]. split; [done|]. exists w1, e. by rewrite Ht. }
  destruct (String.eqb_spec preferTag "") as [->|Hp]; cbn [negb].
  - intros Hs%Hscan. by right; right.
  - intros (r & w1 & Hr & Hk)%bind_inv. destruct r as [cd|e]; [|apply Hscan in Hk; by right; right].
    destruct (String.eqb_spec cd configDigest) as [->|Hne]; [|apply Hscan in Hk; by right; right].
    injection Hk as <- <- <-. right; left. split; [done|]. split; [done|]. split; [done|]. exists w. by rewrite Hr.
Qed.
End Naming.

(** ** Runs *)

(** A registry where ghost:5.1.0 is what runs and 5.2.0 is out. *)
Definition demo_image (dg : string) : RemoteImage := mkRemote "" dg dg dg "" ∅ None "linux" "amd64".

Definition demo_api (tags : result (list string)) : RegistryAPI := {|
  api_Resolve ref := ret (Ok (demo_image (if String.eqb ref "ghost:5.2.0" then "sha256:new" else "sha256:old")));
  api_ListTags _ := ret tags;
  api_ConfigDigest _ := ret (Err (Transport 404));
  api_Head _ := ret (Err (Transport 404));
|}.

#[export] Instance demo_api_reads tags : RegistryReads (demo_api tags).
Proof. split; intros; simpl; apply reads_ret. Qed.

Definition demo_labels : LabelsJSON := {| labels_Marshal _ := "{}"; labels_Unmarshal _ := ∅ |}.

Definition demo_pinned : Service :=
  mkService 1 1 "web" ["c0ffee"] "ghost:5.1.0" "sha256:old" "sha256:cfg" "5.1.0" false false "running"
    None false false None 1700000000.

Notation demo_detect tags w :=
  (@Detector.Detect calm_env stable_slice_sort (demo_api tags) demo_labels Detector.NewDetector demo_pinned w).

Definition demo_tags : result (list string) := Ok ["5.1.0"; "latest"; "5.2.0"; "6.0.0-rc1"].

Definition demo_pinned_world : world :=
  demo_world (with_updates empty_table (with_services (mkTable [demo_pinned] 1) demo_db)).

Lemma pair_fst {A B} (p : A * B) a : p.1 = a -> p = (a, p.2).
Proof. by intros <-; destruct p. Qed.

Definition demo_found : Update :=
  match (demo_detect demo_tags demo_pinned_world).1 with Ok (Some u) => u | _ => demo_update end.

Lemma demo_found_answer : (demo_detect demo_tags demo_pinned_world).1 = Ok (Some demo_found).
Proof. vm_compute. reflexivity. Qed.


Lemma Detect_observes_witness :
  let w' := (demo_detect demo_tags demo_pinned_world).2 in
  map up_Status w'.(w_db).(updates).(rows) = ["available"] /\ db_ok w'.(w_db) /\ w'.(w_fs) = ∅.
Proof.
  split; [vm_compute; reflexivity|].
  assert (Hok : db_ok demo_pinned_world.(w_db)) by (apply db_okb_ok; vm_compute; reflexivity).
  destruct (@Detect_observes calm_env stable_slice_sort demo_labels (demo_api demo_tags)
    (demo_api_reads demo_tags) Detector.NewDetector demo_pinned demo_pinned_world Hok) as (H1 & _ & H2 & _).
  split; [exact H1|exact H2].
Defined.

(** The semver scan of an exact pin that fails (here the tag list) is skipped, and
    the service compares as up to date: the update found before is superseded
    although the newer tag is still there. *)
Lemma failed_tag_scan_closes_update :
  let w1 := (demo_detect demo_tags demo_pinned_world).2 in
  let w2 := (demo_detect (Err (Transport 503)) w1).2 in
  let w3 := (demo_detect demo_tags w2).2 in
  map up_Status w1.(w_db).(updates).(rows) = ["available"] /\
  map up_Status w2.(w_db).(updates).(rows) = ["superseded"] /\
  map up_Status w3.(w_db).(updates).(rows) = ["available"].
Proof. split; [|split]; vm_compute; reflexivity. Qed.
