(* ===== verification/Scan.v ===== *)
(** * The scanner (internal/scan/scan.go)

    The scanner checks services: it asks the detector, tells the dashboard once
    per drift, and caches the changelog of what it found.  The detector is
    Detect.v; the changelog chain is an interface, as in the source.  The state
    is the world, the digests already told about, and the hints sent.  The
    repositories other than the guarded one are taken to be there.  Logging
    ([refLabel] only serves it) is left out. *)

From stdpp Require Import base list strings gmap.
From S2P Require Import Prelude GoStd Semver Db Integrity World StoreUpdates StoreServices StoreMisc.
From S2P Require Import Files Daemon Registry Detect.

Local Open Scope Z_scope.

(** The changelog chain: a text and a link, or an error. *)
Class ChangelogAPI := { changelog_Resolve : Update -> RemoteImage -> M world (result (string * string)) }.

(** It reads the outside and its own cache. *)
Class ChangelogConsults (C : ChangelogAPI) : Prop := { consults_changelog u r : consults (changelog_Resolve u r) }.

Definition changelog_ErrRateLimited : string := "changelog: github rate limited".

Module Scanner.

(** What [New] was given: whether the updates repository and [notify] are there. *)
Record Scanner := mkScanner { has_updates : bool; has_notify : bool }.

Record scanning := mkScanning { sc_world : world; notifiedTo : gmap Z string; hints : list Z }.

Definition lift {A} (m : M world A) : M scanning A := fun s =>
  let '(a, w) := m s.(sc_world) in (a, mkScanning w s.(notifiedTo) s.(hints)).

Section Scanner.
Context {E : Env} {SS : SliceSort} {A : RegistryAPI} {LJ : LabelsJSON} {C : ChangelogAPI}.
Context (d : Detector.Detector) (sc : Scanner).

Definition markNotified (serviceID : Z) (toDigest : string) : M scanning bool := fun s =>
  if String.eqb (default "" (s.(notifiedTo) !! serviceID)) toDigest then (false, s)
  else (true, mkScanning s.(sc_world) (<[serviceID := toDigest]> s.(notifiedTo)) s.(hints)).

Definition notify_ (serviceID : Z) : M scanning unit := fun s =>
  (tt, mkScanning s.(sc_world) s.(notifiedTo) (serviceID :: s.(hints))).

Definition forget (serviceID : Z) : M scanning unit := fun s =>
  (tt, mkScanning s.(sc_world) (delete serviceID s.(notifiedTo)) s.(hints)).

(** The hint of a check that found an update. *)
Definition hint (serviceID : Z) (toDigest : string) : M scanning unit :=
  if sc.(has_notify) then
    let! changed := markNotified serviceID toDigest in
    if changed then notify_ serviceID else ret tt
  else ret tt.

(** What the source does with the answer of the changelog chain for the row [id]:
    whether it was rate limited, or its error. *)
Definition save_changelog (id : Z) (answer : result (string * string)) : M world (result bool) :=
  match answer with
  | Err e =>
      if errors_Is e changelog_ErrRateLimited then
        do! Updates.SetChangelogStatus id "rate_limited" in ret (Ok true)
      else ret (Err e)
  | Ok (text, url) =>
      if negb (String.eqb text "") || negb (String.eqb url "") then
        do! Updates.SetChangelog id url text in ret (Ok false)
      else ret (Ok false)
  end.

Definition labels_of (img : result Image) : gmap string string :=
  match img with
  | Ok i => if String.eqb i.(img_Labels) "" then ∅ else labels_Unmarshal i.(img_Labels)
  | Err _ => ∅
  end.

Definition stored_image (ref digest : string) (labels : gmap string string) : RemoteImage :=
  mkRemote ref digest "" "" "" labels None "" "".

Definition baseline_row (svc : Service) (tag version : string) : Update :=
  mkUpdate 0 svc.(sv_ID) svc.(sv_CurrentDigest) svc.(sv_CurrentDigest) version version tag "current" "" "" ""
    "current" 0 None.

Definition baseline_version (svc : Service) (tag : string) (img : result Image) : string :=
  let version := match img with
                 | Ok i => if String.eqb i.(img_ResolvedVersion) "" then svc.(sv_ImageVersion) else i.(img_ResolvedVersion)
                 | Err _ => svc.(sv_ImageVersion)
                 end in
  if String.eqb version "" then tag else version.

(** The end of [ensureCurrentChangelog]: write the baseline and resolve it. *)
Definition write_baseline (svc : Service) : M world (result bool) :=
  let '(repo, tag) := SplitRef svc.(sv_ImageRef) in
  let! img := Images.GetByDigest repo svc.(sv_CurrentDigest) in
  let row := baseline_row svc tag (baseline_version svc tag img) in
  let? id := Updates.Upsert row in
  let! answer := changelog_Resolve (Detector.with_id id row)
                   (stored_image svc.(sv_ImageRef) svc.(sv_CurrentDigest) (labels_of img)) in
  save_changelog id answer.

Definition ensureCurrentChangelog (svc : Service) : M world (result bool) :=
  if String.eqb svc.(sv_CurrentDigest) "" then ret (Ok false)
  else
    try? Updates.DeleteStaleCurrent svc.(sv_ID) svc.(sv_CurrentDigest) in
    let? surfaced := Updates.HasSurfacedByService svc.(sv_ID) in
    if surfaced then ret (Ok false)
    else
      let? resolved := Updates.HasResolvedCurrentAtDigest svc.(sv_ID) svc.(sv_CurrentDigest) in
      if resolved then ret (Ok false) else write_baseline svc.

(** The changelog of an update that was found. *)
Definition resolve_update (svc : Service) (upd : Update) : M world bool :=
  let '(repo, _) := SplitRef svc.(sv_ImageRef) in
  let! img := Images.GetByDigest repo upd.(up_ToDigest) in
  let! answer := changelog_Resolve upd (stored_image svc.(sv_ImageRef) upd.(up_ToDigest) (labels_of img)) in
  let! r := save_changelog upd.(up_ID) answer in
  ret (match r with Ok rl => rl | Err _ => false end).

Definition checkService (serviceID : Z) : M scanning (result bool) :=
  let? svc := lift (Services.Get serviceID) in
  let? upd := lift (Detector.Detect d svc) in
  match upd with
  | None =>
      do! forget serviceID in
      let! r := lift (ensureCurrentChangelog svc) in
      ret (Ok (match r with Ok rl => rl | Err _ => false end))
  | Some upd =>
      do! hint serviceID upd.(up_ToDigest) in
      let! rl := lift (resolve_update svc upd) in
      ret (Ok rl)
  end.

Definition CheckService (serviceID : Z) : M scanning (result unit) :=
  let? _ := checkService serviceID in ret (Ok tt).

Definition checkServiceFresh (serviceID : Z) : M scanning (result bool) :=
  do! (if sc.(has_updates) then do! lift (Updates.ReopenRolledBack serviceID) in ret tt else ret tt) in
  checkService serviceID.

Definition CheckServiceFresh (serviceID : Z) : M scanning (result unit) :=
  let? _ := checkServiceFresh serviceID in ret (Ok tt).

(** The loop of [CheckServicesFresh] from the [i]-th service on. *)
Fixpoint sweep (reopen : bool) (onDone : option (Z -> Z -> M world unit)) (total i : Z) (rateLimited : bool)
    (ids : list Z) : M scanning bool :=
  match ids with
  | [] => ret rateLimited
  | id :: ids' =>
      let! done := lift wait_done in
      if done then ret rateLimited
      else
        let! r := (if reopen then checkServiceFresh id else checkService id) in
        let rl := match r with Ok rl => rl | Err _ => false end in
        do! match onDone with Some f => lift (f (i + 1) total) | None => ret tt end in
        sweep reopen onDone total (i + 1) (rateLimited || rl) ids'
  end.

Definition CheckServicesFresh (ids : list Z) (reopen : bool) (onDone : option (Z -> Z -> M world unit)) :
    M scanning (result bool) :=
  let! rl := sweep reopen onDone (Z.of_nat (length ids)) 0 false ids in ret (Ok rl).

End Scanner.
End Scanner.

(** ** What a sweep keeps *)

(** The updates that were rolled back in [d0] are there in [d], still rolled back,
    for the services outside [asked]. *)
Definition stay_rolled_back (asked : list Z) (d0 d : db) : Prop :=
  forall u, u ∈ d0.(updates).(rows) -> u.(up_Status) = "rolled_back" -> u.(up_ServiceID) ∉ asked ->
  exists u', u' ∈ d.(updates).(rows) /\ u'.(up_ID) = u.(up_ID) /\ u'.(up_ServiceID) = u.(up_ServiceID) /\
             u'.(up_ToDigest) = u.(up_ToDigest) /\ u'.(up_Status) = "rolled_back".

Definition swept (asked : list Z) (w0 w : world) : Prop :=
  observes w0 w /\ stay_rolled_back asked w0.(w_db) w.(w_db).

(** A change of the rows that leaves those alone. *)
Definition spares (asked : list Z) (g : Update -> Update) : Prop := forall u,
  u.(up_Status) = "rolled_back" -> u.(up_ServiceID) ∉ asked ->
  (g u).(up_ID) = u.(up_ID) /\ (g u).(up_ServiceID) = u.(up_ServiceID) /\ (g u).(up_ToDigest) = u.(up_ToDigest) /\
  (g u).(up_Status) = "rolled_back".

Section Rolled.
Context (asked : list Z).

Lemma stay_refl d : stay_rolled_back asked d d.
Proof. intros u Hu Hs Ha. by exists u. Qed.

Lemma stay_same d0 d d' : d'.(updates) = d.(updates) -> stay_rolled_back asked d0 d -> stay_rolled_back asked d0 d'.
Proof. unfold stay_rolled_back. by intros ->. Qed.

Lemma stay_map g l d0 d d' :
  spares asked g -> d'.(updates).(rows) = map g (d.(updates).(rows) ++ l) ->
  stay_rolled_back asked d0 d -> stay_rolled_back asked d0 d'.
Proof.
  intros Hg Hd' H u Hu Hs Ha. destruct (H u Hu Hs Ha) as (v & Hv & H1 & H2 & H3 & H4).
  destruct (Hg v) as (G1 & G2 & G3 & G4); [done|congruence|]. exists (g v). split; [|by rewrite G1, G2, G3, G4].
  rewrite Hd', list_elem_of_In. apply in_map. rewrite <- list_elem_of_In. apply elem_of_app. by left.
Qed.

Lemma stay_update p g d0 :
  (forall u, p u = true -> u.(up_Status) = "rolled_back" -> u.(up_ServiceID) ∉ asked -> g u = u \/
     ((g u).(up_ID) = u.(up_ID) /\ (g u).(up_ServiceID) = u.(up_ServiceID) /\ (g u).(up_ToDigest) = u.(up_ToDigest) /\
      (g u).(up_Status) = "rolled_back")) ->
  stmt_keeps (stay_rolled_back asked d0) (Updates.update_stmt p g).
Proof.
  intros Hg t d a d' Hd [= _ <-].
  eapply (stay_map (fun u => if p u then g u else u) []); [|by simpl; rewrite app_nil_r|exact Hd].
  intros u Hs Ha. destruct (p u) eqn:Ep; [|done]. destruct (Hg u Ep Hs Ha) as [->|H]; done.
Qed.

Lemma stay_delete p d0 :
  (forall u, p u = true -> u.(up_Status) <> "rolled_back") ->
  stmt_keeps (stay_rolled_back asked d0) (Updates.delete_stmt p).
Proof.
  intros Hp t d a d' Hd [= _ <-] u Hu Hs Ha. destruct (Hd u Hu Hs Ha) as (v & Hv & H1 & H2 & H3 & H4).
  exists v. split; [|done]. simpl. apply elem_of_filterb. split; [done|]. apply negb_true_iff.
  destruct (p v) eqn:Ep; [|done]. by destruct (Hp v Ep).
Qed.

Lemma stay_upsert up sev st d0 : stmt_keeps (stay_rolled_back asked d0) (Updates.upsert_stmt up sev st).
Proof.
  intros t d a d' Hd. unfold Updates.upsert_stmt. destruct (Updates.find_target _ _ _) as [u|].
  - intros Heq. eapply stay_update with (d := d) (t := t); [|exact Hd|].
    2:{ unfold Updates.update_stmt. injection Heq as _ Heq. rewrite Heq. done. }
    intros v _ Hs _. right. by destruct v.
  - unfold Updates.insert_stmt. destruct (negb _); [done|]. destruct (existsb _ _); [done|]. intros [= _ <-].
    eapply (stay_map (fun x => x)); [by intros v|simpl; by rewrite map_id|exact Hd].
Qed.

Lemma superseded_by_spares s k : spares asked (superseded_by s k).
Proof.
  intros u Hs Ha. unfold superseded_by, status_in. rewrite Hs. simpl. by rewrite andb_false_r.
Qed.

Lemma drifted_spares up id : spares asked (drifted up id).
Proof.
  intros u Hs Ha. unfold drifted.
  set (u' := if up_ID u =? id then _ else u).
  assert (H : u'.(up_ID) = u.(up_ID) /\ u'.(up_ServiceID) = u.(up_ServiceID) /\ u'.(up_ToDigest) = u.(up_ToDigest) /\
              u'.(up_Status) = "rolled_back").
  { subst u'. destruct (up_ID u =? id); [|done]. simpl. unfold status_in. by rewrite Hs. }
  clearbody u'. destruct H as (H1 & H2 & H3 & H4).
  destruct (superseded_by_spares up.(up_ServiceID) up.(up_ToDigest) u') as (G1 & G2 & G3 & G4); [done|congruence|].
  split; [congruence|]. split; [congruence|]. split; [congruence|done].
Qed.
End Rolled.

Section Swept.
Context {E : Env} (asked : list Z) (w0 : world).

Lemma swept_sql {A} op id (st : stmt A) :
  stmt_keeps db_ok st -> (forall d0, stmt_keeps (untouched d0) st) ->
  (forall d0, stmt_keeps (stay_rolled_back asked d0) st) -> keeps (swept asked w0) (sql op id st).
Proof.
  intros Hok Hun Hst w [Hw Hr]. split; [by apply observes_sql|].
  destruct (sql op id st w) as [[a|e] w'] eqn:Es; simpl.
  - apply sql_ok_inv in Es as (Hs & _). by eapply Hst.
  - by apply sql_err_inv in Es as ->.
Qed.

Lemma swept_inv : scan_inv (swept asked w0).
Proof.
  split.
  - by intros w [[] _].
  - intros A m Hm w [Hw Hr]. split; [by apply (si_consults _ (observes_inv w0))|].
    eapply stay_same; [|exact Hr]. apply Hm, Hw.
  - intros n. apply swept_sql; [eauto with keeps|beside_stmt|]. intros d0. apply stay_update.
    intros u Hp Hs _. left. unfold status_in in Hp. rewrite Hs in Hp. simpl in Hp. by rewrite andb_false_r in Hp.
  - intros up w [Hw Hr]. split; [by apply (si_drift _ (observes_inv w0))|].
    pose proof (RecordDrift_effect up w) as Hd. destruct (Updates.RecordDrift up w) as [[[id isNew]|e] w']; simpl in *.
    2:{ by rewrite Hd. }
    unfold drift_effect in Hd. destruct (Updates.find_target _ _ _).
    + destruct Hd as (_ & _ & ->). eapply (stay_map asked _ []); [apply drifted_spares|simpl; by rewrite app_nil_r|exact Hr].
    + destruct Hd as (_ & _ & t & ->). eapply stay_map; [apply superseded_by_spares|reflexivity|exact Hr].
Qed.
End Swept.

(** ** Properties of the scanner *)

Section Keeps.
Context {E : Env} {SS : SliceSort} {A : RegistryAPI} {LJ : LabelsJSON} {C : ChangelogAPI}.
Context {RR : RegistryReads A} {CC : ChangelogConsults C}.
Context (d : Detector.Detector) (sc : Scanner.Scanner) (asked : list Z) (w0 : world).
Import Scanner.

Notation I := (swept asked w0).
Notation scanning_keeps m := (keeps (fun s => I s.(sc_world)) m).

Lemma keeps_lift {B} (m : M world B) : keeps I m -> scanning_keeps (lift m).
Proof. intros Hm [w n h] Hw. unfold lift. simpl in *. specialize (Hm w Hw). by destruct (m w). Qed.

Lemma keeps_consults {B} (m : M world B) : consults m -> keeps I m.
Proof. apply si_consults, swept_inv. Qed.

(** A statement on one row that leaves its key and its status. *)
Lemma swept_update op id p g :
  same_key g -> (forall u, (g u).(up_Status) = u.(up_Status)) -> keeps I (sql op id (Updates.update_stmt p g)).
Proof.
  intros Hk Hs. apply swept_sql; [eauto with keeps|beside_stmt|]. intros d0. apply stay_update.
  intros u _ Hu _. right. destruct (Hk u) as (-> & -> & ->). by rewrite Hs.
Qed.

Lemma keeps_save id answer : keeps I (save_changelog id answer).
Proof.
  destruct answer as [[text url]|e]; simpl; unfold Updates.SetChangelog, Updates.SetChangelogStatus; keeps_walk;
    by apply swept_update; intros [].
Qed.

Lemma keeps_image repo dg : keeps I (Images.GetByDigest repo dg).
Proof. apply keeps_consults, consults_sql; [solve [eauto with keeps]|beside_stmt]. Qed.

Lemma keeps_changelog u r : keeps I (changelog_Resolve u r).
Proof. apply keeps_consults, consults_changelog. Qed.

Hint Resolve keeps_save keeps_image keeps_changelog : keeps.

Lemma keeps_ensure svc : keeps I (ensureCurrentChangelog svc).
Proof.
  unfold ensureCurrentChangelog, write_baseline, Updates.DeleteStaleCurrent, Updates.HasSurfacedByService,
    Updates.HasResolvedCurrentAtDigest, Updates.Upsert.
  repeat first
    [ keeps_step | solve [eauto with keeps nocore]
    | apply swept_sql; [solve [eauto with keeps]|beside_stmt|]
    | apply keeps_consults, consults_sql; [solve [eauto with keeps]|beside_stmt] ].
  - apply stay_delete. intros u. unfold status_in. intros Hp Hs. rewrite Hs in Hp. simpl in Hp.
    by rewrite andb_false_r in Hp.
  - apply stay_upsert.
Qed.

Lemma keeps_resolve svc u : keeps I (resolve_update svc u).
Proof. unfold resolve_update. keeps_walk. Qed.

Lemma keeps_hint id dg : scanning_keeps (hint sc id dg).
Proof. unfold hint, markNotified, notify_. intros [w n h] Hw. unfold bind, ret. repeat case_match; simplify_eq/=; done. Qed.

Lemma keeps_check id : scanning_keeps (checkService d sc id).
Proof.
  unfold checkService. apply keeps_bind_ok.
  { apply keeps_lift, keeps_consults, consults_sql; [|beside_stmt]. apply stmt_keeps_read with (g := fun s => s). }
  intros svc. apply keeps_bind_ok; [apply keeps_lift, observe_detect, swept_inv|]. intros [u|].
  - apply keeps_bind; [apply keeps_hint|]. intros _. apply keeps_bind; [apply keeps_lift, keeps_resolve|].
    intros rl. apply keeps_ret.
  - apply keeps_bind; [by intros [w n h]|]. intros _. apply keeps_bind; [apply keeps_lift, keeps_ensure|].
    intros r. apply keeps_ret.
Qed.

Lemma keeps_check_fresh id : id ∈ asked -> scanning_keeps (checkServiceFresh d sc id).
Proof.
  intros Hid. unfold checkServiceFresh. apply keeps_bind; [|intros _; apply keeps_check].
  destruct sc.(has_updates); [|apply keeps_ret]. apply keeps_bind; [|intros x; apply keeps_ret].
  apply keeps_lift, swept_sql; [eauto with keeps|beside_stmt|]. intros d0. apply stay_update.
  intros u Hp _ Hn. apply andb_true_iff in Hp as [Hp%Z.eqb_eq _]. congruence.
Qed.

Lemma keeps_sweep reopen onDone total i rl ids :
  (reopen = true -> forall id, id ∈ ids -> id ∈ asked) ->
  (forall f, onDone = Some f -> forall a b, consults (f a b)) ->
  scanning_keeps (sweep d sc reopen onDone total i rl ids).
Proof.
  intros Hr Hf. revert i rl. induction ids as [|id ids IH]; intros i rl; simpl; [apply keeps_ret|].
  apply keeps_bind.
  { apply keeps_lift, keeps_consults, consults_reads. intros w. split; [done|]. split; [done|]. by exists []. }
  intros []; [apply keeps_ret|]. apply keeps_bind.
  { destruct reopen; [|apply keeps_check]. apply keeps_check_fresh, Hr; [done|by left]. }
  intros r. apply keeps_bind; [|intros _; apply IH; intros Hro id' Hid; apply Hr; [done|by right]].
  destruct onDone as [f|]; [|apply keeps_ret]. apply keeps_lift, keeps_consults. by eapply Hf.
Qed.
End Keeps.

(** C33. A sweep observes and never reopens what it was not asked about: whatever
    the registry and the changelog sources answer and whatever fails, no container
    and no file is touched, the integrity of the schema is kept, and every update
    that was rolled back still is (so automatic updates leave it alone), except,
    in a sweep that was asked to look again, those of the services it was given. *)
Theorem sweep_spec `{Env} `{SliceSort} `{LabelsJSON} {A : RegistryAPI} {C : ChangelogAPI}
    {RR : RegistryReads A} {CC : ChangelogConsults C} d sc ids reopen onDone s :
  db_ok s.(Scanner.sc_world).(w_db) ->
  (forall f, onDone = Some f -> forall i n, consults (f i n)) ->
  let s' := (Scanner.CheckServicesFresh d sc ids reopen onDone s).2 in
  observes s.(Scanner.sc_world) s'.(Scanner.sc_world) /\
  stay_rolled_back (if reopen then ids else []) s.(Scanner.sc_world).(w_db) s'.(Scanner.sc_world).(w_db).
Proof.
  intros Hok Hf. unfold Scanner.CheckServicesFresh.
  refine (keeps_bind _ _ _ (keeps_sweep d sc _ _ reopen onDone _ _ _ ids _ Hf) _ s _).
  - by intros -> id Hid.
  - intros a. apply keeps_ret.
  - split; [by apply observes_refl|apply stay_refl].
Qed.

(** *** The baseline of an up-to-date service *)

(** A change of the changelog columns only. *)
Definition changelog_only (g : Update -> Update) : Prop := forall u,
  (g u).(up_ID) = u.(up_ID) /\ (g u).(up_ServiceID) = u.(up_ServiceID) /\ (g u).(up_ToDigest) = u.(up_ToDigest) /\
  (g u).(up_Status) = u.(up_Status).

Definition surfaced_status (st : string) : Prop := st ∈ ["available"; "dismissed"; "rolled_back"; "applied"].

Lemma status_in_elem l u : status_in l u = true <-> u.(up_Status) ∈ l.
Proof. unfold status_in. rewrite existsb_elem. setoid_rewrite String.eqb_eq. naive_solver. Qed.

Section Baseline.
Context {E : Env} {C : ChangelogAPI} {CC : ChangelogConsults C} {LJ : LabelsJSON}.
Import Scanner.

Lemma save_changelog_rows id answer w :
  exists g, changelog_only g /\
    (save_changelog id answer w).2.(w_db).(updates).(rows)
    = update_where (fun u => u.(up_ID) =? id) g w.(w_db).(updates).(rows).
Proof.
  assert (Hid : forall w1 : world, w1.(w_db) = w.(w_db) -> exists g, changelog_only g /\
    w1.(w_db).(updates).(rows) = update_where (fun u => u.(up_ID) =? id) g w.(w_db).(updates).(rows)).
  { intros w1 ->. exists (fun u => u). split; [by intros u|]. unfold update_where. rewrite <- (map_id (rows _)) at 1.
    apply map_ext. intros u. by destruct (_ =? _). }
  assert (Hsql : forall op g, changelog_only g -> forall w1 : world,
    w1.(w_db) = (sql op id (Updates.update_stmt (fun u => u.(up_ID) =? id) g) w).2.(w_db) -> exists g, changelog_only g /\
    w1.(w_db).(updates).(rows) = update_where (fun u => u.(up_ID) =? id) g w.(w_db).(updates).(rows)).
  { intros op g Hg w1 Hw. destruct (sql op id _ w) as [[a|e] w2] eqn:Es; simpl in Hw.
    - apply sql_ok_inv in Es as ([= _ Hd] & _). exists g. split; [done|]. by rewrite Hw, <- Hd.
    - apply sql_err_inv in Es as ->. by apply Hid. }
  destruct answer as [[text url]|e]; simpl.
  - destruct (_ || _); [|by apply Hid].
    apply (Hsql "updates.SetChangelog" (up_set_changelog url text "")); [by intros []|].
    unfold Updates.SetChangelog, bind_ok, bind. by destruct (sql _ _ _ w) as [[a|e] w2].
  - destruct (errors_Is _ _); [|by apply Hid].
    apply (Hsql "updates.SetChangelogStatus" (fun u => up_set_changelog u.(up_ChangelogURL) u.(up_ChangelogText) "rate_limited" u));
      [by intros []|].
    unfold Updates.SetChangelogStatus, bind_ok, bind. by destruct (sql _ _ _ w) as [[a|e2] w2].
Qed.

(** What [Upsert] leaves at its key. *)
Lemma upsert_rows up w id w' :
  db_ok w.(w_db) -> Updates.Upsert up w = (Ok id, w') ->
  db_ok w'.(w_db) /\
  (exists u, u ∈ w'.(w_db).(updates).(rows) /\ u.(up_ID) = id /\ u.(up_ServiceID) = up.(up_ServiceID) /\
     u.(up_ToDigest) = up.(up_ToDigest) /\
     (u.(up_Status) = or_default up.(up_Status) "available" \/
      exists v, v ∈ w.(w_db).(updates).(rows) /\ v.(up_ID) = id /\ v.(up_ServiceID) = up.(up_ServiceID) /\
        v.(up_Status) = u.(up_Status))) /\
  (forall u, u.(up_ServiceID) <> up.(up_ServiceID) ->
     u ∈ w'.(w_db).(updates).(rows) <-> u ∈ w.(w_db).(updates).(rows)) /\
  (forall u', u' ∈ w'.(w_db).(updates).(rows) -> u'.(up_ToDigest) <> up.(up_ToDigest) ->
     u' ∈ w.(w_db).(updates).(rows)).
Proof.
  intros Hok (Hs & _)%sql_ok_inv. pose proof (upsert_stmt_ok _ _ _ _ _ _ _ Hok Hs) as Hok'. split; [done|].
  revert Hs. unfold Updates.upsert_stmt. destruct (Updates.find_target _ _ _) as [v|] eqn:Ef.
  - apply find_target_some in Ef as (Hv & Hvs & Hvd). intros [= <- Hd]. rewrite <- Hd. simpl.
    assert (Hinj : forall x, x ∈ w.(w_db).(updates).(rows) -> x.(up_ID) = v.(up_ID) -> x = v).
    { intros x Hx Hi. eapply tbl_id_inj; [apply (ok_updates _ Hok)|done..]. }
    split; [|split].
    + eexists. split; [apply elem_of_update_where; exists v; split; [done|reflexivity]|]. rewrite Z.eqb_refl.
      simpl. do 3 (split; [done|]). right. by exists v.
    + intros u Hu. rewrite elem_of_update_where. split.
      * intros (x & Hx & ->). destruct (Z.eqb_spec x.(up_ID) v.(up_ID)) as [Hi|]; [|done].
        rewrite (Hinj x Hx Hi) in Hu. done.
      * intros Hin. exists u. split; [done|]. destruct (Z.eqb_spec u.(up_ID) v.(up_ID)) as [Hi|]; [|done].
        rewrite (Hinj u Hin Hi) in Hu. done.
    + intros u' (x & Hx & ->)%elem_of_update_where Hne. destruct (Z.eqb_spec x.(up_ID) v.(up_ID)) as [Hi|]; [|done].
      rewrite (Hinj x Hx Hi) in Hne. done.
  - unfold Updates.insert_stmt. destruct (negb _); [done|]. destruct (existsb _ _); [done|]. intros [= <- Hd].
    rewrite <- Hd. simpl. split; [|split].
    + eexists. split; [apply elem_of_app; right; left|]. simpl. do 3 (split; [done|]). by left.
    + intros u Hu. rewrite elem_of_app, list_elem_of_singleton. split; [intros [| ->]; [done|]|by left]. done.
    + intros u' [Hx| ->%list_elem_of_singleton]%elem_of_app Hne; done.
Qed.

(** The state after the stale baselines were dropped. *)
Lemma delete_stale_rows s dg w n w' :
  Updates.DeleteStaleCurrent s dg w = (Ok n, w') ->
  (forall u, u ∈ w'.(w_db).(updates).(rows) <->
     u ∈ w.(w_db).(updates).(rows) /\ (u.(up_ServiceID) = s -> u.(up_Status) = "current" -> u.(up_ToDigest) = dg)).
Proof.
  intros ([= _ Hd] & _)%sql_ok_inv u. rewrite <- Hd. simpl. rewrite elem_of_filterb, negb_true_iff.
  unfold of_service, status_in, to_digest_is. simpl. rewrite orb_false_r.
  destruct (Z.eqb_spec u.(up_ServiceID) s), (String.eqb_spec u.(up_Status) "current"),
    (String.eqb_spec u.(up_ToDigest) dg); simpl; naive_solver.
Qed.

Lemma image_read repo dg w : (Images.GetByDigest repo dg w).2.(w_db) = w.(w_db).
Proof.
  destruct (Images.GetByDigest repo dg w) as [[i|e] w'] eqn:Hi; simpl.
  - apply sql_ok_inv in Hi as (Hs & _). cbv beta in Hs. destruct (Images.find_image _ _ _); [|done]. by injection Hs.
  - by apply sql_err_inv in Hi as ->.
Qed.

(** The end of the step: a row at the running digest, and nothing else new. *)
Lemma write_baseline_rows svc w rl w' :
  db_ok w.(w_db) -> write_baseline svc w = (Ok rl, w') ->
  let before := w.(w_db).(updates).(rows) in
  let after := w'.(w_db).(updates).(rows) in
  (forall u, u.(up_ServiceID) <> svc.(sv_ID) -> u ∈ after <-> u ∈ before) /\
  (forall u, u ∈ after -> u.(up_ToDigest) <> svc.(sv_CurrentDigest) ->
     exists v, v ∈ before /\ v.(up_ServiceID) = u.(up_ServiceID) /\ v.(up_ToDigest) = u.(up_ToDigest) /\
       v.(up_Status) = u.(up_Status)) /\
  (exists u, u ∈ after /\ u.(up_ServiceID) = svc.(sv_ID) /\ u.(up_ToDigest) = svc.(sv_CurrentDigest) /\
     (u.(up_Status) = "current" \/ exists v, v ∈ before /\ v.(up_ID) = u.(up_ID) /\ v.(up_Status) = u.(up_Status))).
Proof.
  intros Hok Hk. unfold write_baseline in Hk. destruct (SplitRef _) as [repo tag].
  apply bind_inv in Hk as (img & w4 & Himg & Hk).
  assert (Hd4 : w4.(w_db) = w.(w_db)).
  { pose proof (image_read repo svc.(sv_CurrentDigest) w) as H. by rewrite Himg in H. }
  apply bind_ok_inv in Hk as (id & w5 & Hup & Hk).
  apply upsert_rows in Hup as (Hok5 & (u & Hu & Hui & Hus & Hud & Hust) & Hother & Hnew); [|by rewrite Hd4].
  rewrite Hd4 in Hust, Hother, Hnew. simpl in Hus, Hud, Hust, Hother, Hnew.
  apply bind_inv in Hk as (ans & w6 & Hcl & Hk).
  assert (Hd6 : w6.(w_db).(updates) = w5.(w_db).(updates)).
  { match type of Hcl with changelog_Resolve ?a ?b _ = _ => pose proof (consults_changelog a b w5 Hok5) as [_ H] end.
    by rewrite Hcl in H. }
  destruct (save_changelog_rows id ans w6) as (g & Hg & Hsave). rewrite Hk, Hd6 in Hsave. simpl in Hsave.
  rewrite Hsave.
  assert (Hi : forall y, y ∈ w5.(w_db).(updates).(rows) -> y.(up_ID) = id -> y = u).
  { intros y Hy Hyi. eapply tbl_id_inj; [apply (ok_updates _ Hok5)|done..|congruence]. }
  split; [|split].
  - intros x Hx. rewrite <- Hother, elem_of_update_where by done. split.
    + intros (y & Hy & ->). destruct (Z.eqb_spec y.(up_ID) id) as [He|]; [|done].
      rewrite (Hi y Hy He) in Hx. destruct (Hg u) as (_ & G2 & _). congruence.
    + intros Hin. exists x. split; [done|]. destruct (Z.eqb_spec x.(up_ID) id) as [He|]; [|done].
      rewrite (Hi x Hin He) in Hx. congruence.
  - intros x (y & Hy & ->)%elem_of_update_where Hne. destruct (Hg y) as (G1 & G2 & G3 & G4).
    exists y. destruct (y.(up_ID) =? id); [rewrite G3 in Hne; rewrite G2, G3, G4|]; auto.
  - destruct (Hg u) as (G1 & G2 & G3 & G4). exists (g u).
    split; [apply elem_of_update_where; exists u; by rewrite Hui, Z.eqb_refl|].
    rewrite G1, G2, G3, G4. split; [done|]. split; [done|]. destruct Hust as [->|(v & Hv & Hvi & _ & Hvs)]; [by left|].
    right. exists v. split; [done|]. split; [congruence|done].
Qed.

(** An up-to-date service has a changelog to show: when the step succeeds, no
    baseline of the service at another digest is left, the updates of the other
    services are as they were, and either the service has an update that is shown
    or there is a row at the running digest; that row is the baseline unless a
    row at that digest was there already, whose status is then kept. *)
Theorem ensureCurrentChangelog_spec svc w rl w' :
  db_ok w.(w_db) -> svc.(sv_CurrentDigest) <> "" -> ensureCurrentChangelog svc w = (Ok rl, w') ->
  let before := w.(w_db).(updates).(rows) in
  let after := w'.(w_db).(updates).(rows) in
  (forall u, u ∈ after -> u.(up_ServiceID) = svc.(sv_ID) -> u.(up_Status) = "current" ->
     u.(up_ToDigest) = svc.(sv_CurrentDigest)) /\
  (forall u, u.(up_ServiceID) <> svc.(sv_ID) -> u ∈ after <-> u ∈ before) /\
  ((exists u, u ∈ after /\ u.(up_ServiceID) = svc.(sv_ID) /\ surfaced_status u.(up_Status)) \/
   (exists u, u ∈ after /\ u.(up_ServiceID) = svc.(sv_ID) /\ u.(up_ToDigest) = svc.(sv_CurrentDigest) /\
      (u.(up_Status) = "current" \/
       exists v, v ∈ before /\ v.(up_ID) = u.(up_ID) /\ v.(up_Status) = u.(up_Status)))).
Proof.
  intros Hok Hdg. unfold ensureCurrentChangelog. apply String.eqb_neq in Hdg as ->.
  intros (n & w1 & Hdel & Hk)%bind_ok_inv.
  pose proof (delete_stale_rows _ _ _ _ _ Hdel) as Hrows1.
  assert (Hok1 : db_ok w1.(w_db)).
  { apply sql_ok_inv in Hdel as (Hs & _). by eapply delete_stmt_ok. }
  apply bind_ok_inv in Hk as (surf & w2 & Hsurf & Hk). apply sql_ok_inv in Hsurf as ([= Hsf Hd2] & _).
  destruct surf.
  { injection Hk as _ <-. rewrite <- Hd2. split; [naive_solver|]. split; [naive_solver|]. left.
    apply existsb_elem in Hsf as (u & Hu & [Hu1%Z.eqb_eq Hu2]%andb_true_iff). exists u. split; [done|]. split; [done|].
    by apply (status_in_elem ["available"; "dismissed"; "rolled_back"; "applied"] u) in Hu2. }
  apply bind_ok_inv in Hk as (res & w3 & Hres & Hk). apply sql_ok_inv in Hres as ([= Hr Hd3] & _).
  destruct res.
  { injection Hk as _ <-. rewrite <- Hd3, <- Hd2 in *. split; [naive_solver|]. split; [naive_solver|]. right.
    apply existsb_elem in Hr as (u & Hu & Hp). rewrite !andb_true_iff in Hp. destruct Hp as (((H1 & H2) & H3) & _).
    apply Z.eqb_eq in H1. apply String.eqb_eq in H3. unfold status_in in H2. simpl in H2. rewrite orb_false_r in H2.
    apply String.eqb_eq in H2. exists u. split; [done|]. split; [done|]. split; [done|]. by left. }
  apply write_baseline_rows in Hk as (Hother & Hold & (u & Hu & Hus & Hud & Hst)); [|by rewrite <- Hd3, <- Hd2].
  rewrite <- Hd3, <- Hd2 in Hother, Hold, Hst. split; [|split].
  - intros x Hx Hs Hc. destruct (decide (x.(up_ToDigest) = svc.(sv_CurrentDigest))) as [|Hne]; [done|].
    apply Hold in Hx as (y & Hy & Hys & Hyd & Hyst); [|done]. apply Hrows1 in Hy as [_ Hy]. rewrite <- Hyd. apply Hy; congruence.
  - intros x Hx. rewrite Hother by done. rewrite Hrows1. naive_solver.
  - right. exists u. split; [done|]. split; [done|]. split; [done|]. destruct Hst as [|(v & Hv & Hi & Hs)]; [by left|].
    right. exists v. apply Hrows1 in Hv as [Hv _]. done.
Qed.
End Baseline.

(** ** Runs *)

Definition demo_changelog : ChangelogAPI := {| changelog_Resolve _ _ := ret (Ok ("notes", "https://example.org/5.1.0")) |}.

#[export] Instance demo_changelog_consults : ChangelogConsults demo_changelog.
Proof. split. intros u r. apply consults_reads, reads_ret. Qed.

Definition update_of (id : Z) (to status : string) : Update :=
  mkUpdate id 1 "sha256:older" to "5.0.0" "5.1.0" "5.1.0" "minor" "" "" "" status 1700000000 None.

Definition scan_world (us : list Update) : world :=
  demo_world (with_updates (mkTable us (Z.of_nat (length us))) (with_services (mkTable [demo_pinned] 1) demo_db)).

Definition scanner : Scanner.Scanner := Scanner.mkScanner true true.

Definition start (w : world) : Scanner.scanning := Scanner.mkScanning w ∅ [].

Definition table_of (s : Scanner.scanning) : list (string * string * string) :=
  map (fun u => (u.(up_ToDigest), u.(up_Status), u.(up_ChangelogText))) s.(Scanner.sc_world).(w_db).(updates).(rows).

Notation demo_sweep tags reopen w :=
  (@Scanner.CheckServicesFresh calm_env stable_slice_sort (demo_api tags) demo_labels demo_changelog
     Detector.NewDetector scanner [1] reopen None (start w)).

(** The newer version was rolled back: a sweep leaves it so. *)
Definition rolled_world : world := scan_world [update_of 1 "sha256:new" "rolled_back"].

Lemma sweep_spec_witness :
  let s' := (demo_sweep demo_tags false rolled_world).2 in
  (map (fun x => x.1.2) (table_of s') = ["rolled_back"] /\ s'.(Scanner.hints) = [1]) /\
  observes rolled_world s'.(Scanner.sc_world) /\ stay_rolled_back [] rolled_world.(w_db) s'.(Scanner.sc_world).(w_db).
Proof.
  split; [split; vm_compute; reflexivity|].
  assert (Hok : db_ok rolled_world.(w_db)) by (apply db_okb_ok; vm_compute; reflexivity).
  exact (@sweep_spec calm_env stable_slice_sort demo_labels (demo_api demo_tags) demo_changelog
    (demo_api_reads demo_tags) demo_changelog_consults Detector.NewDetector scanner [1] false None (start rolled_world)
    Hok (fun f H => ltac:(discriminate H))).
Defined.

(** Asked to look again, the sweep of that service reopens it. *)
Example sweep_reopens : map (fun x => x.1.2) (table_of (demo_sweep demo_tags true rolled_world).2) = ["available"].
Proof. vm_compute. reflexivity. Qed.

Notation demo_ensure w :=
  (@Scanner.ensureCurrentChangelog calm_env demo_labels demo_changelog demo_pinned w).

Definition plain_world : world := scan_world [update_of 1 "sha256:before" "superseded"].

Lemma ensureCurrentChangelog_spec_witness :
  let w' := (demo_ensure plain_world).2 in
  map up_Status w'.(w_db).(updates).(rows) = ["superseded"; "current"] /\
  (forall u, u ∈ w'.(w_db).(updates).(rows) -> u.(up_ServiceID) = demo_pinned.(sv_ID) -> u.(up_Status) = "current" ->
     u.(up_ToDigest) = demo_pinned.(sv_CurrentDigest)).
Proof.
  split; [vm_compute; reflexivity|].
  assert (Hok : db_ok plain_world.(w_db)) by (apply db_okb_ok; vm_compute; reflexivity).
  assert (Ha : (demo_ensure plain_world).1 = Ok false) by (vm_compute; reflexivity).
  assert (Hd : demo_pinned.(sv_CurrentDigest) <> "") by (vm_compute; discriminate).
  exact (proj1 (@ensureCurrentChangelog_spec calm_env demo_changelog demo_changelog_consults demo_labels
    demo_pinned plain_world false _ Hok Hd (pair_fst _ _ Ha))).
Defined.

(** The update to the digest that runs now was superseded, not applied (the
    container was updated by other means): the row is in the way of the baseline,
    which is never written, and the changelog is resolved again at every check. *)
Lemma superseded_target_no_baseline :
  let s2 := (demo_sweep (Ok ["5.1.0"]) false (scan_world [update_of 1 "sha256:old" "available"])).2 in
  table_of s2 = [("sha256:old", "superseded", "notes")] /\
  (Updates.HasResolvedCurrentAtDigest (E := calm_env) 1 "sha256:old" s2.(Scanner.sc_world)).1 = Ok false /\
  (Updates.ListLastAppliedByService (E := calm_env) s2.(Scanner.sc_world)).1 = Ok [].
Proof. split; [|split]; vm_compute; reflexivity. Qed.
