(* ===== verification/Collect.v ===== *)
(** * Collecting containers (internal/docker/collect.go, internal/discovery/dockername)

    The normalized view of a container, made from what the daemon says of the
    container and of its image, and the test for the names Docker makes up. *)

From stdpp Require Import base list strings gmap.
From Stdlib Require Import Ascii.
From S2P Require Import Prelude GoStd Db World SelfUpdate.

(** ** Names Docker assigns *)
Module Dockername.

Definition adjectives : list string :=
  ["admiring"; "adoring"; "affectionate"; "agitated"; "amazing"; "angry"; "awesome"; "beautiful"; "blissful";
   "bold"; "boring"; "brave"; "busy"; "charming"; "clever"; "compassionate"; "competent"; "condescending";
   "confident"; "cool"; "cranky"; "crazy"; "dazzling"; "determined"; "distracted"; "dreamy"; "eager";
   "ecstatic"; "elastic"; "elated"; "elegant"; "eloquent"; "epic"; "exciting"; "fervent"; "festive";
   "flamboyant"; "focused"; "friendly"; "frosty"; "funny"; "gallant"; "gifted"; "goofy"; "gracious"; "great";
   "happy"; "hardcore"; "heuristic"; "hopeful"; "hungry"; "infallible"; "inspiring"; "intelligent";
   "interesting"; "jolly"; "jovial"; "keen"; "kind"; "laughing"; "loving"; "lucid"; "magical"; "modest";
   "musing"; "mystifying"; "naughty"; "nervous"; "nice"; "nifty"; "nostalgic"; "objective"; "optimistic";
   "peaceful"; "pedantic"; "pensive"; "practical"; "priceless"; "quirky"; "quizzical"; "recursing";
   "relaxed"; "reverent"; "romantic"; "sad"; "serene"; "sharp"; "silly"; "sleepy"; "stoic"; "strange";
   "stupefied"; "suspicious"; "sweet"; "tender"; "thirsty"; "trusting"; "unruffled"; "upbeat"; "vibrant";
   "vigilant"; "vigorous"; "wizardly"; "wonderful"; "xenodochial"; "youthful"; "zealous"; "zen"].

Definition surnames : list string :=
  ["agnesi"; "albattani"; "allen"; "almeida"; "antonelli"; "archimedes"; "ardinghelli"; "aryabhata";
   "austin"; "babbage"; "banach"; "banzai"; "bardeen"; "bartik"; "bassi"; "beaver"; "bell"; "benz"; "bhabha";
   "bhaskara"; "black"; "blackburn"; "blackwell"; "bohr"; "booth"; "borg"; "bose"; "bouman"; "boyd";
   "brahmagupta"; "brattain"; "brown"; "buck"; "burnell"; "cannon"; "carson"; "cartwright"; "carver"; "cerf";
   "chandrasekhar"; "chaplygin"; "chatelet"; "chatterjee"; "chaum"; "chebyshev"; "clarke"; "cohen"; "colden";
   "cori"; "cray"; "curie"; "curran"; "darwin"; "davinci"; "dewdney"; "dhawan"; "diffie"; "dijkstra";
   "dirac"; "driscoll"; "dubinsky"; "easley"; "edison"; "einstein"; "elbakyan"; "elgamal"; "elion"; "ellis";
   "engelbart"; "euclid"; "euler"; "faraday"; "feistel"; "fermat"; "fermi"; "feynman"; "franklin"; "gagarin";
   "galileo"; "galois"; "ganguly"; "gates"; "gauss"; "germain"; "goldberg"; "goldstine"; "goldwasser";
   "golick"; "goodall"; "gould"; "greider"; "grothendieck"; "haibt"; "hamilton"; "haslett"; "hawking";
   "heisenberg"; "hellman"; "hermann"; "herschel"; "hertz"; "heyrovsky"; "hodgkin"; "hofstadter"; "hoover";
   "hopper"; "hugle"; "hypatia"; "ishizaka"; "jackson"; "jang"; "jemison"; "jennings"; "jepsen"; "johnson";
   "joliot"; "jones"; "kalam"; "kapitsa"; "kare"; "keldysh"; "keller"; "kepler"; "khayyam"; "khorana";
   "kilby"; "kirch"; "knuth"; "kowalevski"; "lalande"; "lamarr"; "lamport"; "leakey"; "leavitt"; "lederberg";
   "lehmann"; "lewin"; "lichterman"; "liskov"; "lovelace"; "lumiere"; "mahavira"; "margulis"; "matsumoto";
   "maxwell"; "mayer"; "mccarthy"; "mcclintock"; "mclaren"; "mclean"; "mcnulty"; "meitner"; "mendel";
   "mendeleev"; "meninsky"; "merkle"; "mestorf"; "mirzakhani"; "montalcini"; "moore"; "morse"; "moser";
   "murdock"; "napier"; "nash"; "neumann"; "newton"; "nightingale"; "nobel"; "noether"; "northcutt"; "noyce";
   "panini"; "pare"; "pascal"; "pasteur"; "payne"; "perlman"; "pike"; "poincare"; "poitras"; "proskuriakova";
   "ptolemy"; "raman"; "ramanujan"; "rhodes"; "ride"; "ritchie"; "robinson"; "roentgen"; "rosalind"; "rubin";
   "saha"; "sammet"; "sanderson"; "satoshi"; "shamir"; "shannon"; "shaw"; "shirley"; "shockley"; "shtern";
   "sinoussi"; "snyder"; "solomon"; "spence"; "stonebraker"; "sutherland"; "swanson"; "swartz"; "swirles";
   "taussig"; "tesla"; "tharp"; "thompson"; "torvalds"; "tu"; "turing"; "varahamihira"; "vaughan"; "villani";
   "visvesvaraya"; "volhard"; "wescoff"; "wilbur"; "wiles"; "williams"; "williamson"; "wilson"; "wing";
   "wozniak"; "wright"; "wu"; "yalow"; "yonath"; "zhukovsky"].

Definition in_words (l : list string) (s : string) : bool := existsb (String.eqb s) l.

(** Without one trailing digit. *)
Fixpoint drop_digit (s : string) : string :=
  match s with
  | "" => ""
  | String a "" => if is_digit a then "" else s
  | String a s' => String a (drop_digit s')
  end.

Definition IsDockerAssigned (name : string) : bool :=
  let name := drop_digit name in
  match IndexByte name "_" with
  | None => false
  | Some i =>
      if ((i <=? 0) || (len name - 1 <=? i))%nat then false
      else in_words adjectives (name.[:i]) && in_words surnames (name.[(S i):])
  end.

End Dockername.

(** ** Containers *)

(** The parts of an inspect response the source reads. *)
Record ContainerState := mkContainerState { st_Status : string; st_Health : option string }.
Record InspectResponse := mkInspect {
  in_ID : string;
  in_Name : string;
  in_Image : string;
  in_Config : option (gmap string string * string);
  in_State : option ContainerState;
}.
Record ImageInspect := mkImageInspect {
  im_ID : string;
  im_RepoDigests : list string;
  im_Labels : option (gmap string string);
}.

Record Container := mkContainer {
  ct_ID : string;
  ct_Project : string;
  ct_Service : string;
  ct_WorkingDir : string;
  ct_ConfigFiles : list string;
  ct_Name : string;
  ct_ImageRef : string;
  ct_RepoDigest : string;
  ct_ImageID : string;
  ct_Version : string;
  ct_Pinned : bool;
  ct_State : string;
  ct_Healthcheck : bool;
  ct_Health : string;
  ct_SelfUpdate : bool;
}.

Definition dockbrrOverridePrefix : string := "dockbrr-rollback-".

(** The last part of a path. *)
Definition base_of (f : string) : string :=
  match LastIndexByte f "/" with Some i => f.[(S i):] | None => f end.

Definition splitConfigFiles (raw : string) : list string :=
  if String.eqb raw "" then []
  else List.filter (fun f => negb (HasPrefix (base_of f) dockbrrOverridePrefix)) (Split raw ",").

(** The digest of the first entry of the repository. *)
Fixpoint matching_digest (imageRepo : string) (l : list string) : option string :=
  match l with
  | [] => None
  | rd :: l' =>
      match IndexByte rd "@" with
      | Some i => if String.eqb (rd.[:i]) imageRepo then Some (rd.[(S i):]) else matching_digest imageRepo l'
      | None => matching_digest imageRepo l'
      end
  end.

Definition repoDigestFor (imageRef : string) (repoDigests : list string) : string :=
  match repoDigests with
  | [] => ""
  | first :: _ =>
      let imageRepo := match IndexAny imageRef (one_of ":@") with Some i => imageRef.[:i] | None => imageRef end in
      match matching_digest imageRepo repoDigests with
      | Some dg => dg
      | None => match IndexByte first "@" with Some i => first.[(S i):] | None => "" end
      end
  end.

Definition label_of (l : gmap string string) (k : string) : string := default "" (l !! k).

Definition containerFromInspect (ct : InspectResponse) (img : ImageInspect) : Container :=
  let labels := match ct.(in_Config) with Some (l, _) => l | None => ∅ end in
  let imageRef := match ct.(in_Config) with Some (_, i) => i | None => "" end in
  mkContainer ct.(in_ID)
    (label_of labels "com.docker.compose.project")
    (label_of labels "com.docker.compose.service")
    (label_of labels "com.docker.compose.project.working_dir")
    (splitConfigFiles (label_of labels "com.docker.compose.project.config_files"))
    (TrimPrefix ct.(in_Name) "/")
    imageRef
    (repoDigestFor imageRef img.(im_RepoDigests))
    (if String.eqb img.(im_ID) "" then ct.(in_Image) else img.(im_ID))
    (match img.(im_Labels) with Some l => label_of l "org.opencontainers.image.version" | None => "" end)
    (Contains imageRef "@sha256:")
    (match ct.(in_State) with Some s => s.(st_Status) | None => "" end)
    (match ct.(in_State) with Some s => match s.(st_Health) with Some _ => true | None => false end | None => false end)
    (match ct.(in_State) with Some s => default "" s.(st_Health) | None => "" end)
    (bool_decide (is_Some (labels !! SelfUpdateLabel))).

(** The daemon: the ids of all its containers, one container, one image. *)
Class DockerList := {
  daemon_list : nat -> result (list string);
  daemon_container : nat -> string -> result InspectResponse;
  daemon_image : nat -> string -> result ImageInspect;
}.

Section Collect.
Context {DL : DockerList}.

Definition ContainerList : M world (result (list string)) :=
  call (fun r => EvDocker "list" "" (is_ok r)) daemon_list.
Definition ContainerInspect (id : string) : M world (result InspectResponse) :=
  call (fun r => EvDocker "inspect" id (is_ok r)) (fun n => daemon_container n id).
Definition ImageInspect_ (id : string) : M world (result ImageInspect) :=
  call (fun r => EvDocker "image inspect" id (is_ok r)) (fun n => daemon_image n id).

(** A container that cannot be read is skipped. *)
Fixpoint collect_each (ids : list string) : M world (list Container) :=
  match ids with
  | [] => ret []
  | id :: ids' =>
      let! ct := ContainerInspect id in
      match ct with
      | Err _ => collect_each ids'
      | Ok ct =>
          let! img := ImageInspect_ ct.(in_Image) in
          match img with
          | Err _ => collect_each ids'
          | Ok img => let! rest := collect_each ids' in ret (containerFromInspect ct img :: rest)
          end
      end
  end.

Definition Collect : M world (result (list Container)) :=
  let! ids := ContainerList in
  match ids with
  | Err e => ret (Err (Wrap "docker: list containers" e))
  | Ok ids => let! cs := collect_each ids in ret (Ok cs)
  end.
End Collect.

(** The daemon is only read. *)
Definition docker_read (e : event) : bool :=
  match e with
  | EvDocker op _ _ => existsb (String.eqb op) ["list"; "inspect"; "image inspect"]
  | _ => false
  end.

Lemma splitConfigFiles_elem raw f :
  f ∈ splitConfigFiles raw -> HasPrefix (base_of f) dockbrrOverridePrefix = false.
Proof.
  unfold splitConfigFiles. destruct (String.eqb raw ""); [by intros ?%not_elem_of_nil|].
  intros [_ H]%elem_of_filterb. by apply negb_true_iff.
Qed.

Example assigned_names :
  map Dockername.IsDockerAssigned ["adoring_saha"; "focused_turing3"; "backrest"; "myproj_web_1"; "_saha"; "adoring_"; ""]
  = [true; true; false; false; false; false; false].
Proof. vm_compute. reflexivity. Qed.

(** The entry of the image's own repository is answered, unless the registry of
    the reference has a port: it is cut there, and the first entry is answered. *)
Lemma registry_port_digest :
  repoDigestFor "ghcr.io/a/b:1" ["c@sha256:1"; "ghcr.io/a/b@sha256:2"] = "sha256:2" /\
  repoDigestFor "localhost:5000/a:1" ["c@sha256:1"; "localhost:5000/a@sha256:3"] = "sha256:1".
Proof. vm_compute. auto. Qed.
