(* ===== verification/Discovery.v ===== *)
(** * Discovery (internal/discovery/discovery.go, locator.go)

    Containers are grouped into projects and services, and the result is
    reconciled into the database: rows are refreshed, what is gone is marked and,
    after a grace period, deleted.  The state of the reconciler is the world and
    the fingerprint of the last cycle. *)

From stdpp Require Import base list strings gmap sets.
From Stdlib Require Import Ascii Sorted.
From S2P Require Import Prelude GoStd Db Integrity World StoreUpdates StoreServices StoreMisc.
From S2P Require Import Files Compose Daemon SelfUpdate Collect.

Local Open Scope Z_scope.

Module Discovery.

Record DiscoveredService := mkDiscoveredService {
  ds_Name : string;
  ds_ContainerIDs : list string;
  ds_ImageRef : string;
  ds_CurrentDigest : string;
  ds_CurrentImageID : string;
  ds_ImageVersion : string;
  ds_Pinned : bool;
  ds_State : string;
  ds_Healthcheck : bool;
}.

Record DiscoveredProject := mkDiscoveredProject {
  dp_Name : string;
  dp_Kind : string;
  dp_WorkingDir : string;
  dp_ConfigFiles : list string;
  dp_Services : list DiscoveredService;
}.

(** ** Grouping *)

Record projectMeta := mkMeta {
  pm_kind : string;
  pm_workingDir : string;
  pm_configFiles : list string;
  pm_services : gmap string DiscoveredService;
}.

Definition new_service (name : string) (ids : list string) (c : Container) : DiscoveredService :=
  mkDiscoveredService name ids c.(ct_ImageRef) c.(ct_RepoDigest) c.(ct_ImageID) c.(ct_Version) c.(ct_Pinned)
    c.(ct_State) c.(ct_Healthcheck).

Definition add_id (s : DiscoveredService) (id : string) : DiscoveredService :=
  mkDiscoveredService s.(ds_Name) (s.(ds_ContainerIDs) ++ [id]) s.(ds_ImageRef) s.(ds_CurrentDigest)
    s.(ds_CurrentImageID) s.(ds_ImageVersion) s.(ds_Pinned) s.(ds_State) s.(ds_Healthcheck).

(** The first values that are not empty. *)
Definition inherit (m : projectMeta) (c : Container) : projectMeta :=
  mkMeta m.(pm_kind)
    (if String.eqb m.(pm_workingDir) "" && negb (String.eqb c.(ct_WorkingDir) "") then c.(ct_WorkingDir) else m.(pm_workingDir))
    (match m.(pm_configFiles), c.(ct_ConfigFiles) with [], (_ :: _) as l => l | l, _ => l end)
    m.(pm_services).

Definition merge_service (services : gmap string DiscoveredService) (c : Container) : gmap string DiscoveredService :=
  if String.eqb c.(ct_Service) "" then services
  else
    let svc := default (new_service c.(ct_Service) [] c) (services !! c.(ct_Service)) in
    <[c.(ct_Service) := add_id svc c.(ct_ID)]> services.

Definition with_pm_services (s : gmap string DiscoveredService) (m : projectMeta) : projectMeta :=
  mkMeta m.(pm_kind) m.(pm_workingDir) m.(pm_configFiles) s.

Definition group_compose (index : gmap string projectMeta) (c : Container) : gmap string projectMeta :=
  let meta := default (mkMeta "compose" c.(ct_WorkingDir) c.(ct_ConfigFiles) ∅) (index !! c.(ct_Project)) in
  let meta := inherit meta c in
  <[c.(ct_Project) := with_pm_services (merge_service meta.(pm_services) c) meta]> index.

Definition group_standalone (index : gmap string projectMeta) (c : Container) : gmap string projectMeta :=
  match index !! c.(ct_Name) with
  | Some _ => index
  | None => <[c.(ct_Name) := mkMeta "standalone" "" [] {[c.(ct_Name) := new_service c.(ct_Name) [c.(ct_ID)] c]}]> index
  end.

Definition group_step (index : gmap string projectMeta) (c : Container) : gmap string projectMeta :=
  if c.(ct_SelfUpdate) then index
  else if negb (String.eqb c.(ct_Project) "") then group_compose index c
  else group_standalone index c.

(** The values of a map in the order of its sorted keys. *)
Definition sorted_values {A B} (m : gmap string A) (f : string -> A -> B) : list B :=
  omap (fun k => f k <$> m !! k) (sort_strings (map fst (map_to_list m))).

Definition project_of (n : string) (m : projectMeta) : DiscoveredProject :=
  mkDiscoveredProject n m.(pm_kind) m.(pm_workingDir) m.(pm_configFiles) (sorted_values m.(pm_services) (fun _ s => s)).

Definition Group (cs : list Container) : list DiscoveredProject :=
  sorted_values (fold_left group_step cs ∅) project_of.

(** ** Reconciling *)

(** Where the containers come from, and whether there are settings. *)
Class Collector := { collect : M world (result (list Container)) }.

Record Reconciler := mkReconciler { hostID : Z; has_settings : bool }.

Definition declaredDiffers (declared running : string) : bool :=
  if String.eqb declared "" then false else negb (String.eqb declared running).

Definition goneServiceIDs (stored : list Service) (present : string -> bool) : list Z :=
  map sv_ID (List.filter (fun s => negb (present s.(sv_Name))) stored).

(** Is the service among those just discovered? *)
Definition present_in (groups : list DiscoveredProject) (project service : string) : bool :=
  match List.find (fun g => String.eqb g.(dp_Name) project) (rev groups) with
  | Some g => existsb (fun s => String.eqb s.(ds_Name) service) g.(dp_Services)
  | None => false
  end.

(** 64-bit arithmetic, and the FNV-1a hash. *)
Definition wrap64 (z : Z) : Z := (z + 2 ^ 63) mod 2 ^ 64 - 2 ^ 63.

Fixpoint fnv1a (h : Z) (s : string) : Z :=
  match s with
  | "" => h
  | String a s' => fnv1a (Z.lxor h (Z.of_nat (byte a)) * 1099511628211 mod 2 ^ 64) s'
  end.

Fixpoint hex_digits (fuel : nat) (n : Z) (acc : string) : string :=
  match fuel with
  | O => acc
  | S fuel' =>
      let acc := String (hex_digit (Z.to_nat (n mod 16))) acc in
      if n / 16 =? 0 then acc else hex_digits fuel' (n / 16) acc
  end.

Definition unit_sep : string := String (ascii_of_nat 31) "".
Definition nl : string := String newline "".
Definition FormatBool (b : bool) : string := if b then "true" else "false".

Definition service_sig (s : DiscoveredService) : string :=
  s.(ds_Name) +:+ unit_sep +:+ s.(ds_State) +:+ unit_sep +:+ s.(ds_ImageRef) +:+ unit_sep +:+
  s.(ds_CurrentDigest) +:+ unit_sep +:+ FormatBool s.(ds_Pinned) +:+ unit_sep +:+
  Join (sort_strings s.(ds_ContainerIDs)) "," +:+ nl.

Definition project_sig (g : DiscoveredProject) : string :=
  g.(dp_Name) +:+ "|" +:+ g.(dp_Kind) +:+ "|" +:+ Join g.(dp_ConfigFiles) "," +:+ nl +:+
  String.concat "" (map service_sig g.(dp_Services)).

Definition discoverySig (groups : list DiscoveredProject) : string :=
  "d" +:+ hex_digits 16 (fnv1a 14695981039346656037 (String.concat "" (map project_sig groups))) "".

Section Reconcile.
Context {E : Env} {SS : SliceSort} {CG : Compose.ComposeGo} {CO : Collector} (r : Reconciler).

Definition settingIntDefault (key : string) (def : Z) : M world Z :=
  let! v := Settings.Get key in
  match v with
  | Err _ => ret def
  | Ok v => if String.eqb v "" then ret def else ret (default def (Atoi v))
  end.

Definition setting_bool (key : string) (def : bool) : M world bool :=
  if r.(has_settings) then Settings.GetBoolDefault key def else ret false.

(** [os.Stat] until one fails. *)
Fixpoint files_missing (files : list string) : M world bool :=
  match files with
  | [] => ret false
  | f :: files' =>
      let! st := sys_Stat f in
      match st with Err _ => ret true | Ok _ => files_missing files' end
  end.

(** A [for] loop with early returns. *)
Fixpoint each {A} (l : list A) (body : A -> M world (result unit)) : M world (result unit) :=
  match l with
  | [] => ret (Ok tt)
  | a :: l' => try? body a in each l' body
  end.

Definition is_compose (g : DiscoveredProject) : bool :=
  String.eqb g.(dp_Kind) "compose" && negb (bool_decide (g.(dp_ConfigFiles) = [])).

(** The manual project of this name, the last of the list. *)
Definition manual_id (all : list Project) (name : string) : option Z :=
  pr_ID <$> List.find (fun p => String.eqb p.(pr_Source) "manual" && String.eqb p.(pr_Name) name) (rev all).

Definition project_row (g : DiscoveredProject) (auto : bool) (now_ : Z) : Project :=
  mkProject 0 r.(hostID) g.(dp_Kind) g.(dp_Name) g.(dp_WorkingDir) g.(dp_ConfigFiles) "discovered" auto "" false
    false (Some now_) 0.

Definition project_id (all : list Project) (now_ : Z) (g : DiscoveredProject) : M world (result Z) :=
  match manual_id all g.(dp_Name) with
  | Some mid => ret (Ok mid)
  | None =>
      let! auto := setting_bool "default_auto_update_enabled" false in
      Projects.Upsert (project_row g auto now_)
  end.

(** What the compose files declare of a service: the last one of its name. *)
Definition declared_of (svcs : list Compose.Service) (name : string) : string * bool :=
  match List.find (fun s => String.eqb s.(Compose.Name) name) (rev svcs) with
  | Some s => (s.(Compose.Image), s.(Compose.Build))
  | None => ("", false)
  end.

Definition service_row (pid : Z) (declared : string -> string * bool) (s : DiscoveredService) : Service :=
  mkService 0 pid s.(ds_Name) s.(ds_ContainerIDs) s.(ds_ImageRef) s.(ds_CurrentDigest) s.(ds_CurrentImageID)
    s.(ds_ImageVersion) s.(ds_Pinned) (declaredDiffers (declared s.(ds_Name)).1 s.(ds_ImageRef)) s.(ds_State) None
    s.(ds_Healthcheck) (declared s.(ds_Name)).2 None 0.

Definition reconcile_group (all : list Project) (now_ : Z) (g : DiscoveredProject) : M world (result unit) :=
  let? pid := project_id all now_ g in
  try? (if is_compose g
        then let! missing := files_missing g.(dp_ConfigFiles) in Projects.SetUnmanaged pid missing
        else ret (Ok tt)) in
  try? Projects.SetAutoNamed pid
         (String.eqb g.(dp_Kind) "standalone" && Dockername.IsDockerAssigned g.(dp_Name)) in
  let! parsed := (if is_compose g then Compose.Parse g.(dp_WorkingDir) g.(dp_ConfigFiles) else ret (Err (Errorf ""))) in
  let declared := match parsed with Ok pj => declared_of pj.(Compose.Services) | Err _ => fun _ => ("", false) end in
  each g.(dp_Services) (fun s =>
    let? _ := Services.Upsert (service_row pid declared s) in ret (Ok tt)).

Definition mark_gone (groups : list DiscoveredProject) (p : Project) : M world (result unit) :=
  if negb (String.eqb p.(pr_Source) "discovered") then ret (Ok tt)
  else
    let? stored := Services.ListByProject p.(pr_ID) in
    each (goneServiceIDs stored (present_in groups p.(pr_Name))) Services.MarkGone.

Definition expired (cutoff : Z) (sv : Service) : bool :=
  String.eqb sv.(sv_State) "gone" &&
  match sv.(sv_GoneSince) with Some t => t * second <? cutoff | None => false end.

(** The loops of the prune pass answer whether something was deleted. *)
Fixpoint prune_services (cutoff : Z) (svcs : list Service) : M world (result bool) :=
  match svcs with
  | [] => ret (Ok false)
  | sv :: svcs' =>
      if expired cutoff sv then
        try? Services.Delete sv.(sv_ID) in
        try? prune_services cutoff svcs' in ret (Ok true)
      else prune_services cutoff svcs'
  end.

Definition prune_project (cutoff : Z) (p : Project) : M world (result bool) :=
  if negb (String.eqb p.(pr_Source) "discovered") then ret (Ok false)
  else
    let? svcs := Services.ListByProject p.(pr_ID) in
    let? changed := prune_services cutoff svcs in
    let? remaining := Services.ListByProject p.(pr_ID) in
    if bool_decide (remaining = []) then try? Projects.Delete p.(pr_ID) in ret (Ok true)
    else ret (Ok changed).

Fixpoint prune_projects (cutoff : Z) (all : list Project) : M world (result bool) :=
  match all with
  | [] => ret (Ok false)
  | p :: all' =>
      let? c1 := prune_project cutoff p in
      let? c2 := prune_projects cutoff all' in
      ret (Ok (c1 || c2))
  end.

(** [now - grace], for a grace of that many seconds. *)
Definition cutoff_of (now_ graceSecs : Z) : Z :=
  let graceSecs := if graceSecs <? 0 then 0 else graceSecs in
  now_ + wrap64 (- wrap64 (graceSecs * second)).

Definition prune : M world (result bool) :=
  let! on := setting_bool "auto_remove_gone" true in
  if on then
    let! graceSecs := settingIntDefault "gone_grace_seconds" 3600 in
    let! now_ := now in
    let? all := Projects.List_ in
    prune_projects (cutoff_of now_ graceSecs) all
  else ret (Ok false).

(** The cycle, up to the comparison of fingerprints. *)
Definition reconcile : M world (result (bool * string)) :=
  let? cs := collect in
  let groups := Group cs in
  let? allProjects := Projects.List_ in
  let! now_ := now in
  try? each groups (reconcile_group allProjects now_) in
  try? each allProjects (mark_gone groups) in
  let? changed := prune in
  ret (Ok (changed, discoverySig groups)).

Definition Reconcile (lastSig : string) : M world (result bool * string) :=
  let! res := reconcile in
  match res with
  | Err e => ret (Err e, lastSig)
  | Ok (changed, sig) => ret (Ok (changed || negb (String.eqb sig lastSig)), sig)
  end.

(** ** Locating a service *)

Definition locate_in (projectName serviceName : string) (gs : list DiscoveredProject) : option DiscoveredService :=
  List.find (fun s => String.eqb s.(ds_Name) serviceName)
    (flat_map dp_Services (List.filter (fun g => String.eqb g.(dp_Name) projectName) gs)).

Definition LocateService (projectName serviceName : string) : M world (result (list string * string)) :=
  let? cs := collect in
  match locate_in projectName serviceName (Group cs) with
  | Some s => ret (Ok (s.(ds_ContainerIDs), s.(ds_CurrentDigest)))
  | None => ret (Ok ([], ""))
  end.

End Reconcile.
End Discovery.

(** ** What a grouping is *)

Section Group.
Import Discovery.
Implicit Types (cs : list Container) (c : Container).

(** The containers of a compose project, those of one of its services, and the
    containers of that name that belong to none; the helper of a self-update is
    none of them. *)
Definition in_project (n : string) c : bool :=
  negb c.(ct_SelfUpdate) && negb (String.eqb c.(ct_Project) "") && String.eqb c.(ct_Project) n.
Definition is_standalone (n : string) c : bool :=
  negb c.(ct_SelfUpdate) && String.eqb c.(ct_Project) "" && String.eqb c.(ct_Name) n.
Definition in_service (s : string) c : bool := negb (String.eqb c.(ct_Service) "") && String.eqb c.(ct_Service) s.

Definition members (n : string) cs : list Container := List.filter (in_project n) cs.
Definition standalones (n : string) cs : list Container := List.filter (is_standalone n) cs.
Definition replicas (s : string) (l : list Container) : list Container := List.filter (in_service s) l.

(** The service its containers make: described by the first, run by all. *)
Definition service_of (name : string) (l : list Container) : option DiscoveredService :=
  match l with [] => None | c :: _ => Some (new_service name (map ct_ID l) c) end.

Definition nonempty_list {A} (l : list A) : bool := match l with [] => false | _ => true end.

Definition first_dir (l : list Container) : string :=
  default "" (List.find (fun d => negb (String.eqb d "")) (map ct_WorkingDir l)).
Definition first_files (l : list Container) : list string :=
  default [] (List.find nonempty_list (map ct_ConfigFiles l)).

(** No container outside the compose project [n] has its name. *)
Definition no_clash (n : string) cs : Prop := members n cs = [] \/ standalones n cs = [].

(** *** The values of a map by sorted keys *)

Lemma keys_elem {A} (m : gmap string A) k : k ∈ sort_strings (map fst (map_to_list m)) <-> is_Some (m !! k).
Proof.
  rewrite sort_strings_elem, list_elem_of_In, in_map_iff. setoid_rewrite <- list_elem_of_In. split.
  - intros ([k' a] & <- & H%elem_of_map_to_list). by exists a.
  - intros [a H]. exists (k, a). by rewrite elem_of_map_to_list.
Qed.

Lemma sorted_values_elem {A B} (m : gmap string A) (f : string -> A -> B) x :
  x ∈ sorted_values m f <-> exists k a, m !! k = Some a /\ x = f k a.
Proof.
  unfold sorted_values. rewrite list_elem_of_omap. setoid_rewrite keys_elem. split.
  - intros (k & _ & (a & Hm & ->)%fmap_Some). by exists k, a.
  - intros (k & a & Hm & ->). exists k. split; [by exists a|]. by rewrite Hm.
Qed.

Lemma strictly_sorted (l : list string) :
  StronglySorted (not_after str_less) l -> NoDup l -> StronglySorted (fun a b => str_less a b = true) l.
Proof.
  induction 1 as [|x l Hl IH Hx]; [constructor|]. intros [Hn Hd]%NoDup_cons. constructor; [by apply IH|].
  rewrite Forall_forall in Hx |- *. intros y Hy. specialize (Hx y Hy).
  destruct (str_less_total x y) as [?|H]; [by intros ->|done|]. unfold not_after in Hx. congruence.
Qed.

Lemma sorted_values_keys {A B} (m : gmap string A) (f : string -> A -> B) (key : B -> string) :
  (forall k a, m !! k = Some a -> key (f k a) = k) ->
  StronglySorted (fun a b => str_less a b = true) (map key (sorted_values m f)).
Proof.
  intros Hk. unfold sorted_values.
  assert (Hs : StronglySorted (fun a b => str_less a b = true) (sort_strings (map fst (map_to_list m)))).
  { apply strictly_sorted; [done|]. rewrite sort_strings_perm. apply NoDup_fst_map_to_list. }
  assert (Hall : forall k, k ∈ sort_strings (map fst (map_to_list m)) -> is_Some (m !! k)) by (intros k; apply keys_elem).
  induction Hs as [|x l Hl IH Hx]; [constructor|]. simpl.
  destruct (Hall x) as [a Ha]; [by left|]. rewrite Ha. simpl.
  constructor; [apply IH; intros; apply Hall; by right|]. rewrite (Hk _ _ Ha).
  rewrite Forall_forall in Hx. apply Forall_map, Forall_forall. intros b (k & Hin & (a' & Hm & ->)%fmap_Some)%list_elem_of_omap.
  rewrite (Hk _ _ Hm). by apply Hx.
Qed.

(** *** One name at a time *)

Definition compose_meta (o : option projectMeta) c : projectMeta :=
  let meta := inherit (default (mkMeta "compose" c.(ct_WorkingDir) c.(ct_ConfigFiles) ∅) o) c in
  with_pm_services (merge_service meta.(pm_services) c) meta.

Definition standalone_meta c : projectMeta :=
  mkMeta "standalone" "" [] {[c.(ct_Name) := new_service c.(ct_Name) [c.(ct_ID)] c]}.

Definition meta_step (n : string) (o : option projectMeta) c : option projectMeta :=
  if in_project n c then Some (compose_meta o c)
  else if is_standalone n c then Some (default (standalone_meta c) o)
  else o.

Lemma group_step_lookup index c n : group_step index c !! n = meta_step n (index !! n) c.
Proof.
  unfold group_step, meta_step, in_project, is_standalone.
  destruct (ct_SelfUpdate c); [done|]. destruct (String.eqb_spec (ct_Project c) "") as [Hp|Hp]; cbn [negb andb].
  - unfold group_standalone. destruct (String.eqb_spec (ct_Name c) n) as [<-|Hne].
    + destruct (index !! ct_Name c) as [m|] eqn:Hi; [by rewrite Hi|]. by rewrite lookup_insert_eq.
    + destruct (index !! ct_Name c); [done|]. by rewrite lookup_insert_ne.
  - unfold group_compose. destruct (String.eqb_spec (ct_Project c) n) as [<-|Hne].
    + by rewrite lookup_insert_eq.
    + by rewrite lookup_insert_ne.
Qed.

Lemma group_lookup cs index n : fold_left group_step cs index !! n = fold_left (meta_step n) cs (index !! n).
Proof.
  revert index. induction cs as [|c cs IH]; intros index; simpl; [done|]. by rewrite IH, group_step_lookup.
Qed.

(** *** A compose project *)

Lemma merge_lookup m l c s :
  (forall s, m !! s = service_of s (replicas s l)) ->
  merge_service m c !! s = service_of s (replicas s (l ++ [c])).
Proof.
  intros Hm. unfold merge_service, replicas. rewrite List.filter_app. simpl. unfold in_service at 2.
  destruct (String.eqb_spec (ct_Service c) "") as [He|He]; cbn [negb andb]; [by rewrite app_nil_r, Hm|].
  destruct (String.eqb_spec (ct_Service c) s) as [<-|Hne].
  - rewrite lookup_insert_eq, Hm. unfold replicas. destruct (List.filter _ l) as [|c0 l'] eqn:Hf; [done|].
    simpl. unfold add_id, new_service. simpl. rewrite map_app. done.
  - rewrite lookup_insert_ne, app_nil_r by done. by rewrite Hm.
Qed.

Lemma find_snoc {A} (f : A -> bool) (l : list A) a :
  List.find f (l ++ [a]) = match List.find f l with Some b => Some b | None => if f a then Some a else None end.
Proof. induction l as [|b l IH]; simpl; [done|]. by destruct (f b). Qed.

Lemma first_dir_snoc l c :
  first_dir (l ++ [c]) = if String.eqb (first_dir l) "" && negb (String.eqb c.(ct_WorkingDir) "") then c.(ct_WorkingDir) else first_dir l.
Proof.
  unfold first_dir. rewrite map_app. cbn [map]. rewrite find_snoc. simpl.
  destruct (List.find _ _) as [d|] eqn:Hf; simpl.
  - apply List.find_some in Hf as [_ Hf]. by destruct (String.eqb d "").
  - destruct (String.eqb_spec (ct_WorkingDir c) "") as [->|]; done.
Qed.

Lemma first_files_snoc l c :
  first_files (l ++ [c]) = match first_files l, c.(ct_ConfigFiles) with [], (_ :: _) as x => x | x, _ => x end.
Proof.
  unfold first_files. rewrite map_app. cbn [map]. rewrite find_snoc. simpl.
  destruct (List.find _ _) as [d|] eqn:Hf; simpl.
  - apply List.find_some in Hf as [_ Hf]. by destruct d.
  - by destruct (ct_ConfigFiles c).
Qed.

(** The state of a project whose members so far are [l]. *)
Definition meta_ok (l : list Container) (o : option projectMeta) : Prop :=
  match o with
  | None => l = []
  | Some m => l <> [] /\ m.(pm_kind) = "compose" /\ m.(pm_workingDir) = first_dir l /\
              m.(pm_configFiles) = first_files l /\ forall s, m.(pm_services) !! s = service_of s (replicas s l)
  end.

Lemma compose_meta_ok l o c : meta_ok l o -> meta_ok (l ++ [c]) (Some (compose_meta o c)).
Proof.
  intros Ho. destruct o as [m|]; simpl in *.
  - destruct Ho as (_ & Hk & Hw & Hf & Hs). split; [by destruct l|]. split; [done|].
    rewrite first_dir_snoc, first_files_snoc, <- Hw, <- Hf. do 2 (split; [done|]). intros s. by apply merge_lookup.
  - subst l. split; [done|]. split; [done|]. unfold first_dir, first_files. simpl. split; [|split].
    + by destruct (String.eqb_spec (ct_WorkingDir c) "") as [->|].
    + by destruct (ct_ConfigFiles c).
    + intros s. apply (merge_lookup ∅ [] c s). intros s'. by rewrite lookup_empty.
Qed.

Lemma project_lookup n cs : standalones n cs = [] -> meta_ok (members n cs) (fold_left group_step cs ∅ !! n).
Proof.
  rewrite group_lookup, lookup_empty. unfold members, standalones.
  induction cs as [|c cs IH] using rev_ind; [done|]. rewrite !List.filter_app, fold_left_app. simpl.
  intros [H1 H2]%app_nil. specialize (IH H1). unfold meta_step at 1.
  destruct (is_standalone n c); [done|]. destruct (in_project n c); [by apply compose_meta_ok|].
  by rewrite app_nil_r.
Qed.

Lemma standalone_lookup n cs : members n cs = [] ->
  fold_left group_step cs ∅ !! n = match standalones n cs with [] => None | c :: _ => Some (standalone_meta c) end.
Proof.
  rewrite group_lookup, lookup_empty. unfold members, standalones.
  induction cs as [|c cs IH] using rev_ind; [done|]. rewrite !List.filter_app, fold_left_app. simpl.
  intros [H1 H2]%app_nil. unfold meta_step at 1. rewrite (IH H1).
  destruct (in_project n c); [done|]. destruct (is_standalone n c); [|by rewrite app_nil_r].
  by destruct (List.filter (is_standalone n) cs).
Qed.

Lemma services_keys n cs m k s :
  standalones n cs = [] -> fold_left group_step cs ∅ !! n = Some m -> m.(pm_services) !! k = Some s ->
  s.(ds_Name) = k /\ service_of k (replicas k (members n cs)) = Some s.
Proof.
  intros Hn Hm Hk. pose proof (project_lookup n cs Hn) as H. rewrite Hm in H. destruct H as (_ & _ & _ & _ & H).
  rewrite H in Hk. split; [|done]. unfold service_of in Hk. destruct (replicas _ _); [done|]. by injection Hk as <-.
Qed.

(** Grouping is a function of the containers: the projects come out sorted by
    name, without duplicates, and so do the services of each.  A name no container
    shares with a compose project it is not in is a project exactly when a workload
    has it.  A compose project has the first working directory and config files
    given, and exactly the services its containers name; each runs exactly those
    containers, in order, and is described by the first.  A container of no project
    is a project of its own. *)
Theorem Group_spec cs :
  StronglySorted (fun a b => str_less a b = true) (map dp_Name (Group cs)) /\
  forall n, no_clash n cs ->
    ((exists g, g ∈ Group cs /\ g.(dp_Name) = n) <-> members n cs <> [] \/ standalones n cs <> []) /\
    forall g, g ∈ Group cs -> g.(dp_Name) = n ->
      (members n cs <> [] ->
         g.(dp_Kind) = "compose" /\ g.(dp_WorkingDir) = first_dir (members n cs) /\
         g.(dp_ConfigFiles) = first_files (members n cs) /\
         StronglySorted (fun a b => str_less a b = true) (map ds_Name g.(dp_Services)) /\
         forall s, s ∈ g.(dp_Services) <-> service_of s.(ds_Name) (replicas s.(ds_Name) (members n cs)) = Some s) /\
      (forall c l, standalones n cs = c :: l ->
         g = mkDiscoveredProject n "standalone" "" [] [new_service n [c.(ct_ID)] c]).
Proof.
  split; [by apply sorted_values_keys|]. intros n Hn. split.
  - setoid_rewrite sorted_values_elem. split.
    + intros (g & (k & m & Hm & ->) & Hk). simpl in Hk. subst k. destruct Hn as [Hn|Hn].
      * rewrite (standalone_lookup n cs Hn) in Hm. right. by destruct (standalones n cs).
      * pose proof (project_lookup n cs Hn) as H. rewrite Hm in H. left. apply H.
    + intros Hw. destruct (fold_left group_step cs ∅ !! n) as [m|] eqn:Hm; [by exists (project_of n m); split; [exists n, m|]|].
      destruct Hn as [Hn|Hn].
      * rewrite (standalone_lookup n cs Hn) in Hm. destruct Hw; [done|]. by destruct (standalones n cs).
      * pose proof (project_lookup n cs Hn) as H. rewrite Hm in H. by destruct Hw.
  - intros g (k & m & Hm & ->)%sorted_values_elem Hk. simpl in Hk. subst k. split.
    + intros Hne. destruct Hn as [Hn|Hn]; [done|]. pose proof (project_lookup n cs Hn) as H. rewrite Hm in H.
      destruct H as (_ & H1 & H2 & H3 & H4). do 3 (split; [done|]). split.
      * apply sorted_values_keys. intros k s Hs. by apply (services_keys n cs m).
      * intros s. simpl. rewrite sorted_values_elem. setoid_rewrite H4. split.
        -- intros (k & s' & Hs & ->). pose proof (H4 k) as Hk. rewrite Hs in Hk.
           by destruct (services_keys n cs m k s' Hn Hm Hk) as [-> ?].
        -- intros Hs. by exists s.(ds_Name), s.
    + intros c l Hs. destruct Hn as [Hn|Hn]; [|congruence]. rewrite (standalone_lookup n cs Hn), Hs in Hm.
      injection Hm as <-. assert (Hc : c.(ct_Name) = n).
      { assert (c ∈ standalones n cs) as [_ Hc]%elem_of_filterb by (rewrite Hs; left).
        apply andb_true_iff in Hc as [_ Hc]. by apply String.eqb_eq. }
      unfold project_of, standalone_meta, sorted_values. simpl. rewrite Hc, map_to_list_singleton. simpl.
      by rewrite lookup_singleton_eq.
Qed.
End Group.

(** ** What a cycle may do *)

Section Reconcile.
Context {E : Env} {SS : SliceSort} {CG : Compose.ComposeGo} {CO : Discovery.Collector} (r : Discovery.Reconciler).
Context (everything : bool).
Import Discovery.

(** Events of a cycle: statements, reads of files, reads of the daemon. *)
Definition cycle_event (e : event) : bool :=
  match e with
  | EvSql _ _ => true
  | EvFile op _ => existsb (String.eqb op) ["stat"; "read"]
  | e => docker_read e
  end.

(** The collector only reads the daemon. *)
Definition collects : Prop := forall w,
  (collect w).2.(w_db) = w.(w_db) /\ (collect w).2.(w_fs) = w.(w_fs) /\
  exists l, (collect w).2.(w_trace) = l ++ w.(w_trace) /\ forallb docker_read l = true.

(** What is not the reconciler's to lose: the manual projects, or [everything]. *)
Definition guarded (p : Project) : Prop := everything = true \/ p.(pr_Source) = "manual".
Definition guardedP (d0 : db) (id : Z) : Prop := exists p, p ∈ d0.(projects).(rows) /\ p.(pr_ID) = id /\ guarded p.
Definition guardedS (d0 : db) (id : Z) : Prop :=
  exists s, s ∈ d0.(services).(rows) /\ s.(sv_ID) = id /\ guardedP d0 s.(sv_ProjectID).

(** The parts of a row that are the user's. *)
Definition same_user_project (p p' : Project) : Prop :=
  p'.(pr_ID) = p.(pr_ID) /\ p'.(pr_HostID) = p.(pr_HostID) /\ p'.(pr_Name) = p.(pr_Name) /\
  p'.(pr_Source) = p.(pr_Source) /\ p'.(pr_AutoUpdateEnabled) = p.(pr_AutoUpdateEnabled) /\
  p'.(pr_UpdatePolicy) = p.(pr_UpdatePolicy) /\ p'.(pr_CreatedAt) = p.(pr_CreatedAt) /\
  (p.(pr_Source) = "manual" -> p'.(pr_Kind) = p.(pr_Kind) /\ p'.(pr_WorkingDir) = p.(pr_WorkingDir) /\
     p'.(pr_ConfigFiles) = p.(pr_ConfigFiles) /\ p'.(pr_LastSyncedAt) = p.(pr_LastSyncedAt)).
Definition same_user_service (s s' : Service) : Prop :=
  s'.(sv_ID) = s.(sv_ID) /\ s'.(sv_ProjectID) = s.(sv_ProjectID) /\ s'.(sv_Name) = s.(sv_Name) /\
  s'.(sv_AutoUpdateEnabled) = s.(sv_AutoUpdateEnabled).

Definition user_kept (d0 d : db) : Prop :=
  d.(settings) = d0.(settings) /\
  (forall p, p ∈ d0.(projects).(rows) -> guarded p ->
     exists p', p' ∈ d.(projects).(rows) /\ same_user_project p p') /\
  (forall s, s ∈ d0.(services).(rows) -> guardedP d0 s.(sv_ProjectID) ->
     exists s', s' ∈ d.(services).(rows) /\ same_user_service s s').

Lemma user_kept_refl d : user_kept d d.
Proof. split; [done|]. split; intros x Hx _; exists x; repeat split; done. Qed.

Lemma same_user_project_trans p q s : same_user_project p q -> same_user_project q s -> same_user_project p s.
Proof.
  intros (H1 & H2 & H3 & H4 & H5 & H6 & H7 & H8) (G1 & G2 & G3 & G4 & G5 & G6 & G7 & G8). unfold same_user_project.
  do 7 (split; [congruence|]). intros Hm. destruct (H8 Hm) as (?&?&?&?).
  destruct G8 as (?&?&?&?); [congruence|]. repeat split; congruence.
Qed.

Lemma same_user_service_trans p q s : same_user_service p q -> same_user_service q s -> same_user_service p s.
Proof. intros (?&?&?&?) (?&?&?&?). repeat split; congruence. Qed.

(** *** The statements *)

Section Statements.
Context (d0 : db).

Lemma kept_projects d d' :
  d'.(settings) = d.(settings) -> d'.(services) = d.(services) ->
  (forall p, p ∈ d.(projects).(rows) -> (exists q, q ∈ d0.(projects).(rows) /\ guarded q /\ same_user_project q p) ->
     exists p', p' ∈ d'.(projects).(rows) /\ same_user_project p p') ->
  user_kept d0 d -> user_kept d0 d'.
Proof.
  intros Hset Hsv Hp (H1 & H2 & H3). split; [congruence|]. split.
  - intros p Hin Hg. destruct (H2 p Hin Hg) as (p1 & Hin1 & Hs). destruct (Hp p1 Hin1) as (p2 & Hin2 & Hs2).
    { by exists p. }
    exists p2. split; [done|]. by eapply same_user_project_trans.
  - by rewrite Hsv.
Qed.

Lemma kept_services d d' :
  d'.(settings) = d.(settings) -> d'.(projects) = d.(projects) ->
  (forall s, s ∈ d.(services).(rows) -> guardedS d0 s.(sv_ID) ->
     exists s', s' ∈ d'.(services).(rows) /\ same_user_service s s') ->
  user_kept d0 d -> user_kept d0 d'.
Proof.
  intros Hset Hpr Hs (H1 & H2 & H3). split; [congruence|]. split; [by rewrite Hpr|].
  intros s Hin Hg. destruct (H3 s Hin Hg) as (s1 & Hin1 & Hs1). destruct (Hs s1 Hin1) as (s2 & Hin2 & Hs2).
  { exists s. split; [done|]. destruct Hs1 as (-> & _). done. }
  exists s2. split; [done|]. by eapply same_user_service_trans.
Qed.

Lemma kept_update_services p g d : (forall s, same_user_service s (g s)) -> user_kept d0 d ->
  user_kept d0 (with_services (update_rows p g d.(services)) d).
Proof.
  intros Hg. apply kept_services; [done..|]. intros s Hs _. exists (if p s then g s else s).
  split; [apply elem_of_update_where; by exists s|]. destruct (p s); [done|by repeat split].
Qed.

Lemma kept_upsert_service sv : stmt_keeps (user_kept d0) (Services.upsert_stmt sv).
Proof.
  intros t d a d' Hd. unfold Services.upsert_stmt. destruct (Services.find_named _ _ _).
  - intros [= _ <-]. by apply kept_update_services.
  - destruct (negb _); [done|]. intros [= _ <-]. revert Hd. apply kept_services; [done..|].
    intros s' Hs _. exists s'. split; [apply elem_of_app; by left|by repeat split].
Qed.

Lemma kept_mark_gone id g : (forall t s, same_user_service s (g t s)) -> stmt_keeps (user_kept d0) (Services.update_by_id id g).
Proof. intros Hg t d a d' Hd [= _ <-]. by apply kept_update_services. Qed.

Lemma kept_flags id g : (forall p, same_user_project p (g p)) -> stmt_keeps (user_kept d0) (Projects.update_by_id id g).
Proof.
  intros Hg t d a d' Hd [= _ <-]. revert Hd. apply kept_projects; [done..|]. intros p Hp _.
  exists (if pr_ID p =? id then g p else p). split; [apply elem_of_update_where; by exists p|].
  destruct (_ =? _); [done|by repeat split].
Qed.

Lemma kept_upsert_project pr src :
  (forall p, p ∈ d0.(projects).(rows) -> p.(pr_Source) = "manual" -> p.(pr_Name) <> pr.(pr_Name)) ->
  forall t d a d', db_ok d -> user_kept d0 d -> Projects.upsert_stmt pr src t d = Ok (a, d') -> user_kept d0 d'.
Proof.
  intros Hn t d a d' Hok Hd. unfold Projects.upsert_stmt. destruct (Projects.find_named _ _ _) as [q|] eqn:Hf.
  - intros [= _ <-]. revert Hd. apply kept_projects; [done..|]. intros p Hp (p0 & Hin0 & Hg & Hs).
    exists (if pr_ID p =? pr_ID q then Projects.refresh pr p else p).
    split; [apply elem_of_update_where; by exists p|]. destruct (Z.eqb_spec p.(pr_ID) q.(pr_ID)) as [He|]; [|by repeat split].
    do 7 (split; [done|]). intros Hm. destruct Hs as (_ & _ & Hname & Hsrc & _).
    apply find_elem in Hf as [Hq [_ Hqn%String.eqb_eq]%andb_true_iff].
    assert (p = q) as -> by (eapply tbl_id_inj; [apply (ok_projects _ Hok)|done..]).
    destruct (Hn p0 Hin0); congruence.
  - destruct (negb _); [done|]. intros [= _ <-]. revert Hd. apply kept_projects; [done..|].
    intros p Hp _. exists p. split; [apply elem_of_app; by left|by repeat split].
Qed.

Lemma kept_delete_service id : ~ guardedS d0 id -> stmt_keeps (user_kept d0) (Services.delete_stmt id).
Proof.
  intros Hn t d a d' Hd [= _ <-]. revert Hd. apply kept_services; [done..|]. intros s Hs Hg. exists s.
  split; [|by repeat split]. simpl. apply elem_of_filterb. split; [done|]. apply negb_true_iff, Z.eqb_neq.
  intros He. by rewrite He in Hg.
Qed.

Lemma gone_service id d s : one_of_ids (map pr_ID (List.filter (fun p => p.(pr_ID) =? id) d.(projects).(rows))) s = true -> s = id.
Proof.
  rewrite one_of_ids_true, list_elem_of_In, in_map_iff. intros (p & <- & [_ Hp]%filter_In). by apply Z.eqb_eq.
Qed.

Lemma kept_delete_project id : ~ guardedP d0 id -> stmt_keeps (user_kept d0) (Projects.delete_stmt id).
Proof.
  intros Hn t d a d' (H1 & H2 & H3) [= _ <-]. split; [done|]. split.
  - intros p Hin Hg. destruct (H2 p Hin Hg) as (p' & Hin' & Hs). exists p'. split; [|done]. simpl.
    apply elem_of_filterb. split; [done|]. apply negb_true_iff, Z.eqb_neq. destruct Hs as (-> & _). intros He.
    apply Hn. by exists p.
  - intros s Hin Hg. destruct (H3 s Hin Hg) as (s' & Hin' & Hs). exists s'. split; [|done]. simpl.
    apply elem_of_filterb. split; [done|]. apply negb_true_iff. destruct (one_of_ids _ _) eqn:Eo; [|done].
    apply gone_service in Eo. destruct Hs as (_ & Hp & _). rewrite Hp in Eo. subst id. done.
Qed.
End Statements.

(** *** The cycle *)

Definition cycle_ok (w0 w : world) : Prop :=
  db_ok w.(w_db) /\ user_kept w0.(w_db) w.(w_db) /\ w.(w_fs) = w0.(w_fs) /\
  exists l, w.(w_trace) = l ++ w0.(w_trace) /\ forallb cycle_event l = true.

Context (w0 : world) (HC : collects).
Notation I := (cycle_ok w0).
Notation d0 := (w0.(w_db)).

Lemma cycle_sql {A} op id (st : stmt A) :
  stmt_keeps db_ok st ->
  (forall t d a d', db_ok d -> user_kept d0 d -> st t d = Ok (a, d') -> user_kept d0 d') -> keeps I (sql op id st).
Proof.
  intros Hok Hk w (H1 & H2 & H3 & l & H4 & H5). destruct (sql op id st w) as [[a|e] w'] eqn:Es; simpl.
  - apply sql_ok_inv in Es as (Hs & Hf & Ht & _). split; [by eapply Hok|]. split; [by eapply Hk|].
    split; [congruence|]. exists (EvSql op id :: l). rewrite Ht, H4. by rewrite <- H5.
  - apply sql_err_inv in Es as ->. split; [done|]. split; [done|]. split; [done|]. by exists l.
Qed.

Lemma cycle_query {A} op id (f : db -> A) : keeps I (sql op id (query f)).
Proof. apply cycle_sql; [eauto with keeps|]. by intros t d a d' _ Hd [= _ <-]. Qed.

(** What a read answers holds of the database it read. *)
Lemma cycle_read {A B} op id (f : db -> A) (k : A -> M world (result B)) (Q : A -> Prop) :
  (forall d, db_ok d -> user_kept d0 d -> Q (f d)) -> (forall a, Q a -> keeps I (k a)) ->
  keeps I (bind_ok (sql op id (query f)) k).
Proof.
  intros HQ Hk w Hw. pose proof (cycle_query op id f w Hw) as Hw'. unfold bind_ok, bind.
  destruct (sql op id (query f) w) as [[a|e] w'] eqn:Es; [|done].
  apply sql_ok_inv in Es as ([= <- _] & _). apply Hk; [|done]. destruct Hw as (H1 & H2 & _). by apply HQ.
Qed.

Lemma cycle_sys {A} op path (f : fs -> result (A * fs)) :
  existsb (String.eqb op) ["stat"; "read"] = true -> (forall m a m', f m = Ok (a, m') -> m' = m) ->
  keeps I (sys op path f).
Proof.
  intros Ho Hf w (H1 & H2 & H3 & l & H4 & H5). unfold sys.
  destruct (os_fault _); [split; [done|]; split; [done|]; split; [done|]; by exists l|].
  destruct (f w.(w_fs)) as [[a m]|e] eqn:Ef; simpl; [|split; [done|]; split; [done|]; split; [done|]; by exists l].
  apply Hf in Ef as ->. split; [done|]. split; [done|]. split; [done|]. exists (EvFile op path :: l).
  simpl. rewrite H4. split; [done|]. simpl in Ho. by rewrite Ho.
Qed.

Lemma cycle_now : keeps I now.
Proof. intros w Hw. exact Hw. Qed.

Lemma cycle_collect : keeps I collect.
Proof.
  intros w (H1 & H2 & H3 & l & H4 & H5). destruct (HC w) as (G1 & G2 & l' & G3 & G4). unfold cycle_ok.
  rewrite G1, G2. do 3 (split; [done|]). exists (l' ++ l). rewrite G3, H4, app_assoc. split; [done|].
  rewrite forallb_app, H5, andb_true_r. rewrite forallb_forall in G4 |- *. intros e He. specialize (G4 e He).
  by destruct e.
Qed.

Lemma cycle_stat path : keeps I (sys_Stat path).
Proof. apply cycle_sys; [done|]. intros m a m'. destruct (m !! path); [|done]. by intros [= _ <-]. Qed.
Lemma cycle_readfile path : keeps I (sys_ReadFile path).
Proof. apply cycle_sys; [done|]. intros m a m'. destruct (m !! path); [|done]. by intros [= _ <-]. Qed.

Lemma cycle_setting key : keeps I (Settings.Get key).
Proof.
  apply cycle_sql; [eauto with keeps|]. intros t d a d' _ Hd. destruct (Settings.lookup _ _); [|done].
  by intros [= _ <-].
Qed.

Lemma cycle_each {A} (l : list A) body : (forall a, a ∈ l -> keeps I (body a)) -> keeps I (each l body).
Proof.
  induction l as [|a l IH]; intros Hb; simpl; [apply keeps_ret|].
  apply keeps_bind_ok; [apply Hb; by left|]. intros _. apply IH. intros b Hin. apply Hb. by right.
Qed.

Hint Resolve cycle_now cycle_collect cycle_stat cycle_readfile cycle_setting cycle_query : keeps.

Lemma cycle_bool key def : keeps I (setting_bool r key def).
Proof. unfold setting_bool, Settings.GetBoolDefault. keeps_walk. Qed.

Lemma cycle_missing files : keeps I (files_missing files).
Proof. induction files; simpl; keeps_walk. Qed.

Lemma cycle_parse dir files : keeps I (Compose.Parse dir files).
Proof.
  unfold Compose.Parse, Compose.buildEnv.
  assert (Hr : forall l, keeps I (Compose.read_files l)) by (induction l; simpl; keeps_walk).
  keeps_walk.
Qed.

Hint Resolve cycle_bool cycle_missing cycle_parse : keeps.

(** The list of the projects shows every manual project of the start. *)
Definition shows_manual (all : list Project) : Prop := forall p, p ∈ d0.(projects).(rows) ->
  p.(pr_Source) = "manual" -> exists q, q ∈ all /\ q.(pr_Source) = "manual" /\ q.(pr_Name) = p.(pr_Name).

Lemma cycle_group all now_ g : shows_manual all -> keeps I (reconcile_group r all now_ g).
Proof.
  intros Hall. unfold reconcile_group, project_id, Projects.Upsert, Projects.SetUnmanaged, Projects.SetAutoNamed,
    Services.Upsert.
  assert (Hflags : forall op id g, (forall p, same_user_project p (g p)) -> same_project g ->
    keeps I (sql op id (Projects.update_by_id id g))).
  { intros op id f Hf Hs. apply cycle_sql; [eauto with keeps|]. intros t d a d' _. by apply kept_flags. }
  apply keeps_bind_ok.
  { destruct (manual_id _ _) eqn:Hm; [apply keeps_ret|]. apply keeps_bind; [auto with keeps|]. intros auto.
    apply cycle_sql; [eauto with keeps|]. intros t d a d' Hok Hd. apply kept_upsert_project; [|done..].
    intros p Hp Hsrc Hname. destruct (Hall p Hp Hsrc) as (q & Hq & Hqs & Hqn). unfold manual_id in Hm.
    destruct (List.find _ (rev all)) as [x|] eqn:Hf; [done|].
    apply find_none_elem with (a := q) in Hf; [|by rewrite list_elem_of_In, <- in_rev, <- list_elem_of_In].
    rewrite Hqs, Hqn, Hname in Hf. simpl in Hf. by rewrite String.eqb_refl in Hf. }
  intros pid. apply keeps_bind_ok.
  { destruct (is_compose g); keeps_walk. apply Hflags; [by repeat split|by intros []]. }
  intros _. apply keeps_bind_ok; [keeps_walk; apply Hflags; [by repeat split|by intros []]|].
  intros _. apply keeps_bind; [keeps_walk|]. intros parsed. apply cycle_each. intros s _.
  apply keeps_bind_ok; [|intros id; apply keeps_ret].
  apply cycle_sql; [eauto with keeps|]. intros t d a d' _. by apply kept_upsert_service.
Qed.

Lemma cycle_mark groups p : keeps I (mark_gone groups p).
Proof.
  unfold mark_gone, Services.ListByProject, Services.MarkGone. destruct (negb _); [apply keeps_ret|].
  apply keeps_bind_ok; [apply cycle_query|]. intros svcs. apply cycle_each. intros id _.
  apply keeps_bind_ok; [|intros x; apply keeps_ret].
  apply cycle_sql; [eauto with keeps|]. intros t d a d' _. apply kept_mark_gone. by repeat split.
Qed.

(** Only what is not guarded is deleted. *)
Definition unguarded (p : Project) : Prop := p.(pr_Source) = "discovered" -> ~ guardedP d0 p.(pr_ID).

Lemma listed_unguarded d : everything = false -> db_ok d -> user_kept d0 d ->
  Forall unguarded (sort_stable Projects.by_name d.(projects).(rows)).
Proof.
  intros Hev Hok (_ & H2 & _). apply Forall_forall. intros p Hp Hsrc (p0 & Hin0 & Hid & Hg).
  rewrite sort_stable_perm in Hp. destruct (H2 p0 Hin0 Hg) as (p1 & Hin1 & Hs1 & _ & _ & Hsrc1 & _).
  destruct Hg as [Hg|Hg]; [congruence|].
  assert (p = p1) as -> by (eapply tbl_id_inj; [apply (ok_projects _ Hok)|done..|congruence]). congruence.
Qed.

Lemma services_unguarded d pid : db_ok d -> user_kept d0 d -> ~ guardedP d0 pid ->
  Forall (fun s => ~ guardedS d0 s.(sv_ID))
    (sort_stable Services.by_name (List.filter (Services.of_project pid) d.(services).(rows))).
Proof.
  intros Hok (_ & _ & H3) Hn. apply Forall_forall. intros s Hs (s0 & Hin0 & Hid & Hg).
  rewrite sort_stable_perm in Hs. apply elem_of_filterb in Hs as [Hs Hp%Z.eqb_eq].
  destruct (H3 s0 Hin0 Hg) as (s1 & Hin1 & Hs1 & Hp1 & _).
  assert (s = s1) as -> by (eapply tbl_id_inj; [apply (ok_services _ Hok)|done..|congruence]). congruence.
Qed.

Lemma cycle_prune_services cutoff svcs :
  Forall (fun s => ~ guardedS d0 s.(sv_ID)) svcs -> keeps I (prune_services cutoff svcs).
Proof.
  induction 1 as [|s svcs Hs _ IH]; simpl; [apply keeps_ret|]. destruct (expired cutoff s); [|done].
  apply keeps_bind_ok; [|intros _; apply keeps_bind_ok; [done|intros b; apply keeps_ret]].
  apply cycle_sql; [eauto with keeps|]. intros t d a d' _. by apply kept_delete_service.
Qed.

Lemma cycle_prune_project cutoff p : unguarded p -> keeps I (prune_project cutoff p).
Proof.
  intros Hp. unfold prune_project. destruct (String.eqb_spec p.(pr_Source) "discovered") as [Hs|]; [|apply keeps_ret].
  specialize (Hp Hs). apply (cycle_read _ _ _ _ (Forall (fun s => ~ guardedS d0 s.(sv_ID)))).
  { intros d Hok Hd. by apply services_unguarded. }
  intros svcs Hsvcs. apply keeps_bind_ok; [by apply cycle_prune_services|]. intros changed.
  apply keeps_bind_ok; [apply cycle_query|]. intros remaining. case_bool_decide; [|apply keeps_ret].
  apply keeps_bind_ok; [|intros _; apply keeps_ret].
  apply cycle_sql; [eauto with keeps|]. intros t d a d' _. by apply kept_delete_project.
Qed.

Lemma cycle_prune_projects cutoff all : Forall unguarded all -> keeps I (prune_projects cutoff all).
Proof.
  induction 1 as [|p all Hp _ IH]; simpl; [apply keeps_ret|].
  apply keeps_bind_ok; [by apply cycle_prune_project|]. intros c1.
  apply keeps_bind_ok; [done|]. intros c2. apply keeps_ret.
Qed.

(** When is the pruning off? *)
Definition pruning_off : Prop :=
  r.(has_settings) = false \/
  (Settings.lookup "auto_remove_gone" d0 = Some "false" /\ forall n, sql_fault n = None).

Lemma setting_off w : I w -> pruning_off -> (setting_bool r "auto_remove_gone" true w).1 = false.
Proof.
  intros (_ & (Hset & _) & _) [H|[H Hs]]; unfold setting_bool; [by rewrite H|].
  destruct (has_settings r); [|done]. unfold Settings.GetBoolDefault, Settings.Get, bind.
  erewrite sql_run; [|apply Hs|].
  2:{ cbv beta. unfold Settings.lookup in *. rewrite Hset, H. reflexivity. }
  done.
Qed.

Lemma cycle_prune : (everything = true -> pruning_off) -> keeps I (prune r).
Proof.
  intros Hoff w Hw. unfold prune, bind at 1. pose proof (cycle_bool "auto_remove_gone" true w Hw) as Hw1.
  pose proof (setting_off w Hw) as Hset. destruct (setting_bool r _ _ w) as [on w1]. simpl in *. destruct on; [|done].
  assert (everything = false) as Hev by (destruct everything; [by specialize (Hset (Hoff eq_refl))|done]).
  revert w1 Hw1. unfold settingIntDefault. apply keeps_bind; [keeps_walk|]. intros grace.
  apply keeps_bind; [auto with keeps|]. intros now_. apply (cycle_read _ _ _ _ (Forall unguarded)).
  - intros d Hok Hd. by apply listed_unguarded.
  - intros all Hall. by apply cycle_prune_projects.
Qed.

Lemma cycle_reconcile lastSig : (everything = true -> pruning_off) -> keeps I (Reconcile r lastSig).
Proof.
  intros Hoff. unfold Reconcile, reconcile. apply keeps_bind; [|intros [[changed sig]|e]; apply keeps_ret].
  apply keeps_bind_ok; [auto with keeps|]. intros cs. apply (cycle_read _ _ _ _ shows_manual).
  { intros d Hok (_ & H2 & _) p Hp Hm. destruct (H2 p Hp) as (q & Hq & _ & _ & Hn & Hs & _); [by right|].
    exists q. split; [by rewrite sort_stable_perm|]. split; congruence. }
  intros all Hall. apply keeps_bind; [auto with keeps|]. intros now_.
  apply keeps_bind_ok; [apply cycle_each; intros g _; by apply cycle_group|]. intros _.
  apply keeps_bind_ok; [apply cycle_each; intros p _; apply cycle_mark|]. intros _.
  apply keeps_bind_ok; [by apply cycle_prune|]. intros changed. apply keeps_ret.
Qed.
End Reconcile.


(** ** Runs *)

Section Runs.
Import Discovery.

Definition demo_container (id project service name : string) : Container :=
  mkContainer id project service "/srv" ["/srv/compose.yml"] name "ghost:5" "sha256:a" "sha256:b" "5.0.0" false
    "running" false "" false.

Definition demo_cs : list Container :=
  [demo_container "c1" "blog" "web" "blog-web-1"; demo_container "c2" "" "" "adoring_saha";
   demo_container "c3" "blog" "db" "blog-db-1"; demo_container "c4" "blog" "web" "blog-web-2"].

Lemma Group_spec_witness :
  map (fun g => (g.(dp_Name), g.(dp_Kind), map (fun s => (s.(ds_Name), s.(ds_ContainerIDs))) g.(dp_Services))) (Group demo_cs)
  = [("adoring_saha", "standalone", [("adoring_saha", ["c2"])]); ("blog", "compose", [("db", ["c3"]); ("web", ["c1"; "c4"])])] /\
  ((exists g, g ∈ Group demo_cs /\ g.(dp_Name) = "blog") <-> members "blog" demo_cs <> [] \/ standalones "blog" demo_cs <> []).
Proof.
  split; [vm_compute; reflexivity|].
  refine (proj1 (proj2 (Group_spec demo_cs) "blog" _)). right. vm_compute. reflexivity.
Defined.

(** Where a container has the name of a project it is not in, the order of the
    containers decides what the project is. *)
Lemma name_clash_order :
  let lone := demo_container "c1" "" "" "web" in
  let member := demo_container "c2" "web" "app" "web-app-1" in
  map (fun g => (g.(dp_Kind), map ds_Name g.(dp_Services))) (Group [member; lone]) = [("compose", ["app"])] /\
  map (fun g => (g.(dp_Kind), map ds_Name g.(dp_Services))) (Group [lone; member]) = [("standalone", ["app"; "web"])].
Proof. vm_compute. auto. Qed.

Definition demo_go : Compose.ComposeGo := {|
  Compose.environ := []; Compose.load_project _ _ _ _ := Err (Errorf "no file"); Compose.env_from_file _ _ := None |}.

Definition demo_collector (cs : list Container) : Collector :=
  {| collect := call (fun r => EvDocker "list" "" (is_ok r)) (fun _ => Ok cs) |}.

Lemma demo_collects cs : @collects (demo_collector cs).
Proof. intros w. split; [done|]. split; [done|]. by exists [EvDocker "list" "" true]. Qed.

Notation demo_reconcile cs w := (@Reconcile calm_env stable_slice_sort demo_go (demo_collector cs) (mkReconciler 1 true) "" w).

Definition kept_projects_of (w : world) : list (string * string) :=
  map (fun p => (p.(pr_Name), p.(pr_Source))) w.(w_db).(projects).(rows).
Definition service_states (w : world) : list (string * string) :=
  map (fun s => (s.(sv_Name), s.(sv_State))) w.(w_db).(services).(rows).

Definition grace_world (grace : string) : world := demo_world (with_settings [("gone_grace_seconds", grace)] demo_db).


(** A grace of more seconds than 64 bits hold in nanoseconds wraps around: the
    service that just went is deleted, with its project, in the same cycle. *)
Lemma grace_overflow :
  let w' := (demo_reconcile [] (grace_world "9223372036854775807")).2 in
  service_states (demo_reconcile [] (grace_world "3600")).2 = [("web", "gone")] /\
  service_states w' = [] /\ kept_projects_of w' = [].
Proof. split; [|split]; vm_compute; reflexivity. Qed.

(** The prune pass reads its switch with a default: when the read fails, a user
    who turned it off has it run. *)
Definition switch_fault : Env := {|
  sql_fault n := if Nat.eqb n 9 then Some (Errorf "database is locked") else None;
  os_fault _ := None; clock n := 1700000000000000000 + 1000000000 * Z.of_nat n; random_name n := "";
  self_owner := (0, 0); ctx_done _ := false |}.

Definition off_world : world :=
  demo_world (with_settings [("auto_remove_gone", "false"); ("gone_grace_seconds", "0")] demo_db).

Lemma switch_read_fails :
  let cs := [demo_container "c9" "" "" "adoring_saha"] in
  service_states (demo_reconcile cs off_world).2 = [("web", "gone"); ("adoring_saha", "running")] /\
  service_states (@Reconcile switch_fault stable_slice_sort demo_go (demo_collector cs) (mkReconciler 1 true) "" off_world).2
  = [("adoring_saha", "running")].
Proof. split; vm_compute; reflexivity. Qed.
End Runs.
