(* ===== verification/Password.v ===== *)
(** * Password hashes and random tokens (internal/auth/password.go, newToken of
    internal/httpapi/middleware.go)

    argon2 and the random source are parameters; the base64 codecs, the PHC text
    and its parser are written out.  A string is its bytes. *)

From stdpp Require Import base list strings.
From Stdlib Require Import Ascii.
From S2P Require Import Prelude GoStd Db World.

Local Open Scope Z_scope.

(** ** Base64 without padding *)
Module Base64.

(** The 64 characters: the last two tell the standard from the URL alphabet. *)
Definition alphabet (c62 c63 : ascii) : string :=
  "ABCDEFGHIJKLMNOPQRSTUVWXYZabcdefghijklmnopqrstuvwxyz0123456789" +:+ String c62 (String c63 "").

Definition std : string := alphabet "+" "/".
Definition url : string := alphabet "-" "_".

Definition digit (al : string) (n : Z) : ascii := default "A"%char (String.get (Z.to_nat n) al).

Definition val (a : ascii) : Z := Z.of_nat (byte a).

Fixpoint EncodeToString (al : string) (s : string) : string :=
  match s with
  | "" => ""
  | String a "" =>
      String (digit al (val a / 4)) (String (digit al (val a mod 4 * 16)) "")
  | String a (String b "") =>
      String (digit al (val a / 4)) (String (digit al (val a mod 4 * 16 + val b / 16))
        (String (digit al (val b mod 16 * 4)) ""))
  | String a (String b (String c s')) =>
      String (digit al (val a / 4)) (String (digit al (val a mod 4 * 16 + val b / 16))
        (String (digit al (val b mod 16 * 4 + val c / 64)) (String (digit al (val c mod 64))
          (EncodeToString al s'))))
  end.

Definition code (al : string) (a : ascii) : option Z := Z.of_nat <$> IndexByte al a.

Definition chr (n : Z) : ascii := ascii_of_nat (Z.to_nat n).

(** The bits left over in the last character are not looked at. *)
Fixpoint decode (al : string) (s : string) : option string :=
  match s with
  | "" => Some ""
  | String _ "" => None
  | String a (String b "") =>
      match code al a, code al b with
      | Some x, Some y => Some (String (chr (x * 4 + y / 16)) "")
      | _, _ => None
      end
  | String a (String b (String c "")) =>
      match code al a, code al b, code al c with
      | Some x, Some y, Some z => Some (String (chr (x * 4 + y / 16)) (String (chr (y mod 16 * 16 + z / 4)) ""))
      | _, _, _ => None
      end
  | String a (String b (String c (String d s'))) =>
      match code al a, code al b, code al c, code al d, decode al s' with
      | Some x, Some y, Some z, Some t, Some r =>
          Some (String (chr (x * 4 + y / 16)) (String (chr (y mod 16 * 16 + z / 4)) (String (chr (z mod 4 * 64 + t)) r)))
      | _, _, _, _, _ => None
      end
  end.

(** Line ends are skipped. *)
Fixpoint drop_line_ends (s : string) : string :=
  match s with
  | "" => ""
  | String a s' => if Nat.eqb (byte a) 10 || Nat.eqb (byte a) 13 then drop_line_ends s' else String a (drop_line_ends s')
  end.

Definition DecodeString (al : string) (s : string) : option string := decode al (drop_line_ends s).

End Base64.

(** ** The parameters *)

(** [crypto/rand.Read]: the bytes of the [n]-th call. *)
Class Random := {
  rand_Read : nat -> nat -> result string;
  rand_Read_len n k s : rand_Read n k = Ok s -> len s = k;
}.

(** [argon2.IDKey plain salt time memory threads keyLen]. *)
Class Argon2 := {
  IDKey : string -> string -> Z -> Z -> Z -> Z -> string;
  IDKey_len p s t m th k : 0 <= k -> Z.of_nat (len (IDKey p s t m th k)) = k;
}.

Definition read_random {R : Random} (k : nat) : M world (result string) := fun w => (rand_Read w.(w_tick) k, tick w).

Definition newToken {R : Random} : M world (result string) :=
  let? b := read_random 32 in ret (Ok (Base64.EncodeToString Base64.url b)).

(** ** Hashing *)
Module Auth.

Definition argonTime : Z := 1.
Definition argonMemory : Z := 64 * 1024.
Definition argonThreads : Z := 4.
Definition argonKeyLen : Z := 32.
Definition argonSaltLen : nat := 16.
Definition argon2_Version : Z := 19.

Definition ErrInvalidHash : error := Sentinel "invalid argon2id hash".

Definition phc (salt key : string) : string :=
  "$argon2id$v=" +:+ Itoa argon2_Version +:+ "$m=" +:+ Itoa argonMemory +:+ ",t=" +:+ Itoa argonTime +:+ ",p=" +:+
  Itoa argonThreads +:+ "$" +:+ Base64.EncodeToString Base64.std salt +:+ "$" +:+ Base64.EncodeToString Base64.std key.

Section Auth.
Context {R : Random} {A2 : Argon2}.

Definition HashPassword (plain : string) : M world (result string) :=
  let? salt := read_random argonSaltLen in
  ret (Ok (phc salt (IDKey plain salt argonTime argonMemory argonThreads argonKeyLen))).

(** A number of [fmt.Sscanf]: blanks, digits, and what follows them.  A sign is
    for the signed verb only. *)
Definition blank (a : ascii) : bool := ascii_space a && negb (Ascii.eqb a newline).

Fixpoint skip_blanks (s : string) : string :=
  match s with String a s' => if blank a then skip_blanks s' else s | "" => "" end.

Fixpoint digit_run (s : string) : string * string :=
  match s with
  | String a s' => if is_digit a then let '(d, r) := digit_run s' in (String a d, r) else ("", s)
  | "" => ("", "")
  end.

Definition scan_uint (max : Z) (s : string) : option (Z * string) :=
  let '(d, r) := digit_run (skip_blanks s) in
  if String.eqb d "" then None
  else match digits_val 0 d with
       | Some z => if z <=? max then Some (z, r) else None
       | None => None
       end.

Definition scan_int (s : string) : option (Z * string) :=
  match skip_blanks s with
  | String a s' =>
      if Ascii.eqb a "-" then
        match digit_run s' with
        | ("", _) => None
        | (d, r) => match digits_val 0 d with Some z => if z <=? max_int + 1 then Some (- z, r) else None | None => None end
        end
      else
        let s1 := if Ascii.eqb a "+" then s' else String a s' in
        match digit_run s1 with
        | ("", _) => None
        | (d, r) => match digits_val 0 d with Some z => if z <=? max_int then Some (z, r) else None | None => None end
        end
  | "" => None
  end.

(** A literal of the format. *)
Definition scan_lit (lit : string) (s : string) : option string :=
  if HasPrefix s lit then Some (s.[(len lit):]) else None.

Definition scan_version (s : string) : option Z :=
  match scan_lit "v=" s with
  | Some s' => fst <$> scan_int s'
  | None => None
  end.

Definition max_uint32 : Z := 4294967295.
Definition max_uint8 : Z := 255.

Definition scan_params (s : string) : option (Z * Z * Z) :=
  match scan_lit "m=" s with
  | Some s1 =>
      match scan_uint max_uint32 s1 with
      | Some (m, s2) =>
          match scan_lit ",t=" s2 with
          | Some s3 =>
              match scan_uint max_uint32 s3 with
              | Some (t, s4) =>
                  match scan_lit ",p=" s4 with
                  | Some s5 => (fun p => (m, t, p.1)) <$> scan_uint max_uint8 s5
                  | None => None
                  end
              | None => None
              end
          | None => None
          end
      | None => None
      end
  | None => None
  end.

Definition VerifyPassword (encoded plain : string) : result bool :=
  match Split encoded "$" with
  | [_; name; version; params; salt; hash] =>
      if negb (String.eqb name "argon2id") then Err ErrInvalidHash
      else if negb (bool_decide (scan_version version = Some argon2_Version)) then Err ErrInvalidHash
      else
        match scan_params params with
        | None => Err ErrInvalidHash
        | Some (mem, t, p) =>
            match Base64.DecodeString Base64.std salt, Base64.DecodeString Base64.std hash with
            | Some salt, Some want =>
                if String.eqb want "" then Err ErrInvalidHash
                else Ok (String.eqb (IDKey plain salt t mem p (Z.of_nat (len want))) want)
            | _, _ => Err ErrInvalidHash
            end
        end
  | _ => Err ErrInvalidHash
  end.

End Auth.
End Auth.

(** ** Properties *)

Section Codec.
Import Base64.
Context (al : string).

(** An alphabet: 64 different characters. *)
Definition alphabet_ok : bool :=
  forallb (fun n => bool_decide (code al (digit al (Z.of_nat n)) = Some (Z.of_nat n))) (List.seq 0%nat 64%nat).

Lemma code_digit n : alphabet_ok = true -> 0 <= n < 64 -> code al (digit al n) = Some n.
Proof.
  intros Hal Hn. unfold alphabet_ok in Hal. rewrite forallb_forall in Hal.
  specialize (Hal (Z.to_nat n)). rewrite Z2Nat.id in Hal by lia. apply bool_decide_eq_true in Hal; [done|].
  apply in_seq. lia.
Qed.

Lemma val_range a : 0 <= val a < 256.
Proof. unfold val, byte. pose proof (nat_ascii_bounded a). lia. Qed.

Lemma chr_val a n : n = val a -> chr n = a.
Proof. intros ->. unfold chr, val, byte. by rewrite Nat2Z.id, ascii_nat_embedding. Qed.

Lemma chr_div a n : n = val a -> String (chr n) = String a.
Proof. intros H. by rewrite (chr_val a n H). Qed.

Lemma decode_encode s : alphabet_ok = true -> decode al (EncodeToString al s) = Some s.
Proof.
  intros Hal. induction s as [s IH] using (well_founded_induction (well_founded_ltof _ len)).
  unfold ltof in IH. destruct s as [|a [|b [|c s]]]; [done|..];
    pose proof (val_range a); try pose proof (val_range b); try pose proof (val_range c); cbn [EncodeToString decode].
  all: repeat match goal with |- context[code al (digit al ?n)] =>
    rewrite (code_digit n) by (try done; Z.div_mod_to_equations; lia) end.
  - rewrite (chr_div a); [done|]. Z.div_mod_to_equations; lia.
  - rewrite (chr_div a), (chr_div b); [done|..]; Z.div_mod_to_equations; lia.
  - rewrite IH by (simpl; lia). rewrite (chr_div a), (chr_div b), (chr_div c); [done|..]; Z.div_mod_to_equations; lia.
Qed.

Lemma digit_no_byte c n : no_byte c al -> c <> "A"%char -> digit al n <> c.
Proof.
  unfold digit. intros Hn Hc. generalize (Z.to_nat n). intros k. clear n. revert k Hn.
  generalize al. intros s. induction s as [|a s IH]; intros k; simpl; [by intros _ ?|].
  rewrite no_byte_cons. intros [Ha Hs]. destruct k; simpl; [done|]. by apply IH.
Qed.

Lemma encode_no_byte c s : no_byte c al -> c <> "A"%char -> no_byte c (EncodeToString al s).
Proof.
  intros Hn Hc. induction s as [s IH] using (well_founded_induction (well_founded_ltof _ len)).
  unfold ltof in IH. destruct s as [|a [|b [|d s]]]; [done|..]; cbn [EncodeToString];
    rewrite ?no_byte_cons; repeat split; try (by apply digit_no_byte). apply IH. simpl. lia.
Qed.

Lemma drop_line_ends_none s : no_byte (ascii_of_nat 10) s -> no_byte (ascii_of_nat 13) s -> drop_line_ends s = s.
Proof.
  induction s as [|a s IH]; simpl; [done|]. rewrite !no_byte_cons. intros [H1 G1] [H2 G2].
  destruct (Nat.eqb_spec (byte a) 10) as [E|_].
  { destruct H1. rewrite <- E. unfold byte. by rewrite ascii_nat_embedding. }
  destruct (Nat.eqb_spec (byte a) 13) as [E|_].
  { destruct H2. rewrite <- E. unfold byte. by rewrite ascii_nat_embedding. }
  simpl. by rewrite IH.
Qed.
End Codec.

(** What base64 encodes, it decodes. *)
Lemma Base64_roundtrip s : Base64.DecodeString Base64.std (Base64.EncodeToString Base64.std s) = Some s.
Proof.
  unfold Base64.DecodeString. rewrite drop_line_ends_none; [|by apply encode_no_byte..].
  apply decode_encode. vm_compute. reflexivity.
Qed.

Section Passwords.
Context {R : Random} {A2 : Argon2}.
Import Auth.

Lemma verify_phc salt key plain :
  key <> "" ->
  VerifyPassword (phc salt key) plain =
  Ok (String.eqb (IDKey plain salt argonTime argonMemory argonThreads (Z.of_nat (len key))) key).
Proof.
  intros Hk. unfold VerifyPassword.
  set (es := Base64.EncodeToString Base64.std salt). set (ek := Base64.EncodeToString Base64.std key).
  assert (Hp : phc salt key = Join [""; "argon2id"; "v=19"; "m=65536,t=1,p=4"; es; ek] "$") by reflexivity.
  rewrite Hp, Split_Join; [|done|].
  2:{ repeat constructor; try done; by apply encode_no_byte. }
  change (scan_version "v=19") with (Some argon2_Version). change (scan_params "m=65536,t=1,p=4") with (Some (65536, 1, 4)).
  rewrite bool_decide_eq_true_2 by done. cbn [negb String.eqb]. unfold es, ek. rewrite !Base64_roundtrip.
  by apply String.eqb_neq in Hk as ->.
Qed.

(** C34. A stored hash accepts its password, and another one exactly when argon2 makes
    the same key of both with the stored salt; it is never malformed. *)
Theorem password_roundtrip plain w h w' :
  HashPassword plain w = (Ok h, w') ->
  exists salt, len salt = 16%nat /\ VerifyPassword h plain = Ok true /\
    forall other, VerifyPassword h other =
      Ok (String.eqb (IDKey other salt argonTime argonMemory argonThreads argonKeyLen)
                     (IDKey plain salt argonTime argonMemory argonThreads argonKeyLen)).
Proof.
  unfold HashPassword. intros (salt & w1 & Hs & Hk)%bind_ok_inv. injection Hk as <- _.
  injection Hs as Hs _. exists salt. split; [by apply rand_Read_len in Hs|].
  set (key := IDKey plain salt argonTime argonMemory argonThreads argonKeyLen).
  assert (Hlen : Z.of_nat (len key) = argonKeyLen) by by apply IDKey_len.
  assert (Hne : key <> "") by (intros He; rewrite He in Hlen; discriminate Hlen).
  assert (H : forall other, VerifyPassword (phc salt key) other =
    Ok (String.eqb (IDKey other salt argonTime argonMemory argonThreads argonKeyLen) key)).
  { intros other. rewrite verify_phc by done. by rewrite Hlen. }
  split; [|done]. rewrite H. fold key. by rewrite String.eqb_refl.
Qed.
End Passwords.
