(* ===== verification/RateLimit.v ===== *)
(** * The login lockout (internal/httpapi/ratelimit.go)

    A bounded map of failure counters by address, in memory.  The order in which
    Go ranges over a map is a parameter: any permutation of its entries. *)

From stdpp Require Import base list strings gmap.
From Stdlib Require Import Ascii.
From S2P Require Import Prelude GoStd.

Local Open Scope Z_scope.

(** [range m]: the entries of a map in the order the loop meets them. *)
Class MapRange := {
  range {A : Type} (m : gmap string A) : list (string * A);
  range_perm {A} (m : gmap string A) : range m ≡ₚ map_to_list m;
}.

Definition any_range : MapRange := {| range := fun A m => map_to_list m; range_perm := fun A m => reflexivity _ |}.

(** [net.SplitHostPort]: the host, or an error. *)
Definition SplitHost (hostport : string) : option string :=
  match LastIndexByte hostport ":" with
  | None => None
  | Some i =>
      if HasPrefix hostport "[" then
        match IndexByte hostport "]" with
        | None => None
        | Some e =>
            if negb (Nat.eqb (S e) i) then None
            else if Contains (hostport.[1:]) "[" || Contains (hostport.[(S e):]) "]" then None
            else Some ((hostport.[:e]).[1:])
        end
      else
        let host := hostport.[:i] in
        if Contains host ":" || Contains hostport "[" || Contains hostport "]" then None else Some host
  end.

(** The address the lockout counts by. *)
Definition clientIP (remoteAddr : string) : string := default remoteAddr (SplitHost remoteAddr).

Module Limiter.

Definition failLimit : Z := 5.
Definition failWindow : Z := 15 * 60 * 1000000000.
Definition maxTrackedIPs : nat := 4096.

Record failEntry := mkFail { count : Z; first : Z }.

Notation loginLimiter := (gmap string failEntry).

Definition expired (now_ : Z) (e : failEntry) : bool := failWindow <=? now_ - e.(first).

(** For how many more seconds the address is locked out, if it is. *)
Definition blocked (ip : string) (now_ : Z) (l : loginLimiter) : option Z * loginLimiter :=
  match l !! ip with
  | None => (None, l)
  | Some e =>
      let remaining := failWindow - (now_ - e.(first)) in
      if remaining <=? 0 then (None, delete ip l)
      else if e.(count) <? failLimit then (None, l)
      else let secs := remaining / 1000000000 in (Some (if secs <? 1 then 1 else secs), l)
  end.

(** The loop of [evictLocked]: the entries left, and the oldest seen. *)
Definition evict_step (now_ : Z) (st : loginLimiter * (string * Z)) (kv : string * failEntry) :
    loginLimiter * (string * Z) :=
  let '(m, (oldestKey, oldest)) := st in
  let '(k, e) := kv in
  if expired now_ e then (delete k m, (oldestKey, oldest))
  else if String.eqb oldestKey "" || (e.(first) <? oldest) then (m, (k, e.(first)))
  else (m, (oldestKey, oldest)).

Definition evictLocked `{MapRange} (now_ : Z) (l : loginLimiter) : loginLimiter :=
  let '(m, (oldestKey, _)) := fold_left (evict_step now_) (range l) (l, ("", 0)) in
  if (maxTrackedIPs <=? size m)%nat && negb (String.eqb oldestKey "") then delete oldestKey m else m.

Definition fail `{MapRange} (ip : string) (now_ : Z) (l : loginLimiter) : loginLimiter :=
  match l !! ip with
  | Some e =>
      if now_ - e.(first) <? failWindow then <[ip := mkFail (e.(count) + 1) e.(first)]> l
      else let l := if (maxTrackedIPs <=? size l)%nat then evictLocked now_ l else l in <[ip := mkFail 1 now_]> l
  | None => let l := if (maxTrackedIPs <=? size l)%nat then evictLocked now_ l else l in <[ip := mkFail 1 now_]> l
  end.

Definition success (ip : string) (l : loginLimiter) : loginLimiter := delete ip l.

End Limiter.

(** ** Properties *)

(** *** One address at a time: the counter the map implements *)

Module Counter.
Import Limiter.

Inductive attempt := Failed (ip : string) | Succeeded (ip : string) | Asked (ip : string).

Definition address (a : attempt) : string := match a with Failed ip | Succeeded ip | Asked ip => ip end.

(** The limiter after a call made at the time [t]. *)
Definition step `{MapRange} (l : loginLimiter) (ta : Z * attempt) : loginLimiter :=
  match ta.2 with
  | Failed ip => fail ip ta.1 l
  | Succeeded ip => success ip l
  | Asked ip => (blocked ip ta.1 l).2
  end.

Definition run `{MapRange} (l : loginLimiter) (h : list (Z * attempt)) : loginLimiter := fold_left step h l.

(** A counter of its own: failures since the first of the window. *)
Definition count_one (o : option failEntry) (ta : Z * attempt) : option failEntry :=
  let live := match o with Some e => if expired ta.1 e then None else Some e | None => None end in
  match ta.2 with
  | Failed _ => match live with Some e => Some (mkFail (e.(count) + 1) e.(first)) | None => Some (mkFail 1 ta.1) end
  | Succeeded _ => None
  | Asked _ => live
  end.

(** What it makes of the calls for one address. *)
Definition counter (ip : string) (h : list (Z * attempt)) : option failEntry :=
  fold_left count_one (List.filter (fun ta => String.eqb (address ta.2) ip) h) None.

(** Locked out at the time [t]: the failures are there and the window is open. *)
Definition locked (o : option failEntry) (t : Z) : Prop :=
  exists e, o = Some e /\ failLimit <= e.(count) /\ t < e.(first) + failWindow.

End Counter.

Section Limiter.
Context {MR : MapRange}.
Import Limiter Counter.
Implicit Types (l m : gmap string failEntry).

Lemma tracked_pos : (0 < maxTrackedIPs)%nat.
Proof. apply Nat.ltb_lt. vm_compute. reflexivity. Qed.

Lemma evict_subset now_ kvs m0 s0 m s : fold_left (evict_step now_) kvs (m0, s0) = (m, s) -> m ⊆ m0.
Proof.
  revert m0 s0. induction kvs as [|[k e] kvs IH]; intros m0 [k0 o0]; simpl; [by intros [= <- _]|].
  destruct (expired now_ e); [intros H%IH; etrans; [done|apply delete_subseteq]|].
  destruct (_ || _); apply IH.
Qed.

Lemma evict_expired now_ kvs m0 s0 m s k e :
  fold_left (evict_step now_) kvs (m0, s0) = (m, s) -> (k, e) ∈ kvs -> expired now_ e = true -> m !! k = None.
Proof.
  revert m0 s0. induction kvs as [|[k' e'] kvs IH]; intros m0 [k0 o0]; simpl; [set_solver|].
  intros Hf [[= <- <-]|Hin]%elem_of_cons He; [|destruct (expired now_ e'); [by eapply IH|destruct (_ || _); by eapply IH]].
  rewrite He in Hf. apply evict_subset in Hf. apply eq_None_not_Some. intros [x Hx].
  eapply lookup_weaken in Hx; [|exact Hf]. by rewrite lookup_delete_eq in Hx.
Qed.

(** Where nothing has expired, the oldest entry is found. *)
Lemma evict_oldest now_ kvs m0 k0 o0 m k o :
  fold_left (evict_step now_) kvs (m0, (k0, o0)) = (m, (k, o)) ->
  (forall k e, (k, e) ∈ kvs -> expired now_ e = false /\ k <> "") ->
  m = m0 /\ (k0 <> "" -> k <> "" /\ o <= o0) /\ (kvs <> [] -> k <> "") /\ (forall k e, (k, e) ∈ kvs -> o <= e.(first)) /\
  ((k, o) = (k0, o0) \/ exists e, (k, e) ∈ kvs /\ e.(first) = o).
Proof.
  revert k0 o0. induction kvs as [|[k1 e1] kvs IH]; intros k0 o0; simpl.
  { intros [= <- <- <-] _. split; [done|]. split; [done|]. split; [done|]. split; [set_solver|by left]. }
  intros Hf Hall. destruct (Hall k1 e1) as [He Hk]; [left|]. rewrite He in Hf.
  assert (Hrest : forall k e, (k, e) ∈ kvs -> expired now_ e = false /\ k <> "") by (intros; apply Hall; by right).
  destruct (String.eqb_spec k0 "") as [->|Hk0]; simpl in Hf; [|destruct (Z.ltb_spec e1.(first) o0)];
    destruct (IH _ _ Hf Hrest) as (H1 & H2 & H3 & H4 & H5); (split; [done|]); (split; [|split; [|split]]).
  all: try (intros k' e' [[= -> ->]|Hin]%elem_of_cons; [|by apply (H4 k' e')]).
  all: try (destruct H5 as [[= -> ->]|(e & Hin & Hfi)]; [|right; exists e; split; [by right|done]]).
  all: try tauto; try (right; exists e1; split; [left|done]); try (by left).
  all: try (destruct (H2 Hk); lia); try (destruct (H2 Hk0); lia).
  all: try (intros _; apply H2; assumption).
  intros _. destruct (H2 Hk). split; [done|lia].
Qed.

Definition named_keys l : Prop := l !! "" = None.

Lemma range_elem l k e : (k, e) ∈ range l <-> l !! k = Some e.
Proof. by rewrite range_perm, elem_of_map_to_list. Qed.

Lemma evict_keeps now_ kvs m0 s0 m s k :
  fold_left (evict_step now_) kvs (m0, s0) = (m, s) -> (forall e, (k, e) ∈ kvs -> expired now_ e = false) ->
  m !! k = m0 !! k.
Proof.
  revert m0 s0. induction kvs as [|[k' e'] kvs IH]; intros m0 [k0 o0]; simpl; [by intros [= <- _]|].
  intros Hf Hk. assert (Hrest : forall e, (k, e) ∈ kvs -> expired now_ e = false) by (intros; apply Hk; by right).
  destruct (expired now_ e') eqn:He; [|destruct (_ || _); by eapply IH].
  rewrite (IH _ _ Hf Hrest). apply lookup_delete_ne. intros ->. specialize (Hk e' ltac:(left)). congruence.
Qed.

(** The eviction makes room: it drops what has expired or, when nothing has, the
    oldest entry. *)
Lemma evictLocked_spec now_ l :
  named_keys l -> (0 < size l <= maxTrackedIPs)%nat ->
  let m := evictLocked now_ l in
  m ⊆ l /\ ((maxTrackedIPs <= size l)%nat -> (size m < maxTrackedIPs)%nat) /\
  forall k e, l !! k = Some e -> m !! k = None ->
    expired now_ e = true \/ (forall k' e', l !! k' = Some e' -> expired now_ e' = false /\ e.(first) <= e'.(first)).
Proof.
  intros Hn Hsz. unfold evictLocked. destruct (fold_left _ _ _) as [m [ok o]] eqn:Hf.
  assert (Hsub : m ⊆ l) by by eapply evict_subset.
  destruct (existsb (fun kv => expired now_ kv.2) (range l)) eqn:Hex.
  - apply existsb_elem in Hex as ([k e] & Hin & He). simpl in He.
    assert (Hlt : (size m < size l)%nat).
    { apply map_subset_size. split; [done|]. intros Hl. apply range_elem in Hin as Hk.
      eapply lookup_weaken in Hk; [|exact Hl]. by rewrite (evict_expired _ _ _ _ _ _ k e Hf Hin He) in Hk. }
    rewrite (proj2 (Nat.leb_gt _ _)) by lia. cbn [andb]. split; [done|]. split; [lia|].
    intros k' e' Hk' Hm. left. destruct (expired now_ e') eqn:He'; [done|].
    rewrite (evict_keeps _ _ _ _ _ _ k' Hf) in Hm; [congruence|]. intros e2 H2%range_elem. congruence.
  - assert (Hall : forall k e, (k, e) ∈ range l -> expired now_ e = false /\ k <> "").
    { intros k e Hin. split.
      - destruct (expired now_ e) eqn:He; [|done]. apply not_true_iff_false in Hex. destruct Hex. apply existsb_elem. eauto.
      - intros ->. apply range_elem in Hin. unfold named_keys in Hn. congruence. }
    destruct (evict_oldest _ _ _ _ _ _ _ _ Hf Hall) as (-> & _ & H3 & H4 & H5).
    assert (Hne : range l <> []).
    { intros He. assert (size l = 0%nat); [|lia]. apply map_size_empty_iff, map_eq. intros k.
      rewrite lookup_empty. destruct (l !! k) eqn:Hl; [|done]. apply range_elem in Hl. rewrite He in Hl. set_solver. }
    specialize (H3 Hne). apply String.eqb_neq in H3 as Hok. rewrite Hok. cbn [negb].
    destruct (Nat.leb_spec maxTrackedIPs (size l)); cbn [andb].
    + destruct H5 as [[= ->]|(e & Hin & He)]; [done|]. apply range_elem in Hin as Hl. split; [apply delete_subseteq|].
      split; [intros _; rewrite map_size_delete, Hl; lia|].
      intros k e' Hk Hd. right. destruct (decide (k = ok)) as [->|Hne2]; [|by rewrite lookup_delete_ne in Hd; congruence].
      assert (e' = e) as -> by congruence. intros k' e2 Hk'. split; [by eapply Hall, range_elem|].
      rewrite He. by eapply H4, range_elem.
    + split; [done|]. split; [lia|]. intros k e Hk Hd. congruence.
Qed.

Lemma fail_lookup ip now_ l : (size l < maxTrackedIPs)%nat ->
  fail ip now_ l = <[ip := match l !! ip with
    | Some e => if expired now_ e then mkFail 1 now_ else mkFail (e.(count) + 1) e.(first)
    | None => mkFail 1 now_ end]> l.
Proof.
  intros Hsz. unfold fail, expired. rewrite (proj2 (Nat.leb_gt _ _)) by lia.
  destruct (l !! ip) as [e|]; [|done]. rewrite Z.ltb_antisym. by destruct (_ <=? _).
Qed.

(** The invariant: bounded, and no entry without a name. *)
Definition limiter_ok l : Prop := named_keys l /\ (size l <= maxTrackedIPs)%nat.

Lemma fail_ok ip now_ l : ip <> "" -> limiter_ok l -> limiter_ok (fail ip now_ l).
Proof.
  intros Hip [Hn Hsz]. unfold fail.
  set (room := if (maxTrackedIPs <=? size l)%nat then evictLocked now_ l else l).
  assert (Hroom : limiter_ok (<[ip := mkFail 1 now_]> room)).
  { assert (room ⊆ l /\ (size room < maxTrackedIPs)%nat) as [Hsub Hlt].
    { subst room. destruct (Nat.leb_spec maxTrackedIPs (size l)); [|done].
      destruct (evictLocked_spec now_ l Hn) as (H1 & H2 & _); [pose proof tracked_pos; lia|]. auto. }
    split; [unfold named_keys in *; rewrite lookup_insert_ne by done; by eapply lookup_weaken_None|].
    pose proof (map_size_insert ip (mkFail 1 now_) room) as Hi. revert Hi. case_match; unfold id; intros; lia. }
  destruct (l !! ip) as [e|] eqn:Hl; [|done]. destruct (_ <? _); [|done].
  split; [unfold named_keys in *; by rewrite lookup_insert_ne|].
  pose proof (map_size_insert ip (mkFail (e.(count) + 1) e.(first)) l) as Hi. rewrite Hl in Hi. unfold id in Hi. lia.
Qed.

Lemma delete_ok ip l : limiter_ok l -> limiter_ok (delete ip l).
Proof.
  intros [Hn Hsz]. split; [eapply lookup_weaken_None; [exact Hn|apply delete_subseteq]|].
  pose proof (map_size_delete ip l) as Hd. revert Hd. case_match; unfold id; intros; lia.
Qed.

Lemma step_ok l ta : address ta.2 <> "" -> limiter_ok l -> limiter_ok (step l ta).
Proof.
  unfold step. destruct ta as [t [ip|ip|ip]]; simpl; intros Hip Hok; [by apply fail_ok|by apply delete_ok|].
  unfold blocked. destruct (l !! ip) as [e|]; [|done]. destruct (_ <=? _); [by apply delete_ok|]. by destruct (_ <? _).
Qed.

(** *** The map as counters *)

Lemma blocked_expired e t : (failWindow - (t - e.(first)) <=? 0) = expired t e.
Proof. unfold expired. destruct (Z.leb_spec (failWindow - (t - e.(first))) 0), (Z.leb_spec failWindow (t - e.(first))); lia. Qed.

Lemma step_lookup l ta ip : (size l < maxTrackedIPs)%nat ->
  step l ta !! ip = if String.eqb (address ta.2) ip then count_one (l !! ip) ta else l !! ip.
Proof.
  intros Hsz. destruct ta as [t [ip'|ip'|ip']]; unfold step, count_one, success; simpl.
  - rewrite fail_lookup by done. destruct (String.eqb_spec ip' ip) as [->|Hne]; [|by rewrite lookup_insert_ne].
    rewrite lookup_insert_eq. destruct (l !! ip) as [e|]; [|done]. by destruct (expired t e).
  - destruct (String.eqb_spec ip' ip) as [->|Hne]; [by rewrite lookup_delete_eq|by rewrite lookup_delete_ne].
  - unfold blocked. destruct (l !! ip') as [e|] eqn:Hl; [|by destruct (String.eqb_spec ip' ip) as [->|]; rewrite ?Hl].
    rewrite blocked_expired. destruct (expired t e) eqn:He; simpl.
    + destruct (String.eqb_spec ip' ip) as [->|Hne]; [by rewrite lookup_delete_eq, Hl, He|by rewrite lookup_delete_ne].
    + destruct (_ <? _); simpl; destruct (String.eqb_spec ip' ip) as [->|Hne]; by rewrite ?Hl, ?He.
Qed.

Definition addresses (h : list (Z * attempt)) : gset string := list_to_set (map (fun ta => address ta.2) h).

Lemma step_dom l ta : dom (step l ta) ⊆ dom l ∪ {[address ta.2]} \/ (maxTrackedIPs <= size l)%nat.
Proof.
  destruct (decide (maxTrackedIPs <= size l)%nat) as [|Hsz]; [by right|]. left. intros ip. rewrite elem_of_dom.
  rewrite step_lookup by lia. destruct (String.eqb_spec (address ta.2) ip) as [<-|Hne]; [set_solver|].
  rewrite <- elem_of_dom. set_solver.
Qed.

Lemma run_counter h l ip (S : gset string) :
  dom l ⊆ S -> (size (S ∪ addresses h) < maxTrackedIPs)%nat ->
  run l h !! ip = fold_left count_one (List.filter (fun ta => String.eqb (address ta.2) ip) h) (l !! ip).
Proof.
  revert l S. induction h as [|ta h IH]; intros l S Hd Hsz; [done|]. simpl.
  assert (Hl : (size l < maxTrackedIPs)%nat).
  { rewrite <- (size_dom (D := gset string)). eapply Nat.le_lt_trans; [|exact Hsz]. apply subseteq_size. set_solver. }
  unfold addresses in Hsz. simpl in Hsz. fold (addresses h) in Hsz.
  rewrite (IH (step l ta) (S ∪ {[address ta.2]})).
  - rewrite step_lookup by done. by destruct (String.eqb_spec (address ta.2) ip).
  - destruct (step_dom l ta); [set_solver|lia].
  - by rewrite <- (assoc_L (∪)).
Qed.

Lemma blocked_locked ip t l :
  match (blocked ip t l).1 with
  | Some s => locked (l !! ip) t /\ 1 <= s /\
      forall e, l !! ip = Some e -> s * 1000000000 <= Z.max 1000000000 (e.(first) + failWindow - t)
  | None => ~ locked (l !! ip) t
  end.
Proof.
  unfold blocked, locked. destruct (l !! ip) as [e|]; simpl; [|by intros (e & [=] & _)].
  destruct (Z.leb_spec (failWindow - (t - e.(first))) 0); simpl; [intros (e' & [= <-] & H1 & H2); lia|].
  destruct (Z.ltb_spec e.(count) failLimit); simpl; [intros (e' & [= <-] & H1 & H2); lia|].
  split; [exists e; split; [done|lia]|].
  set (q := (failWindow - (t - e.(first))) / 1000000000).
  assert (q * 1000000000 <= failWindow - (t - e.(first))) by (unfold q; Z.div_mod_to_equations; lia).
  destruct (Z.ltb_spec q 1); (split; [lia|]); intros e' [= <-]; lia.
Qed.
End Limiter.

Section Spec.
Context {MR : MapRange}.
Import Limiter Counter.

(** C17. The lockout is a counter per address, in bounded memory: whatever the calls
    and their times, at most [maxTrackedIPs] addresses are tracked; while fewer
    have called, what is tracked of an address is its own counter, whatever the
    others do; and an address is refused exactly while [failLimit] failures stand
    in an open window, with a wait of at least a second. *)
Theorem limiter_refines h ip t :
  Forall (fun ta => address ta.2 <> "") h ->
  (size (run ∅ h) <= maxTrackedIPs)%nat /\
  match (blocked ip t (run ∅ h)).1 with
  | Some s => locked (run ∅ h !! ip) t /\ 1 <= s
  | None => ~ locked (run ∅ h !! ip) t
  end /\
  ((size (addresses h) < maxTrackedIPs)%nat -> run ∅ h !! ip = counter ip h).
Proof.
  intros Hn. split; [|split].
  - assert (Hok : limiter_ok (run ∅ h)); [|apply Hok].
    assert (H0 : limiter_ok ∅) by (split; [done|rewrite map_size_empty; lia]).
    unfold run. revert H0. generalize (∅ : loginLimiter). induction Hn as [|ta h Ha _ IH]; intros l Hl; [done|].
    apply IH. by apply step_ok.
  - pose proof (blocked_locked ip t (run ∅ h)) as H. destruct (blocked ip t _).1; [tauto|done].
  - intros Hsz. unfold counter. rewrite (run_counter h ∅ ip ∅); [by rewrite lookup_empty|set_solver|].
    by rewrite (left_id_L ∅ (∪)).
Qed.
End Spec.

(** ** A run *)

Definition five_failures : list (Z * Counter.attempt) :=
  map (fun k => (1000000000 * Z.of_nat k, Counter.Failed "10.0.0.9")) [0; 1; 2; 3; 4]%nat ++ [(6000000000, Counter.Asked "10.0.0.7")].

Lemma limiter_refines_witness :
  (Limiter.blocked "10.0.0.9" 60000000000 (@Counter.run any_range ∅ five_failures)).1 = Some 840 /\
  (Limiter.blocked "10.0.0.7" 60000000000 (@Counter.run any_range ∅ five_failures)).1 = None /\
  @Counter.run any_range ∅ five_failures !! "10.0.0.9" = Counter.counter "10.0.0.9" five_failures.
Proof.
  split; [vm_compute; reflexivity|]. split; [vm_compute; reflexivity|].
  refine (proj2 (proj2 (@limiter_refines any_range five_failures "10.0.0.9" 0 _)) _).
  - repeat constructor; vm_compute; discriminate.
  - unfold Limiter.maxTrackedIPs. apply Nat.ltb_lt. vm_compute. reflexivity.
Defined.

Example hosts : map clientIP ["10.0.0.9:4711"; "[::1]:80"; "nonsense"; "::1"] = ["10.0.0.9"; "::1"; "nonsense"; "::1"].
Proof. vm_compute. reflexivity. Qed.
