(* ===== verification/ScanRun.v ===== *)
(** * The scan-run (internal/httpapi/scanrun.go)

    One sweep at a time: the runner's snapshot, the sweeps that were started and
    where each stands in [execute].  Every section of the source that holds
    [sr.mu] is one step; the steps of a sweep and of the handlers interleave.
    What a sweep does to the world is [sweep_world]; its progress is told through
    [AReport]. *)

From stdpp Require Import base list strings gmap.
From S2P Require Import Prelude GoStd Clock Db World StoreServices StoreMisc Daemon Registry Detect Scan.

Local Open Scope Z_scope.

Inductive scan_scope := ScopeAll | ScopeProject (id : Z) | ScopeService (id : Z).

Definition scope_name (s : scan_scope) : string :=
  match s with ScopeAll => "all" | ScopeProject _ => "project" | ScopeService _ => "service" end.

Definition scope_all (s : scan_scope) : bool := match s with ScopeAll => true | _ => false end.

(** ** The runner *)

Record scanState := mkScanState { sc_Running : bool; sc_Done : Z; sc_Total : Z }.

(** What the API server promises the sweeps (the interface [Checker] of
    server.go); the scanner is an instance. *)
Class Checker := {
  CheckServicesFresh : list Z -> bool -> option (Z -> Z -> M world unit) -> M Scanner.scanning (result bool);
}.

Definition scanner_checker {E : Env} {SS : SliceSort} {A : RegistryAPI} {LJ : LabelsJSON}
    {C : ChangelogAPI} (d : Detector.Detector) (sc : Scanner.Scanner) : Checker :=
  {| CheckServicesFresh := Scanner.CheckServicesFresh d sc |}.

Module ScanRunner.

Definition errScanBusy : string := "a scan is already running".
Definition ErrScanBusy : error := Sentinel errScanBusy.

(** Where a sweep is in [execute]: not yet past its first lock, sweeping, or past
    its last one. *)
Inductive pc := Begun | Sweeping | Finished.

Record run := mkRun {
  run_scope : scan_scope;
  run_ids : list Z;
  run_manual : bool;
  run_pc : pc;
  run_done : Z;
  run_aborted : bool;
}.

Record ScanRunner := mkRunner { state : scanState; cancel : option nat; runs : list run }.

Definition idle : scanState := mkScanState false 0 0.
Definition NewScanRunner : ScanRunner := mkRunner idle None [].

Definition tryBegin (total : Z) (sr : ScanRunner) : bool * ScanRunner :=
  if sr.(state).(sc_Running) then (false, sr)
  else (true, mkRunner (mkScanState true 0 total) sr.(cancel) sr.(runs)).

(** [go sr.execute(...)]. *)
Definition launch (scope : scan_scope) (ids : list Z) (manual : bool) (sr : ScanRunner) : ScanRunner :=
  mkRunner sr.(state) sr.(cancel) (sr.(runs) ++ [mkRun scope ids manual Begun 0 false]).

Definition set_pc (p : pc) (r : run) : run :=
  mkRun r.(run_scope) r.(run_ids) r.(run_manual) p r.(run_done) r.(run_aborted).
Definition set_done (n : Z) (r : run) : run :=
  mkRun r.(run_scope) r.(run_ids) r.(run_manual) r.(run_pc) n r.(run_aborted).
Definition set_aborted (r : run) : run :=
  mkRun r.(run_scope) r.(run_ids) r.(run_manual) r.(run_pc) r.(run_done) true.

(** The first locked section of [execute]: the run can be aborted from here on. *)
Definition enter (i : nat) (sr : ScanRunner) : ScanRunner :=
  mkRunner sr.(state) (Some i) (alter (set_pc Sweeping) i sr.(runs)).

(** The progress callback. *)
Definition report (i : nat) (n : Z) (sr : ScanRunner) : ScanRunner :=
  mkRunner (mkScanState sr.(state).(sc_Running) n sr.(state).(sc_Total)) sr.(cancel) (alter (set_done n) i sr.(runs)).

(** The last locked section. *)
Definition leave (i : nat) (sr : ScanRunner) : ScanRunner :=
  mkRunner idle None (alter (set_pc Finished) i sr.(runs)).

Definition Abort (sr : ScanRunner) : ScanRunner :=
  match sr.(cancel) with
  | Some i => mkRunner sr.(state) sr.(cancel) (alter set_aborted i sr.(runs))
  | None => sr
  end.

Definition Snapshot (sr : ScanRunner) : scanState := sr.(state).

(** ** The world's side of a sweep *)

Definition idsOf (svcs : list Service) : list Z := map sv_ID svcs.

Section Run.
Context {E : Env} {CK : Checker} (has_bus : bool).

Definition resolve (scope : scan_scope) : M world (result (list Z)) :=
  match scope with
  | ScopeService serviceID => ret (Ok [serviceID])
  | ScopeProject projectID => let? svcs := Services.ListByProject projectID in ret (Ok (idsOf svcs))
  | ScopeAll => let? svcs := Services.List_ in ret (Ok (idsOf svcs))
  end.

(** The events carry hints: their progress or flag is [id]. *)
Definition publish (kind : string) (id : Z) : M world unit := if has_bus then emit (EvNotify kind id) else ret tt.

(** [execute] without its locked sections; the answer is whether the sweep completed. *)
Definition sweep_world (scope : scan_scope) (ids : list Z) (manual : bool) : M Scanner.scanning bool :=
  do! Scanner.lift (publish "scan_progress" 0) in
  let reopen := negb (scope_all scope) in
  let! rl := CheckServicesFresh ids reopen (Some (fun done total => publish "scan_progress" done)) in
  let rateLimited := match rl with Ok b => b | Err _ => false end in
  let! stopped := Scanner.lift wait_done in
  let completed := negb stopped in
  do! (if completed && scope_all scope then
         let! t := Scanner.lift now in
         do! Scanner.lift (Settings.Set_ "last_check_all" (rfc3339 (t / second))) in
         Scanner.lift (publish "scanned" 0)
       else ret tt) in
  do! Scanner.lift (publish "scan_finished" (if manual && rateLimited then 1 else 0)) in
  ret completed.

End Run.

(** ** The interleavings *)

Inductive action :=
| ATryBegin (scope : scan_scope) (ids : list Z) (manual : bool)
| AEnter (i : nat)
| AReport (i : nat)
| ALeave (i : nat)
| AAbort.

Definition total (r : run) : Z := Z.of_nat (length r.(run_ids)).

Definition at_pc (p : pc) (r : run) : bool :=
  match p, r.(run_pc) with Begun, Begun | Sweeping, Sweeping | Finished, Finished => true | _, _ => false end.

#[local] Arguments at_pc : simpl never.

Definition step (a : action) (sr : ScanRunner) : option ScanRunner :=
  match a with
  | ATryBegin scope ids manual =>
      let '(ok, sr') := tryBegin (Z.of_nat (length ids)) sr in
      Some (if ok then launch scope ids manual sr' else sr')
  | AEnter i => r ← sr.(runs) !! i; if at_pc Begun r then Some (enter i sr) else None
  | AReport i =>
      r ← sr.(runs) !! i;
      if at_pc Sweeping r && (r.(run_done) <? total r) then Some (report i (r.(run_done) + 1) sr) else None
  | ALeave i => r ← sr.(runs) !! i; if at_pc Sweeping r then Some (leave i sr) else None
  | AAbort => Some (Abort sr)
  end.

Fixpoint steps (acts : list action) (sr : ScanRunner) : option ScanRunner :=
  match acts with
  | [] => Some sr
  | a :: acts' => sr' ← step a sr; steps acts' sr'
  end.

Definition active (r : run) : bool := negb (at_pc Finished r).

End ScanRunner.

(** ** One sweep at a time *)

Section Inv.
Import ScanRunner.
#[local] Arguments at_pc : simpl never.

(** Every sweep but the last one started is finished; the snapshot is of the last
    one, when it is still active. *)
Definition runner_ok (sr : ScanRunner) : Prop :=
  exists old, Forall (fun r => active r = false) old /\
  ((sr.(state) = idle /\ sr.(cancel) = None /\ sr.(runs) = old) \/
   exists r, sr.(runs) = old ++ [r] /\ active r = true /\ sr.(state) = mkScanState true r.(run_done) (total r) /\
     0 <= r.(run_done) <= total r /\ sr.(cancel) = (if at_pc Sweeping r then Some (length old) else None)).

Lemma at_pc_spec p r : at_pc p r = true <-> r.(run_pc) = p.
Proof. unfold at_pc. destruct p, (run_pc r); naive_solver. Qed.

(** The run an action is about is the active one. *)
Lemma last_active old r i r' :
  Forall (fun r => active r = false) old -> (old ++ [r]) !! i = Some r' -> active r' = true -> i = length old /\ r' = r.
Proof.
  intros Hold Hi Ha. apply lookup_snoc_Some in Hi as [[_ Hi]|[-> ->]]; [|done].
  rewrite Forall_lookup in Hold. apply Hold in Hi. congruence.
Qed.

Lemma old_inactive old i r' :
  Forall (fun r => active r = false) old -> old !! i = Some r' -> active r' = true -> False.
Proof. rewrite Forall_lookup. intros Hold Hi. rewrite (Hold _ _ Hi). done. Qed.

Lemma pc_active p r : at_pc p r = true -> p <> Finished -> active r = true.
Proof. unfold active, at_pc. destruct p, (run_pc r); naive_solver. Qed.

Lemma alter_last f (old : list run) (r : run) : alter f (length old) (old ++ [r]) = old ++ [f r].
Proof. by induction old as [|r' old IH]; simpl; [|f_equal]. Qed.

Lemma runner_ok_new : runner_ok NewScanRunner.
Proof. exists []. split; [constructor|]. by left. Qed.

(** The active run of an action that names one. *)
Lemma runner_named sr i r p :
  runner_ok sr -> sr.(runs) !! i = Some r -> at_pc p r = true -> p <> Finished ->
  exists old, Forall (fun r => active r = false) old /\ i = length old /\ sr.(runs) = old ++ [r] /\
    sr.(state) = mkScanState true r.(run_done) (total r) /\ 0 <= r.(run_done) <= total r /\
    sr.(cancel) = (if at_pc Sweeping r then Some (length old) else None).
Proof.
  intros (old & Hold & H) Hi Hp Hne. pose proof (pc_active p r Hp Hne) as Ha.
  destruct H as [(_ & _ & Hr)|(r0 & Hr & _ & Hs & Hd & Hc)]; rewrite Hr in Hi.
  - by destruct (old_inactive old i r).
  - apply last_active in Hi as [-> ->]; [|done..]. by exists old.
Qed.

Lemma runner_ok_step a sr sr' : runner_ok sr -> step a sr = Some sr' -> runner_ok sr'.
Proof.
  intros Hok. destruct a as [scope ids manual|i|i|i|]; simpl.
  - unfold tryBegin. destruct Hok as (old & Hold & [(Hs & Hc & Hr)|(r & Hr & Ha & Hs & Hd & Hc)]);
      rewrite Hs; simpl; intros [= <-].
    + exists old. split; [done|]. right. eexists. unfold launch. simpl. rewrite Hr, Hc.
      split; [by rewrite <- Hr|]. unfold total. simpl. repeat split; lia.
    + exists old. split; [done|]. right. by exists r.
  - intros (r & Hi & Hk)%bind_Some. destruct (at_pc Begun r) eqn:Hp; [|done]. injection Hk as <-.
    destruct (runner_named _ _ _ _ Hok Hi Hp ltac:(done)) as (old & Hold & -> & Hr & Hs & Hd & _).
    exists old. split; [done|]. right. exists (set_pc Sweeping r). unfold enter. simpl. rewrite Hr, alter_last. done.
  - intros (r & Hi & Hk)%bind_Some. destruct (at_pc Sweeping r) eqn:Hp; [|done].
    simpl in Hk. destruct (_ <? _) eqn:Hlt; [|done]. apply Z.ltb_lt in Hlt. injection Hk as <-.
    destruct (runner_named _ _ _ _ Hok Hi Hp ltac:(done)) as (old & Hold & -> & Hr & Hs & Hd & Hc).
    exists old. split; [done|]. right. exists (set_done (r.(run_done) + 1) r). unfold report. simpl.
    rewrite Hr, alter_last, Hs, Hc. unfold total in *. simpl. repeat split; try done; try lia.
    by eapply pc_active in Hp.
  - intros (r & Hi & Hk)%bind_Some. destruct (at_pc Sweeping r) eqn:Hp; [|done]. injection Hk as <-.
    destruct (runner_named _ _ _ _ Hok Hi Hp ltac:(done)) as (old & Hold & -> & Hr & Hs & Hd & _).
    exists (old ++ [set_pc Finished r]). split; [by apply Forall_app; repeat constructor|]. left.
    unfold leave. simpl. by rewrite Hr, alter_last.
  - intros [= <-]. unfold Abort. destruct (cancel sr) as [i|] eqn:Hc; [|done].
    destruct Hok as (old & Hold & [(Hs & Hc' & Hr)|(r & Hr & Ha & Hs & Hd & Hc')]); [congruence|].
    rewrite Hc in Hc'. destruct (at_pc Sweeping r) eqn:Hp; [|done]. injection Hc' as ->.
    exists old. split; [done|]. right. exists (set_aborted r). simpl. rewrite Hr, alter_last, Hs.
    repeat split; try done; try apply Hd. unfold at_pc in *. simpl. destruct (run_pc r); done.
Qed.

Lemma runner_ok_steps acts sr sr' : runner_ok sr -> steps acts sr = Some sr' -> runner_ok sr'.
Proof.
  revert sr. induction acts as [|a acts IH]; simpl; intros sr Hok.
  - by intros [= <-].
  - intros (sr1 & H1 & H2)%bind_Some. eapply IH; [|done]. by eapply runner_ok_step.
Qed.

(** C35. The single-flight promise, in any interleaving of requests, sweeps and
    aborts: at most one sweep is active, the snapshot says "running" exactly while
    one is, with its progress and its size, a request to start another one is
    refused and changes nothing, an abort only ever marks the active sweep, and an
    idle runner starts the next sweep. *)
Theorem scan_single_flight acts sr :
  steps acts NewScanRunner = Some sr ->
  (length (List.filter active sr.(runs)) <= 1)%nat /\
  ((Snapshot sr).(sc_Running) = true <-> exists r, r ∈ sr.(runs) /\ active r = true) /\
  (forall r, r ∈ sr.(runs) -> active r = true ->
     Snapshot sr = mkScanState true r.(run_done) (total r) /\ 0 <= r.(run_done) <= total r) /\
  (forall n, fst (tryBegin n sr) = negb (Snapshot sr).(sc_Running) /\
     ((Snapshot sr).(sc_Running) = true -> snd (tryBegin n sr) = sr)) /\
  (forall i r, sr.(runs) !! i = Some r -> active r = false -> (Abort sr).(runs) !! i = Some r).
Proof.
  intros H. apply runner_ok_steps in H; [|apply runner_ok_new]. destruct H as (old & Hold & H).
  assert (Hnone : List.filter active old = []).
  { clear H. induction Hold as [|r l Hr Hl IH]; simpl; [done|]. by rewrite Hr. }
  assert (Hno : forall r, r ∈ old -> active r = true -> False).
  { rewrite Forall_forall in Hold. intros r Hr. rewrite (Hold _ Hr). done. }
  unfold Snapshot, tryBegin, Abort.
  destruct H as [(Hs & Hc & Hr)|(r & Hr & Ha & Hs & Hd & Hc)]; rewrite Hs, Hc, Hr; simpl.
  - rewrite Hnone. simpl. split; [lia|]. split; [naive_solver|]. repeat split; try naive_solver.
  - rewrite List.filter_app, Hnone. simpl. rewrite Ha. simpl. split; [lia|]. split.
    { split; [|done]. intros _. exists r. set_solver. }
    split; [|split].
    + intros r' [Hr'| ->%list_elem_of_singleton]%elem_of_app Ha'; [naive_solver|done].
    + naive_solver.
    + intros i r' Hi Hr'. destruct (at_pc Sweeping r) eqn:Hp; simpl; [|by rewrite Hr].
      rewrite ?Hr, alter_last. apply lookup_snoc_Some in Hi as [[Hlt Hi]|[-> <-]]; [|congruence].
      by rewrite lookup_app_l.
Qed.

(** Between the answer to the request and the first lock of the sweep, an abort
    finds nothing to cancel: the sweep goes on. *)
Lemma abort_lost scope ids :
  exists sr, steps [ATryBegin scope ids true; AAbort; AEnter 0] NewScanRunner = Some sr /\
    (Snapshot sr).(sc_Running) = true /\ forall r, r ∈ sr.(runs) -> r.(run_aborted) = false.
Proof.
  eexists. split; [reflexivity|]. split; [done|]. intros r ->%list_elem_of_singleton. done.
Qed.

End Inv.

Definition demo_scan : list ScanRunner.action :=
  [ScanRunner.ATryBegin ScopeAll [1; 2] true; ScanRunner.AEnter 0; ScanRunner.ATryBegin (ScopeService 2) [2] true;
   ScanRunner.AReport 0; ScanRunner.AAbort; ScanRunner.ALeave 0; ScanRunner.ATryBegin (ScopeService 2) [2] true].

Lemma scan_single_flight_witness :
  exists sr, ScanRunner.steps demo_scan ScanRunner.NewScanRunner = Some sr /\ length sr.(ScanRunner.runs) = 2%nat /\
    (length (List.filter ScanRunner.active sr.(ScanRunner.runs)) <= 1)%nat.
Proof.
  eexists. split; [vm_compute; reflexivity|]. split; [reflexivity|].
  apply (scan_single_flight demo_scan). vm_compute. reflexivity.
Defined.
