(* ===== verification/Http.v ===== *)
(** * The HTTP layer: requests, answers, sessions, sign-in
    (internal/httpapi: respond.go, middleware.go, auth.go, password.go)

    A request is given as net/http and chi give it to a handler: cookies,
    headers, path and query parameters, and the first JSON value of the body,
    its keys as encoding/json folds them ([None] when there is none, or it is too
    long).  A handler answers with a status, a body and the cookies it sets. *)

From stdpp Require Import base list strings gmap.
From Stdlib Require Import Ascii.
From S2P Require Import Prelude GoStd Db World StoreUpdates StoreJobs StoreMisc.
From S2P Require Import Files Compose Scan Password RateLimit ScanRun.

Local Open Scope Z_scope.

(** ** JSON *)

Inductive json :=
| JNull
| JBool (b : bool)
| JInt (z : Z)
| JReal (text : string)
| JStr (s : string)
| JArr (l : list json)
| JObj (l : list (string * json)).

Record Request := mkRequest {
  rq_method : string;
  rq_cookies : list (string * string);
  rq_header : string -> string;
  rq_tls : bool;
  rq_remote : string;
  rq_param : string -> string;
  rq_query : string -> string;
  rq_body : option json;
}.

Record cookie := mkCookie { ck_name : string; ck_value : string; ck_httponly : bool; ck_secure : bool; ck_maxage : Z }.

Record Response := mkResponse { rs_code : Z; rs_body : option json; rs_cookies : list cookie; rs_headers : list (string * string) }.

Definition respond (code : Z) (body : json) : Response := mkResponse code (Some body) [] [].
Definition no_content : Response := mkResponse 204 None [] [].

Definition writeJSONError (code : Z) (e : error) : Response := respond code (JObj [("error", JStr (error_text e))]).

(** The first cookie of that name ([r.Cookie]). *)
Definition Cookie (r : Request) (name : string) : option string :=
  snd <$> List.find (fun c => String.eqb c.1 name) r.(rq_cookies).

(** *** Decoding into a struct

    Every key must be a field and every value of the type of its field (null
    leaves the field); the last value of a key counts, also where the whole is an
    error the handler ignores. *)
Inductive kind := KStr | KBool | KInt | KStrs.

Definition fits (k : kind) (v : json) : bool :=
  match k, v with
  | _, JNull | KStr, JStr _ | KBool, JBool _ => true
  | KInt, JInt z => (min_int <=? z) && (z <=? max_int)
  | KStrs, JArr l => forallb (fun x => match x with JStr _ | JNull => true | _ => false end) l
  | _, _ => false
  end.

Definition field_kind (fields : list (string * kind)) (key : string) : option kind :=
  snd <$> List.find (fun f => String.eqb f.1 key) fields.

Definition entries (body : option json) : list (string * json) := match body with Some (JObj l) => l | _ => [] end.

(** Does [decodeJSON] succeed? *)
Definition decodes (fields : list (string * kind)) (body : option json) : bool :=
  match body with
  | Some (JObj l) => forallb (fun kv => match field_kind fields kv.1 with Some k => fits k kv.2 | None => false end) l
  | Some JNull => true
  | _ => false
  end.

(** The last value of the field that fits it. *)
Definition field {A} (get : json -> option A) (def : A) (key : string) (body : option json) : A :=
  fold_left (fun a kv => if String.eqb kv.1 key then default a (get kv.2) else a) (entries body) def.

Definition as_str (v : json) : option string := match v with JStr s => Some s | _ => None end.
Definition as_bool (v : json) : option bool := match v with JBool b => Some b | _ => None end.
Definition as_int (v : json) : option Z :=
  match v with JInt z => if (min_int <=? z) && (z <=? max_int) then Some z else None | _ => None end.
Definition as_strs (v : json) : option (list string) :=
  match v with JArr l => Some (map (fun x => match x with JStr s => s | _ => "" end) l) | _ => None end.
(** A pointer field: null is a value. *)
Definition as_bool_ptr (v : json) : option (option bool) :=
  match v with JBool b => Some (Some b) | JNull => Some None | _ => None end.

Definition str_field := field as_str "".

(** [strconv.ParseInt(v, 10, 64)] *)
Definition ParseInt (v : string) : result Z :=
  match Atoi v with
  | Some z => Ok z
  | None =>
      let digits := if HasPrefix v "+" || HasPrefix v "-" then v.[1:] else v in
      let why := match digits_val 0 digits with
                 | Some _ => if String.eqb digits "" then "invalid syntax" else "value out of range"
                 | None => "invalid syntax"
                 end in
      Err (Errorf ("strconv.ParseInt: parsing " +:+ Quote v +:+ ": " +:+ why))
  end.

Definition pathInt64 (r : Request) (key : string) : result Z :=
  let v := r.(rq_param) key in
  if String.eqb v "" then Err (Errorf ("missing path parameter: " +:+ key)) else ParseInt v.

(** ** The server *)

(** What the handlers share: the world with what the scanner remembers, the
    lockout, the scan-run with the sweeps it was asked for, and the level of the
    process log. *)
Record server := mkServer {
  srv_scanning : Scanner.scanning;
  srv_limiter : gmap string Limiter.failEntry;
  srv_runner : ScanRunner.ScanRunner;
  srv_level : Z;
}.

Definition srv_world (s : server) : world := s.(srv_scanning).(Scanner.sc_world).

Definition on_scanning {A} (m : M Scanner.scanning A) : M server A := fun s =>
  let '(a, sc) := m s.(srv_scanning) in (a, mkServer sc s.(srv_limiter) s.(srv_runner) s.(srv_level)).

Definition on_world {A} (m : M world A) : M server A := on_scanning (Scanner.lift m).

Definition on_runner {A} (f : ScanRunner.ScanRunner -> A * ScanRunner.ScanRunner) : M server A := fun s =>
  let '(a, r) := f s.(srv_runner) in (a, mkServer s.(srv_scanning) s.(srv_limiter) r s.(srv_level)).

Definition on_limiter {A} (f : gmap string Limiter.failEntry -> A * gmap string Limiter.failEntry) : M server A := fun s =>
  let '(a, l) := f s.(srv_limiter) in (a, mkServer s.(srv_scanning) l s.(srv_runner) s.(srv_level)).

Definition set_level (level : Z) : M server unit := fun s =>
  (tt, mkServer s.(srv_scanning) s.(srv_limiter) s.(srv_runner) level).

(** A call, and the answer the handler gives when it fails. *)
Definition or_answer {A} (m : M world (result A)) (on_err : error -> Response) (k : A -> M server Response) :
    M server Response :=
  bind (on_world m) (fun r => match r with Ok a => k a | Err e => ret (on_err e) end).

Notation "'need!' x ':=' m 'else' h 'in' k" := (or_answer m h (fun x => k))
  (at level 10, x name, m at level 100, h at level 100, k at level 200,
   format "'[v' 'need!'  x  ':='  m  'else'  h  'in' '/' k ']'") : go_scope.

Module Http.

Definition sessionCookie : string := "dockbrr_session".
Definition csrfCookie : string := "dockbrr_csrf".
Definition csrfHeader : string := "X-CSRF-Token".
Definition sessionTTL : Z := 7 * 24 * 3600 * 1000000000.

Definition errUnauthorized : error := Errorf "unauthorized".
Definition errForbidden : error := Errorf "forbidden".
Definition errSetupDone : error := Errorf "setup already completed".
Definition errBadCredentials : error := Errorf "invalid username or password".
Definition errInternal : error := Errorf "internal server error".
Definition errTooManyAttempts : error := Errorf "too many failed login attempts; try again later".

(** The cause stays in the log. *)
Definition writeInternalError (e : error) : Response := writeJSONError 500 errInternal.

Definition isMutating (method : string) : bool :=
  if String.eqb method "POST" then true
  else if String.eqb method "PUT" then true
  else if String.eqb method "PATCH" then true
  else if String.eqb method "DELETE" then true
  else false.

Definition isSecure (r : Request) : bool := r.(rq_tls) || String.eqb (r.(rq_header) "X-Forwarded-Proto") "https".

Definition session_cookies (r : Request) (token csrf : string) (maxAge : Z) : list cookie :=
  [mkCookie sessionCookie token true (isSecure r) maxAge; mkCookie csrfCookie csrf false (isSecure r) maxAge].

Definition setSessionCookies (r : Request) (token csrf : string) (rs : Response) : Response :=
  mkResponse rs.(rs_code) rs.(rs_body) (rs.(rs_cookies) ++ session_cookies r token csrf (sessionTTL / 1000000000)) rs.(rs_headers).

Definition clearSessionCookies (r : Request) (rs : Response) : Response :=
  mkResponse rs.(rs_code) rs.(rs_body) (rs.(rs_cookies) ++ session_cookies r "" "" (-1)) rs.(rs_headers).

Definition set_header (k v : string) (rs : Response) : Response :=
  mkResponse rs.(rs_code) rs.(rs_body) rs.(rs_cookies) (rs.(rs_headers) ++ [(k, v)]).

(** *** The middlewares *)

Definition cspPolicy : string :=
  "default-src 'self'; script-src 'self'; " +:+
  "style-src 'self' 'unsafe-inline'; img-src 'self' data:; " +:+
  "font-src 'self' data:; connect-src 'self'; object-src 'none'; " +:+
  "base-uri 'self'; frame-ancestors 'none'; form-action 'self'".

Definition secureHeaders (h : Request -> M server Response) (r : Request) : M server Response :=
  let! rs := h r in
  ret (mkResponse rs.(rs_code) rs.(rs_body) rs.(rs_cookies)
    ([("Content-Security-Policy", cspPolicy); ("X-Content-Type-Options", "nosniff"); ("X-Frame-Options", "DENY");
      ("Referrer-Policy", "same-origin")] ++ rs.(rs_headers))).

Section Http.
Context {E : Env} {R : Random} {A2 : Argon2} {SH : Sha256} {MR : MapRange}.

(** hex(sha256(tok)): the token itself is never stored. *)
Definition hashToken (tok : string) : string := sha256_hex tok.

(** The handler behind the guard gets the id of the user. *)
Definition requireAuth (next : Z -> Request -> M server Response) (r : Request) : M server Response :=
  match Cookie r sessionCookie with
  | None => ret (writeJSONError 401 errUnauthorized)
  | Some v =>
      if String.eqb v "" then ret (writeJSONError 401 errUnauthorized)
      else
        let! t := on_world now in
        need! sess := Sessions.Get (hashToken v) t else (fun _ => writeJSONError 401 errUnauthorized) in
        let hdr := r.(rq_header) csrfHeader in
        if isMutating r.(rq_method) && (String.eqb hdr "" || negb (String.eqb hdr sess.(se_CSRFToken)))
        then ret (writeJSONError 403 errForbidden)
        else next sess.(se_UserID) r
  end.

(** *** Sessions *)

(** The token and the CSRF token of a new session, stored; or an error. *)
Definition new_session (userID : Z) : M world (result (string * string)) :=
  let? tok := newToken in
  let? csrf := newToken in
  let! t := now in
  try? Sessions.Create (hashToken tok) userID csrf (t + sessionTTL) in
  ret (Ok (tok, csrf)).

(** A handler's last steps: a session, its cookies, and the answer. *)
Definition issueSession (r : Request) (userID : Z) (answer : Response) : M server Response :=
  need! tc := new_session userID else writeInternalError in
  ret (setSessionCookies r tc.1 tc.2 answer).

(** *** Handlers *)

Definition credsFields : list (string * kind) := [("username", KStr); ("password", KStr)].

Definition handleSetupStatus (r : Request) : M server Response :=
  need! n := Users.Count else writeInternalError in
  ret (respond 200 (JObj [("needs_setup", JBool (n =? 0))])).

Definition handleSetup (r : Request) : M server Response :=
  need! n := Users.Count else writeInternalError in
  if 0 <? n then ret (writeJSONError 409 errSetupDone)
  else
    let user := str_field "username" r.(rq_body) in
    let pass := str_field "password" r.(rq_body) in
    if negb (decodes credsFields r.(rq_body)) || String.eqb user "" || String.eqb pass ""
    then ret (writeJSONError 400 errBadCredentials)
    else
      need! hash := Auth.HashPassword pass else writeInternalError in
      need! uid := Users.Create user hash else writeInternalError in
      issueSession r uid (respond 201 (JObj [("username", JStr user)])).

(** A refused sign-in counts against the address. *)
Definition refuse_login (ip : string) : M server Response :=
  let! t := on_world now in
  do! on_limiter (fun l => (tt, Limiter.fail ip t l)) in
  ret (writeJSONError 401 errBadCredentials).

Definition handleLogin (r : Request) : M server Response :=
  let ip := clientIP r.(rq_remote) in
  let! t := on_world now in
  let! lock := on_limiter (Limiter.blocked ip t) in
  match lock with
  | Some retry => ret (set_header "Retry-After" (Itoa retry) (writeJSONError 429 errTooManyAttempts))
  | None =>
      if negb (decodes credsFields r.(rq_body)) then ret (writeJSONError 400 errBadCredentials)
      else
        let! u := on_world (Users.GetByUsername (str_field "username" r.(rq_body))) in
        match u with
        | Err _ => refuse_login ip
        | Ok u =>
            match Auth.VerifyPassword u.(us_PasswordHash) (str_field "password" r.(rq_body)) with
            | Ok true =>
                do! on_limiter (fun l => (tt, Limiter.success ip l)) in
                issueSession r u.(us_ID) (respond 200 (JObj [("username", JStr u.(us_Username))]))
            | _ => refuse_login ip
            end
        end
  end.

Definition handleLogout (uid : Z) (r : Request) : M server Response :=
  do! match Cookie r sessionCookie with
      | Some v => if String.eqb v "" then ret tt
                  else do! on_world (Sessions.Delete (hashToken v)) in ret tt
      | None => ret tt
      end in
  ret (clearSessionCookies r no_content).

Definition handleMe (uid : Z) (r : Request) : M server Response :=
  need! u := Users.GetByID uid else writeInternalError in
  ret (respond 200 (JObj [("username", JStr u.(us_Username))])).

Definition passwordFields : list (string * kind) := [("current", KStr); ("new", KStr)].

Definition handleChangePassword (uid : Z) (r : Request) : M server Response :=
  let new := str_field "new" r.(rq_body) in
  if negb (decodes passwordFields r.(rq_body)) || String.eqb new ""
  then ret (writeJSONError 400 (Errorf "current and new passwords are required"))
  else
    need! u := Users.GetByID uid else writeInternalError in
    match Auth.VerifyPassword u.(us_PasswordHash) (str_field "current" r.(rq_body)) with
    | Ok true =>
        need! hash := Auth.HashPassword new else writeInternalError in
        need! _x := Users.UpdatePasswordHash uid hash else writeInternalError in
        need! _y := Sessions.DeleteByUser uid else writeInternalError in
        issueSession r uid no_content
    | _ => ret (writeJSONError 401 errBadCredentials)
    end.

End Http.
End Http.
