(* ===== verification/HttpApi.v ===== *)
(** * The API handlers: updates, jobs, lifecycle, scans, projects, status
    (internal/httpapi: updates.go, jobs.go, lifecycle.go, selfupdate.go, scan.go,
    scanrun.go, projects.go, preview.go, events.go, status.go, system.go)

    A handler behind the guard gets the id of the signed-in user.  What the
    server was wired with is the class [Deps]; the repositories are taken to be
    there.  Log lines are left out; what is read only to name a service in one is
    kept, for it reads the database.  An object's fields are in the order of the
    source. *)

From stdpp Require Import base list strings gmap.
From S2P Require Import Prelude GoStd Clock Semver Db World StoreUpdates StoreJobs StoreServices StoreMisc Files Compose.
From S2P Require Import Daemon SelfUpdate Scan Password RateLimit ScanRun Http.

Local Open Scope Z_scope.

(** What main.go wires into the server.  The daemon's answers are those of the
    read-only calls the API makes. *)
Class Deps := {
  SelfID : string;
  SelfUpdateChecker : option Checker.Checker;
  has_bus : bool;
  HostID : Z;
  DockerLogs : option (nat -> string -> Z -> result string);
  DockerPinger : option (nat -> result unit);
  DockerVersion : option (nat -> result (string * string));
  NextScan : nat -> option Z;
  StartedAt : option Z;
  DataDir : string;
  BindAddr : string;
  version_Version : string;
  version_Commit : string;
  version_CommitDirty : string;
  version_BuildDate : string;
  (** [debug.ReadBuildInfo], [runtime.Version] and the platform. *)
  BuildInfo : option (list (string * string));
  runtime_Version : string;
  platform : string;
}.

(** What the environment answers at this point. *)
Definition ask {A} (f : nat -> A) : M world A := fun w => (f w.(w_tick), tick w).

Definition jopt (o : option Z) : json := match o with Some z => JInt z | None => JNull end.
Definition jopt_bool (o : option bool) : json := match o with Some b => JBool b | None => JNull end.

(** A field with [omitempty]. *)
Definition omit_empty (k v : string) : list (string * json) := if String.eqb v "" then [] else [(k, JStr v)].

Fixpoint map_each {W A B} (f : A -> M W B) (l : list A) : M W (list B) :=
  match l with
  | [] => ret []
  | a :: l' => let! b := f a in let! bs := map_each f l' in ret (b :: bs)
  end.

Module Api.

(** The answer where a lookup failed. *)
Definition not_found_or_500 (sentinel : string) (e : error) : Response :=
  if errors_Is e sentinel then writeJSONError 404 e else writeJSONError 500 e.

Definition errUpdateNotFound : string := "update not found".
Definition errJobNotFound : string := "job not found".

(** The [id] of the path, or 400. *)
Definition with_id (r : Request) (k : Z -> M server Response) : M server Response :=
  match pathInt64 r "id" with Err e => ret (writeJSONError 400 e) | Ok id => k id end.

(** A job of the API's. *)
Definition user_job (type : string) (project service : option Z) (scope : string) : Job :=
  mkJob 0 type project service "" scope "user" 0 None None None "".

Definition job_answer (code id : Z) : Response := respond code (JObj [("job_id", JInt id)]).

Section Api.
Context {E : Env} {G : Checker.Releases} {SL : Sealer} {D : Deps}.

(** The [tokenFn] main.go hands to the release checker and the changelog sources. *)
Definition githubToken : M world string :=
  let! v := Settings.GetSecret "github_token" in
  ret (match v with Ok v => v | Err _ => "" end).

(** ** updates.go *)

(** Ids are compared by prefix either way. *)
Definition serviceIsSelf (svc : Service) : bool :=
  if String.eqb SelfID "" then false
  else existsb (fun cid => HasPrefix cid SelfID || HasPrefix SelfID cid) svc.(sv_ContainerIDs).

Definition updateDTO (u : Update) (isSelf : bool) : json :=
  JObj [("id", JInt u.(up_ID)); ("service_id", JInt u.(up_ServiceID)); ("from_digest", JStr u.(up_FromDigest));
        ("to_digest", JStr u.(up_ToDigest)); ("from_version", JStr u.(up_FromVersion));
        ("to_version", JStr u.(up_ToVersion)); ("tag", JStr u.(up_Tag)); ("severity", JStr u.(up_Severity));
        ("changelog_url", JStr u.(up_ChangelogURL)); ("changelog_text", JStr u.(up_ChangelogText));
        ("changelog_status", JStr u.(up_ChangelogStatus)); ("status", JStr u.(up_Status));
        ("detected_at", JStr (rfc3339 u.(up_DetectedAt))); ("is_self", JBool isSelf)].

Definition update_row (u : Update) : M world json :=
  let! svc := Services.Get u.(up_ServiceID) in
  ret (updateDTO u (match svc with Ok s => serviceIsSelf s | Err _ => false end)).

Definition handleListUpdates (uid : Z) (r : Request) : M server Response :=
  need! ups := Updates.ListVisible else writeJSONError 500 in
  let! out := on_world (map_each update_row ups) in
  ret (respond 200 (JArr out)).

Definition handleListLastApplied (uid : Z) (r : Request) : M server Response :=
  need! ups := Updates.ListLastAppliedByService else writeJSONError 500 in
  let! out := on_world (map_each update_row ups) in
  ret (respond 200 (JArr out)).

(** The id of the queued job, or the status and the error to answer with. *)
Definition enqueueSelfUpdate : M world (Z * error + Z) :=
  if String.eqb SelfID "" then
    ret (inl (409, Errorf "self-update is only available when dockbrr runs in a container"))
  else
    match SelfUpdateChecker with
    | None => ret (inl (409, Errorf "self-update is unavailable"))
    | Some c =>
        let! res := Checker.CheckFresh githubToken c in
        match res with
        | (_, Some _) => ret (inl (409, Errorf "could not check for updates, try again later"))
        | (res, None) =>
            if negb res.(Checker.UpdateAvailable) then ret (inl (409, Errorf "no dockbrr update is available"))
            else
              let! active := Jobs.ActiveByType "self_update" in
              match active with
              | Err e => ret (inl (500, e))
              | Ok (Some job) => ret (inr job.(job_ID))
              | Ok None =>
                  let! id := Jobs.Enqueue (user_job "self_update" None None "") in
                  match id with Err e => ret (inl (500, e)) | Ok id => ret (inr id) end
              end
        end
    end.

Definition refused_self_update (code : Z) (e : error) : Response :=
  if code =? 500 then Http.writeInternalError e else writeJSONError code e.

(** An optional body: its errors are ignored. *)
Definition scopeFromBody (r : Request) : string :=
  if String.eqb (str_field "scope" r.(rq_body)) "project" then "project" else "service".

Definition errUnmanaged : error := Errorf "project is unmanaged: compose files not found at their recorded paths".
Definition errGone : error := Errorf "service is gone: its container no longer exists, so it cannot be applied".

Definition handleApply (uid : Z) (r : Request) : M server Response :=
  with_id r (fun id =>
  need! upd := Updates.Get id else not_found_or_500 errUpdateNotFound in
  need! svc := Services.Get upd.(up_ServiceID) else writeJSONError 500 in
  need! proj := Projects.Get svc.(sv_ProjectID) else writeJSONError 500 in
  if proj.(pr_Unmanaged) then ret (writeJSONError 409 errUnmanaged)
  else if String.eqb svc.(sv_State) "gone" then ret (writeJSONError 409 errGone)
  else if serviceIsSelf svc then
    let! res := on_world enqueueSelfUpdate in
    match res with
    | inl (code, e) => ret (refused_self_update code e)
    | inr id => ret (respond 200 (JObj [("job_id", JInt id); ("self_update", JBool true)]))
    end
  else
    need! jobID := Jobs.Enqueue (user_job "apply" (Some svc.(sv_ProjectID)) (Some svc.(sv_ID)) (scopeFromBody r))
      else writeJSONError 500 in
    ret (job_answer 202 jobID)).

(** [handleDismiss] and [handleRestore]: the row gets the status, the service an event. *)
Definition flip_update (status kind message : string) (r : Request) : M server Response :=
  with_id r (fun id =>
  need! upd := Updates.Get id else not_found_or_500 errUpdateNotFound in
  need! _x := Updates.SetStatus id status else writeJSONError 500 in
  do! on_world (Events.Insert (mkEvent 0 upd.(up_ServiceID) kind None "" upd.(up_ToDigest) message 0 "" "")) in
  ret (respond 200 (JObj [("status", JStr status)]))).

Definition handleDismiss (uid : Z) (r : Request) : M server Response :=
  flip_update "dismissed" "dismissed" "update dismissed" r.

Definition handleRestore (uid : Z) (r : Request) : M server Response :=
  flip_update "available" "restored" "update restored" r.

Definition serviceName (id : Z) : M world string :=
  let! svc := Services.Get id in
  ret (match svc with Ok s => s.(sv_Name) | Err _ => "?" end).

(** *** The scan-run, over the server *)

Definition Start (scope : scan_scope) : M server (result scanState) :=
  let! ids := on_world (ScanRunner.resolve scope) in
  match ids with
  | Err e => ret (Err e)
  | Ok ids =>
      let! begun := on_runner (ScanRunner.tryBegin (Z.of_nat (length ids))) in
      if negb begun then ret (Err ScanRunner.ErrScanBusy)
      else
        let! st := on_runner (fun sr => (ScanRunner.Snapshot sr, sr)) in
        do! on_runner (fun sr => (tt, ScanRunner.launch scope ids true sr)) in
        ret (Ok st)
  end.

(** The whole of [execute] for the [i]-th sweep; its progress, which the snapshot
    shows in between, is in ScanRun.v. *)
Definition execute {CK : Checker} (i : nat) (scope : scan_scope) (ids : list Z) (manual : bool) : M server bool :=
  do! on_runner (fun sr => (tt, ScanRunner.enter i sr)) in
  let! completed := on_scanning (ScanRunner.sweep_world has_bus scope ids manual) in
  do! on_runner (fun sr => (tt, ScanRunner.leave i sr)) in
  ret completed.

Definition RunScheduled {CK : Checker} : M server bool :=
  let! ids := on_world (ScanRunner.resolve ScopeAll) in
  match ids with
  | Err _ => ret false
  | Ok ids =>
      let! begun := on_runner (ScanRunner.tryBegin (Z.of_nat (length ids))) in
      if negb begun then ret false
      else
        let! i := on_runner (fun sr => (length sr.(ScanRunner.runs), ScanRunner.launch ScopeAll ids false sr)) in
        execute i ScopeAll ids false
  end.

Definition scan_answer (code : Z) (st : scanState) : Response :=
  respond code (JObj [("running", JBool st.(sc_Running)); ("done", JInt st.(sc_Done)); ("total", JInt st.(sc_Total))]).

Definition scan_refused (code : Z) (e : error) : Response :=
  if errors_Is e ScanRunner.errScanBusy then writeJSONError 409 e else writeJSONError code e.

Definition handleCheck (uid : Z) (r : Request) : M server Response :=
  with_id r (fun id =>
  do! on_world (serviceName id) in
  let! st := Start (ScopeService id) in
  ret (match st with Err e => scan_refused 502 e | Ok st => scan_answer 202 st end)).

(** *** scan.go *)

Definition handleScanAll (uid : Z) (r : Request) : M server Response :=
  let pid := field as_int 0 "project_id" r.(rq_body) in
  let! st := Start (if 0 <? pid then ScopeProject pid else ScopeAll) in
  ret (match st with Err e => scan_refused 500 e | Ok st => scan_answer 202 st end).

Definition handleScanStatus (uid : Z) (r : Request) : M server Response :=
  let! st := on_runner (fun sr => (ScanRunner.Snapshot sr, sr)) in
  ret (scan_answer 200 st).

Definition handleScanAbort (uid : Z) (r : Request) : M server Response :=
  do! on_runner (fun sr => (tt, ScanRunner.Abort sr)) in
  ret no_content.

(** ** lifecycle.go *)

Definition defaultLogTail : Z := 500.
Definition maxLogTail : Z := 2000.

Definition errInvalidAction : error := Errorf "action must be start, stop, or restart".
Definition errRemoveNotStandalone : error := Errorf "remove is only allowed for standalone containers".
Definition errRemoveNotStopped : error := Errorf "remove is only allowed for a stopped container".
Definition errLogsUnavailable : error := Errorf "logs are unavailable".
Definition errBadTail : error := Errorf "tail must be between 1 and 2000".

Definition lifecycleActions (action : string) : bool := str_in ["start"; "stop"; "restart"] action.

Definition loadServiceProject (r : Request) (k : Service -> Project -> M server Response) : M server Response :=
  with_id r (fun id =>
  need! svc := Services.Get id else writeJSONError 404 in
  need! proj := Projects.Get svc.(sv_ProjectID) else writeJSONError 404 in
  k svc proj).

Definition handleLifecycle (uid : Z) (r : Request) : M server Response :=
  loadServiceProject r (fun svc proj =>
  let action := str_field "action" r.(rq_body) in
  if negb (decodes [("action", KStr)] r.(rq_body)) || negb (lifecycleActions action)
  then ret (writeJSONError 400 errInvalidAction)
  else
    need! jobID := Jobs.Enqueue (user_job action (Some proj.(pr_ID)) (Some svc.(sv_ID)) "service")
      else writeJSONError 500 in
    ret (job_answer 200 jobID)).

Definition handleRemove (uid : Z) (r : Request) : M server Response :=
  loadServiceProject r (fun svc proj =>
  if negb (String.eqb proj.(pr_Kind) "standalone") then ret (writeJSONError 409 errRemoveNotStandalone)
  else if negb (Services.IsStoppedState svc.(sv_State)) then ret (writeJSONError 409 errRemoveNotStopped)
  else
    need! jobID := Jobs.Enqueue (user_job "remove" (Some proj.(pr_ID)) (Some svc.(sv_ID)) "service")
      else writeJSONError 500 in
    ret (job_answer 200 jobID)).

(** The tail asked for, or [None] for a bad one. *)
Definition log_tail (r : Request) : option Z :=
  let q := r.(rq_query) "tail" in
  if String.eqb q "" then Some defaultLogTail
  else match Atoi q with
       | Some n => if (n <? 1) || (maxLogTail <? n) then None else Some n
       | None => None
       end.

Definition handleLogs (uid : Z) (r : Request) : M server Response :=
  loadServiceProject r (fun svc proj =>
  match DockerLogs with
  | None => ret (writeJSONError 503 errLogsUnavailable)
  | Some logs =>
      match svc.(sv_ContainerIDs) with
      | [] => ret (respond 200 (JObj [("logs", JStr "")]))
      | cid :: _ =>
          match log_tail r with
          | None => ret (writeJSONError 400 errBadTail)
          | Some tail =>
              need! out := call (fun o => EvDocker "logs" cid (is_ok o)) (fun n => logs n cid tail) else writeJSONError 500 in
              ret (respond 200 (JObj [("logs", JStr out)]))
          end
      end
  end).

(** ** jobs.go *)

Definition toJobDTO (j : Job) (projectName serviceName : string) : json :=
  JObj ([("id", JInt j.(job_ID)); ("type", JStr j.(job_Type)); ("status", JStr j.(job_Status));
         ("scope", JStr j.(job_Scope)); ("exit_code", jopt j.(job_ExitCode)); ("error", JStr j.(job_Error));
         ("project_id", jopt j.(job_ProjectID)); ("service_id", jopt j.(job_ServiceID));
         ("requested_by", JStr j.(job_RequestedBy)); ("created_at", JStr (rfc3339 j.(job_CreatedAt)));
         ("finished_at", JStr (match j.(job_FinishedAt) with Some t => rfc3339 t | None => "" end))]
        ++ omit_empty "project_name" projectName ++ omit_empty "service_name" serviceName).

Definition handleGetJob (uid : Z) (r : Request) : M server Response :=
  with_id r (fun id =>
  need! j := Jobs.Get id else not_found_or_500 errJobNotFound in
  ret (respond 200 (toJobDTO j "" ""))).

(** An unparsable limit is out of range, so it is clamped like any other. *)
Definition handleListJobs (uid : Z) (r : Request) : M server Response :=
  let limit := default 0 (Atoi (r.(rq_query) "limit")) in
  need! jobs := Jobs.List_ limit else writeJSONError 500 in
  ret (respond 200 (JArr (map (fun row => toJobDTO row.(Jobs.row_Job) row.(Jobs.row_ProjectName) row.(Jobs.row_ServiceName)) jobs))).

Definition handleClearJobs (uid : Z) (r : Request) : M server Response :=
  need! n := Jobs.DeleteFinished else writeJSONError 500 in
  do! on_world (ScanRunner.publish has_bus "jobs_cleared" 0) in
  ret (respond 200 (JObj [("deleted", JInt n)])).

Definition handleRollback (uid : Z) (r : Request) : M server Response :=
  with_id r (fun id =>
  need! orig := Jobs.Get id else not_found_or_500 errJobNotFound in
  match orig.(job_ServiceID) with
  | None => ret (writeJSONError 400 (Errorf "original job has no service to roll back"))
  | Some svc =>
      need! jobID := Jobs.Enqueue (user_job "rollback" orig.(job_ProjectID) (Some svc) orig.(job_Scope))
        else writeJSONError 500 in
      ret (job_answer 202 jobID)
  end).

(** ** selfupdate.go *)

Definition self_update_body (res : Checker.Result) : json :=
  JObj ([("current", JStr res.(Checker.Current)); ("latest", JStr res.(Checker.Latest));
         ("html_url", JStr res.(Checker.HTMLURL)); ("update_available", JBool res.(Checker.UpdateAvailable))]
        ++ match res.(Checker.CheckedAt) with Some t => [("checked_at", JStr (rfc3339 (t / second)))] | None => [] end
        ++ match res.(Checker.FetchErr) with
           | Some e => [("error_kind", JStr (if errors_Is e "selfupdate: github rate limited" then "rate_limited" else "unreachable"));
                        ("error", JStr (error_text e))]
           | None => []
           end).

Definition handleSelfUpdate (uid : Z) (r : Request) : M server Response :=
  match SelfUpdateChecker with
  | None => ret (respond 200 (JObj [("update_available", JBool false)]))
  | Some c =>
      let force := r.(rq_query) "force" in
      let! res := on_world (if String.eqb force "true" || String.eqb force "1" then Checker.CheckFresh githubToken c
                            else Checker.Check githubToken c) in
      ret (respond 200 (self_update_body res.1))
  end.

Definition handleSelfUpdateApply (uid : Z) (r : Request) : M server Response :=
  let! res := on_world enqueueSelfUpdate in
  match res with
  | inl (code, e) => ret (refused_self_update code e)
  | inr id => ret (job_answer 200 id)
  end.

(** ** projects.go and preview.go *)

Definition serviceDTO (remote : option (gmap (string * string) RemoteState)) (sv : Service) : M world json :=
  let '(repo, tag) := SplitRef sv.(sv_ImageRef) in
  let st := remote ≫= lookup (repo, tag) in
  let! version := (if String.eqb sv.(sv_CurrentDigest) "" then ret "" else
                     let! img := Images.GetByDigest repo sv.(sv_CurrentDigest) in
                     ret (match img with Ok i => i.(img_ResolvedVersion) | Err _ => "" end)) in
  ret (JObj [("id", JInt sv.(sv_ID)); ("name", JStr sv.(sv_Name)); ("image_ref", JStr sv.(sv_ImageRef));
             ("current_digest", JStr sv.(sv_CurrentDigest)); ("state", JStr sv.(sv_State));
             ("pinned", JBool sv.(sv_Pinned)); ("drifted", JBool sv.(sv_Drifted));
             ("healthcheck", JBool sv.(sv_Healthcheck)); ("image_local", JBool sv.(sv_ImageLocal));
             ("auto_update_enabled", jopt_bool sv.(sv_AutoUpdateEnabled));
             ("check_status", JStr (match st with Some s => s.(rs_Status) | None => "" end));
             ("last_checked", JStr (match st ≫= rs_ResolvedAt with Some t => rfc3339 t | None => "" end));
             ("current_version", JStr version)]).

Fixpoint projects_rows (remote : option (gmap (string * string) RemoteState)) (prs : list Project) :
    M world (result (list json)) :=
  match prs with
  | [] => ret (Ok [])
  | pr :: prs' =>
      let? svcs := Services.ListByProject pr.(pr_ID) in
      let! sdtos := map_each (serviceDTO remote) svcs in
      let? out := projects_rows remote prs' in
      ret (Ok (JObj [("id", JInt pr.(pr_ID)); ("name", JStr pr.(pr_Name)); ("kind", JStr pr.(pr_Kind));
                     ("working_dir", JStr pr.(pr_WorkingDir)); ("auto_update_enabled", JBool pr.(pr_AutoUpdateEnabled));
                     ("unmanaged", JBool pr.(pr_Unmanaged)); ("auto_named", JBool pr.(pr_AutoNamed));
                     ("services", JArr sdtos)] :: out))
  end.

Definition handleProjects (uid : Z) (r : Request) : M server Response :=
  need! prs := Projects.List_ else writeJSONError 500 in
  let! remote := on_world RemoteStates.All in
  let remote := match remote with Ok m => Some m | Err _ => None end in
  need! out := projects_rows remote prs else writeJSONError 500 in
  ret (respond 200 (JArr out)).

Definition composeFileDTO (path : string) : M world json :=
  let! b := sys_ReadFile path in
  ret (JObj (match b with
             | Ok c => [("path", JStr path); ("content", JStr c)]
             | Err e => [("path", JStr path); ("content", JStr "")] ++ omit_empty "error" (error_text e)
             end)).

Definition handleProjectCompose (uid : Z) (r : Request) : M server Response :=
  match ParseInt (r.(rq_param) "id") with
  | Err e => ret (writeJSONError 400 e)
  | Ok id =>
      need! proj := Projects.Get id else writeJSONError 404 in
      let! files := on_world (map_each composeFileDTO proj.(pr_ConfigFiles)) in
      ret (respond 200 (JObj [("files", JArr files)]))
  end.

Definition handlePreview (uid : Z) (r : Request) : M server Response :=
  with_id r (fun id =>
  need! upd := Updates.Get id else not_found_or_500 errUpdateNotFound in
  need! svc := Services.Get upd.(up_ServiceID) else writeJSONError 500 in
  need! proj := Projects.Get svc.(sv_ProjectID) else writeJSONError 500 in
  let scope := if String.eqb (r.(rq_query) "scope") "project" then "project" else "service" in
  match Preview (PullSpec proj.(pr_ConfigFiles) proj.(pr_WorkingDir) proj.(pr_Name) scope svc.(sv_Name)) with
  | Err e => ret (writeJSONError 500 e)
  | Ok pull =>
      match Preview (UpSpec proj.(pr_ConfigFiles) proj.(pr_WorkingDir) proj.(pr_Name) scope svc.(sv_Name)) with
      | Err e => ret (writeJSONError 500 e)
      | Ok up => ret (respond 200 (JObj [("pull", JStr pull); ("up", JStr up)]))
      end
  end).

(** ** events.go, status.go, system.go and the health check *)

Definition eventDTO (e : Event) : json :=
  JObj [("id", JInt e.(ev_ID)); ("kind", JStr e.(ev_Kind)); ("ref_job_id", jopt e.(ev_RefJobID));
        ("from_digest", JStr e.(ev_FromDigest)); ("to_digest", JStr e.(ev_ToDigest)); ("message", JStr e.(ev_Message));
        ("created_at", JStr (rfc3339 e.(ev_CreatedAt))); ("changelog_url", JStr e.(ev_ChangelogURL));
        ("changelog_text", JStr e.(ev_ChangelogText))].

Definition handleServiceEvents (uid : Z) (r : Request) : M server Response :=
  with_id r (fun id =>
  need! evs := Events.ListByService id else Http.writeInternalError in
  ret (respond 200 (JArr (map eventDTO evs)))).

(** No pinger is an unreachable daemon. *)
Definition dockerReachable : M world bool :=
  match DockerPinger with
  | None => ret false
  | Some ping => let! r := call (fun r => EvDocker "ping" "" (is_ok r)) ping in ret (is_ok r)
  end.

Definition handleStatus (uid : Z) (r : Request) : M server Response :=
  let! last := on_world (Settings.Get "last_check_all") in
  let! pollStr := on_world (Settings.Get "poll_interval_seconds") in
  let poll := match Atoi (match pollStr with Ok s => s | Err _ => "" end) with
              | Some n => if n <=? 0 then 900 else n
              | None => 900
              end in
  let! reachable := on_world dockerReachable in
  let! next := on_world (ask NextScan) in
  ret (respond 200 (JObj (
    [("last_check_all", JStr (match last with Ok s => s | Err _ => "" end)); ("poll_interval_seconds", JInt poll);
     ("docker_reachable", JBool reachable); ("version", JStr version_Version)]
    ++ match next with Some t => [("next_check_all", JStr (rfc3339 t))] | None => [] end))).

Definition stamp_step (st : string * bool * string) (kv : string * string) : string * bool * string :=
  let '(commit, dirty, date) := st in
  if String.eqb kv.1 "vcs.revision" then (kv.2, dirty, date)
  else if String.eqb kv.1 "vcs.modified" then (commit, String.eqb kv.2 "true", date)
  else if String.eqb kv.1 "vcs.time" then (commit, dirty, kv.2)
  else st.

Definition buildStamps : string * bool * string :=
  if negb (String.eqb version_Commit "") then (version_Commit, String.eqb version_CommitDirty "true", version_BuildDate)
  else match BuildInfo with
       | None => ("", false, "")
       | Some kvs => fold_left stamp_step kvs ("", false, "")
       end.

Definition handleSystemInfo (uid : Z) (r : Request) : M server Response :=
  let '(commit, dirty, date) := buildStamps in
  let! u := on_world (Users.GetByID uid) in
  let! reachable := on_world dockerReachable in
  let! v := on_world (match reachable, DockerVersion with
                      | true, Some version => call (fun r => EvDocker "version" "" (is_ok r)) version
                      | _, _ => ret (Err (Errorf ""))
                      end) in
  let docker := match v with Ok (v, api) => omit_empty "version" v ++ omit_empty "api_version" api | Err _ => [] end in
  ret (respond 200 (JObj (
    [("version", JStr version_Version); ("commit", JStr commit); ("commit_dirty", JBool dirty);
     ("build_date", JStr date); ("go_version", JStr runtime_Version); ("platform", JStr platform)]
    ++ match StartedAt with Some t => [("started_at", JStr (rfc3339 t))] | None => [] end
    ++ [("docker", JObj (("reachable", JBool reachable) :: docker));
        ("db_path", JStr (DataDir +:+ "/dockbrr.db")); ("bind_addr", JStr BindAddr); ("data_dir", JStr DataDir);
        ("auth", JObj [("username", JStr (match u with Ok u => u.(us_Username) | Err _ => "" end));
                       ("method", JStr "password")])]))).

Definition handleHealth (r : Request) : M server Response :=
  let! p := on_world (sql "db.Ping" 0 (query (fun _ => tt))) in
  let '(status, code) := match p with Ok _ => ("ok", 200) | Err _ => ("degraded", 503) end in
  ret (respond code (JObj [("status", JStr status); ("version", JStr version_Version)])).

End Api.
End Api.
