(* ===== verification/HttpSettings.v ===== *)
(** * The API handlers: settings, registries, projects added by hand
    (internal/httpapi/settings.go, and the level of internal/logger)

    The whitelist of the settings, their defaults, the validation that precedes
    every write, export and import, the registries and the automatic-update
    switches.  [range] is the order in which a loop over a Go map meets its keys. *)

From stdpp Require Import base list strings gmap sets.
From Stdlib Require Import Ascii.
From S2P Require Import Prelude GoStd Clock Db World StoreUpdates StoreServices StoreMisc Files Compose.
From S2P Require Import Scan Password RateLimit ScanRun Http HttpApi.

Local Open Scope Z_scope.

(** zerolog's parser of a level. *)
Class Zerolog := { zerolog_ParseLevel : string -> result Z }.

(** [strings.ToLower].  Of the letters outside ASCII only U+0130 and U+212A have a
    lower case inside it; the others are left as they are, for no level has any. *)
Fixpoint ToLower (s : string) : string :=
  match s with
  | String "196"%char (String "176" s') => String "i"%char (ToLower s')
  | String "226"%char (String "132"%char (String "170" s')) => String "k"%char (ToLower s')
  | String a s' => String (Compose.lower_byte a) (ToLower s')
  | "" => ""
  end.

(** internal/logger *)
Definition ParseLevel {ZL : Zerolog} (s : string) : result Z := zerolog_ParseLevel (ToLower (TrimSpace s)).

(** ** Bodies *)

Definition is_text (v : json) : bool := match v with JStr _ | JNull => true | _ => false end.

(** A body decoded into a [map[string]string]. *)
Definition decodes_map (body : option json) : bool :=
  match body with
  | Some (JObj l) => forallb (fun kv => is_text kv.2) l
  | Some JNull => true
  | _ => false
  end.

Definition put_text (m : gmap string string) (kv : string * json) : gmap string string :=
  <[kv.1 := default "" (as_str kv.2)]> m.

Definition text_map (body : option json) : gmap string string := fold_left put_text (entries body) ∅.

Definition registryFields : list (string * kind) := [("host", KStr); ("username", KStr)].

(** The value of one key of [exportPayload]. *)
Definition import_fits (key : string) (v : json) : bool :=
  if String.eqb key "version" then fits KInt v
  else if String.eqb key "settings" then decodes_map (Some v)
  else if String.eqb key "registries" then
    match v with
    | JArr l => forallb (fun x => decodes registryFields (Some x)) l
    | JNull => true
    | _ => false
    end
  else false.

Definition decodes_import (body : option json) : bool :=
  match body with
  | Some (JObj l) => forallb (fun kv => import_fits kv.1 kv.2) l
  | Some JNull => true
  | _ => false
  end.

(** A repeated [settings] object is merged into the same map; null empties it. *)
Definition import_settings (body : option json) : gmap string string :=
  fold_left (fun m kv => if String.eqb kv.1 "settings"
                         then match kv.2 with JObj l => fold_left put_text l m | _ => ∅ end else m) (entries body) ∅.

Definition as_registries (v : json) : option (list (string * string)) :=
  match v with
  | JArr l => Some (map (fun x => (str_field "host" (Some x), str_field "username" (Some x))) l)
  | JNull => Some []
  | _ => None
  end.

Definition import_registries (body : option json) : list (string * string) :=
  field as_registries [] "registries" body.

Module SettingsApi.

Definition settingDefaults : list (string * string) :=
  [("poll_interval_seconds", "900"); ("scan_on_start", "true"); ("concurrency", "2");
   ("health_timeout_seconds", "120"); ("health_poll_seconds", "2"); ("auto_remove_gone", "true");
   ("gone_grace_seconds", "3600"); ("default_auto_update_enabled", "false"); ("write_back_compose", "true");
   ("log_level", "info"); ("job_retention_days", "30")].

(** The keys, and whether each is a sealed secret. *)
Definition settingKeys : list (string * bool) :=
  [("poll_interval_seconds", false); ("scan_on_start", false); ("concurrency", false);
   ("health_timeout_seconds", false); ("health_poll_seconds", false); ("auto_remove_gone", false);
   ("gone_grace_seconds", false); ("default_auto_update_enabled", false); ("write_back_compose", false);
   ("log_level", false); ("job_retention_days", false); ("github_token", true)].

Definition restartRequired : list string := ["concurrency"; "scan_on_start"].

Definition settingDefault (key : string) : option string :=
  snd <$> List.find (fun kv => String.eqb kv.1 key) settingDefaults.

Definition allowed (key : string) : bool := existsb (fun spec => String.eqb spec.1 key) settingKeys.
Definition secret (key : string) : bool := existsb (fun spec => String.eqb spec.1 key && spec.2) settingKeys.

Section Settings.
Context {E : Env} {SS : SliceSort} {CG : Compose.ComposeGo} {SL : Sealer} {MR : MapRange} {ZL : Zerolog} {D : Deps}.

(** A stored value; an unset one is empty. *)
Definition read_setting (key : string) : M world (result string) :=
  let! v := Settings.Get key in
  ret (match v with
       | Ok v => Ok v
       | Err e => if errors_Is e "setting not found" then Ok "" else Err e
       end).

Definition setting_field (spec : string * bool) (v : string) : string * json :=
  if spec.2 then (spec.1 +:+ "_set", JBool (negb (String.eqb v "")))
  else (spec.1, JStr (if String.eqb v "" then default "" (settingDefault spec.1) else v)).

Fixpoint read_settings (specs : list (string * bool)) : M world (result (list (string * json))) :=
  match specs with
  | [] => ret (Ok [])
  | spec :: specs' =>
      let? v := read_setting spec.1 in
      let? out := read_settings specs' in
      ret (Ok (setting_field spec v :: out))
  end.

Definition shown_defaults : list (string * json) :=
  concat (map (fun spec => if (spec : string * bool).2 then [] else
    match settingDefault spec.1 with Some d => [(spec.1, JStr d)] | None => [] end) settingKeys).

Definition handleGetSettings (uid : Z) (r : Request) : M server Response :=
  need! out := read_settings settingKeys else writeJSONError 500 in
  ret (respond 200 (JObj (out ++ [("restart_required", JArr (map JStr restartRequired));
                                  ("defaults", JObj shown_defaults)]))).

(** [None]: the value may be stored. *)
Definition validateSettingValue (key value : string) : option error :=
  if String.eqb key "log_level" then
    match ParseLevel value with Err _ => Some (Errorf ("invalid log_level: " +:+ value)) | Ok _ => None end
  else None.

Definition applyLiveSettings (values : gmap string string) : M server unit :=
  match values !! "log_level" with
  | Some v => match ParseLevel v with Ok l => set_level l | Err _ => ret tt end
  | None => ret tt
  end.

(** The first pass of PUT: the first key that may not be stored. *)
Fixpoint put_refusal (kvs : list (string * string)) : option error :=
  match kvs with
  | [] => None
  | (k, v) :: kvs' =>
      if negb (allowed k) then Some (Errorf ("unknown setting: " +:+ k))
      else match validateSettingValue k v with Some e => Some e | None => put_refusal kvs' end
  end.

Fixpoint put_all (kvs : list (string * string)) : M world (result unit) :=
  match kvs with
  | [] => ret (Ok tt)
  | (k, v) :: kvs' =>
      try? (if secret k && negb (String.eqb v "") then Settings.SetSecret k v else Settings.Set_ k v) in
      put_all kvs'
  end.

(** The text of a decoding error is the decoder's. *)
Definition errNoBody : error := Errorf "json: the body cannot be decoded".

Definition handlePutSettings (uid : Z) (r : Request) : M server Response :=
  if negb (decodes_map r.(rq_body)) then ret (writeJSONError 400 errNoBody)
  else
    let body := text_map r.(rq_body) in
    match put_refusal (range body) with
    | Some e => ret (writeJSONError 400 e)
    | None =>
        need! _x := put_all (range body) else writeJSONError 500 in
        do! applyLiveSettings body in
        ret (respond 200 (JObj [("status", JStr "saved")]))
    end.

(** *** Export and import *)

Fixpoint export_settings (specs : list (string * bool)) : M world (result (list (string * json))) :=
  match specs with
  | [] => ret (Ok [])
  | (key, true) :: specs' => export_settings specs'
  | (key, false) :: specs' =>
      let? v := read_setting key in
      let? out := export_settings specs' in
      ret (Ok ((if String.eqb v "" then [] else [(key, JStr v)]) ++ out))
  end.

Definition export_registry (c : Z * string * string * Z) : json :=
  let '(_, host, username, _) := c in JObj [("host", JStr host); ("username", JStr username)].

Definition handleExportSettings (uid : Z) (r : Request) : M server Response :=
  need! settings := export_settings settingKeys else writeJSONError 500 in
  need! creds := Credentials.List_ else writeJSONError 500 in
  ret (Http.set_header "Content-Disposition" ("attachment; filename=" +:+ Quote "dockbrr-settings.json")
    (respond 200 (JObj [("version", JInt 1); ("settings", JObj settings);
                        ("registries", JArr (map export_registry creds))]))).

(** The first pass of an import: what applies and what is skipped, or a refusal. *)
Fixpoint partition_import (kvs : list (string * string)) (applicable : gmap string string) (skipped : list string) :
    error + gmap string string * list string :=
  match kvs with
  | [] => inr (applicable, skipped)
  | (k, v) :: kvs' =>
      if negb (allowed k) || secret k then partition_import kvs' applicable (skipped ++ [k])
      else match validateSettingValue k v with
           | Some e => inl e
           | None => partition_import kvs' (<[k := v]> applicable) skipped
           end
  end.

Fixpoint set_all (kvs : list (string * string)) : M world (result unit) :=
  match kvs with
  | [] => ret (Ok tt)
  | (k, v) :: kvs' => try? Settings.Set_ k v in set_all kvs'
  end.

(** How many placeholders were created, and what was skipped. *)
Fixpoint import_hosts (regs : list (string * string)) (existing : gset string) :
    M world (result (Z * list string)) :=
  match regs with
  | [] => ret (Ok (0, []))
  | (host, username) :: regs' =>
      if String.eqb host "" || bool_decide (host ∈ existing) then
        let? rest := import_hosts regs' existing in
        ret (Ok (rest.1, ("registry:" +:+ host) :: rest.2))
      else
        try? Credentials.Upsert host username "" in
        let? rest := import_hosts regs' ({[host]} ∪ existing) in
        ret (Ok (rest.1 + 1, rest.2))
  end.

Definition hosts_of (creds : list (Z * string * string * Z)) : gset string :=
  list_to_set (map (fun c => c.1.1.2) creds).

Definition handleImportSettings (uid : Z) (r : Request) : M server Response :=
  if negb (decodes_import r.(rq_body)) then ret (writeJSONError 400 errNoBody)
  else if negb (field as_int 0 "version" r.(rq_body) =? 1) then
    ret (writeJSONError 400 (Errorf "unsupported import version"))
  else
    match partition_import (range (import_settings r.(rq_body))) ∅ [] with
    | inl e => ret (writeJSONError 400 e)
    | inr (applicable, skipped) =>
        need! _x := set_all (range applicable) else writeJSONError 500 in
        do! applyLiveSettings applicable in
        need! creds := Credentials.List_ else writeJSONError 500 in
        need! regs := import_hosts (import_registries r.(rq_body)) (hosts_of creds) else writeJSONError 500 in
        ret (respond 200 (JObj [("applied", JInt (Z.of_nat (size applicable) + regs.1));
                                ("skipped", JArr (map JStr (skipped ++ regs.2)))]))
    end.

(** ** Registries *)

Definition credential_json (c : Z * string * string * Z) : json :=
  let '(id, host, username, created) := c in
  JObj [("ID", JInt id); ("RegistryHost", JStr host); ("Username", JStr username); ("CreatedAt", JStr (rfc3339 created))].

Definition handleListRegistries (uid : Z) (r : Request) : M server Response :=
  need! creds := Credentials.List_ else writeJSONError 500 in
  ret (respond 200 (JArr (map credential_json creds))).

Definition errHostRequired : error := Errorf "host is required".

Definition handleUpsertRegistry (uid : Z) (r : Request) : M server Response :=
  let host := str_field "host" r.(rq_body) in
  if negb (decodes [("host", KStr); ("username", KStr); ("password", KStr)] r.(rq_body)) || String.eqb host ""
  then ret (writeJSONError 400 errHostRequired)
  else
    need! _x := Credentials.Upsert host (str_field "username" r.(rq_body)) (str_field "password" r.(rq_body))
      else writeJSONError 500 in
    ret (respond 201 (JObj [("host", JStr host)])).

Definition handleDeleteRegistry (uid : Z) (r : Request) : M server Response :=
  let host := r.(rq_param) "host" in
  if String.eqb host "" then ret (writeJSONError 400 errHostRequired)
  else
    need! _x := Credentials.Delete host else writeJSONError 500 in
    ret no_content.

(** ** Automatic updates *)

Definition handleProjectAutoUpdate (uid : Z) (r : Request) : M server Response :=
  Api.with_id r (fun id =>
  if negb (decodes [("enabled", KBool)] r.(rq_body)) then ret (writeJSONError 400 errNoBody)
  else
    let enabled := field as_bool false "enabled" r.(rq_body) in
    need! _x := Projects.SetAutoUpdate id enabled else writeJSONError 500 in
    ret (respond 200 (JObj [("auto_update_enabled", JBool enabled)]))).

Definition handleServiceAutoUpdate (uid : Z) (r : Request) : M server Response :=
  Api.with_id r (fun id =>
  if negb (decodes [("enabled", KBool)] r.(rq_body)) then ret (writeJSONError 400 errNoBody)
  else
    let enabled := field as_bool_ptr None "enabled" r.(rq_body) in
    need! _x := Services.SetAutoUpdate id enabled else writeJSONError 500 in
    ret (respond 200 (JObj [("auto_update_enabled", jopt_bool enabled)]))).

(** ** A project added by hand *)

Definition manual_project (name workingDir : string) (configFiles : list string) : Project :=
  mkProject 0 HostID "compose" name workingDir configFiles "manual" false "" false false None 0.

Definition seeded_service (project : Z) (cs : Compose.Service) : Service :=
  mkService 0 project cs.(Compose.Name) [] cs.(Compose.Image) "" "" "" false false "" None false false None 0.

Fixpoint seed_services (project : Z) (svcs : list Compose.Service) : M world (result unit) :=
  match svcs with
  | [] => ret (Ok tt)
  | cs :: svcs' =>
      if String.eqb cs.(Compose.Image) "" then seed_services project svcs'
      else try? Services.Upsert (seeded_service project cs) in seed_services project svcs'
  end.

Definition handleCreateProject (uid : Z) (r : Request) : M server Response :=
  let name := str_field "name" r.(rq_body) in
  let workingDir := str_field "working_dir" r.(rq_body) in
  let configFiles := field as_strs [] "config_files" r.(rq_body) in
  if negb (decodes [("name", KStr); ("working_dir", KStr); ("config_files", KStrs)] r.(rq_body)) ||
     String.eqb name "" || Nat.eqb (length configFiles) 0
  then ret (writeJSONError 400 (Errorf "name and config_files are required"))
  else
    need! parsed := Compose.Parse workingDir configFiles
      else (fun e => writeJSONError 400 (Errorf ("compose files not parseable: " +:+ error_text e))) in
    let pname := parsed.(Compose.Project_Name) in
    need! id := Projects.Upsert (manual_project pname workingDir configFiles) else writeJSONError 500 in
    need! _x := seed_services id parsed.(Compose.Services) else writeJSONError 500 in
    ret (respond 201 (JObj [("id", JInt id); ("name", JStr pname)])).

End Settings.
End SettingsApi.

(** ** What a write of the settings leaves behind *)

Section Lookup.

Lemma put_row_find k k' v (l : list (string * string)) :
  snd <$> List.find (fun kv => String.eqb kv.1 k) (put_row (fun kv => String.eqb kv.1 k') (fun kv => (kv.1, v)) (k', v) l) =
  if String.eqb k' k then Some v else snd <$> List.find (fun kv => String.eqb kv.1 k) l.
Proof.
  induction l as [|[x y] l IH]; simpl; [by destruct (String.eqb k' k)|].
  destruct (String.eqb_spec x k') as [->|Hne]; simpl.
  - by destruct (String.eqb k' k).
  - destruct (String.eqb_spec x k) as [->|]; simpl; [|exact IH]. by destruct (String.eqb_spec k' k) as [->|].
Qed.

Lemma set_lookup k v t d d' : Settings.set_stmt k v t d = Ok (tt, d') -> Settings.lookup k d' = Some v.
Proof. intros [= <-]. unfold Settings.lookup. simpl. by rewrite put_row_find, String.eqb_refl. Qed.

Lemma set_lookup_ne k k' v d : k <> k' ->
  Settings.lookup k (with_settings (put_row (fun kv => String.eqb kv.1 k') (fun kv => (kv.1, v)) (k', v) d.(settings)) d) =
  Settings.lookup k d.
Proof.
  intros Hne. unfold Settings.lookup. simpl. rewrite put_row_find.
  by destruct (String.eqb_spec k' k) as [->|].
Qed.

End Lookup.

(** [keys]: only these settings may differ, and no other table does. *)
Definition only_settings (keys : list string) (d d' : db) : Prop :=
  (exists st, d' = with_settings st d) /\ forall k, k ∉ keys -> Settings.lookup k d' = Settings.lookup k d.

Lemma only_settings_refl keys d : only_settings keys d d.
Proof. split; [|done]. exists d.(settings). by destruct d. Qed.

Lemma only_settings_trans k1 k2 d1 d2 d3 :
  only_settings k1 d1 d2 -> only_settings k2 d2 d3 -> only_settings (k1 ++ k2) d1 d3.
Proof.
  intros [(s1 & ->) H1] [(s2 & ->) H2]. split; [by exists s2|]. intros k Hk. rewrite H2, H1; [done|set_solver..].
Qed.

Section Writes.
Context {E : Env} {SL : Sealer} {MR : MapRange} {ZL : Zerolog}.
Import SettingsApi.

(** The stored text of a value: itself, or an envelope of a secret. *)
Definition saved (k v : string) (d : db) : Prop :=
  exists c, Settings.lookup k d = Some c /\
    if secret k && negb (String.eqb v "") then exists n, seal n v = Ok c else c = v.

Lemma Set_inv k v w r w' : Settings.Set_ k v w = (r, w') ->
  only_settings [k] w.(w_db) w'.(w_db) /\ (r = Ok tt -> Settings.lookup k w'.(w_db) = Some v).
Proof.
  unfold Settings.Set_. intros Hs. destruct r as [[]|e].
  - apply sql_ok_inv in Hs as (Hs & _). pose proof (set_lookup _ _ _ _ _ Hs) as Hl. injection Hs as Hd.
    split; [|done]. rewrite <- Hd. split; [by eexists|]. intros k' Hk'. apply set_lookup_ne. set_solver.
  - apply sql_err_inv in Hs as ->. split; [apply only_settings_refl|done].
Qed.

Definition put_one (k v : string) : M world (result unit) :=
  if secret k && negb (String.eqb v "") then Settings.SetSecret k v else Settings.Set_ k v.

Lemma put_one_inv k v w r w' : put_one k v w = (r, w') ->
  only_settings [k] w.(w_db) w'.(w_db) /\ (r = Ok tt -> saved k v w'.(w_db)).
Proof.
  unfold put_one, saved. destruct (secret k && _) eqn:Es.
  - unfold Settings.SetSecret, Settings.seal_now, bind_ok, bind. destruct (seal w.(w_tick) v) as [c|e] eqn:Ec.
    + intros [H1 H2]%Set_inv. split; [exact H1|]. intros Hr. eauto.
    + intros [= <- <-]. split; [apply (only_settings_refl _ w.(w_db))|done].
  - intros [H1 H2]%Set_inv. split; [exact H1|]. intros Hr. eauto.
Qed.

Lemma put_all_inv kvs w r w' : put_all kvs w = (r, w') -> NoDup (map fst kvs) ->
  only_settings (map fst kvs) w.(w_db) w'.(w_db) /\
  (r = Ok tt -> forall k v, (k, v) ∈ kvs -> saved k v w'.(w_db)).
Proof.
  revert w. induction kvs as [|[k v] kvs IH]; simpl; intros w.
  - intros [= <- <-] _. split; [apply only_settings_refl|]. intros _ k v Hk. set_solver.
  - fold (put_one k v). unfold bind_ok, bind. destruct (put_one k v w) as [[[]|e] w1] eqn:E1.
    + apply put_one_inv in E1 as [H1 S1]. intros Hk [Hni Hnd]%NoDup_cons. destruct (IH _ Hk Hnd) as [H2 S2].
      split; [exact (only_settings_trans [k] _ _ _ _ H1 H2)|]. intros Hr k' v' [[= -> ->]|Hin]%elem_of_cons; [|by apply S2].
      destruct (S1 eq_refl) as (c & Hc & Hs). exists c. split; [|done]. destruct H2 as [_ H2]. by rewrite H2.
    + apply put_one_inv in E1 as [H1 _]. intros [= <- <-] _. split; [|done]. destruct H1 as [H1 H2]. split; [done|].
      intros k' Hk'. apply H2. set_solver.
Qed.

(** What the first pass accepts. *)
Definition acceptable (kv : string * string) : Prop := allowed kv.1 = true /\ validateSettingValue kv.1 kv.2 = None.

Lemma put_refusal_none kvs : put_refusal kvs = None <-> Forall acceptable kvs.
Proof.
  unfold acceptable. induction kvs as [|[k v] kvs IH]; simpl; [split; auto|]. rewrite Forall_cons, <- IH. simpl.
  destruct (allowed k), (validateSettingValue k v); naive_solver.
Qed.

Lemma range_elem_of {A} (m : gmap string A) k v : (k, v) ∈ range m <-> m !! k = Some v.
Proof. rewrite range_perm. apply elem_of_map_to_list. Qed.

Lemma range_keys {A} (m : gmap string A) : NoDup (map fst (range m)).
Proof. rewrite range_perm. apply NoDup_fst_map_to_list. Qed.

Lemma applyLive_db m s a s' : applyLiveSettings m s = (a, s') ->
  s'.(srv_scanning) = s.(srv_scanning) /\ s'.(srv_limiter) = s.(srv_limiter) /\ s'.(srv_runner) = s.(srv_runner).
Proof. unfold applyLiveSettings, set_level. repeat case_match; by intros [= _ <-]. Qed.

End Writes.
