(* ===== verification/HttpStreams.v ===== *)
(** * Log files, streams and the web pages
    (internal/httpapi: logs.go, sse.go, events_stream.go, spa.go; internal/logger:
    Files and Open)

    A stream is answered with its frames in order; the live frames of a job's log
    are those the engine's channel delivers (Queue.v models the channel), the
    frames of the event stream those the bus delivers.  The embedded pages are a
    parameter, for they are built files. *)

From stdpp Require Import base list strings gmap.
From Stdlib Require Import Ascii.
From S2P Require Import Prelude GoStd Clock Db World StoreJobs StoreMisc Files Compose.
From S2P Require Import Scan Password RateLimit ScanRun Http HttpApi HttpSettings.

Local Open Scope Z_scope.

(** ** Paths ([path.Clean], [filepath.Join], [filepath.Rel]) *)

Definition slash : ascii := "/".
Definition slashes (s : string) : list string := Split s slash.

(** The elements kept, last one first. *)
Definition clean_step (rooted : bool) (kept : list string) (seg : string) : list string :=
  if String.eqb seg "" || String.eqb seg "." then kept
  else if String.eqb seg ".." then
    match kept with
    | top :: rest => if String.eqb top ".." then seg :: kept else rest
    | [] => if rooted then [] else [seg]
    end
  else seg :: kept.

Definition Clean (path : string) : string :=
  let rooted := HasPrefix path "/" in
  let body := Join (rev (fold_left (clean_step rooted) (slashes path) [])) "/" in
  if rooted then "/" +:+ body else if String.eqb body "" then "." else body.

Definition Join2 (dir name : string) : string := Clean (dir +:+ "/" +:+ name).

Fixpoint drop_common (a b : list string) : list string * list string :=
  match a, b with
  | x :: a', y :: b' => if String.eqb x y then drop_common a' b' else (a, b)
  | _, _ => (a, b)
  end.

Definition elements (clean : string) : list string :=
  if String.eqb clean "." then [] else List.filter (fun s => negb (String.eqb s "")) (slashes clean).

Definition Rel (base targ : string) : option string :=
  let b := Clean base in
  let t := Clean targ in
  if negb (Bool.eqb (HasPrefix b "/") (HasPrefix t "/")) then None
  else
    let '(up, down) := drop_common (elements b) (elements t) in
    if existsb (String.eqb "..") up then None
    else
      let l := map (fun _ => "..") up ++ down in
      Some (if Nat.eqb (length l) 0 then "." else Join l "/").

(** ** The log directory (internal/logger) *)

(** An entry as [ReadDir] lists it: its name, whether it is a directory, and its
    time and size, unless it is gone by then. *)
Record dir_entry := mkEntry { de_Name : string; de_IsDir : bool; de_Info : option (Z * Z) }.

Class LogFiles := {
  logDir : string;
  log_ReadDir : nat -> result (list dir_entry);
  LogPath : string;
  MaxSizeMB : Z;
  MaxBackups : Z;
}.

Record FileInfo := mkFileInfo { fi_Name : string; fi_Modified : Z; fi_Size : Z }.

Definition newest (a b : FileInfo) : bool := b.(fi_Modified) <? a.(fi_Modified).

Definition file_infos (entries : list dir_entry) : list FileInfo :=
  omap (fun e => if e.(de_IsDir) then None else (fun i : Z * Z => mkFileInfo e.(de_Name) i.1 i.2) <$> e.(de_Info)) entries.

Module Logger.
Section Logger.
Context {E : Env} {SS : SliceSort} {L : LogFiles}.

Definition Files : M world (result (list FileInfo)) :=
  if String.eqb logDir "" then ret (Ok [])
  else
    let! entries := ask log_ReadDir in
    ret (match entries with
         | Err e => if errors_Is e "file does not exist" then Ok [] else Err e
         | Ok entries => Ok (slice_sort newest (file_infos entries))
         end).

(** The path that is opened, or the refusal. *)
Definition open_path (name : string) : result string :=
  if String.eqb logDir "" then Err (Errorf "file logging disabled")
  else if String.eqb name "" || negb (String.eqb name (Compose.Base name)) || ContainsAny name "/\" then
    Err (Errorf "invalid log file name")
  else
    let full := Join2 logDir name in
    match Rel logDir full with
    | None => Err (Errorf "invalid log file path")
    | Some rel =>
        if String.eqb rel ".." || HasPrefix rel "../" then Err (Errorf "invalid log file path") else Ok full
    end.

Definition Open (name : string) : M world (result string) :=
  match open_path name with Err e => ret (Err e) | Ok full => sys_ReadFile full end.

End Logger.
End Logger.

(** ** The event bus *)
Module Bus.

(** A subscriber's buffer, oldest event first. *)
Notation Bus := (gmap nat (list json)).

Definition capacity : nat := 16.

Definition deliver (e : json) (buf : list json) : list json :=
  if (length buf <? capacity)%nat then buf ++ [e] else buf.

Definition Publish (e : json) (b : Bus) : Bus := deliver e <$> b.
Definition Subscribe (b : Bus) : nat * Bus := let ch := fresh (dom b : gset nat) in (ch, <[ch := []]> b).
Definition Unsubscribe (ch : nat) (b : Bus) : Bus := delete ch b.

(** The subscriber takes the next event. *)
Definition receive (ch : nat) (b : Bus) : option (json * Bus) :=
  match b !! ch with
  | Some (e :: buf) => Some (e, <[ch := buf]> b)
  | _ => None
  end.

(** Publishing never removes or reorders what a subscriber has not taken yet, never
    grows a buffer past its capacity, and reaches every subscriber with room. *)
Lemma Publish_spec e b ch buf :
  b !! ch = Some buf -> (length buf <= capacity)%nat ->
  exists buf', Publish e b !! ch = Some buf' /\ (length buf' <= capacity)%nat /\
    (buf' = buf ++ [e] \/ (buf' = buf /\ length buf = capacity)).
Proof.
  intros Hb Hl. unfold Publish. rewrite lookup_fmap, Hb. simpl. exists (deliver e buf). split; [done|].
  unfold deliver. destruct (Nat.ltb_spec (length buf) capacity).
  - rewrite length_app. simpl. split; [lia|by left].
  - split; [done|]. right. split; [done|lia].
Qed.
End Bus.

(** ** The handlers *)

(** What the streams deliver while the client stays: the lines of the channel
    [Engine.Stream] answers, and the events of the bus with the heartbeats. *)
Class Streams := {
  engine_Stream : nat -> Z -> result (list (string * string));
  bus_events : nat -> list json;
  (** the embedded pages: path, content *)
  dist : gmap string string;
  TypeByExtension : string -> string;
  (** [r.URL.Path] *)
  url_path : Request -> string;
}.

Definition sse_headers : list (string * string) :=
  [("Content-Type", "text/event-stream"); ("Cache-Control", "no-cache"); ("Connection", "keep-alive");
   ("X-Accel-Buffering", "no")].

Definition stream_answer (frames : list json) : Response := mkResponse 200 (Some (JArr frames)) [] sse_headers.

Definition log_frame (stream line : string) : json := JObj [("line", JStr line); ("stream", JStr stream)].

Module StreamApi.
Section Streams.
Context {E : Env} {SS : SliceSort} {D : Deps} {L : LogFiles} {ST : Streams}.

Definition handleLogConfig (uid : Z) (r : Request) : M server Response :=
  let! v := on_world (Settings.Get "log_level") in
  let answer level :=
    respond 200 (JObj [("level", JStr level); ("maxBackups", JInt MaxBackups); ("maxSizeMB", JInt MaxSizeMB);
                       ("path", JStr LogPath)]) in
  ret (match v with
       | Ok v => answer (if String.eqb v "" then "info" else v)
       | Err e => if errors_Is e "setting not found" then answer "info" else writeJSONError 500 e
       end).

Definition file_json (f : FileInfo) : json :=
  JObj [("name", JStr f.(fi_Name)); ("modified", JStr (rfc3339 f.(fi_Modified))); ("size", JInt f.(fi_Size))].

Definition handleLogFiles (uid : Z) (r : Request) : M server Response :=
  need! files := Logger.Files else writeJSONError 500 in
  ret (respond 200 (JArr (map file_json files))).

Definition handleLogDownload (uid : Z) (r : Request) : M server Response :=
  let name := r.(rq_param) "name" in
  need! content := Logger.Open name else writeJSONError 400 in
  ret (mkResponse 200 (Some (JStr content)) []
    [("Content-Type", "text/plain; charset=utf-8");
     ("Content-Disposition", "attachment; filename=" +:+ dquote +:+ name +:+ dquote)]).

(** The stored lines, then the live ones. *)
Definition handleJobLogs (uid : Z) (r : Request) : M server Response :=
  Api.with_id r (fun id =>
  need! _j := StoreJobs.Jobs.Get id else Api.not_found_or_500 Api.errJobNotFound in
  let! history := on_world (JobLogs.ListByJob id) in
  let stored := match history with Ok l => map (fun lg => log_frame lg.(log_Stream) lg.(log_Line)) l | Err _ => [] end in
  let! live := on_world (ask (fun n => engine_Stream n id)) in
  ret (stream_answer (stored ++
    match live with
    | Ok l => map (fun p => log_frame p.1 p.2) l
    | Err e => [log_frame "system" ("log stream unavailable: " +:+ error_text e)]
    end))).

Definition handleEventStream (uid : Z) (r : Request) : M server Response :=
  if negb has_bus then ret (writeJSONError 503 (Errorf "event bus not configured"))
  else
    let! frames := on_world (ask bus_events) in
    ret (stream_answer frames).

(** *** spa.go *)

Definition isAPIPath (p : string) : bool := HasPrefix p "/api/" || String.eqb p "/api" || String.eqb p "/healthz".

Definition Ext (path : string) : string :=
  match LastIndexByte path "." with
  | None => ""
  | Some i => match LastIndexByte path slash with
              | Some j => if (j <? i)%nat then path.[i:] else ""
              | None => path.[i:]
              end
  end.

Definition serveFile (name content : string) (immutable cached : bool) : Response :=
  let ct := TypeByExtension (Ext name) in
  mkResponse 200 (Some (JStr content)) []
    ((if cached then [("Cache-Control", "no-cache")] else [])
     ++ [("Content-Type", if String.eqb ct "" then "application/octet-stream" else ct)]
     ++ (if immutable then [("Cache-Control", "public, max-age=31536000, immutable")] else [])
     ++ (if (0 <? len content)%nat then [("Content-Length", Itoa (Z.of_nat (len content)))] else [])).

Definition serveIndex : Response :=
  match dist !! "index.html" with
  | None => mkResponse 500 (Some (JStr "index.html not found")) [] []
  | Some content => serveFile "index.html" content false true
  end.

Definition spaHandler (r : Request) : M server Response :=
  let clean := Clean (url_path r) in
  if isAPIPath clean then ret (mkResponse 404 (Some (JStr "404 page not found")) [] [])
  else
    let p := TrimPrefix clean "/" in
    ret (match (if String.eqb p "" then None else dist !! p) with
         | Some content => serveFile p content true false
         | None => serveIndex
         end).

End Streams.
End StreamApi.

(** The download names a file right inside the log directory. *)
Example open_path_examples :
  let L := Build_LogFiles "/var/log/dockbrr" (fun _ => Ok []) "" 0 0 in
  Logger.open_path "dockbrr.log" = Ok "/var/log/dockbrr/dockbrr.log" /\
  is_ok (Logger.open_path "..") = false /\ is_ok (Logger.open_path "../x") = false /\
  is_ok (Logger.open_path "a\b") = false /\ Clean "//api/../x/./y/" = "/x/y" /\ Clean "../a/.." = "..".
Proof. vm_compute. done. Qed.
