(* ===== verification/Config.v ===== *)
(** * The configuration of the process and its entry points
    (internal/config/config.go; cmd/dockbrr: main.go main, selfupdate_swap.go)

    The environment is a function, the working directory a parameter.  The helper of
    a self-update parses the command line the self-updater wrote for it
    (SelfUpdate.v) and swaps the container named there. *)

From stdpp Require Import base list strings gmap.
From S2P Require Import Prelude GoStd Db World StoreJobs Files Daemon ApplierSpec SelfUpdate HttpStreams Flags.

Local Open Scope Z_scope.

Module Config.

Record Config := mkConfig {
  DataDir : string;
  BindAddr : string;
  DockerSocket : string;
  AdminUser : string;
  AdminPassword : string;
  LogPath : string;
  LogLevel : string;
  LogMaxSizeMB : Z;
  LogMaxBackups : Z;
}.

Section Load.
Context (args : list string) (getenv : string -> string) (getwd : result string).

Definition envOr (key def : string) : string :=
  let v := getenv key in if negb (String.eqb v "") then v else def.

Definition envOrInt (key : string) (def : Z) : Z :=
  let v := getenv key in
  if negb (String.eqb v "") then match Atoi v with Some n => n | None => def end else def.

(** [filepath.Abs] *)
Definition Abs (path : string) : result string :=
  if HasPrefix path "/" then Ok (Clean path)
  else
    match getwd with
    | Err e => Err e
    | Ok wd => Ok (Clean (Join (List.filter (fun s => negb (String.eqb s "")) [wd; path]) "/"))
    end.

Definition flags : Flag.FlagSet := list_to_map [
  ("data-dir", Flag.VStr (envOr "DOCKBRR_DATA_DIR" "./data"));
  ("bind", Flag.VStr (envOr "DOCKBRR_BIND" ":8080"));
  ("docker-socket", Flag.VStr (envOr "DOCKBRR_DOCKER_SOCKET" "/var/run/docker.sock"));
  ("admin-user", Flag.VStr (envOr "DOCKBRR_ADMIN_USER" ""));
  ("admin-password", Flag.VStr (envOr "DOCKBRR_ADMIN_PASSWORD" ""));
  ("log-path", Flag.VStr (envOr "DOCKBRR_LOG_PATH" ""));
  ("log-level", Flag.VStr (envOr "DOCKBRR_LOG_LEVEL" "info"));
  ("log-max-size", Flag.VInt (envOrInt "DOCKBRR_LOG_MAX_SIZE" 50));
  ("log-max-backups", Flag.VInt (envOrInt "DOCKBRR_LOG_MAX_BACKUPS" 3))].

Definition str_flag (fs : Flag.FlagSet) (name : string) : string :=
  match fs !! name with Some (Flag.VStr s) => s | _ => "" end.
Definition int_flag (fs : Flag.FlagSet) (name : string) : Z :=
  match fs !! name with Some (Flag.VInt n) => n | _ => 0 end.

Definition Load : result Config :=
  match Flag.Parse flags args with
  | Err e => Err e
  | Ok (fs, _) =>
      match Abs (str_flag fs "data-dir") with
      | Err e => Err (Wrap "resolve data-dir" e)
      | Ok abs =>
          let path := str_flag fs "log-path" in
          Ok (mkConfig abs (str_flag fs "bind") (str_flag fs "docker-socket") (str_flag fs "admin-user")
                (str_flag fs "admin-password")
                (if String.eqb path "" then Clean (abs +:+ "/logs/dockbrr.log") else path)
                (str_flag fs "log-level") (int_flag fs "log-max-size") (int_flag fs "log-max-backups"))
      end
  end.
End Load.
End Config.

(** ** The helper of a self-update (selfupdate_swap.go) *)
Module Swap.

Definition flags : Flag.FlagSet :=
  list_to_map [("socket", Flag.VStr ""); ("target", Flag.VStr ""); ("image", Flag.VStr "")].

Section Swap.
Context {E : Env} {D : Docker} {SD : SelfDocker} {IJ : InspectJSON}.

(** [New socket]: the client of the daemon behind the socket. *)
Context (New : string -> result unit).

Definition runSelfUpdateSwap (args : list string) : M world (result unit) :=
  match Flag.Parse flags args with
  | Err e => ret (Err e)
  | Ok (fs, _) =>
      let socket := Config.str_flag fs "socket" in
      let target := Config.str_flag fs "target" in
      let image := Config.str_flag fs "image" in
      if String.eqb socket "" || String.eqb target "" || String.eqb image "" then
        ret (Err (Errorf "self-update-swap: --socket, --target and --image are all required"))
      else
        match New socket with
        | Err e => ret (Err e)
        | Ok _ => swapContainer target image
        end
  end.
End Swap.

(** What [main] does with the command line (the program's name left off). *)
Inductive entry := Version | SelfUpdateSwap (args : list string) | Run (args : list string).

Definition main (args : list string) : entry :=
  match args with
  | first :: rest =>
      if String.eqb first "--version" || String.eqb first "version" then Version
      else if String.eqb first "self-update-swap" then SelfUpdateSwap rest
      else Run args
  | [] => Run []
  end.
End Swap.

(** ** What a configuration holds *)

(** The value of a setting: the last flag, else the environment, else the default. *)
Definition chosen (l : list Given) (name env : string) : string := default env (last_given name l).
Definition chosen_int (l : list Given) (name : string) (env n : Z) : Prop :=
  match last_given name l with Some text => Flag.ParseInt0 text = Ok n | None => n = env end.

Lemma str_flag_assigned l fs fs' name s :
  assign_all fs l = Some fs' -> fs !! name = Some (Flag.VStr s) ->
  Config.str_flag fs' name = chosen l name s.
Proof.
  intros Ha Hl. destruct (assign_all_lookup _ _ _ _ _ Ha Hl) as (v & Hv & Hm).
  unfold Config.str_flag, chosen. rewrite Hv. destruct (last_given name l); simpl in *; [by injection Hm as <-|by subst v].
Qed.

Lemma int_flag_assigned l fs fs' name n :
  assign_all fs l = Some fs' -> fs !! name = Some (Flag.VInt n) ->
  chosen_int l name n (Config.int_flag fs' name).
Proof.
  intros Ha Hl. destruct (assign_all_lookup _ _ _ _ _ Ha Hl) as (v & Hv & Hm).
  unfold Config.int_flag, chosen_int. rewrite Hv. destruct (last_given name l) as [t|]; simpl in *; [|by subst v].
  destruct (Flag.ParseInt0 t); [by injection Hm as <-|done].
Qed.

Lemma int_flag_iff l fs fs' name n k :
  assign_all fs l = Some fs' -> fs !! name = Some (Flag.VInt n) ->
  chosen_int l name n k <-> k = Config.int_flag fs' name.
Proof.
  intros Ha Hl. pose proof (int_flag_assigned _ _ _ _ _ Ha Hl) as Hi. unfold chosen_int in *.
  split; [|by intros ->]. destruct (last_given name l); congruence.
Qed.

Section LoadSpec.
Context (getenv : string -> string) (getwd : result string).
Let env := Config.envOr getenv.
Let env_int := Config.envOrInt getenv.

(** The configuration the flags [l] and the environment choose. *)
Definition configured (l : list Given) (c : Config.Config) : Prop :=
  Config.Abs getwd (chosen l "data-dir" (env "DOCKBRR_DATA_DIR" "./data")) = Ok c.(Config.DataDir) /\
  c.(Config.BindAddr) = chosen l "bind" (env "DOCKBRR_BIND" ":8080") /\
  c.(Config.DockerSocket) = chosen l "docker-socket" (env "DOCKBRR_DOCKER_SOCKET" "/var/run/docker.sock") /\
  c.(Config.AdminUser) = chosen l "admin-user" (env "DOCKBRR_ADMIN_USER" "") /\
  c.(Config.AdminPassword) = chosen l "admin-password" (env "DOCKBRR_ADMIN_PASSWORD" "") /\
  (let path := chosen l "log-path" (env "DOCKBRR_LOG_PATH" "") in
   c.(Config.LogPath) = if String.eqb path "" then Clean (c.(Config.DataDir) +:+ "/logs/dockbrr.log") else path) /\
  c.(Config.LogLevel) = chosen l "log-level" (env "DOCKBRR_LOG_LEVEL" "info") /\
  chosen_int l "log-max-size" (env_int "DOCKBRR_LOG_MAX_SIZE" 50) c.(Config.LogMaxSizeMB) /\
  chosen_int l "log-max-backups" (env_int "DOCKBRR_LOG_MAX_BACKUPS" 3) c.(Config.LogMaxBackups).

Lemma configured_flags l fs c :
  assign_all (Config.flags getenv) l = Some fs ->
  configured l c <->
  Config.Abs getwd (Config.str_flag fs "data-dir") = Ok c.(Config.DataDir) /\
  c.(Config.BindAddr) = Config.str_flag fs "bind" /\
  c.(Config.DockerSocket) = Config.str_flag fs "docker-socket" /\
  c.(Config.AdminUser) = Config.str_flag fs "admin-user" /\
  c.(Config.AdminPassword) = Config.str_flag fs "admin-password" /\
  (let path := Config.str_flag fs "log-path" in
   c.(Config.LogPath) = if String.eqb path "" then Clean (c.(Config.DataDir) +:+ "/logs/dockbrr.log") else path) /\
  c.(Config.LogLevel) = Config.str_flag fs "log-level" /\
  c.(Config.LogMaxSizeMB) = Config.int_flag fs "log-max-size" /\
  c.(Config.LogMaxBackups) = Config.int_flag fs "log-max-backups".
Proof.
  intros Ha. unfold configured, env, env_int.
  pose proof (fun name s => str_flag_assigned l _ fs name s Ha) as Hs.
  rewrite <- (Hs "data-dir" _ eq_refl), <- (Hs "bind" _ eq_refl), <- (Hs "docker-socket" _ eq_refl),
    <- (Hs "admin-user" _ eq_refl), <- (Hs "admin-password" _ eq_refl), <- (Hs "log-path" _ eq_refl),
    <- (Hs "log-level" _ eq_refl).
  rewrite (int_flag_iff l _ fs "log-max-size" _ _ Ha eq_refl), (int_flag_iff l _ fs "log-max-backups" _ _ Ha eq_refl). done.
Qed.

(** Starting dockbrr accepts exactly the command lines made of its flags, each in
    one of the four spellings and with a value of its type (a double dash or the
    first argument that is no flag ends them), provided the data directory is
    absolute or the working directory known; every setting is then the one of the
    last flag that gives it, else of the environment when it is set there (a number
    that cannot be read counting as not set), else the built-in default, and the
    log file lies under the data directory unless a path is given. *)
Theorem Load_spec args c :
  Config.Load args getenv getwd = Ok c <->
  exists l tail rest fs, args = spell_all l ++ tail /\ Forall (fun g => good_name g.(gv_name)) l /\
    ends tail rest /\ assign_all (Config.flags getenv) l = Some fs /\ configured l c.
Proof.
  unfold Config.Load. split.
  - destruct (Flag.Parse _ args) as [[fs rest]|e] eqn:Ep; [|done].
    apply Parse_sound in Ep as (l & tail & -> & Hg & Ha & He).
    destruct (Config.Abs _ _) as [abs|e] eqn:Eabs; [|done]. intros [= <-].
    exists l, tail, rest, fs. do 4 (split; [done|]). by apply (configured_flags l fs).
  - intros (l & tail & rest & fs & -> & Hg & He & Ha & Hc). rewrite (Parse_complete l _ fs) with (rest := rest) by done.
    apply (configured_flags l fs c Ha) in Hc as (-> & H1 & H2 & H3 & H4 & H5 & H6 & H7 & H8).
    destruct c; simpl in *. by subst.
Qed.
End LoadSpec.

(** ** The self-update, from the job to the swap *)

(** The command line the self-updater gives its helper makes it swap exactly
    dockbrr's own container for the new image, on the socket dockbrr uses, whatever
    characters these hold; the helper does nothing when one of them is empty or the
    socket cannot be used. *)
Theorem swap_command_spec {E : Env} {D : Docker} {SD : SelfDocker} {IJ : InspectJSON} New (u : SelfUpdater.SelfUpdater) image :
  exists rest, Swap.main (SelfUpdater.swap_cmd u image) = Swap.SelfUpdateSwap rest /\
  forall w, Swap.runSelfUpdateSwap New rest w =
    if String.eqb u.(SelfUpdater.socket) "" || String.eqb u.(SelfUpdater.selfID) "" || String.eqb image "" then
      (Err (Errorf "self-update-swap: --socket, --target and --image are all required"), w)
    else
      match New u.(SelfUpdater.socket) with
      | Err e => (Err e, w)
      | Ok _ => swapContainer u.(SelfUpdater.selfID) image w
      end.
Proof.
  eexists. split; [reflexivity|]. intros w. unfold Swap.runSelfUpdateSwap.
  assert (Hp : Flag.Parse Swap.flags ["--socket"; u.(SelfUpdater.socket); "--target"; u.(SelfUpdater.selfID); "--image"; image]
    = Ok (<["image" := Flag.VStr image]> (<["target" := Flag.VStr u.(SelfUpdater.selfID)]>
            (<["socket" := Flag.VStr u.(SelfUpdater.socket)]> Swap.flags)), [])).
  { apply (Parse_complete
      [mkGiven true false "socket" u.(SelfUpdater.socket); mkGiven true false "target" u.(SelfUpdater.selfID);
       mkGiven true false "image" image] _ _ [] []); [by repeat constructor|done|constructor]. }
  rewrite Hp. unfold Config.str_flag. simplify_map_eq.
  destruct (_ || _); [done|]. by destruct (New _).
Qed.

Example flag_over_environment :
  (fun c => (c.(Config.DataDir), c.(Config.BindAddr), c.(Config.LogPath), c.(Config.LogMaxSizeMB))) <$>
  match Config.Load ["-bind=:7000"; "--log-max-size"; "0x10"; "-bind"; ":7001"; "--"; "-x"]
    (fun k => if String.eqb k "DOCKBRR_BIND" then ":9000" else "") (Ok "/srv") with Ok c => Some c | Err _ => None end
  = Some ("/srv/data", ":7001", "/srv/data/logs/dockbrr.log", 16).
Proof. vm_compute. reflexivity. Qed.
