(* ===== verification/Secret.v ===== *)
(** * Secrets at rest (internal/secret/secret.go)

    The key file and the sealing of credentials.  AES-256-GCM is a class with its
    law; the padded base64 of the envelopes is executable.  [Secret.sealer] is an
    instance of the class the repositories are written against (StoreMisc.v), so
    what is proved of them for any sealer holds for this one. *)

From stdpp Require Import base list strings gmap.
From Stdlib Require Import Ascii.
From S2P Require Import Prelude GoStd Db Integrity World StoreUpdates StoreJobs StoreMisc Files Password HttpStreams.

Local Open Scope Z_scope.

(** ** Base64 with padding ([base64.StdEncoding]) *)
Module Padded.
Import Base64.

Fixpoint Encode (s : string) : string :=
  match s with
  | "" => ""
  | String a "" => EncodeToString std s +:+ "=="
  | String a (String b "") => EncodeToString std s +:+ "="
  | String a (String b (String c s')) => EncodeToString std (String a (String b (String c ""))) +:+ Encode s'
  end.

(** A quantum with padding ends the text. *)
Fixpoint decode (s : string) : option string :=
  match s with
  | "" => Some ""
  | String a (String b (String c (String d s'))) =>
      if Ascii.eqb c "=" then
        if Ascii.eqb d "=" && String.eqb s' "" then Base64.decode std (String a (String b "")) else None
      else if Ascii.eqb d "=" then
        if String.eqb s' "" then Base64.decode std (String a (String b (String c ""))) else None
      else
        match Base64.decode std (String a (String b (String c (String d "")))), decode s' with
        | Some q, Some r => Some (q +:+ r)
        | _, _ => None
        end
  | _ => None
  end.

Definition Decode (s : string) : option string := decode (drop_line_ends s).
End Padded.

(** [cipher.AEAD] of AES-256-GCM, without additional data. *)
Class AES := {
  NonceSize : nat;
  Overhead : nat;
  gcm_Seal : string -> string -> string -> string;           (* key, nonce, plaintext *)
  gcm_Open : string -> string -> string -> result string;    (* key, nonce, ciphertext *)
  gcm_Seal_len k n p : len (gcm_Seal k n p) = (len p + Overhead)%nat;
  gcm_Open_Seal k n p : gcm_Open k n (gcm_Seal k n p) = Ok p;
}.

Module Secret.

Definition keyFileName : string := "secret.key".

Section Key.
Context {E : Env} {R : Random}.

(** [os.WriteFile]: a new file is created, an old one emptied, before the write. *)
Definition sys_Truncate (path : string) (mode : Z) : M world (result unit) :=
  sys "open" path (fun m => match m !! path with
                            | Some f => Ok (tt, <[path := set_content "" f]> m)
                            | None => Ok (tt, <[path := mkFile "" mode self_owner]> m) end).

Definition sys_WriteFile (path content : string) (mode : Z) : M world (result unit) :=
  try? sys_Truncate path mode in
  let! r := sys_change "write" path (set_content content) in
  let! c := sys_Close path in
  ret (match r with Err e => Err e | Ok _ => c end).

Definition LoadOrCreateKey (dataDir : string) : M world (result string) :=
  let path := Join2 dataDir keyFileName in
  let! b := sys_ReadFile path in
  match b with
  | Ok b =>
      if negb (Nat.eqb (len b) 32) then
        ret (Err (Errorf ("secret key " +:+ path +:+ " has length " +:+ Itoa (Z.of_nat (len b)) +:+ ", want 32")))
      else ret (Ok b)
  | Err e =>
      if errors_Is e "file does not exist" then
        let? key := read_random 32 in
        try? sys_WriteFile path key 384 in
        ret (Ok key)
      else ret (Err e)
  end.
End Key.

Section Sealer.
Context {R : Random} {A : AES}.

(** A sealer is its key. *)
Definition NewSealer (key : string) : result string :=
  if negb (Nat.eqb (len key) 32) then Err (Errorf ("secret: key must be 32 bytes, got " +:+ Itoa (Z.of_nat (len key))))
  else Ok key.

Definition Seal (key : string) (n : nat) (plaintext : string) : result string :=
  match rand_Read n NonceSize with
  | Err e => Err e
  | Ok nonce => Ok (Padded.Encode (nonce +:+ gcm_Seal key nonce plaintext))
  end.

Definition CorruptInputError : error := Sentinel "illegal base64 data".

Definition Open (key enc : string) : result string :=
  match Padded.Decode enc with
  | None => Err CorruptInputError
  | Some raw =>
      if Nat.ltb (len raw) (NonceSize + Overhead) then Err (Errorf "ciphertext too short")
      else gcm_Open key raw.[:NonceSize] raw.[NonceSize:]
  end.
End Sealer.
End Secret.

(** ** Round trips *)

Lemma padded_quantum a b c s :
  Padded.decode (Base64.EncodeToString Base64.std (String a (String b (String c ""))) +:+ s)
  = match Padded.decode s with Some r => Some (String a (String b (String c r))) | None => None end.
Proof.
  assert (Hne : forall n, Base64.digit Base64.std n <> "="%char) by (intros n; by apply digit_no_byte).
  cbn [Base64.EncodeToString String.append Padded.decode].
  do 2 (rewrite (proj2 (Ascii.eqb_neq _ _)) by apply Hne). cbn [andb].
  pose proof (decode_encode Base64.std (String a (String b (String c ""))) eq_refl) as Hd.
  cbn [Base64.EncodeToString] in Hd. rewrite Hd. by destruct (Padded.decode s).
Qed.

Lemma padded_decode_encode s : Padded.decode (Padded.Encode s) = Some s.
Proof.
  assert (Hne : forall n, Base64.digit Base64.std n <> "="%char) by (intros n; by apply digit_no_byte).
  induction s as [s IH] using (well_founded_induction (well_founded_ltof _ len)). unfold ltof in IH.
  destruct s as [|a [|b [|c s]]]; [done|..].
  - exact (decode_encode Base64.std (String a "") eq_refl).
  - pose proof (decode_encode Base64.std (String a (String b "")) eq_refl) as Hd.
    cbn [Padded.Encode Base64.EncodeToString String.append Padded.decode] in *.
    by rewrite (proj2 (Ascii.eqb_neq _ _)) by apply Hne.
  - cbn [Padded.Encode]. rewrite padded_quantum, IH by (simpl; lia). done.
Qed.

Lemma padded_no_line_end c s :
  no_byte c Base64.std -> c <> "A"%char -> c <> "="%char -> no_byte c (Padded.Encode s).
Proof.
  intros Hn Ha He. induction s as [s IH] using (well_founded_induction (well_founded_ltof _ len)). unfold ltof in IH.
  destruct s as [|a [|b [|d s]]]; cbn [Padded.Encode]; [done|..];
    rewrite no_byte_app; (split; [by apply encode_no_byte|]).
  - rewrite !no_byte_cons. done.
  - rewrite !no_byte_cons. done.
  - apply IH. simpl. lia.
Qed.

Lemma padded_roundtrip s : Padded.Decode (Padded.Encode s) = Some s.
Proof.
  unfold Padded.Decode. rewrite drop_line_ends_none; [apply padded_decode_encode|by apply padded_no_line_end..].
Qed.

Section SealerSpec.
Context {R : Random} {A : AES}.

Lemma Open_Seal key n p c : Secret.Seal key n p = Ok c -> Secret.Open key c = Ok p.
Proof.
  unfold Secret.Seal, Secret.Open. destruct (rand_Read n NonceSize) as [nonce|e] eqn:Er; [|done]. intros [= <-].
  apply rand_Read_len in Er. rewrite padded_roundtrip, len_app, gcm_Seal_len.
  destruct (Nat.ltb_spec (len nonce + (len p + Overhead)) (NonceSize + Overhead)); [lia|].
  rewrite <- Er, take_app, drop_app. apply gcm_Open_Seal.
Qed.

Definition sealer (key : string) : Sealer := {|
  seal := Secret.Seal key;
  open_ := Secret.Open key;
  open_seal n p c := Open_Seal key n p c;
|}.
End SealerSpec.

Section KeySpec.
Context {E : Env} {R : Random}.
Implicit Types (w : world) (dir : string).

Definition key_path (dir : string) : string := Join2 dir Secret.keyFileName.

(** The files but the one at [path] are those of before. *)
Definition only_file (path : string) w w' : Prop := delete path w'.(w_fs) = delete path w.(w_fs).

Lemma truncate_spec path mode w r w' :
  Secret.sys_Truncate path mode w = (r, w') ->
  only_file path w w' /\
  match r with
  | Ok _ => exists f, w'.(w_fs) !! path = Some f /\ (w.(w_fs) !! path = None -> f = mkFile "" mode self_owner)
  | Err _ => w'.(w_fs) = w.(w_fs)
  end.
Proof.
  unfold only_file. destruct r as [[]|e]; intros H.
  - apply sys_ok_inv in H as (H & _ & _ & _).
    destruct (w.(w_fs) !! path) as [f|] eqn:El; injection H as <-; rewrite delete_insert_eq, lookup_insert_eq;
      (split; [done|]); by eexists.
  - by apply sys_err_inv in H as ->.
Qed.

Lemma change_spec op path g w r w' :
  sys_change op path g w = (r, w') ->
  only_file path w w' /\
  match r with
  | Ok _ => w'.(w_fs) !! path = g <$> w.(w_fs) !! path
  | Err _ => w'.(w_fs) = w.(w_fs)
  end.
Proof.
  unfold only_file. destruct r as [[]|e]; intros H.
  - apply sys_ok_inv in H as (H & _ & _ & _). destruct (w.(w_fs) !! path) as [f|] eqn:El; [|done].
    injection H as <-. by rewrite delete_insert_eq, lookup_insert_eq.
  - by apply sys_err_inv in H as ->.
Qed.

Lemma close_spec path w r w' : sys_Close path w = (r, w') -> w'.(w_fs) = w.(w_fs).
Proof.
  destruct r as [[]|e]; intros H; [by apply sys_ok_inv in H as ([= ->] & _)|by apply sys_err_inv in H as ->].
Qed.

Lemma write_file_spec path content mode w r w' :
  Secret.sys_WriteFile path content mode w = (r, w') -> w.(w_fs) !! path = None ->
  only_file path w w' /\
  match r with Ok _ => w'.(w_fs) !! path = Some (mkFile content mode self_owner) | Err _ => True end.
Proof.
  unfold Secret.sys_WriteFile, only_file.
  intros [(e & -> & Ht)|([] & w1 & Ht & Hk)]%bind_ok_cases Hn.
  - by apply truncate_spec in Ht as [Ho _].
  - apply truncate_spec in Ht as [Ho (f & Hf & Hnew)].
    apply bind_inv in Hk as (r2 & w2 & Hw & Hk). apply bind_inv in Hk as (c & w3 & Hc & [= <- <-]).
    apply change_spec in Hw as [Ho2 Hw]. apply close_spec in Hc. rewrite Hc. unfold only_file in *.
    split; [congruence|]. destruct r2 as [[]|]; [|done]. destruct c; [|done].
    by rewrite Hw, Hf, (Hnew Hn).
Qed.

(** A system call says that a file does not exist only when it does not. *)
Definition honest : Prop := forall n e, os_fault n = Some e -> errors_Is e "file does not exist" = false.

(** Either the stored key, or a fresh one that is stored from then on. *)
Lemma LoadOrCreateKey_spec dir w r w' :
  honest -> Secret.LoadOrCreateKey dir w = (r, w') ->
  only_file (key_path dir) w w' /\
  (w.(w_fs) !! key_path dir <> None -> w'.(w_fs) = w.(w_fs)) /\
  match r with
  | Ok key => len key = 32%nat /\ exists f, w'.(w_fs) !! key_path dir = Some f /\ f.(f_content) = key /\
      (w.(w_fs) !! key_path dir = None -> f = mkFile key 384 self_owner)
  | Err _ => True
  end.
Proof.
  intros Hh. unfold Secret.LoadOrCreateKey. fold (key_path dir). unfold only_file.
  intros (b & w1 & Hr & Hk)%bind_inv. destruct b as [b|e].
  - apply sys_ok_inv in Hr as (Hf & _ & _ & _).
    destruct (w.(w_fs) !! key_path dir) as [f|] eqn:El; [|done]. injection Hf as <- Hfs.
    destruct (Nat.eqb_spec (len f.(f_content)) 32) as [Hlen|]; injection Hk as <- <-; rewrite <- Hfs, ?El; [|done].
    do 3 (split; [done|]). by exists f.
  - assert (Hfs : w1.(w_fs) = w.(w_fs)) by (by apply sys_err_inv in Hr as ->).
    destruct (errors_Is e "file does not exist") eqn:Ee; [|injection Hk as <- <-; by rewrite Hfs].
    assert (Hno : w.(w_fs) !! key_path dir = None).
    { destruct (w.(w_fs) !! key_path dir) as [f|] eqn:Hf; [exfalso|done]. revert Hr. unfold sys_ReadFile, sys.
      destruct (os_fault _) as [e'|] eqn:Eo; [|by rewrite Hf]. intros [= -> _]. apply Hh in Eo. congruence. }
    apply bind_ok_cases in Hk as [(e2 & -> & [= _ <-])|(key & w2 & [= Hrand <-] & Hk)]; [by rewrite <- Hfs|].
    apply rand_Read_len in Hrand.
    apply bind_ok_cases in Hk as [(e2 & -> & Hw)|([] & w3 & Hw & [= <- <-])];
      apply write_file_spec in Hw as [Ho Hw]; [|by rewrite <- Hno; cbn; rewrite Hfs| |by rewrite <- Hno; cbn; rewrite Hfs];
      unfold only_file in Ho; cbn in Ho; rewrite Ho, Hfs, Hno; [done|].
    do 3 (split; [done|]). by eexists.
Qed.

Lemma LoadOrCreateKey_again dir w f :
  w.(w_fs) !! key_path dir = Some f -> len f.(f_content) = 32%nat -> os_fault w.(w_tick) = None ->
  exists w', Secret.LoadOrCreateKey dir w = (Ok f.(f_content), w') /\ w'.(w_fs) = w.(w_fs).
Proof.
  intros Hf Hl Ho. unfold Secret.LoadOrCreateKey, bind. fold (key_path dir).
  unfold sys_ReadFile, sys. rewrite Ho, Hf. rewrite Hl. by eexists.
Qed.

(** C40. What is sealed before a restart is opened after it: the key of the first
    start has 32 bytes, is what a later start finds as long as nobody else changes
    the key file, and opens every envelope made with it; a start never changes an
    existing key file, nor any other file. *)
Theorem key_roundtrip {A : AES} dir w key w1 n p c w2 :
  honest ->
  Secret.LoadOrCreateKey dir w = (Ok key, w1) ->
  Secret.Seal key n p = Ok c ->
  w2.(w_fs) !! key_path dir = w1.(w_fs) !! key_path dir -> os_fault w2.(w_tick) = None ->
  (exists w3, Secret.LoadOrCreateKey dir w2 = (Ok key, w3) /\ w3.(w_fs) = w2.(w_fs)) /\
  Secret.NewSealer key = Ok key /\ Secret.Open key c = Ok p /\
  only_file (key_path dir) w w1 /\ (w.(w_fs) !! key_path dir <> None -> w1.(w_fs) = w.(w_fs)).
Proof.
  intros Hh Hload Hseal H2 Ho. apply LoadOrCreateKey_spec in Hload as (Hof & Hsame & Hlen & f & Hf & Hc & _); [|done].
  split; [|split; [|split]].
  - rewrite Hf in H2. rewrite <- Hc. apply LoadOrCreateKey_again; [done|by rewrite Hc|done].
  - unfold Secret.NewSealer. by rewrite Hlen.
  - by apply (Open_Seal key n).
  - done.
Qed.
End KeySpec.

(** ** Examples *)

(** A key of 32 equal bytes; a cipher that adds the nonce as its tag. *)
Fixpoint bytes (k : nat) : string := match k with O => "" | S k' => String "k" (bytes k') end.

Definition demo_bytes : Random.
Proof.
  refine {| rand_Read _ k := Ok (bytes k) |}. intros _ k s [= <-]. induction k; simpl; congruence.
Defined.

Definition demo_aes : AES.
Proof.
  refine {| NonceSize := 12; Overhead := 0; gcm_Seal _ _ p := str_rev p; gcm_Open _ _ c := Ok (str_rev c) |}.
  - intros _ _ p. rewrite Nat.add_0_r. induction p as [|a p IH]; [done|].
    change (String a p) with (String a "" +:+ p). rewrite str_rev_cat, len_app, IH. simpl. lia.
  - intros _ _ p. by rewrite str_rev_involutive.
Defined.

Definition no_files : world := mkWorld (demo_world demo_queue).(w_db) ∅ [] 0.

Lemma key_roundtrip_witness :
  let first := @Secret.LoadOrCreateKey calm_env demo_bytes "/data" no_files in
  first.1 = Ok (bytes 32) /\ first.2.(w_fs) !! "/data/secret.key" <> None /\
  (exists c, @Secret.Seal demo_bytes demo_aes (bytes 32) 7 "token" = Ok c /\
    @Secret.Open demo_aes (bytes 32) c = Ok "token" /\
    exists w3, @Secret.LoadOrCreateKey calm_env demo_bytes "/data" first.2 = (Ok (bytes 32), w3)).
Proof.
  cbn zeta. split; [vm_compute; reflexivity|]. split; [vm_compute; discriminate|].
  destruct (@Secret.LoadOrCreateKey calm_env demo_bytes "/data" no_files) as [r w1] eqn:El.
  assert (r = Ok (bytes 32)) as -> by (change r with (r, w1).1; rewrite <- El; vm_compute; reflexivity).
  destruct (@Secret.Seal demo_bytes demo_aes (bytes 32) 7 "token") as [c|e] eqn:Es; [|vm_compute in Es; discriminate].
  exists c. split; [reflexivity|].
  destruct (@key_roundtrip calm_env demo_bytes demo_aes "/data" no_files (bytes 32) w1 7 "token" c w1
    ltac:(intros n e H; discriminate H) El Es eq_refl eq_refl) as ((w3 & H3 & _) & _ & Ho & _).
  split; [exact Ho|]. exists w3. exact H3.
Defined.

(** A disk that fills up when the key is written. *)
Definition disk_full : Env := {|
  sql_fault _ := None;
  os_fault n := if Nat.eqb n 3 then Some (Errorf "no space left on device") else None;
  clock _ := 0;
  random_name _ := "x";
  self_owner := (0, 0);
  ctx_done _ := false;
|}.

(** The first start fails and leaves an empty key file; every later start fails on
    it, though there is space again. *)
Lemma torn_key :
  let first := @Secret.LoadOrCreateKey disk_full demo_bytes "/data" no_files in
  first.1 = Err (Errorf "no space left on device") /\
  (@Secret.LoadOrCreateKey disk_full demo_bytes "/data" first.2).1
    = Err (Errorf "secret key /data/secret.key has length 0, want 32").
Proof. vm_compute. done. Qed.
