(* ===== verification/Routes.v ===== *)
(** * The routes of the API (internal/httpapi/server.go)

    The table of the routes, each open or behind [requireAuth], and [serve], what
    the server does with one request.  chi, which matches a request against the
    table, is a parameter: of its matching only the documented rule is used, that
    a route registered for a method gets requests of that method. *)

From stdpp Require Import base list strings gmap.
From S2P Require Import Prelude GoStd Db World StoreMisc Compose SelfUpdate.
From S2P Require Import Scan Password RateLimit ScanRun Http HttpApi HttpSettings HttpStreams.

Local Open Scope Z_scope.

Inductive endpoint :=
| Open (h : Request -> M server Response)
| Guarded (h : Z -> Request -> M server Response).

Record route := mkRoute { rt_method : string; rt_pattern : string; rt_end : endpoint }.

(** What chi makes of a request: the index of the route in the table, a 405, or no
    route at all. *)
Inductive matched := Found (i : nat) | WrongMethod | NoRoute.

Class Chi := {
  chi_match : list (string * string) -> Request -> matched;
  chi_method l r i : chi_match l r = Found i -> exists p, l !! i = Some (r.(rq_method), p);
}.

Section Routes.
Context {E : Env} {SS : SliceSort} {R : Random} {A2 : Argon2} {SH : Sha256} {MR : MapRange} {SL : Sealer}.
Context {CG : Compose.ComposeGo} {G : Checker.Releases} {ZL : Zerolog} {D : Deps} {L : LogFiles} {ST : Streams}.

Definition get (p : string) (h : Z -> Request -> M server Response) : route := mkRoute "GET" p (Guarded h).
Definition post (p : string) (h : Z -> Request -> M server Response) : route := mkRoute "POST" p (Guarded h).
Definition put (p : string) (h : Z -> Request -> M server Response) : route := mkRoute "PUT" p (Guarded h).
Definition del (p : string) (h : Z -> Request -> M server Response) : route := mkRoute "DELETE" p (Guarded h).

Definition open_routes : list route :=
  [mkRoute "GET" "/healthz" (Open Api.handleHealth);
   mkRoute "GET" "/api/setup/status" (Open Http.handleSetupStatus);
   mkRoute "POST" "/api/setup" (Open Http.handleSetup);
   mkRoute "POST" "/api/auth/login" (Open Http.handleLogin)].

Definition guarded_routes : list route :=
  [post "/api/auth/logout" Http.handleLogout;
   get "/api/auth/me" Http.handleMe;
   post "/api/auth/password" Http.handleChangePassword;
   get "/api/status" Api.handleStatus;
   get "/api/updates/self" Api.handleSelfUpdate;
   post "/api/updates/self/apply" Api.handleSelfUpdateApply;
   get "/api/system/info" Api.handleSystemInfo;
   get "/api/projects" Api.handleProjects;
   get "/api/projects/{id}/compose" Api.handleProjectCompose;
   get "/api/settings" SettingsApi.handleGetSettings;
   put "/api/settings" SettingsApi.handlePutSettings;
   get "/api/settings/export" SettingsApi.handleExportSettings;
   post "/api/settings/import" SettingsApi.handleImportSettings;
   get "/api/registries" SettingsApi.handleListRegistries;
   post "/api/registries" SettingsApi.handleUpsertRegistry;
   del "/api/registries/{host}" SettingsApi.handleDeleteRegistry;
   post "/api/projects" SettingsApi.handleCreateProject;
   put "/api/projects/{id}/auto-update" SettingsApi.handleProjectAutoUpdate;
   put "/api/services/{id}/auto-update" SettingsApi.handleServiceAutoUpdate;
   get "/api/updates" Api.handleListUpdates;
   get "/api/updates/last-applied" Api.handleListLastApplied;
   get "/api/updates/{id}/preview" Api.handlePreview;
   post "/api/updates/{id}/apply" Api.handleApply;
   post "/api/updates/{id}/dismiss" Api.handleDismiss;
   post "/api/updates/{id}/restore" Api.handleRestore;
   post "/api/services/{id}/check" Api.handleCheck;
   post "/api/services/{id}/lifecycle" Api.handleLifecycle;
   post "/api/services/{id}/remove" Api.handleRemove;
   get "/api/services/{id}/logs" Api.handleLogs;
   post "/api/scan" Api.handleScanAll;
   get "/api/scan" Api.handleScanStatus;
   del "/api/scan" Api.handleScanAbort;
   get "/api/services/{id}/events" Api.handleServiceEvents;
   get "/api/jobs" Api.handleListJobs;
   del "/api/jobs" Api.handleClearJobs;
   get "/api/jobs/{id}" Api.handleGetJob;
   post "/api/jobs/{id}/rollback" Api.handleRollback;
   get "/api/jobs/{id}/logs" StreamApi.handleJobLogs;
   get "/api/events/stream" StreamApi.handleEventStream;
   get "/api/logs/config" StreamApi.handleLogConfig;
   get "/api/logs/files" StreamApi.handleLogFiles;
   get "/api/logs/files/{name}/download" StreamApi.handleLogDownload].

Definition routes : list route := open_routes ++ guarded_routes.

Definition table : list (string * string) := map (fun rt => (rt.(rt_method), rt.(rt_pattern))) routes.

Definition run_endpoint (e : endpoint) (r : Request) : M server Response :=
  match e with
  | Open h => h r
  | Guarded h => Http.requireAuth h r
  end.

Context {C : Chi}.

Definition dispatch (r : Request) : M server Response :=
  match chi_match table r with
  | Found i => match routes !! i with
               | Some rt => run_endpoint rt.(rt_end) r
               | None => StreamApi.spaHandler r
               end
  | WrongMethod => ret (mkResponse 405 None [] [])
  | NoRoute => StreamApi.spaHandler r
  end.

Definition serve (r : Request) : M server Response := Http.secureHeaders dispatch r.

(** The endpoint a request reaches. *)
Definition endpoint_of (r : Request) : option endpoint :=
  match chi_match table r with Found i => rt_end <$> routes !! i | _ => None end.

(** A request reaches an endpoint that was registered for its method. *)
Lemma endpoint_method r e :
  endpoint_of r = Some e -> exists rt, rt ∈ routes /\ rt.(rt_method) = r.(rq_method) /\ rt.(rt_end) = e.
Proof.
  unfold endpoint_of. destruct (chi_match table r) as [i| |] eqn:Em; [|done..].
  intros (rt & Hrt & ->)%fmap_Some_1. exists rt. split; [by eapply list_elem_of_lookup_2|]. split; [|done].
  apply chi_method in Em as (p & Hp). unfold table in Hp. rewrite list_lookup_fmap, Hrt in Hp. by injection Hp.
Qed.

Lemma dispatch_endpoint r e : endpoint_of r = Some e -> dispatch r = run_endpoint e r.
Proof.
  unfold endpoint_of, dispatch. destruct (chi_match table r) as [i| |]; [|done..].
  by intros (rt & -> & ->)%fmap_Some_1.
Qed.

(** The headers are added to whatever was answered. *)
Lemma serve_inv r s rs s' :
  serve r s = (rs, s') -> exists rs0, dispatch r s = (rs0, s') /\ rs.(rs_code) = rs0.(rs_code) /\
    rs.(rs_body) = rs0.(rs_body) /\ rs.(rs_cookies) = rs0.(rs_cookies).
Proof.
  unfold serve, Http.secureHeaders. intros (rs0 & s1 & H1 & [= <- <-])%bind_inv. by exists rs0.
Qed.

End Routes.
