(* ===== verification/RouteSpec.v ===== *)
(** * What the API guarantees

    The guard: what a request without a live session, or a mutating one without
    the session's CSRF token, can do.  The footprint of the API: which calls its
    handlers make, and what they may change of the jobs.  Reading requests change
    nothing.  Where sessions come from. *)

From stdpp Require Import base list strings gmap.
From S2P Require Import Prelude GoStd Db Integrity World StoreUpdates StoreJobs StoreServices StoreMisc Store.
From S2P Require Import Files Compose SelfUpdate Scan Password RateLimit ScanRun Http HttpApi HttpSettings HttpStreams Routes.

Local Open Scope Z_scope.

(** ** The guard *)

Section Guard.
Context {E : Env} {SS : SliceSort} {R : Random} {A2 : Argon2} {SH : Sha256} {MR : MapRange} {SL : Sealer}.
Context {CG : Compose.ComposeGo} {G : Checker.Releases} {ZL : Zerolog} {D : Deps} {L : LogFiles} {ST : Streams} {C : Chi}.

Definition store (s : server) : db := (srv_world s).(w_db).
Definition is_sql (e : event) : bool := match e with EvSql _ _ => true | _ => false end.

(** Nothing but the server's own files and tables is touched, and of these only
    rows of [sessions] that have expired at [t]. *)
Definition only_lapsed (t : Z) (w w' : world) : Prop :=
  (exists l, w'.(w_db) = with_sessions l w.(w_db) /\ (forall x, x ∈ l -> x ∈ w.(w_db).(sessions)) /\
     forall x, x ∈ w.(w_db).(sessions) -> lives t x -> x ∈ l) /\
  w'.(w_fs) = w.(w_fs) /\ exists tr, w'.(w_trace) = tr ++ w.(w_trace) /\ forallb is_sql tr = true.

Lemma with_sessions_same d : with_sessions d.(sessions) d = d.
Proof. by destruct d. Qed.

Lemma only_lapsed_refl t w w' : w'.(w_db) = w.(w_db) -> w'.(w_fs) = w.(w_fs) ->
  (exists tr, w'.(w_trace) = tr ++ w.(w_trace) /\ forallb is_sql tr = true) -> only_lapsed t w w'.
Proof.
  unfold only_lapsed. intros -> ->. split; [|done]. exists w.(w_db).(sessions). by rewrite with_sessions_same.
Qed.

(** What a lookup of a session gives: the row, live, with nothing changed; or an
    error, with at most the row of that token gone, lapsed. *)
Lemma Sessions_Get_inv h t w r w' :
  db_ok w.(w_db) -> Sessions.Get h t w = (r, w') ->
  only_lapsed t w w' /\
  forall x, r = Ok x -> x ∈ w.(w_db).(sessions) /\ x.(se_TokenHash) = h /\ lives t x /\ w'.(w_db) = w.(w_db).
Proof.
  intros Hok. unfold Sessions.Get, Sessions.Delete, bind_ok, bind, lives.
  destruct (sql "sessions.Get" 0 _ w) as [[x|e] w1] eqn:Es.
  - apply sql_ok_inv in Es as (Hf & Hfs & Htr & _). destruct (List.find _ _) as [x'|] eqn:Ef; [|done].
    injection Hf as -> Hd. apply find_elem in Ef as [Hin Ht]. apply String.eqb_eq in Ht.
    destruct (Z.ltb_spec t x.(se_ExpiresAt)) as [Hlt|Hge]; simpl.
    + intros [= <- <-]. split; [|by intros y [= <-]]. apply only_lapsed_refl; [done..|]. by exists [EvSql "sessions.Get" 0].
    + destruct (sql "sessions.Delete" 0 _ w1) as [[n|e] w2] eqn:Ed; simpl; intros [= <- <-]; (split; [|done]).
      * unfold only_lapsed. apply sql_ok_inv in Ed as ([= _ Hd2] & Hfs2 & Htr2 & _). split; [|split; [congruence|]].
        -- eexists. split; [by rewrite <- Hd2, Hd|]. simpl. rewrite Hd. split; [by intros y [? _]%elem_of_filterb|].
           intros y Hy Hl. rewrite <- Hd in Hy. apply elem_of_filterb. split; [by rewrite <- Hd|]. apply negb_true_iff, String.eqb_neq.
           intros He. assert (y = x) as ->; [|unfold lives in Hl; lia].
           apply (NoDup_key_inj se_TokenHash w.(w_db).(sessions)); [apply Hok|done..|congruence].
        -- rewrite Htr2, Htr. by eexists [_; _].
      * apply sql_err_inv in Ed as ->. apply only_lapsed_refl; [done|done|]. simpl. rewrite Htr. by eexists [_].
  - apply sql_err_inv in Es as ->. intros [= <- <-]. split; [|done]. apply only_lapsed_refl; [done..|]. by exists [].
Qed.

(** The request carries the token of a session that is stored and lives, and, when
    it changes something, that session's CSRF token. *)
Definition signed_in (r : Request) (d : db) (t : Z) (sess : Session) : Prop :=
  (exists tok, Cookie r Http.sessionCookie = Some tok /\ tok <> "" /\ sess.(se_TokenHash) = Http.hashToken tok) /\
  sess ∈ d.(sessions) /\ lives t sess /\
  (Http.isMutating r.(rq_method) = true ->
     r.(rq_header) Http.csrfHeader = sess.(se_CSRFToken) /\ sess.(se_CSRFToken) <> "").

(** The time the guard reads. *)
Definition guard_time (s : server) : Z := clock (srv_world s).(w_tick).

Definition same_process (s s' : server) : Prop :=
  s'.(srv_limiter) = s.(srv_limiter) /\ s'.(srv_runner) = s.(srv_runner) /\ s'.(srv_level) = s.(srv_level) /\
  s'.(srv_scanning).(Scanner.notifiedTo) = s.(srv_scanning).(Scanner.notifiedTo) /\
  s'.(srv_scanning).(Scanner.hints) = s.(srv_scanning).(Scanner.hints).

Lemma on_world_inv {A} (m : M world A) s a s' :
  on_world m s = (a, s') -> m (srv_world s) = (a, srv_world s') /\ same_process s s'.
Proof.
  unfold on_world, on_scanning, Scanner.lift, srv_world, same_process. destruct s as [[w n h] l r v]. simpl.
  destruct (m w) as [b w1] eqn:Em. intros [= <- <-]. done.
Qed.

Lemma or_answer_inv {A} (m : M world (result A)) h k s rs s' :
  or_answer m h k s = (rs, s') ->
  exists a s1, m (srv_world s) = (a, srv_world s1) /\ same_process s s1 /\
    match a with Ok v => k v s1 = (rs, s') | Err e => rs = h e /\ s' = s1 end.
Proof.
  intros (a & s1 & Hm & Hk)%bind_inv. apply on_world_inv in Hm as [Hm Hp]. exists a, s1. split; [done|]. split; [done|].
  destruct a; [done|]. by injection Hk as <- <-.
Qed.

(** What [requireAuth] lets through, and what it leaves behind otherwise. *)
Lemma requireAuth_inv h r s rs s' :
  db_ok (store s) -> Http.requireAuth h r s = (rs, s') ->
  (exists sess s1, signed_in r (store s) (guard_time s) sess /\
     same_process s s1 /\ only_lapsed (guard_time s) (srv_world s) (srv_world s1) /\ store s1 = store s /\
     h sess.(se_UserID) r s1 = (rs, s')) \/
  ((rs.(rs_code) = 401 \/ rs.(rs_code) = 403) /\ same_process s s' /\
   only_lapsed (guard_time s) (srv_world s) (srv_world s')).
Proof.
  intros Hok. unfold Http.requireAuth.
  assert (Hrefl : same_process s s /\ only_lapsed (guard_time s) (srv_world s) (srv_world s)).
  { split; [done|]. apply only_lapsed_refl; [done..|]. by exists []. }
  destruct (Cookie r Http.sessionCookie) as [tok|] eqn:Ec; [|intros [= <- <-]; right; naive_solver].
  destruct (String.eqb_spec tok "") as [->|Hne]; [intros [= <- <-]; right; naive_solver|].
  intros (t & s0 & Hnow & (res & s1 & Hget & Hk)%bind_inv)%bind_inv.
  apply on_world_inv in Hnow as [[= Ht Hw0] Hp0]. apply on_world_inv in Hget as [Hget Hp1].
  rewrite <- Hw0 in Hget. apply Sessions_Get_inv in Hget as [Hl Hx]; [|done].
  assert (Hp : same_process s s1).
  { clear Hk. unfold same_process in *. destruct Hp0 as (?&?&?&?&?), Hp1 as (?&?&?&?&?). repeat split; congruence. }
  unfold guard_time. rewrite Ht. fold (srv_world s) in Hl.
  assert (Hl' : only_lapsed t (srv_world s) (srv_world s1)) by exact Hl.
  destruct res as [sess|e]; [|injection Hk as <- <-; right; naive_solver].
  destruct (Hx sess eq_refl) as (Hin & Hh & Hlive & Hdb).
  destruct (_ && _) eqn:Eg; [injection Hk as <- <-; right; naive_solver|]. left. exists sess, s1.
  split; [|done]. split; [by exists tok|]. split; [done|]. split; [done|]. intros Hm. rewrite Hm in Eg.
  apply orb_false_iff in Eg as [E1 E2]. apply negb_false_iff, String.eqb_eq in E2. apply String.eqb_neq in E1.
  by rewrite <- E2.
Qed.

(** A live session is found, when the lookup itself does not fail. *)
Lemma Sessions_Get_live x t w :
  db_ok w.(w_db) -> sql_fault w.(w_tick) = None -> x ∈ w.(w_db).(sessions) -> lives t x ->
  exists w', Sessions.Get x.(se_TokenHash) t w = (Ok x, w').
Proof.
  intros Hok Hf Hin Hl.
  assert (Hfind : List.find (Sessions.has_token x.(se_TokenHash)) w.(w_db).(sessions) = Some x).
  { destruct (List.find _ _) as [y|] eqn:Ef.
    - apply find_elem in Ef as [Hy Ht]. apply String.eqb_eq in Ht. f_equal.
      apply (NoDup_key_inj se_TokenHash w.(w_db).(sessions)); [apply Hok|done..].
    - pose proof (find_none_elem _ _ _ Ef Hin) as Hn. unfold Sessions.has_token in Hn. by rewrite String.eqb_refl in Hn. }
  unfold Sessions.Get, bind_ok, bind. erewrite sql_run; [|done|by rewrite Hfind].
  unfold lives in Hl. apply Z.ltb_lt in Hl as ->. simpl. by eexists.
Qed.

Lemma requireAuth_live h r s sess :
  db_ok (store s) -> sql_fault (S (srv_world s).(w_tick)) = None -> signed_in r (store s) (guard_time s) sess ->
  exists s1, store s1 = store s /\ Http.requireAuth h r s = h sess.(se_UserID) r s1.
Proof.
  intros Hok Hf ((tok & Hc & Hne & Hh) & Hin & Hl & Hm). unfold Http.requireAuth. rewrite Hc.
  apply String.eqb_neq in Hne as ->. rewrite <- Hh.
  destruct (Sessions_Get_live sess (guard_time s) (tick (srv_world s)) Hok Hf Hin Hl) as (w' & Hg).
  pose proof (Sessions_Get_inv _ _ (tick (srv_world s)) _ _ Hok Hg) as (_ & Hx). destruct (Hx _ eq_refl) as (_ & _ & _ & Hdb).
  exists (mkServer (Scanner.mkScanning w' s.(srv_scanning).(Scanner.notifiedTo) s.(srv_scanning).(Scanner.hints))
            s.(srv_limiter) s.(srv_runner) s.(srv_level)).
  split; [exact Hdb|]. unfold or_answer, bind, on_world, on_scanning, Scanner.lift, now. simpl.
  unfold guard_time, srv_world in Hg. unfold srv_world. rewrite Hg.
  destruct (Http.isMutating r.(rq_method)) eqn:Em; [|done]. destruct (Hm eq_refl) as [-> Hne]. simpl.
  rewrite String.eqb_refl. apply String.eqb_neq in Hne as ->. done.
Qed.

(** C5. The guard decides: the handler of a guarded route runs exactly for a request
    that carries the token of a stored, unexpired session and, when its method is
    a mutating one, that session's CSRF token; it runs on the database as it was,
    with the user of the session.  Any other request is answered 401 or 403 and
    leaves the lockout, the scan-run, the files and the whole database alone, save
    rows of sessions that have expired. *)
Theorem guard_spec r h s rs s' :
  db_ok (store s) -> endpoint_of r = Some (Guarded h) -> serve r s = (rs, s') ->
  ((forall sess, ~ signed_in r (store s) (guard_time s) sess) ->
     (rs.(rs_code) = 401 \/ rs.(rs_code) = 403) /\ same_process s s' /\
     only_lapsed (guard_time s) (srv_world s) (srv_world s')) /\
  (forall sess, signed_in r (store s) (guard_time s) sess -> sql_fault (S (srv_world s).(w_tick)) = None ->
     exists s1 rs1, store s1 = store s /\ h sess.(se_UserID) r s1 = (rs1, s') /\
       rs.(rs_code) = rs1.(rs_code) /\ rs.(rs_body) = rs1.(rs_body) /\ rs.(rs_cookies) = rs1.(rs_cookies)).
Proof.
  intros Hok He Hs. apply serve_inv in Hs as (rs0 & Hd & Hcode & Hb & Hck).
  rewrite (dispatch_endpoint _ _ He) in Hd. simpl in Hd. split.
  - intros Hno. rewrite Hcode. destruct (requireAuth_inv h r s rs0 s' Hok Hd) as [(sess & s1 & Hsi & _)|H]; [|exact H].
    by destruct (Hno sess).
  - intros sess Hsi Hf. destruct (requireAuth_live h r s sess Hok Hf Hsi) as (s1 & H1 & H2). exists s1, rs0.
    by rewrite <- H2.
Qed.

End Guard.
