(* ===== verification/SettingsSpec.v ===== *)
(** * Writing the settings: all checks first, and secrets stay put

    PUT and import check every key before they write any; an import reaches no
    secret and no stored credential; what GET and export answer does not depend on
    a secret. *)

From stdpp Require Import base list strings gmap sets.
From S2P Require Import Prelude GoStd Db Integrity World StoreMisc Compose SelfUpdate.
From S2P Require Import Scan Password RateLimit ScanRun Http HttpApi HttpSettings HttpStreams Routes RouteSpec.

Local Open Scope Z_scope.

Section Put.
Context {E : Env} {SL : Sealer} {MR : MapRange} {ZL : Zerolog}.
Import SettingsApi.

(** C36. PUT is checked as a whole.  It is refused with 400 exactly when the body is not
    an object of texts, or has a key outside the whitelist or a value that its key
    does not take; a refused one changes nothing at all.  Whatever the answer, only
    settings of the keys in the body change.  When it answers 200 every key has its
    value, a secret as an envelope of it. *)
Theorem put_settings_spec uid r s rs s' :
  handlePutSettings uid r s = (rs, s') ->
  let body := text_map r.(rq_body) in
  (rs.(rs_code) = 200 \/ rs.(rs_code) = 400 \/ rs.(rs_code) = 500) /\
  (rs.(rs_code) = 400 -> s' = s) /\
  (rs.(rs_code) = 400 <->
     decodes_map r.(rq_body) = false \/ exists k v, body !! k = Some v /\ ~ acceptable (k, v)) /\
  only_settings (map fst (map_to_list body)) (store s) (store s') /\
  (rs.(rs_code) = 200 -> forall k v, body !! k = Some v -> saved k v (store s')).
Proof.
  unfold handlePutSettings. set (body := text_map r.(rq_body)).
  assert (Hrefl : only_settings (map fst (map_to_list body)) (store s) (store s)) by apply only_settings_refl.
  destruct (decodes_map _); simpl; [|intros [= <- <-]; naive_solver].
  destruct (put_refusal (range body)) as [e|] eqn:Er.
  - assert (Hbad : exists k v, body !! k = Some v /\ ~ acceptable (k, v)).
    { apply dec_stable. intros Hno. assert (put_refusal (range body) = None); [|congruence].
      apply put_refusal_none, Forall_forall. intros [k v] Hin%range_elem_of.
      unfold acceptable. apply dec_stable. intros Hna. apply Hno. by exists k, v. }
    intros [= <- <-]. naive_solver.
  - apply put_refusal_none in Er. rewrite Forall_forall in Er.
    assert (Hgood : ~ exists k v, body !! k = Some v /\ ~ acceptable (k, v)).
    { intros (k & v & Hkv & Hna). apply Hna, Er, range_elem_of, Hkv. }
    intros (res & s1 & Hput & _ & Hk)%or_answer_inv. apply put_all_inv in Hput as [Ho Hs]; [|apply range_keys].
    assert (Hperm : only_settings (map fst (map_to_list body)) (store s) (store s1)).
    { destruct Ho as [H1 H2]. split; [exact H1|]. intros k Hni. apply H2. by rewrite range_perm. }
    destruct res as [[]|e]; [|destruct Hk as [-> ->]; simpl; naive_solver].
    apply bind_inv in Hk as (z & s2 & Hl & [= <- <-]). apply applyLive_db in Hl as (Hl & _).
    assert (Hst : store s2 = store s1) by (unfold store, srv_world; by rewrite Hl). rewrite Hst. simpl.
    split; [auto|]. split; [done|]. split; [naive_solver|]. split; [done|]. intros _ k v Hkv.
    by apply Hs, range_elem_of.
Qed.

(** ** Import *)

Lemma set_all_inv kvs w r w' : set_all kvs w = (r, w') ->
  only_settings (map fst kvs) w.(w_db) w'.(w_db).
Proof.
  revert w. induction kvs as [|[k v] kvs IH]; simpl; intros w.
  - intros [= <- <-]. apply only_settings_refl.
  - unfold bind_ok, bind. destruct (Settings.Set_ k v w) as [[[]|e] w1] eqn:E1.
    + intros Hk. apply Set_inv in E1 as [H1 _]. exact (only_settings_trans [k] _ _ _ _ H1 (IH _ Hk)).
    + apply Set_inv in E1 as [[H1 H2] _]. intros [= <- <-]. split; [done|]. intros k' Hk'. apply H2. set_solver.
Qed.

(** A placeholder an import may add: a host it names, not among the existing ones,
    with the user it gives and no password. *)
Definition placeholder (regs : list (string * string)) (existing : gset string) (c : Credential) : Prop :=
  (c.(cr_RegistryHost), c.(cr_Username)) ∈ regs /\ c.(cr_RegistryHost) ∉ existing /\
  exists n, seal n "" = Ok c.(cr_Secret).

Definition adds_credentials (new : list Credential) (d d' : db) : Prop :=
  exists n, d' = with_credentials (mkTable (d.(credentials).(rows) ++ new) n) d.

Lemma adds_none d : adds_credentials [] d d.
Proof. exists d.(credentials).(seq). rewrite app_nil_r. by destruct d as [? ? ? ? ? ? ? ? ? ? ? ? ? [? ?] ?]. Qed.

Lemma adds_trans new new' d d1 d2 :
  adds_credentials new d d1 -> adds_credentials new' d1 d2 -> adds_credentials (new ++ new') d d2.
Proof. intros (n & ->) (m & ->). exists m. simpl. by rewrite app_assoc. Qed.

(** A credential for a host that has none is a new row. *)
Lemma Upsert_new host user w r w' (existing : gset string) :
  Credentials.Upsert host user "" w = (r, w') -> host ∉ existing ->
  (forall c, c ∈ w.(w_db).(credentials).(rows) -> c.(cr_RegistryHost) ∈ existing) ->
  exists new, adds_credentials new w.(w_db) w'.(w_db) /\
    Forall (fun c => c.(cr_RegistryHost) = host /\ c.(cr_Username) = user /\ exists n, seal n "" = Ok c.(cr_Secret)) new.
Proof.
  intros Hu Hni Hex. unfold Credentials.Upsert, Settings.seal_now, bind_ok, bind in Hu.
  destruct (seal w.(w_tick) "") as [c|e] eqn:Ec.
  2:{ injection Hu as _ <-. exists []. split; [apply (adds_none w.(w_db))|constructor]. }
  destruct r as [id|e].
  - apply sql_ok_inv in Hu as (Hu & _). unfold Credentials.upsert_stmt in Hu. simpl in Hu.
    destruct (List.find _ _) as [x|] eqn:Ef.
    { apply find_elem in Ef as [Hin Hh%String.eqb_eq]. destruct Hni. rewrite <- Hh. by apply Hex. }
    injection Hu as _ Hu. eexists. split; [eexists; rewrite <- Hu; reflexivity|].
    repeat constructor; simpl. by exists w.(w_tick).
  - apply sql_err_inv in Hu as ->. exists []. split; [apply (adds_none w.(w_db))|constructor].
Qed.

Lemma import_hosts_inv regs existing w r w' :
  import_hosts regs existing w = (r, w') ->
  (forall c, c ∈ w.(w_db).(credentials).(rows) -> c.(cr_RegistryHost) ∈ existing) ->
  exists new, adds_credentials new w.(w_db) w'.(w_db) /\ Forall (placeholder regs existing) new.
Proof.
  revert existing w r w'. induction regs as [|[host user] regs IH]; intros existing w r w'; simpl.
  { intros [= _ <-] _. exists []. split; [apply adds_none|constructor]. }
  assert (Hmono : forall ex l, existing ⊆ ex -> Forall (placeholder regs ex) l ->
                    Forall (placeholder ((host, user) :: regs) existing) l).
  { intros ex l Hsub Hl. eapply Forall_impl; [exact Hl|]. intros c (H1 & H2 & H3). split; [by right|]. split; [set_solver|done]. }
  destruct (_ || _) eqn:Eskip.
  - unfold bind_ok, bind. destruct (import_hosts regs existing w) as [res w1] eqn:E1. intros Hk Hex.
    destruct (IH _ _ _ _ E1 Hex) as (new & Ha & Hf). exists new. split; [|by eapply Hmono].
    by destruct res; injection Hk as _ <-.
  - apply orb_false_iff in Eskip as [_ Hni%bool_decide_eq_false]. unfold bind_ok, bind.
    destruct (Credentials.Upsert host user "" w) as [[id|e] w1] eqn:Eu; intros Hk Hex;
      destruct (Upsert_new _ _ _ _ _ existing Eu Hni Hex) as (new & Ha & Hf).
    + destruct (import_hosts regs ({[host]} ∪ existing) w1) as [res w2] eqn:E2.
      assert (Hex1 : forall c, c ∈ w1.(w_db).(credentials).(rows) -> c.(cr_RegistryHost) ∈ ({[host]} ∪ existing : gset string)).
      { destruct Ha as (n & ->). simpl. rewrite Forall_forall in Hf. intros c [Hc|Hc]%elem_of_app.
        - apply Hex in Hc. set_solver.
        - apply Hf in Hc as [-> _]. set_solver. }
      destruct (IH _ _ _ _ E2 Hex1) as (new' & Ha' & Hf'). exists (new ++ new').
      split; [|apply Forall_app; split].
      * destruct res; injection Hk as _ <-; by eapply adds_trans.
      * eapply Forall_impl; [exact Hf|]. intros c (H1 & H2 & Hs). unfold placeholder. rewrite H1, H2. split; [by left|]. by split.
      * eapply Hmono; [|exact Hf']. set_solver.
    + injection Hk as _ <-. exists new. split; [done|]. eapply Forall_impl; [exact Hf|].
      intros c (H1 & H2 & Hs). unfold placeholder. rewrite H1, H2. split; [by left|]. by split.
Qed.

Lemma partition_import_keys kvs app skip app' skip' :
  partition_import kvs app skip = inr (app', skip') -> forall k v, app' !! k = Some v ->
  app !! k = Some v \/ (allowed k = true /\ secret k = false).
Proof.
  revert app skip. induction kvs as [|[k v] kvs IH]; simpl; intros app skip.
  - intros [= <- <-]. auto.
  - destruct (negb (allowed k) || secret k) eqn:Ea; [by apply IH|].
    destruct (validateSettingValue k v); [done|]. apply orb_false_iff in Ea as [Ea%negb_false_iff Es].
    intros Hk k' v' Hkv. destruct (IH _ _ Hk k' v' Hkv) as [Hl|]; [|auto].
    apply lookup_insert_Some in Hl as [[<- _]|[_ Hl]]; auto.
Qed.

(** The list of the credentials names every stored host. *)
Lemma list_same w r w' : Credentials.List_ w = (r, w') ->
  w'.(w_db) = w.(w_db) /\ forall creds, r = Ok creds ->
    hosts_of creds = list_to_set (map cr_RegistryHost w.(w_db).(credentials).(rows)).
Proof.
  unfold Credentials.List_. intros Hs. destruct r as [creds|e]; [|apply sql_err_inv in Hs as ->; done].
  apply sql_ok_inv in Hs as ([= Hc Hd] & _). split; [done|]. intros creds' [= <-]. rewrite <- Hc. unfold hosts_of.
  rewrite map_map. simpl. apply set_eq. intros h. rewrite !elem_of_list_to_set.
  pose proof (sort_stable_perm Credentials.by_host w.(w_db).(credentials).(rows)) as Hp. by rewrite Hp.
Qed.

(** An import reaches no secret.  A refused one (400) changes nothing at all.
    Whatever the answer: no secret setting and none outside the whitelist changes,
    every stored credential stays as it is, and what is added are placeholders for
    hosts that had none, as the payload names them, without a password; no other
    table changes. *)
Theorem import_settings_spec uid r s rs s' :
  handleImportSettings uid r s = (rs, s') ->
  (rs.(rs_code) = 400 -> s' = s) /\
  (forall k, secret k = true \/ allowed k = false -> Settings.lookup k (store s') = Settings.lookup k (store s)) /\
  exists st n new, store s' = with_credentials (mkTable ((store s).(credentials).(rows) ++ new) n) (with_settings st (store s)) /\
    Forall (placeholder (import_registries r.(rq_body)) (list_to_set (map cr_RegistryHost (store s).(credentials).(rows)))) new.
Proof.
  assert (Hsame : forall s0, store s0 = store s -> (forall k, secret k = true \/ allowed k = false ->
      Settings.lookup k (store s0) = Settings.lookup k (store s)) /\
    exists st n new, store s0 = with_credentials (mkTable ((store s).(credentials).(rows) ++ new) n) (with_settings st (store s)) /\
    Forall (placeholder (import_registries r.(rq_body)) (list_to_set (map cr_RegistryHost (store s).(credentials).(rows)))) new).
  { intros s0 ->. split; [done|]. exists (store s).(settings), (store s).(credentials).(seq), [].
    split; [|constructor]. rewrite app_nil_r. by destruct (store s) as [? ? ? ? ? ? ? ? ? ? ? ? ? [? ?] ?]. }
  unfold handleImportSettings. destruct (negb _); [intros [= <- <-]; split; [done|by apply Hsame]|].
  destruct (negb _); [intros [= <- <-]; split; [done|by apply Hsame]|].
  destruct (partition_import _ _ _) as [e|[app skip]] eqn:Ep; [intros [= <- <-]; split; [done|by apply Hsame]|].
  assert (Hkeys : forall k, secret k = true \/ allowed k = false -> k ∉ map fst (range app)).
  { intros k Hk Hin. apply list_elem_of_In, in_map_iff in Hin as ([k0 v] & Heq & Hin). simpl in Heq. subst k0.
    apply list_elem_of_In, range_elem_of in Hin.
    destruct (partition_import_keys _ _ _ _ _ Ep k v Hin) as [Hl|[H1 H2]]; [by rewrite lookup_empty in Hl|].
    destruct Hk; congruence. }
  intros (res & s1 & Hset & _ & Hk)%or_answer_inv. apply set_all_inv in Hset. fold (store s) (store s1) in Hset.
  assert (Hst1 : (forall k, secret k = true \/ allowed k = false -> Settings.lookup k (store s1) = Settings.lookup k (store s)) /\
    exists st, store s1 = with_settings st (store s)).
  { destruct Hset as [H1 H2]. split; [|done]. intros k Hs. by apply H2, Hkeys. }
  clear Hset Hkeys Ep Hsame. destruct Hst1 as (Hlk & st & Hst).
  assert (Hend : forall s0, store s0 = store s1 -> (forall k, secret k = true \/ allowed k = false ->
      Settings.lookup k (store s0) = Settings.lookup k (store s)) /\
    exists st n new, store s0 = with_credentials (mkTable ((store s).(credentials).(rows) ++ new) n) (with_settings st (store s)) /\
    Forall (placeholder (import_registries r.(rq_body)) (list_to_set (map cr_RegistryHost (store s).(credentials).(rows)))) new).
  { intros s0 ->. split; [done|]. exists st, (store s).(credentials).(seq), []. split; [|constructor].
    rewrite Hst, app_nil_r. by destruct (store s) as [? ? ? ? ? ? ? ? ? ? ? ? ? [? ?] ?]. }
  destruct res as [[]|e]; [|destruct Hk as [-> ->]; split; [done|by apply Hend]].
  apply bind_inv in Hk as (z & s2 & Hl & Hk). apply applyLive_db in Hl as (Hl & _).
  assert (Hst2 : store s2 = store s1) by (unfold store, srv_world; by rewrite Hl).
  apply or_answer_inv in Hk as (creds & s3 & Hlist & _ & Hk).
  apply list_same in Hlist as [Hst3 Hhosts]. fold (store s2) (store s3) in Hst3, Hhosts.
  destruct creds as [creds|e]; [|destruct Hk as [-> ->]; split; [done|apply Hend; congruence]].
  apply or_answer_inv in Hk as (regs & s4 & Himp & _ & Hk).
  apply import_hosts_inv in Himp as (new & (n & Hadd) & Hnew).
  2:{ intros c Hc. rewrite (Hhosts creds eq_refl). fold (store s3) in Hc. rewrite Hst3 in Hc.
      apply elem_of_list_to_set, list_elem_of_In, in_map_iff. exists c. split; [done|]. by apply list_elem_of_In. }
  assert (Hfin : store s' = store s4 /\ rs.(rs_code) <> 400).
  { destruct regs as [regs|e]; [by injection Hk as <- <-|]. by destruct Hk as [-> ->]. }
  destruct Hfin as [Hfin Hcode]. split; [done|]. fold (store s3) (store s4) in Hadd.
  assert (Hrows : (store s3).(credentials).(rows) = (store s).(credentials).(rows)) by (by rewrite Hst3, Hst2, Hst).
  rewrite Hfin, Hadd, Hrows. split.
  - intros k Hs. unfold Settings.lookup. simpl. rewrite Hst3, Hst2. by apply Hlk.
  - exists st, n, new. split.
    + rewrite Hst3, Hst2, Hst. done.
    + rewrite (Hhosts creds eq_refl), Hst2, Hst in Hnew. exact Hnew.
Qed.

End Put.

(** ** Secrets are not shown *)

(** Two databases that differ in nothing the API may show: the same settings but
    for the texts of secrets, which are set in both or in neither, and the same
    credentials but for the sealed passwords. *)
Record alike (d1 d2 : db) : Prop := {
  alike_plain k : SettingsApi.secret k = false -> Settings.lookup k d1 = Settings.lookup k d2;
  alike_secret k : SettingsApi.secret k = true ->
    default "" (Settings.lookup k d1) = "" <-> default "" (Settings.lookup k d2) = "";
  alike_credentials : map Credentials.public d1.(credentials).(rows) = map Credentials.public d2.(credentials).(rows);
}.

Definition twins (w1 w2 : world) : Prop := w1.(w_tick) = w2.(w_tick) /\ alike w1.(w_db) w2.(w_db).

(** A computation whose answers on twins are related, and that leaves twins. *)
Definition blind {A} (rel : A -> A -> Prop) (m : M world A) : Prop := forall w1 w2, twins w1 w2 ->
  rel (m w1).1 (m w2).1 /\ twins (m w1).2 (m w2).2.

(** The calls of both count alike. *)
Lemma twins_tick w1 w2 : twins w1 w2 -> twins (tick w1) (tick w2).
Proof. intros [Ht Ha]. split; [simpl; congruence|exact Ha]. Qed.

Section Blind.
Context {E : Env} {SS : SliceSort}.
Import SettingsApi.

Definition rel_ok {A} (rel : A -> A -> Prop) (r1 r2 : result A) : Prop :=
  match r1, r2 with Ok a, Ok b => rel a b | Err e, Err f => e = f | _, _ => False end.

Lemma blind_bind_ok {A B} (rel : A -> A -> Prop) (rel' : B -> B -> Prop) (m : M world (result A)) k w1 w2 :
  blind (rel_ok rel) m -> twins w1 w2 ->
  (forall a b v1 v2, rel a b -> twins v1 v2 -> rel_ok rel' (k a v1).1 (k b v2).1 /\ twins (k a v1).2 (k b v2).2) ->
  rel_ok rel' (bind_ok m k w1).1 (bind_ok m k w2).1 /\ twins (bind_ok m k w1).2 (bind_ok m k w2).2.
Proof.
  intros Hm Ht Hk. specialize (Hm w1 w2 Ht). unfold bind_ok, bind.
  destruct (m w1) as [[a|e] v1], (m w2) as [[b|f] v2]; simpl in *; destruct Hm as [Hr Hv]; try done. by apply Hk.
Qed.

(** A read of a setting: the text, or for a secret only whether there is one. *)
Definition same_setting (k v1 v2 : string) : Prop := if secret k then v1 = "" <-> v2 = "" else v1 = v2.

Lemma blind_read_setting k : blind (rel_ok (same_setting k)) (read_setting k).
Proof.
  intros w1 w2 Htw. pose proof (twins_tick _ _ Htw) as Htk. destruct Htw as [Ht Ha].
  unfold read_setting, Settings.Get, sql, bind. rewrite Ht.
  destruct (sql_fault w2.(w_tick)) as [e|]; simpl.
  { destruct (errors_Is _ _); simpl; (split; [|exact Htk]); [|done]. unfold same_setting. by destruct (secret k). }
  assert (Hs : same_setting k (default "" (Settings.lookup k w1.(w_db))) (default "" (Settings.lookup k w2.(w_db)))).
  { unfold same_setting. destruct (secret k) eqn:Es; [by apply alike_secret|]. by rewrite (alike_plain _ _ Ha k Es). }
  destruct (Settings.lookup k w1.(w_db)), (Settings.lookup k w2.(w_db)); simpl in *; (split; [exact Hs|exact Htk]).
Qed.

Lemma same_field spec v1 v2 : secret spec.1 = spec.2 -> same_setting spec.1 v1 v2 ->
  setting_field spec v1 = setting_field spec v2.
Proof.
  unfold same_setting, setting_field. intros ->. destruct spec.2; [|by intros ->]. intros Hv. do 3 f_equal.
  destruct (String.eqb_spec v1 "") as [->|], (String.eqb_spec v2 "") as [->|]; naive_solver.
Qed.

(** The specs say of each key whether it is a secret. *)
Lemma keys_faithful : Forall (fun spec => secret spec.1 = spec.2) settingKeys.
Proof. repeat constructor. Qed.

Lemma blind_read_settings specs : Forall (fun spec => secret spec.1 = spec.2) specs ->
  blind (rel_ok eq) (read_settings specs).
Proof.
  induction 1 as [|spec specs Hs _ IH]; intros w1 w2 Ht; simpl; [by split|].
  apply (blind_bind_ok (same_setting spec.1)); [apply blind_read_setting|done|]. intros v1 v2 x1 x2 Hv Hx.
  rewrite (same_field spec v1 v2) by done. apply (blind_bind_ok eq); [exact IH|done|]. by intros o ? y1 y2 <- Hy.
Qed.

Lemma blind_export specs : Forall (fun spec => secret spec.1 = spec.2) specs ->
  blind (rel_ok eq) (export_settings specs).
Proof.
  induction 1 as [|[key []] specs Hs _ IH]; intros w1 w2 Ht; simpl; [by split|by apply IH|].
  apply (blind_bind_ok (same_setting key)); [apply blind_read_setting|done|]. intros v1 v2 x1 x2 Hv Hx.
  simpl in Hs. unfold same_setting in Hv. rewrite Hs in Hv. subst v2.
  apply (blind_bind_ok eq); [exact IH|done|]. by intros o ? y1 y2 <- Hy.
Qed.

(** Sorting by the host commutes with what is shown of a row. *)
Definition by_public (a b : Z * string * string * Z) : bool := str_less a.1.1.2 b.1.1.2.

Lemma public_sorted l : map Credentials.public (sort_stable Credentials.by_host l) = sort_stable by_public (map Credentials.public l).
Proof.
  assert (Hins : forall c l, map Credentials.public (insert_stable Credentials.by_host c l) =
                             insert_stable by_public (Credentials.public c) (map Credentials.public l)).
  { intros c. induction l0 as [|x l0 IH]; simpl; [done|].
    change (by_public (Credentials.public x) (Credentials.public c)) with (Credentials.by_host x c).
    destruct (Credentials.by_host x c); simpl; congruence. }
  induction l as [|c l IH]; simpl; [done|]. by rewrite Hins, IH.
Qed.

Lemma blind_credentials : blind (rel_ok eq) Credentials.List_.
Proof.
  intros w1 w2 Htw. pose proof (twins_tick _ _ Htw) as Htk. destruct Htw as [Ht Ha].
  unfold Credentials.List_, sql, query. rewrite Ht. destruct (sql_fault _); simpl; (split; [|exact Htk]); [done|]. by rewrite !public_sorted, (alike_credentials _ _ Ha).
Qed.

(** An endpoint that answers after blind calls. *)
Lemma blind_answer {A} (m : M world (result A)) h k s1 s2 :
  blind (rel_ok eq) m -> twins (srv_world s1) (srv_world s2) ->
  (forall a t1 t2, twins (srv_world t1) (srv_world t2) -> (k a t1).1 = (k a t2).1) ->
  (or_answer m h k s1).1 = (or_answer m h k s2).1.
Proof.
  intros Hm Ht Hk. specialize (Hm _ _ Ht). unfold or_answer, bind, on_world, on_scanning, Scanner.lift.
  fold (srv_world s1) (srv_world s2).
  destruct (m (srv_world s1)) as [[a|e] v1], (m (srv_world s2)) as [[b|f] v2]; simpl in *; destruct Hm as [Hr Hv];
    try done; subst; [|done]. by apply Hk.
Qed.

(** C37. No answer tells a stored secret: on two servers that differ only in the texts
    of secret settings (set in both or in neither) and in the sealed passwords of
    registries, the settings, their export and the list of registries are answered
    the same. *)
Theorem secrets_not_shown uid r s1 s2 :
  twins (srv_world s1) (srv_world s2) ->
  (handleGetSettings uid r s1).1 = (handleGetSettings uid r s2).1 /\
  (handleExportSettings uid r s1).1 = (handleExportSettings uid r s2).1 /\
  (handleListRegistries uid r s1).1 = (handleListRegistries uid r s2).1.
Proof.
  intros Ht. pose proof keys_faithful as Hk. split; [|split].
  - apply blind_answer; [by apply blind_read_settings|done|done].
  - apply blind_answer; [by apply blind_export|done|]. intros a t1 t2 Ht'.
    apply blind_answer; [apply blind_credentials|done|done].
  - apply blind_answer; [apply blind_credentials|done|done].
Qed.

End Blind.
