(* ===== verification/RouteFoot.v ===== *)
(** * The footprint of the API

    An invariant of the server made of the schema's integrity, a property of the
    database and one of the rest of the process, with the files as they were and a
    trace of reading calls: how each kind of call keeps it, and which handlers keep
    every such invariant because they only read. *)

From stdpp Require Import base list strings gmap.
From S2P Require Import Prelude GoStd Semver Db Integrity World StoreUpdates StoreJobs StoreServices StoreMisc.
From S2P Require Import Files Compose Daemon SelfUpdate Scan Password RateLimit ScanRun Http HttpApi HttpSettings HttpStreams Routes.

Local Open Scope Z_scope.

(** What the API does to the outside: statements, hints to the dashboard, reads of
    files, GET requests, and the reading calls of the daemon. *)
Definition api_event (e : event) : bool :=
  match e with
  | EvSql _ _ | EvNotify _ _ => true
  | EvHttp method _ => String.eqb method "GET"
  | EvFile op _ => str_in ["read"; "stat"] op
  | EvDocker op _ _ => str_in ["logs"; "ping"; "version"] op
  | _ => false
  end.

Create HintDb api discriminated.

Section Inside.
Context {E : Env} (w0 : world) (P : db -> Prop).

Definition inside (w : world) : Prop :=
  db_ok w.(w_db) /\ P w.(w_db) /\ w.(w_fs) = w0.(w_fs) /\
  exists l, w.(w_trace) = l ++ w0.(w_trace) /\ forallb api_event l = true.

Lemma inside_tick w : inside w -> inside (tick w).
Proof. done. Qed.

Lemma inside_record e w : api_event e = true -> inside w -> inside (record e w).
Proof.
  intros He (H1 & H2 & H3 & l & H4 & H5). split; [done|]. split; [done|]. split; [done|].
  exists (e :: l). simpl. by rewrite H4, He.
Qed.

Lemma inside_sql {A} op id (st : stmt A) : stmt_keeps db_ok st -> stmt_keeps P st -> keeps inside (sql op id st).
Proof.
  intros Hok HP w Hw. destruct (sql op id st w) as [[a|e] w'] eqn:Es; simpl.
  - apply sql_ok_inv in Es as (Hs & Hf & Ht & _). destruct Hw as (H1 & H2 & H3 & l & H4 & H5).
    split; [by eapply Hok|]. split; [by eapply HP|]. split; [congruence|].
    exists (EvSql op id :: l). by rewrite Ht, H4.
  - apply sql_err_inv in Es as ->. exact Hw.
Qed.

Lemma inside_read {A} op id (st : stmt A) : read_stmt st -> keeps inside (sql op id st).
Proof. intros Hr. apply inside_sql; intros t d a d' Hd Hs; apply Hr in Hs; congruence. Qed.

Lemma inside_now : keeps inside now.
Proof. intros w Hw. exact Hw. Qed.

(** An answer of the environment. *)
Lemma inside_ask {A} (f : nat -> A) : keeps inside (ask f).
Proof. intros w Hw. exact Hw. Qed.

Lemma inside_call {A} (ev : A -> event) answer : (forall a, api_event (ev a) = true) -> keeps inside (call ev answer).
Proof. intros He w Hw. by apply (inside_record _ (tick w)). Qed.

Lemma inside_emit e : api_event e = true -> keeps inside (emit e).
Proof. intros He w Hw. by apply inside_record. Qed.

Lemma inside_sys {A} op path (f : fs -> result (A * fs)) :
  str_in ["read"; "stat"] op = true -> (forall m a m', f m = Ok (a, m') -> m' = m) -> keeps inside (sys op path f).
Proof.
  intros Ho Hf w Hw. unfold sys. destruct (os_fault _); [exact Hw|].
  destruct (f w.(w_fs)) as [[a m]|e] eqn:Ef; [|exact Hw]. simpl. apply Hf in Ef as ->.
  apply (inside_record _ (set_fs w.(w_fs) (tick w))); [exact Ho|]. by destruct w.
Qed.

Lemma inside_ReadFile path : keeps inside (sys_ReadFile path).
Proof. apply inside_sys; [done|]. intros m a m' H. case_match; [|done]. by injection H. Qed.

Lemma inside_Stat path : keeps inside (sys_Stat path).
Proof. apply inside_sys; [done|]. intros m a m' H. case_match; [|done]. by injection H. Qed.

(** ** On the server *)

Context (Q : gmap string Limiter.failEntry -> ScanRunner.ScanRunner -> Z -> Prop).

Definition inside_srv (s : server) : Prop :=
  inside (srv_world s) /\ Q s.(srv_limiter) s.(srv_runner) s.(srv_level).

Lemma inside_on_world {A} (m : M world A) : keeps inside m -> keeps inside_srv (on_world m).
Proof.
  intros Hm s [Hw Hq]. specialize (Hm _ Hw). unfold on_world, on_scanning, Scanner.lift, srv_world in *.
  destruct s as [[w n h] l r v]. simpl in *. by destruct (m w).
Qed.

Lemma inside_answer {A} (m : M world (result A)) h k :
  keeps inside m -> (forall a, keeps inside_srv (k a)) -> keeps inside_srv (or_answer m h k).
Proof.
  intros Hm Hk. apply keeps_bind; [by apply inside_on_world|]. intros [a|e]; [apply Hk|apply keeps_ret].
Qed.

Lemma inside_snapshot {A} (f : ScanRunner.ScanRunner -> A) : keeps inside_srv (on_runner (fun sr => (f sr, sr))).
Proof. intros [sc l r v] H. exact H. Qed.

Lemma inside_runner {A} (f : ScanRunner.ScanRunner -> A * ScanRunner.ScanRunner) :
  (forall l r v, Q l r v -> Q l (f r).2 v) -> keeps inside_srv (on_runner f).
Proof. intros Hf [sc l r v] [Hw Hq]. unfold on_runner, inside_srv, srv_world in *. simpl in *. specialize (Hf _ _ _ Hq). by destruct (f r). Qed.

Lemma inside_limiter {A} (f : gmap string Limiter.failEntry -> A * gmap string Limiter.failEntry) :
  (forall l r v, Q l r v -> Q (f l).2 r v) -> keeps inside_srv (on_limiter f).
Proof. intros Hf [sc l r v] [Hw Hq]. unfold on_limiter, inside_srv, srv_world in *. simpl in *. specialize (Hf _ _ _ Hq). by destruct (f l). Qed.

Lemma inside_level v : (forall l r u, Q l r u -> Q l r v) -> keeps inside_srv (set_level v).
Proof. intros Hv [sc l r u] [Hw Hq]. split; [exact Hw|]. by eapply Hv. Qed.

(** ** Loops *)

Lemma inside_map_each {A B} (f : A -> M world B) l : (forall a, keeps inside (f a)) -> keeps inside (map_each f l).
Proof.
  intros Hf. induction l as [|a l IH]; simpl; [apply keeps_ret|].
  apply keeps_bind; [apply Hf|]. intros b. apply keeps_bind; [exact IH|]. intros bs. apply keeps_ret.
Qed.
End Inside.

#[export] Hint Resolve inside_now inside_ask inside_ReadFile inside_Stat inside_snapshot : api.

(** Down a handler: the calls that keep every such invariant; what is left is the
    statements that change something. *)
Ltac api_step :=
  first
  [ solve [eauto with api nocore]
  | apply inside_read; read_stmt
  | apply inside_call; intros; reflexivity
  | apply inside_emit; reflexivity
  | apply inside_map_each; intros ?
  | match goal with |- keeps (inside_srv _ _ _) (or_answer _ _ _) => apply inside_answer; [|intros ?] end
  | match goal with |- keeps (inside_srv _ _ _) (on_world _) => apply inside_on_world end
  | keeps_step ].
Ltac api_walk := repeat api_step.

(** ** The handlers that only read *)

Section Readers.
Context {E : Env} {SS : SliceSort} {R : Random} {A2 : Argon2} {SH : Sha256} {MR : MapRange} {SL : Sealer}.
Context {CG : Compose.ComposeGo} {G : Checker.Releases} {ZL : Zerolog} {D : Deps} {L : LogFiles} {ST : Streams}.
Context (w0 : world) (P : db -> Prop) (Q : gmap string Limiter.failEntry -> ScanRunner.ScanRunner -> Z -> Prop).

Notation in_world m := (keeps (inside w0 P) m).
Notation in_server m := (keeps (inside_srv w0 P Q) m).

Lemma read_update_row u : in_world (Api.update_row u).
Proof. unfold Api.update_row, Services.Get. api_walk. Qed.
Hint Resolve read_update_row : api.

Lemma read_list_updates uid r : in_server (Api.handleListUpdates uid r).
Proof. unfold Api.handleListUpdates, Updates.ListVisible. api_walk. Qed.

Lemma read_last_applied uid r : in_server (Api.handleListLastApplied uid r).
Proof. unfold Api.handleListLastApplied, Updates.ListLastAppliedByService. api_walk. Qed.

Lemma read_with_id r k : (forall id, in_server (k id)) -> in_server (Api.with_id r k).
Proof. intros Hk. unfold Api.with_id. case_match; [apply Hk|apply keeps_ret]. Qed.

Lemma read_service_project r k : (forall svc proj, in_server (k svc proj)) -> in_server (Api.loadServiceProject r k).
Proof.
  intros Hk. unfold Api.loadServiceProject. apply read_with_id. intros id. unfold Services.Get, Projects.Get. api_walk.
Qed.

Lemma read_preview uid r : in_server (Api.handlePreview uid r).
Proof.
  unfold Api.handlePreview. apply read_with_id. intros id. unfold Updates.Get, Services.Get, Projects.Get. api_walk.
Qed.

Lemma read_logs uid r : in_server (Api.handleLogs uid r).
Proof. unfold Api.handleLogs. apply read_service_project. intros svc proj. api_walk. Qed.

Lemma read_get_job uid r : in_server (Api.handleGetJob uid r).
Proof. unfold Api.handleGetJob. apply read_with_id. intros id. unfold Jobs.Get. api_walk. Qed.

Lemma read_list_jobs uid r : in_server (Api.handleListJobs uid r).
Proof. unfold Api.handleListJobs, Jobs.List_. api_walk. Qed.

Lemma read_service_dto remote sv : in_world (Api.serviceDTO remote sv).
Proof. unfold Api.serviceDTO, Images.GetByDigest. api_walk. Qed.
Hint Resolve read_service_dto : api.

Lemma read_projects_rows remote prs : in_world (Api.projects_rows remote prs).
Proof. induction prs as [|pr prs IH]; simpl; unfold Services.ListByProject; api_walk. Qed.
Hint Resolve read_projects_rows : api.

Lemma read_projects uid r : in_server (Api.handleProjects uid r).
Proof. unfold Api.handleProjects, Projects.List_, RemoteStates.All. api_walk. Qed.

Lemma read_compose uid r : in_server (Api.handleProjectCompose uid r).
Proof. unfold Api.handleProjectCompose, Api.composeFileDTO, Projects.Get. api_walk. Qed.

Lemma read_events uid r : in_server (Api.handleServiceEvents uid r).
Proof. unfold Api.handleServiceEvents. apply read_with_id. intros id. unfold Events.ListByService. api_walk. Qed.

Lemma read_docker : in_world Api.dockerReachable.
Proof. unfold Api.dockerReachable. api_walk. Qed.
Hint Resolve read_docker : api.

Lemma read_status uid r : in_server (Api.handleStatus uid r).
Proof. unfold Api.handleStatus, Settings.Get. api_walk. Qed.

Lemma read_system uid r : in_server (Api.handleSystemInfo uid r).
Proof. unfold Api.handleSystemInfo, Users.GetByID. api_walk. Qed.

Lemma read_health r : in_server (Api.handleHealth r).
Proof. unfold Api.handleHealth. api_walk. Qed.

Lemma read_scan_status uid r : in_server (Api.handleScanStatus uid r).
Proof. unfold Api.handleScanStatus. api_walk. Qed.

Lemma read_setting k : in_world (SettingsApi.read_setting k).
Proof. unfold SettingsApi.read_setting, Settings.Get. api_walk. Qed.
Hint Resolve read_setting : api.

Lemma read_settings specs : in_world (SettingsApi.read_settings specs).
Proof. induction specs as [|spec specs IH]; simpl; api_walk. Qed.
Hint Resolve read_settings : api.

Lemma read_get_settings uid r : in_server (SettingsApi.handleGetSettings uid r).
Proof. unfold SettingsApi.handleGetSettings. api_walk. Qed.

Lemma read_export_settings specs : in_world (SettingsApi.export_settings specs).
Proof. induction specs as [|[key []] specs IH]; simpl; api_walk. Qed.
Hint Resolve read_export_settings : api.

Lemma read_credentials : in_world Credentials.List_.
Proof. unfold Credentials.List_. api_walk. Qed.
Hint Resolve read_credentials : api.

Lemma read_export uid r : in_server (SettingsApi.handleExportSettings uid r).
Proof. unfold SettingsApi.handleExportSettings. api_walk. Qed.

Lemma read_registries uid r : in_server (SettingsApi.handleListRegistries uid r).
Proof. unfold SettingsApi.handleListRegistries. api_walk. Qed.

Lemma read_log_config uid r : in_server (StreamApi.handleLogConfig uid r).
Proof. unfold StreamApi.handleLogConfig, Settings.Get. api_walk. Qed.

Lemma read_log_files uid r : in_server (StreamApi.handleLogFiles uid r).
Proof. unfold StreamApi.handleLogFiles, Logger.Files. api_walk. Qed.

Lemma read_log_download uid r : in_server (StreamApi.handleLogDownload uid r).
Proof. unfold StreamApi.handleLogDownload, Logger.Open. api_walk. Qed.

Lemma read_job_logs uid r : in_server (StreamApi.handleJobLogs uid r).
Proof.
  unfold StreamApi.handleJobLogs. apply read_with_id. intros id. unfold Jobs.Get, JobLogs.ListByJob. api_walk.
Qed.

Lemma read_event_stream uid r : in_server (StreamApi.handleEventStream uid r).
Proof. unfold StreamApi.handleEventStream. api_walk. Qed.

Lemma read_me uid r : in_server (Http.handleMe uid r).
Proof. unfold Http.handleMe, Users.GetByID. api_walk. Qed.

Lemma read_setup_status r : in_server (Http.handleSetupStatus r).
Proof. unfold Http.handleSetupStatus, Users.Count. api_walk. Qed.

Lemma read_spa r : in_server (StreamApi.spaHandler r).
Proof. unfold StreamApi.spaHandler. api_walk. Qed.

End Readers.
