(* ===== verification/RouteSafety.v ===== *)
(** * The API hands its work over, reading requests change nothing, sessions are earned *)

From stdpp Require Import base list strings gmap.
From S2P Require Import Prelude GoStd Semver Db Integrity World StoreUpdates StoreJobs StoreServices StoreMisc Store.
From S2P Require Import Files Compose Daemon SelfUpdate Scan Password RateLimit ScanRun Http HttpApi HttpSettings HttpStreams.
From S2P Require Import Routes RouteSpec RouteFoot.

Local Open Scope Z_scope.

(** ** The handlers that write

    They keep a property of the jobs and the sessions that survives the end of
    sessions and, where they do that, a job the user asks for or a purge. *)

(** A statement that touches neither. *)
Definition beside_stmt {A} (st : stmt A) : Prop := forall t d a d',
  st t d = Ok (a, d') -> d'.(jobs) = d.(jobs) /\ d'.(sessions) = d.(sessions).

Ltac beside_side := intros ? ? ? ? Heq; cbv beta zeta delta [query Updates.update_stmt Events.insert_stmt
    Settings.set_stmt Credentials.upsert_stmt Credentials.delete_stmt Services.update_by_id Services.upsert_stmt
    Projects.update_by_id Projects.upsert_stmt Users.create_stmt Users.set_hash_stmt] in Heq;
  repeat case_match; try discriminate Heq; injection Heq; intros; subst; split; reflexivity.

Record tolerates (P : db -> Prop) : Prop := {
  tol_beside d d' : P d -> d'.(jobs) = d.(jobs) -> d'.(sessions) = d.(sessions) -> P d';
  tol_logout p : stmt_keeps P (Sessions.delete_stmt p);
}.

(** And a job the user asks for. *)
Definition enqueues (P : db -> Prop) : Prop := forall type project service scope sc,
  stmt_keeps P (Jobs.insert_job (Api.user_job type project service scope) "queued" sc "user").

(** And a purge of the finished jobs. *)
Definition clears (P : db -> Prop) : Prop :=
  stmt_keeps P (fun _ d => Ok (count_where finished d.(jobs).(rows), delete_jobs finished d)).

Section Writers.
Context {E : Env} {SS : SliceSort} {R : Random} {A2 : Argon2} {SH : Sha256} {MR : MapRange} {SL : Sealer}.
Context {CG : Compose.ComposeGo} {G : Checker.Releases} {ZL : Zerolog} {D : Deps} {L : LogFiles} {ST : Streams}.
Context (w0 : world) (P : db -> Prop) (HP : tolerates P) (HQ : enqueues P) (HC : clears P).

Definition any (l : gmap string Limiter.failEntry) (r : ScanRunner.ScanRunner) (v : Z) : Prop := True.

Notation in_world m := (keeps (inside w0 P) m).
Notation in_server m := (keeps (inside_srv w0 P any) m).

Lemma inside_beside {A} op id (st : stmt A) : stmt_keeps db_ok st -> beside_stmt st -> in_world (sql op id st).
Proof.
  intros Hok Hb. apply inside_sql; [done|]. intros t d a d' Hd Hs.
  destruct (Hb _ _ _ _ Hs) as [H1 H2]. by apply (tol_beside P HP d d').
Qed.

Lemma write_enqueue type project service scope : in_world (Jobs.Enqueue (Api.user_job type project service scope)).
Proof. unfold Jobs.Enqueue. apply inside_sql; [eauto with keeps|]. apply HQ. Qed.

Lemma write_clear : in_world Jobs.DeleteFinished.
Proof. unfold Jobs.DeleteFinished. apply inside_sql; [eauto with keeps|]. exact HC. Qed.

Lemma write_logout op id p : in_world (sql op id (Sessions.delete_stmt p)).
Proof. apply inside_sql; [eauto with keeps|]. apply (tol_logout P HP). Qed.

Lemma ask_random k : in_world (read_random k).
Proof. intros w Hw. exact Hw. Qed.

Lemma ask_seal p : in_world (Settings.seal_now p).
Proof. intros w Hw. exact Hw. Qed.

Lemma any_runner {A} (f : ScanRunner.ScanRunner -> A * ScanRunner.ScanRunner) : in_server (on_runner f).
Proof. by apply inside_runner. Qed.

Lemma any_limiter {A} (f : gmap string Limiter.failEntry -> A * gmap string Limiter.failEntry) : in_server (on_limiter f).
Proof. by apply inside_limiter. Qed.

Lemma any_level v : in_server (set_level v).
Proof. by apply inside_level. Qed.

Hint Resolve write_enqueue write_clear write_logout ask_random ask_seal any_runner any_limiter any_level : api.
Hint Resolve read_with_id read_service_project read_setting read_credentials read_update_row : api.

Ltac write_step := first [api_step | apply inside_beside; [solve [eauto with keeps]|beside_side]
  | apply read_with_id; intros ? | apply read_service_project; intros ? ?].
Ltac write_walk := repeat write_step.

Lemma write_publish k id : in_world (ScanRunner.publish has_bus k id).
Proof. unfold ScanRunner.publish. write_walk. Qed.
Hint Resolve write_publish : api.

Lemma write_token : in_world Api.githubToken.
Proof. unfold Api.githubToken, Settings.GetSecret, Settings.Get. write_walk. Qed.
Hint Resolve write_token : api.

Lemma write_refresh c cache : in_world (Checker.refresh Api.githubToken c cache).
Proof.
  unfold Checker.refresh, Checker.fetchLatest, Checker.http_get, Checker.writeCache, Settings.Set_. write_walk.
Qed.
Hint Resolve write_refresh : api.

Lemma write_cache : in_world Checker.readCache.
Proof. unfold Checker.readCache, Settings.Get. write_walk. Qed.
Hint Resolve write_cache : api.

Lemma write_self_enqueue : in_world Api.enqueueSelfUpdate.
Proof. unfold Api.enqueueSelfUpdate, Checker.CheckFresh, Jobs.ActiveByType. write_walk. Qed.
Hint Resolve write_self_enqueue : api.

Lemma write_self uid r : in_server (Api.handleSelfUpdate uid r).
Proof. unfold Api.handleSelfUpdate, Checker.CheckFresh, Checker.Check. write_walk. Qed.

Lemma write_self_apply uid r : in_server (Api.handleSelfUpdateApply uid r).
Proof. unfold Api.handleSelfUpdateApply. write_walk. Qed.

Lemma write_apply uid r : in_server (Api.handleApply uid r).
Proof. unfold Api.handleApply, Updates.Get, Services.Get, Projects.Get. write_walk. Qed.

Lemma write_flip st k m r : in_server (Api.flip_update st k m r).
Proof. unfold Api.flip_update, Updates.Get, Updates.SetStatus, Events.Insert. write_walk. Qed.
Hint Resolve write_flip : api.

Lemma write_start scope : in_server (Api.Start scope).
Proof. unfold Api.Start, ScanRunner.resolve, Services.ListByProject, Services.List_. write_walk. Qed.
Hint Resolve write_start : api.

Lemma write_check uid r : in_server (Api.handleCheck uid r).
Proof. unfold Api.handleCheck, Api.serviceName, Services.Get. write_walk. Qed.

Lemma write_scan_all uid r : in_server (Api.handleScanAll uid r).
Proof. unfold Api.handleScanAll. write_walk. Qed.

Lemma write_scan_stop uid r : in_server (Api.handleScanAbort uid r).
Proof. unfold Api.handleScanAbort. write_walk. Qed.

Lemma write_lifecycle uid r : in_server (Api.handleLifecycle uid r).
Proof. unfold Api.handleLifecycle. write_walk. Qed.

Lemma write_remove uid r : in_server (Api.handleRemove uid r).
Proof. unfold Api.handleRemove. write_walk. Qed.

Lemma write_clear_jobs uid r : in_server (Api.handleClearJobs uid r).
Proof. unfold Api.handleClearJobs. write_walk. Qed.

Lemma write_rollback uid r : in_server (Api.handleRollback uid r).
Proof. unfold Api.handleRollback, Jobs.Get. write_walk. Qed.

Lemma write_put_all kvs : in_world (SettingsApi.put_all kvs).
Proof. induction kvs as [|[k v] kvs IH]; simpl; unfold Settings.SetSecret, Settings.Set_; write_walk. Qed.
Hint Resolve write_put_all : api.

Lemma write_live m : in_server (SettingsApi.applyLiveSettings m).
Proof. unfold SettingsApi.applyLiveSettings. write_walk. Qed.
Hint Resolve write_live : api.

Lemma write_put uid r : in_server (SettingsApi.handlePutSettings uid r).
Proof. unfold SettingsApi.handlePutSettings. write_walk. Qed.

Lemma write_set_all kvs : in_world (SettingsApi.set_all kvs).
Proof. induction kvs as [|[k v] kvs IH]; simpl; unfold Settings.Set_; write_walk. Qed.
Hint Resolve write_set_all : api.

Lemma write_credential h u p : in_world (Credentials.Upsert h u p).
Proof. unfold Credentials.Upsert. write_walk. Qed.
Hint Resolve write_credential : api.

Lemma write_hosts regs ex : in_world (SettingsApi.import_hosts regs ex).
Proof. revert ex. induction regs as [|[h u] regs IH]; intros ex; simpl; write_walk. Qed.
Hint Resolve write_hosts : api.

Lemma write_import uid r : in_server (SettingsApi.handleImportSettings uid r).
Proof. unfold SettingsApi.handleImportSettings. write_walk. Qed.

Lemma write_registry uid r : in_server (SettingsApi.handleUpsertRegistry uid r).
Proof. unfold SettingsApi.handleUpsertRegistry. write_walk. Qed.

Lemma write_del_registry uid r : in_server (SettingsApi.handleDeleteRegistry uid r).
Proof. unfold SettingsApi.handleDeleteRegistry, Credentials.Delete. write_walk. Qed.

Lemma write_project_auto uid r : in_server (SettingsApi.handleProjectAutoUpdate uid r).
Proof. unfold SettingsApi.handleProjectAutoUpdate, Projects.SetAutoUpdate. write_walk. Qed.

Lemma write_service_auto uid r : in_server (SettingsApi.handleServiceAutoUpdate uid r).
Proof. unfold SettingsApi.handleServiceAutoUpdate, Services.SetAutoUpdate. write_walk. Qed.

Lemma write_read_files files : in_world (Compose.read_files files).
Proof. induction files as [|f files IH]; simpl; write_walk. Qed.
Hint Resolve write_read_files : api.

Lemma write_parse dir files : in_world (Compose.Parse dir files).
Proof. unfold Compose.Parse, Compose.buildEnv. write_walk. Qed.
Hint Resolve write_parse : api.

Lemma write_seed p svcs : in_world (SettingsApi.seed_services p svcs).
Proof. induction svcs as [|cs svcs IH]; simpl; unfold Services.Upsert; write_walk. Qed.
Hint Resolve write_seed : api.

Lemma write_create uid r : in_server (SettingsApi.handleCreateProject uid r).
Proof. unfold SettingsApi.handleCreateProject, Projects.Upsert. write_walk. Qed.

Lemma write_sign_out uid r : in_server (Http.handleLogout uid r).
Proof. unfold Http.handleLogout, Sessions.Delete. write_walk. Qed.

End Writers.

(** ** Handing over *)

Definition endpoint_keeps (I : server -> Prop) (e : endpoint) : Prop :=
  match e with
  | Open h => forall r, keeps I (h r)
  | Guarded h => forall uid r, keeps I (h uid r)
  end.

(** Jobs in progress stay as they are, and new jobs are queued for the engine, by
    the user. *)
Definition handed (d0 d : db) : Prop :=
  (forall j, j ∈ d0.(jobs).(rows) -> finished j = false -> j ∈ d.(jobs).(rows)) /\
  (forall j, j ∈ d.(jobs).(rows) -> j ∈ d0.(jobs).(rows) \/
     (j.(job_Status) = "queued" /\ j.(job_RequestedBy) = "user" /\ j.(job_StartedAt) = None /\
      d0.(jobs).(seq) < j.(job_ID))) /\
  d0.(jobs).(seq) <= d.(jobs).(seq).

Lemma handed_refl d : handed d d.
Proof. split; [done|]. split; [|lia]. by left. Qed.

Lemma handed_tolerates d0 : tolerates (handed d0).
Proof.
  split.
  - intros d d' H Hj _. unfold handed. rewrite Hj. exact H.
  - intros p t d a d' H [= _ <-]. exact H.
Qed.

Lemma handed_clears d0 : clears (handed d0).
Proof.
  intros t d a d' (H1 & H2 & H3) [= _ <-]. split; [|split; [|done]]; simpl.
  - intros j Hj Hf. apply elem_of_filterb. rewrite Hf. split; [by apply H1|done].
  - intros j [Hj _]%elem_of_filterb. auto.
Qed.

Lemma handed_enqueues d0 : enqueues (handed d0).
Proof.
  intros type project service scope sc t d a d' (H1 & H2 & H3). unfold Jobs.insert_job.
    case_match; [done|]. intros [= _ <-]. unfold handed, insert_row, next_id. simpl. split; [set_solver|]. split; [|lia].
    intros j [Hj| ->%list_elem_of_singleton]%elem_of_app; [auto|]. right. simpl. unfold next_id. repeat split; lia.
Qed.

Section Theorems.
Context {E : Env} {SS : SliceSort} {R : Random} {A2 : Argon2} {SH : Sha256} {MR : MapRange} {SL : Sealer}.
Context {CG : Compose.ComposeGo} {G : Checker.Releases} {ZL : Zerolog} {D : Deps} {L : LogFiles} {ST : Streams} {C : Chi}.

(** The endpoints that make sessions. *)
Definition makes_session (e : endpoint) : Prop :=
  e = Open Http.handleSetup \/ e = Open Http.handleLogin \/ e = Guarded Http.handleChangePassword.

#[local] Create HintDb handlers discriminated.
(** The endpoints that make jobs. *)
Definition makes_job (e : endpoint) : Prop :=
  e = Guarded Api.handleApply \/ e = Guarded Api.handleSelfUpdateApply \/ e = Guarded Api.handleLifecycle \/
  e = Guarded Api.handleRemove \/ e = Guarded Api.handleRollback.

Hint Resolve read_list_updates read_last_applied read_preview read_logs read_get_job read_list_jobs read_projects
  read_compose read_events read_status read_system read_health read_scan_status read_get_settings read_export
  read_registries read_log_config read_log_files read_log_download read_job_logs read_event_stream read_me
  read_setup_status write_self write_self_apply write_apply write_flip write_check write_scan_all write_scan_stop
  write_lifecycle write_remove write_clear_jobs write_rollback write_put write_import write_registry
  write_del_registry write_project_auto write_service_auto write_create write_sign_out : handlers.

Lemma endpoints_keep w0 P (HP : tolerates P) (HC : clears P) rt :
  rt ∈ routes -> (makes_session rt.(rt_end) \/ makes_job rt.(rt_end)) \/ endpoint_keeps (inside_srv w0 P any) rt.(rt_end).
Proof.
  assert (Hall : Forall (fun rt => (makes_session rt.(rt_end) \/ makes_job rt.(rt_end)) \/
                                   endpoint_keeps (inside_srv w0 P any) rt.(rt_end)) routes).
  { unfold routes, open_routes, guarded_routes, Api.handleDismiss, Api.handleRestore.
    repeat (apply Forall_cons; split); try (by apply Forall_nil);
      first [right; simpl; solve [eauto with handlers nocore] | left; left; solve [by left | right; by left | right; by right]
      | left; right; solve [by left | right; by left | do 2 right; by left | do 3 right; by left | do 4 right; done]]. }
  rewrite Forall_forall in Hall. apply Hall.
Qed.

Lemma job_makers_keep w0 P (HP : tolerates P) (HQ : enqueues P) e :
  makes_job e -> endpoint_keeps (inside_srv w0 P any) e.
Proof. intros [-> | [-> | [-> | [-> | ->]]]]; simpl; eauto with handlers nocore. Qed.

Lemma requireAuth_keeps w0 P (HP : tolerates P) h r :
  (forall uid, keeps (inside_srv w0 P any) (h uid r)) -> keeps (inside_srv w0 P any) (Http.requireAuth h r).
Proof.
  intros Hh. pose proof (write_logout w0 P HP). unfold Http.requireAuth, Sessions.Get, Sessions.Delete. api_walk.
Qed.

(** The endpoints that make sessions leave the jobs alone. *)
Definition about_jobs (P : db -> Prop) : Prop := forall d d', P d -> d'.(jobs) = d.(jobs) -> P d'.

Lemma jobs_beside {A} P w0 op id (st : stmt A) :
  about_jobs P -> stmt_keeps db_ok st -> (forall t d a d', st t d = Ok (a, d') -> d'.(jobs) = d.(jobs)) ->
  keeps (inside w0 P) (sql op id st).
Proof. intros HP Hok Hj. apply inside_sql; [done|]. intros t d a d' Hd Hs. by apply (HP d), (Hj _ _ _ _ Hs). Qed.

Ltac jobs_side := intros ? ? ? ? Heq; cbv beta zeta delta [Sessions.insert_stmt Sessions.delete_stmt Users.create_stmt
    Users.set_hash_stmt] in Heq;
  repeat case_match; try discriminate Heq; injection Heq; intros; subst; reflexivity.
Ltac session_walk := repeat first [api_step | apply jobs_beside; [assumption|solve [eauto with keeps]|jobs_side]
  | apply any_limiter | apply ask_random].

Lemma handed_issue P w0 r uid rs : about_jobs P -> keeps (inside_srv w0 P any) (Http.issueSession r uid rs).
Proof. intros HP. unfold Http.issueSession, Http.new_session, newToken, Sessions.Create. session_walk. Qed.
Hint Resolve handed_issue : api.

Lemma handed_hash P w0 pw : about_jobs P -> keeps (inside w0 P) (Auth.HashPassword pw).
Proof. intros HP. unfold Auth.HashPassword. session_walk. Qed.
Hint Resolve handed_hash : api.

Lemma handed_makers P w0 e : about_jobs P -> makes_session e -> endpoint_keeps (inside_srv w0 P any) e.
Proof.
  intros HP [-> | [-> | ->]]; simpl; intros.
  - unfold Http.handleSetup, Users.Count, Users.Create. session_walk.
  - unfold Http.handleLogin, Http.refuse_login, Users.GetByUsername. session_walk.
  - unfold Http.handleChangePassword, Users.GetByID, Users.UpdatePasswordHash, Sessions.DeleteByUser. session_walk.
Qed.

Lemma run_keeps w0 P e r (HP : tolerates P) :
  endpoint_keeps (inside_srv w0 P any) e -> keeps (inside_srv w0 P any) (run_endpoint e r).
Proof. destruct e as [h|h]; simpl; intros He; [apply He|]. apply requireAuth_keeps; [done|]. intros uid. apply He. Qed.

Lemma inside_refl P Q s : db_ok (store s) -> P (store s) -> Q s.(srv_limiter) s.(srv_runner) s.(srv_level) ->
  inside_srv (srv_world s) P Q s.
Proof. intros H1 H2 H3. split; [|done]. split; [done|]. split; [done|]. split; [done|]. by exists []. Qed.

(** What every request keeps, whichever endpoint it reaches. *)
Lemma dispatch_keeps w0 P r (HP : tolerates P) (HC : clears P) :
  (forall e, endpoint_of r = Some e -> makes_session e \/ makes_job e -> endpoint_keeps (inside_srv w0 P any) e) ->
  keeps (inside_srv w0 P any) (dispatch r).
Proof.
  intros Hm. destruct (endpoint_of r) as [e|] eqn:He.
  - rewrite (dispatch_endpoint _ _ He). apply run_keeps; [done|].
    pose proof (endpoint_method _ _ He) as (rt & Hrt & _ & <-).
    destruct (endpoints_keep w0 P HP HC rt Hrt) as [Hs|Hk]; [by apply Hm|exact Hk].
  - unfold dispatch, endpoint_of in *. destruct (chi_match table r) as [i| |]; simpl in *.
    + destruct (routes !! i); [done|]. apply read_spa.
    + apply keeps_ret.
    + apply read_spa.
Qed.

(** One request: what it leaves of the world. *)
Lemma serve_hands_over r s rs s' :
  db_ok (store s) -> serve r s = (rs, s') ->
  db_ok (store s') /\ handed (store s) (store s') /\ (srv_world s').(w_fs) = (srv_world s).(w_fs) /\
  exists l, (srv_world s').(w_trace) = l ++ (srv_world s).(w_trace) /\ forallb api_event l = true.
Proof.
  intros Hok Hs. apply serve_inv in Hs as (rs0 & Hd & _).
  pose proof (handed_tolerates (store s)) as HP.
  assert (Hk : keeps (inside_srv (srv_world s) (handed (store s)) any) (dispatch r)).
  { apply dispatch_keeps; [done|apply handed_clears|]. intros e _ [Hm|Hm]; [by apply handed_makers; [intros d d1 Hd1 Hj; unfold handed; rewrite Hj|]|].
    apply job_makers_keep; [done|apply handed_enqueues|done]. }
  destruct (Hk s) as [Hw _]; [apply inside_refl; [done|apply handed_refl|done]|]. rewrite Hd in Hw. exact Hw.
Qed.

(** C6. The API hands its work over.  Whatever the request, signed in or not: it keeps
    the schema's integrity, changes no file, and does nothing to the outside but
    statements, hints, reads of files, GET requests and the reading calls of the
    daemon (logs, ping, version): it never runs compose and never changes a
    container.  The jobs in progress stay exactly as they are, and a new job is
    queued, for the engine, by the user. *)
Theorem api_hands_over r s rs s' :
  db_ok (store s) -> serve r s = (rs, s') ->
  db_ok (store s') /\ handed (store s) (store s') /\ (srv_world s').(w_fs) = (srv_world s).(w_fs) /\
  exists l, (srv_world s').(w_trace) = l ++ (srv_world s).(w_trace) /\ forallb api_event l = true.
Proof. apply serve_hands_over. Qed.

(** ** Reading requests *)

(** The settings but the cache of the release checker. *)
Definition settings_kept (d0 d : db) : Prop := exists st, d = with_settings st d0 /\
  forall k, k <> Checker.keyCache -> Settings.lookup k d = Settings.lookup k d0.

Lemma settings_kept_refl d : settings_kept d d.
Proof. exists d.(settings). by destruct d. Qed.

Lemma kept_cache d0 v : stmt_keeps (settings_kept d0) (Settings.set_stmt Checker.keyCache v).
Proof.
  intros t d a d' (st & -> & Hk) [= _ <-]. eexists. split; [reflexivity|]. intros k Hne. rewrite <- (Hk k Hne).
  by apply set_lookup_ne.
Qed.

Lemma kept_self d0 w0 Q uid r : keeps (inside_srv w0 (settings_kept d0) Q) (Api.handleSelfUpdate uid r).
Proof.
  assert (Hc : forall v, keeps (inside w0 (settings_kept d0)) (Settings.Set_ Checker.keyCache v)).
  { intros v. apply inside_sql; [eauto with keeps|]. apply kept_cache. }
  unfold Api.handleSelfUpdate, Checker.CheckFresh, Checker.Check, Checker.readCache, Checker.refresh,
    Checker.fetchLatest, Checker.http_get, Checker.writeCache, Api.githubToken, Settings.GetSecret, Settings.Get.
  api_walk.
Qed.

Hint Resolve kept_self : handlers.

Lemma get_endpoints w0 d0 Q rt : rt ∈ routes -> rt.(rt_method) = "GET" ->
  endpoint_keeps (inside_srv w0 (settings_kept d0) Q) rt.(rt_end).
Proof.
  assert (Hall : Forall (fun rt => rt.(rt_method) = "GET" ->
                           endpoint_keeps (inside_srv w0 (settings_kept d0) Q) rt.(rt_end)) routes).
  { unfold routes, open_routes, guarded_routes.
    repeat (apply Forall_cons; split); try (by apply Forall_nil); intros Hget;
      first [discriminate Hget | simpl; solve [eauto with handlers nocore]]. }
  rewrite Forall_forall in Hall. apply Hall.
Qed.

(** What is the same before and after a reading request. *)
Definition same_state (s s' : server) : Prop :=
  s'.(srv_limiter) = s.(srv_limiter) /\ s'.(srv_runner) = s.(srv_runner) /\ s'.(srv_level) = s.(srv_level) /\
  (srv_world s').(w_fs) = (srv_world s).(w_fs) /\
  exists l st, store s' = with_sessions l (with_settings st (store s)) /\
    (forall x, x ∈ l -> x ∈ (store s).(sessions)) /\
    (forall x, x ∈ (store s).(sessions) -> lives (guard_time s) x -> x ∈ l) /\
    forall k, k <> Checker.keyCache -> Settings.lookup k (store s') = Settings.lookup k (store s).

Lemma lapsed_state s s' : same_process s s' -> only_lapsed (guard_time s) (srv_world s) (srv_world s') -> same_state s s'.
Proof.
  intros (H1 & H2 & H3 & _) ((l & Hl & Hsub & Hlive) & Hfs & _). split; [done|]. split; [done|]. split; [done|].
  split; [done|]. exists l, (store s).(settings). unfold store in *. rewrite Hl.
  split; [by destruct (w_db (srv_world s))|]. repeat split; done.
Qed.

(** A handler that keeps the reading invariant, run on the database as it was. *)
Lemma kept_state (h : M server Response) s s1 rs s' :
  (forall Q, keeps (inside_srv (srv_world s1) (settings_kept (store s1)) Q) h) -> db_ok (store s) ->
  same_process s s1 -> store s1 = store s -> (srv_world s1).(w_fs) = (srv_world s).(w_fs) -> h s1 = (rs, s') ->
  same_state s s'.
Proof.
  intros Hk Hok (P1 & P2 & P3 & _) Hdb Hfs Hh.
  specialize (Hk (fun l r v => l = s1.(srv_limiter) /\ r = s1.(srv_runner) /\ v = s1.(srv_level)) s1).
  rewrite Hh in Hk. simpl in Hk. destruct Hk as [(_ & (st & Hst & Hlk) & Hf & _) (Q1 & Q2 & Q3)].
  { apply inside_refl; [by rewrite Hdb|apply settings_kept_refl|done]. }
  unfold same_state. rewrite Q1, Q2, Q3, Hf. repeat split; try congruence.
  exists (store s).(sessions), st. unfold store in *. rewrite Hdb in *. rewrite Hst.
  split; [by destruct (w_db (srv_world s))|]. split; [done|]. split; [done|]. intros k Hne. rewrite <- Hst. by apply Hlk.
Qed.

(** A GET request changes nothing: not the lockout, the scan-run, the log level or
    a file, and of the database only rows of sessions that have expired and the
    cached answer of the release checker. *)
Theorem get_reads r s rs s' :
  db_ok (store s) -> r.(rq_method) = "GET" -> serve r s = (rs, s') -> same_state s s'.
Proof.
  intros Hok Hget Hs. apply serve_inv in Hs as (rs0 & Hd & _).
  assert (Hself : forall (h : M server Response) s', (forall P Q, keeps (inside_srv (srv_world s) P Q) h) -> h s = (rs0, s') -> same_state s s').
  { intros h s1 Hk Hh. by apply (kept_state h s s rs0). }
  destruct (endpoint_of r) as [e|] eqn:He.
  - rewrite (dispatch_endpoint _ _ He) in Hd.
    pose proof (endpoint_method _ _ He) as (rt & Hrt & Hm & <-). rewrite Hget in Hm.
    assert (Hg := fun w0 d0 Q => get_endpoints w0 d0 Q rt Hrt Hm).
    destruct (rt_end rt) as [h|h] eqn:Hend; simpl in Hd, Hg.
    + by apply (kept_state (h r) s s rs0).
    + apply requireAuth_inv in Hd as [(sess & s1 & _ & Hp & Hl & Hst & Hh)|(_ & Hp & Hl)]; [| |done].
      * apply (kept_state (h sess.(se_UserID) r) s s1 rs0); try done. apply Hl.
      * by apply lapsed_state.
  - unfold dispatch, endpoint_of in *. destruct (chi_match table r) as [i| |]; simpl in *.
    + destruct (routes !! i); [done|]. apply (Hself (StreamApi.spaHandler r)); [|done]. intros P Q. apply read_spa.
    + apply (Hself (ret (mkResponse 405 None [] []))); [|done]. intros P Q. apply keeps_ret.
    + apply (Hself (StreamApi.spaHandler r)); [|done]. intros P Q. apply read_spa.
Qed.

(** ** Where sessions come from *)

(** No session but the old ones and those of the user. *)
Definition sessions_of (old : list Session) (uid : option Z) (d : db) : Prop :=
  forall x, x ∈ d.(sessions) -> x ∈ old \/ Some x.(se_UserID) = uid.

Lemma sessions_beside {A} old uid w0 op id (st : stmt A) :
  stmt_keeps db_ok st -> (forall t d a d', st t d = Ok (a, d') -> d'.(sessions) = d.(sessions)) ->
  keeps (inside w0 (sessions_of old uid)) (sql op id st).
Proof.
  intros Hok Hj. apply inside_sql; [done|]. intros t d a d' Hd Hs. unfold sessions_of. rewrite (Hj _ _ _ _ Hs). exact Hd.
Qed.

Lemma sessions_create old uid w0 op id h csrf e :
  keeps (inside w0 (sessions_of old (Some uid))) (sql op id (Sessions.insert_stmt h uid csrf e)).
Proof.
  apply inside_sql; [eauto with keeps|]. intros t d a d' Hd. unfold Sessions.insert_stmt.
  repeat case_match; try done. intros [= _ <-] x. simpl. intros [Hx| ->%list_elem_of_singleton]%elem_of_app; [auto|].
  by right.
Qed.

Lemma sessions_tolerates old uid : tolerates (sessions_of old uid).
Proof.
  split.
  - intros d d' Hd _ Hs. unfold sessions_of. by rewrite Hs.
  - intros p t d a d' Hd [= _ <-] x. simpl. intros [Hx _]%elem_of_filterb. by apply Hd.
Qed.

Lemma sessions_clears old uid : clears (sessions_of old uid).
Proof. intros t d a d' Hd [= _ <-]. exact Hd. Qed.

Lemma sessions_enqueues old uid : enqueues (sessions_of old uid).
Proof. intros type project service scope sc t d a d' Hd. unfold Jobs.insert_job. case_match; [done|]. by intros [= _ <-]. Qed.

Lemma sessions_deleted old uid w0 op id p : keeps (inside w0 (sessions_of old uid)) (sql op id (Sessions.delete_stmt p)).
Proof. apply write_logout, sessions_tolerates. Qed.

Ltac sessions_side := intros ? ? ? ? Heq; cbv beta zeta delta [Users.create_stmt Users.set_hash_stmt] in Heq;
  repeat case_match; try discriminate Heq; injection Heq; intros; subst; reflexivity.
Ltac of_walk := repeat first [api_step | apply sessions_create | apply sessions_deleted
  | apply sessions_beside; [solve [eauto with keeps]|sessions_side] | apply any_limiter | apply ask_random].

Lemma issue_of old w0 r uid rs : keeps (inside_srv w0 (sessions_of old (Some uid)) any) (Http.issueSession r uid rs).
Proof. unfold Http.issueSession, Http.new_session, newToken, Sessions.Create. of_walk. Qed.

Lemma change_of old w0 r uid hash : keeps (inside_srv w0 (sessions_of old (Some uid)) any)
  (need! _x := Users.UpdatePasswordHash uid hash else Http.writeInternalError in
   need! _y := Sessions.DeleteByUser uid else Http.writeInternalError in
   Http.issueSession r uid no_content).
Proof. pose proof (issue_of old w0). unfold Users.UpdatePasswordHash, Sessions.DeleteByUser. of_walk; auto. Qed.

(** What a run of such a step from [s1], on the sessions of [s], can add. *)
Lemma sessions_added {A} (h : M server A) s s1 uid x :
  keeps (inside_srv (srv_world s1) (sessions_of (store s).(sessions) uid) any) h ->
  db_ok (store s1) -> (store s1).(sessions) = (store s).(sessions) ->
  x ∈ (store (h s1).2).(sessions) -> x ∉ (store s).(sessions) -> Some x.(se_UserID) = uid.
Proof.
  intros Hk Hok Hs Hx Hno. destruct (Hk s1) as [(_ & HP & _) _].
  - apply inside_refl; [done| |done]. intros y Hy. left. by rewrite <- Hs.
  - by destruct (HP x Hx).
Qed.

Lemma setup_origin r s rs s' x :
  db_ok (store s) -> Http.handleSetup r s = (rs, s') -> x ∈ (store s').(sessions) -> x ∉ (store s).(sessions) ->
  (store s).(users).(rows) = [].
Proof.
  intros Hok (n & s1 & Hn & _ & Hk)%or_answer_inv Hx Hno. unfold Users.Count in Hn.
  apply read_sql_inv in Hn as [Hdb Hn]; [|read_stmt]. fold (store s) (store s1) in Hdb.
  destruct n as [n|e]; [|destruct Hk as [_ ->]; rewrite Hdb in Hx; done].
  destruct (Hn n eq_refl) as (t & [= Hlen]). destruct (Z.ltb_spec 0 n) as [Hlt|Hle].
  - injection Hk as _ <-. by rewrite Hdb in Hx.
  - fold (store s) in Hlen. destruct (rows (users (store s))); [done|]. simpl in Hlen. lia.
Qed.

Lemma on_limiter_inv {A} (f : gmap string Limiter.failEntry -> A * gmap string Limiter.failEntry) s a s' :
  on_limiter f s = (a, s') -> a = (f s.(srv_limiter)).1 /\ srv_world s' = srv_world s.
Proof. unfold on_limiter, srv_world. destruct (f _) as [b l]. by intros [= <- <-]. Qed.

(** The user of a name or an id, as the table has it. *)
Definition known (d : db) (p : User -> Prop) (u : User) : Prop := u ∈ d.(users).(rows) /\ p u.

Lemma login_origin r s rs s' x :
  db_ok (store s) -> Http.handleLogin r s = (rs, s') -> x ∈ (store s').(sessions) -> x ∉ (store s).(sessions) ->
  (Limiter.blocked (clientIP r.(rq_remote)) (guard_time s) s.(srv_limiter)).1 = None /\
  exists u, known (store s) (fun u => u.(us_Username) = str_field "username" r.(rq_body)) u /\
    Auth.VerifyPassword u.(us_PasswordHash) (str_field "password" r.(rq_body)) = Ok true /\ x.(se_UserID) = u.(us_ID).
Proof.
  intros Hok (t & s1 & Hnow & (lock & s2 & Hlk & Hk)%bind_inv)%bind_inv Hx Hno.
  apply on_world_inv in Hnow as [[= Ht Hw] (Hl & _)]. apply on_limiter_inv in Hlk as [-> Hw2].
  assert (Hd2 : store s2 = store s) by (unfold store; by rewrite Hw2, <- Hw). rewrite Hl in Hk.
  unfold guard_time. rewrite Ht.
  destruct (Limiter.blocked _ t _).1 as [retry|]; [injection Hk as _ <-; by rewrite Hd2 in Hx|]. split; [done|].
  destruct (negb _); [injection Hk as _ <-; by rewrite Hd2 in Hx|].
  apply bind_inv in Hk as (u & s3 & Hu & Hk). apply on_world_inv in Hu as [Hu _].
  unfold Users.GetByUsername in Hu. apply read_sql_inv in Hu as [Hd3 Hu]; [|read_stmt].
  assert (Hd : store s3 = store s) by (unfold store in *; congruence).
  assert (Hrefuse : forall ip, Http.refuse_login ip s3 = (rs, s') -> False).
  { intros ip Hr. pose proof (sessions_added (Http.refuse_login ip) s s3 None x) as Hadd. rewrite Hr in Hadd.
    discriminate Hadd; try done; [|by rewrite Hd..]. unfold Http.refuse_login. of_walk. }
  destruct u as [u|e]; [|by destruct (Hrefuse _ Hk)].
  destruct (Hu u eq_refl) as (t' & Hst). fold (store s2) in Hst. rewrite Hd2 in Hst.
  clear Hu. revert Hst. destruct (List.find _ _) as [u'|] eqn:Ef; [|done]. intros [= ->]. apply find_elem in Ef as [Hin Hname].
  destruct (Auth.VerifyPassword _ _) as [[]|] eqn:Ev; [|by destruct (Hrefuse _ Hk)..].
  exists u. split; [split; [done|by apply String.eqb_eq]|]. split; [done|].
  apply bind_inv in Hk as (z & s4 & Hs4 & Hk). apply on_limiter_inv in Hs4 as [_ Hw4].
  assert (Hd4 : store s4 = store s) by (unfold store in *; congruence).
  pose proof (sessions_added _ s s4 (Some u.(us_ID)) x 
    (issue_of _ _ r _ (respond 200 (JObj [("username", JStr u.(us_Username))])))) as Hadd. rewrite Hk in Hadd.
  injection (Hadd ltac:(by rewrite Hd4) ltac:(by rewrite Hd4) Hx Hno). done.
Qed.

Lemma change_origin uid r s rs s' x :
  db_ok (store s) -> Http.handleChangePassword uid r s = (rs, s') -> x ∈ (store s').(sessions) -> x ∉ (store s).(sessions) ->
  x.(se_UserID) = uid /\ exists u, known (store s) (fun u => u.(us_ID) = uid) u /\
    Auth.VerifyPassword u.(us_PasswordHash) (str_field "current" r.(rq_body)) = Ok true.
Proof.
  intros Hok. unfold Http.handleChangePassword. destruct (_ || _); [intros [= _ <-] ? ?; done|].
  intros (u & s1 & Hu & _ & Hk)%or_answer_inv Hx Hno. unfold Users.GetByID in Hu.
  apply read_sql_inv in Hu as [Hd1 Hu]; [|read_stmt]. fold (store s) (store s1) in Hd1, Hu.
  destruct u as [u|e]; [|destruct Hk as [_ ->]; by rewrite Hd1 in Hx].
  destruct (Hu u eq_refl) as (t & Hst). clear Hu. revert Hst. destruct (List.find _ _) as [u'|] eqn:Ef; [|done]. intros [= ->].
  apply find_elem in Ef as [Hin Hid%Z.eqb_eq].
  destruct (Auth.VerifyPassword _ _) as [[]|] eqn:Ev; [|injection Hk as _ <-; by rewrite Hd1 in Hx..].
  split; [|by exists u].
  assert (Hkeep : keeps (inside_srv (srv_world s1) (sessions_of (store s).(sessions) (Some uid)) any)
    (need! hash := Auth.HashPassword (str_field "new" r.(rq_body)) else Http.writeInternalError in
     need! _x := Users.UpdatePasswordHash uid hash else Http.writeInternalError in
     need! _y := Sessions.DeleteByUser uid else Http.writeInternalError in
     Http.issueSession r uid no_content)).
  { pose proof (fun h => change_of (store s).(sessions) (srv_world s1) r uid h). unfold Auth.HashPassword. of_walk; auto. }
  pose proof (sessions_added _ s s1 (Some uid) x Hkeep) as Hadd. rewrite Hk in Hadd.
  injection (Hadd ltac:(by rewrite Hd1) ltac:(by rewrite Hd1) Hx Hno). done.
Qed.

(** C10. A session is earned.  Whatever the request, a session that was not stored
    before it is there afterwards only if the request was the first set-up (no user
    existed), or a sign-in from an address that is not locked out with the name and
    the password of a stored user, or a change of password by a signed-in user who
    gave the current one; and it is a session of that very user. *)
Theorem session_origin r s rs s' x :
  db_ok (store s) -> serve r s = (rs, s') -> x ∈ (store s').(sessions) -> x ∉ (store s).(sessions) ->
  (endpoint_of r = Some (Open Http.handleSetup) /\ (store s).(users).(rows) = []) \/
  (endpoint_of r = Some (Open Http.handleLogin) /\
   (Limiter.blocked (clientIP r.(rq_remote)) (guard_time s) s.(srv_limiter)).1 = None /\
   exists u, known (store s) (fun u => u.(us_Username) = str_field "username" r.(rq_body)) u /\
     Auth.VerifyPassword u.(us_PasswordHash) (str_field "password" r.(rq_body)) = Ok true /\
     x.(se_UserID) = u.(us_ID)) \/
  (endpoint_of r = Some (Guarded Http.handleChangePassword) /\
   exists sess u, signed_in r (store s) (guard_time s) sess /\
     known (store s) (fun u => u.(us_ID) = sess.(se_UserID)) u /\
     Auth.VerifyPassword u.(us_PasswordHash) (str_field "current" r.(rq_body)) = Ok true /\
     x.(se_UserID) = u.(us_ID)).
Proof.
  intros Hok Hs Hx Hno. apply serve_inv in Hs as (rs0 & Hd & _).
  destruct (endpoint_of r) as [e|] eqn:He.
  - pose proof (endpoint_method _ _ He) as (rt & Hrt & _ & Hend).
    destruct (endpoints_keep (srv_world s) _ (sessions_tolerates (store s).(sessions) None) (sessions_clears _ None) rt Hrt) as [[Hm|Hm]|Hk].
    + rewrite (dispatch_endpoint _ _ He) in Hd. rewrite Hend in Hm. destruct Hm as [-> | [-> | ->]]; simpl in Hd.
      * left. split; [done|]. by eapply setup_origin.
      * right. left. split; [done|]. by eapply login_origin.
      * right. right. split; [done|]. apply requireAuth_inv in Hd as [(sess & s1 & Hsi & _ & _ & Hst & Hh)|(_ & _ & Hl)]; [| |done].
        -- rewrite <- Hst in Hno. apply change_origin with (x := x) in Hh as (Hu & u & [Hin Hid] & Hv); [|by rewrite Hst|done..].
           rewrite Hst in Hin. exists sess, u. by rewrite Hid.
        -- destruct Hl as ((l & Hl & Hsub & _) & _). exfalso. apply Hno, Hsub. unfold store in Hx. by rewrite Hl in Hx.
    + exfalso. rewrite Hend in Hm. rewrite (dispatch_endpoint _ _ He) in Hd.
      pose proof (job_makers_keep (srv_world s) _ (sessions_tolerates (store s).(sessions) None) (sessions_enqueues _ None) e Hm) as Hk.
      pose proof (sessions_added _ s s None x (run_keeps _ _ e r (sessions_tolerates _ None) Hk) Hok eq_refl) as Hadd.
      rewrite Hd in Hadd. by specialize (Hadd Hx Hno).
    + exfalso. rewrite Hend in Hk. rewrite (dispatch_endpoint _ _ He) in Hd.
      pose proof (sessions_added _ s s None x (run_keeps _ _ e r (sessions_tolerates _ None) Hk) Hok eq_refl) as Hadd.
      rewrite Hd in Hadd. by specialize (Hadd Hx Hno).
  - exfalso. assert (Hk : keeps (inside_srv (srv_world s) (sessions_of (store s).(sessions) None) any) (dispatch r)).
    { apply dispatch_keeps; [apply sessions_tolerates|apply sessions_clears|]. intros e' He'. by rewrite He in He'. }
    pose proof (sessions_added _ s s None x Hk Hok eq_refl) as Hadd. rewrite Hd in Hadd. by specialize (Hadd Hx Hno).
Qed.

End Theorems.
