(* ===== verification/JobOrigin.v ===== *)
(** * Where jobs come from

    A job the API adds was asked for by a signed-in user, by one of the five
    endpoints that make jobs, about rows that exist and pass that endpoint's
    checks. *)

From stdpp Require Import base list strings gmap.
From S2P Require Import Prelude GoStd Db Integrity World StoreUpdates StoreJobs StoreServices StoreMisc Store.
From S2P Require Import Files Compose Daemon SelfUpdate Scan Password RateLimit ScanRun Http HttpApi HttpSettings HttpStreams.
From S2P Require Import Routes RouteSpec RouteFoot RouteSafety.

Local Open Scope Z_scope.

Section Origin.
Context {E : Env} {SS : SliceSort} {R : Random} {A2 : Argon2} {SH : Sha256} {MR : MapRange} {SL : Sealer}.
Context {CG : Compose.ComposeGo} {G : Checker.Releases} {ZL : Zerolog} {D : Deps} {L : LogFiles} {ST : Streams} {C : Chi}.

(** A service with its project, as the tables have them. *)
Definition placed (d : db) (svc : Service) (proj : Project) : Prop :=
  svc ∈ d.(services).(rows) /\ proj ∈ d.(projects).(rows) /\ proj.(pr_ID) = svc.(sv_ProjectID).

Definition queued_for (j : Job) (type : string) (project service : option Z) (scope : string) : Prop :=
  j.(job_Type) = type /\ j.(job_ProjectID) = project /\ j.(job_ServiceID) = service /\ j.(job_Scope) = scope /\
  j.(job_Status) = "queued".

(** What each endpoint asks for, of a database [d]. *)
Inductive asked (h : Z -> Request -> M server Response) (r : Request) (d : db) (j : Job) : Prop :=
| Apply upd svc proj :
    h = Api.handleApply -> pathInt64 r "id" = Ok upd.(up_ID) -> upd ∈ d.(updates).(rows) ->
    svc.(sv_ID) = upd.(up_ServiceID) -> placed d svc proj -> proj.(pr_Unmanaged) = false ->
    svc.(sv_State) <> "gone" -> Api.serviceIsSelf svc = false ->
    queued_for j "apply" (Some svc.(sv_ProjectID)) (Some svc.(sv_ID)) (Api.scopeFromBody r) -> asked h r d j
| UpdateSelf :
    h = Api.handleSelfUpdateApply \/ h = Api.handleApply -> SelfID <> "" ->
    (forall k, k ∈ d.(jobs).(rows) -> k.(job_Type) = "self_update" -> job_status_in ["queued"; "running"] k = false) ->
    queued_for j "self_update" None None "service" -> asked h r d j
| Lifecycle svc proj action :
    h = Api.handleLifecycle -> pathInt64 r "id" = Ok svc.(sv_ID) -> placed d svc proj ->
    action ∈ ["start"; "stop"; "restart"] ->
    queued_for j action (Some proj.(pr_ID)) (Some svc.(sv_ID)) "service" -> asked h r d j
| Remove svc proj :
    h = Api.handleRemove -> pathInt64 r "id" = Ok svc.(sv_ID) -> placed d svc proj ->
    proj.(pr_Kind) = "standalone" -> Services.IsStoppedState svc.(sv_State) = true ->
    queued_for j "remove" (Some proj.(pr_ID)) (Some svc.(sv_ID)) "service" -> asked h r d j
| Rollback orig svc :
    h = Api.handleRollback -> pathInt64 r "id" = Ok orig.(job_ID) -> orig ∈ d.(jobs).(rows) ->
    orig.(job_ServiceID) = Some svc ->
    queued_for j "rollback" orig.(job_ProjectID) (Some svc) (or_default orig.(job_Scope) "service") -> asked h r d j.

(** The jobs after a call: the same, or one more. *)
Definition one_more (p : Job -> Prop) (d d' : db) : Prop :=
  d'.(jobs).(rows) = d.(jobs).(rows) \/ exists j, d'.(jobs).(rows) = d.(jobs).(rows) ++ [j] /\ p j.

Lemma Enqueue_inv type project service scope w r w' :
  Jobs.Enqueue (Api.user_job type project service scope) w = (r, w') ->
  one_more (fun j => queued_for j type project service (or_default scope "service")) w.(w_db) w'.(w_db).
Proof.
  unfold Jobs.Enqueue. destruct r as [id|e]; intros Hs; [|apply sql_err_inv in Hs as ->; by left].
  apply sql_ok_inv in Hs as (Hs & _). unfold Jobs.insert_job in Hs. destruct (negb _); [done|]. injection Hs as _ Hd.
  right. eexists. rewrite <- Hd. split; [reflexivity|]. by repeat split.
Qed.

(** The step a job-making handler ends with. *)
Lemma enqueue_answer type project service scope h k s rs s' :
  or_answer (Jobs.Enqueue (Api.user_job type project service scope)) h k s = (rs, s') ->
  (forall id s1, (k id s1).2 = s1) ->
  one_more (fun j => queued_for j type project service (or_default scope "service")) (store s) (store s').
Proof.
  intros (res & s1 & He & _ & Hk)%or_answer_inv Hid. apply Enqueue_inv in He. fold (store s) (store s1) in He.
  destruct res as [id|e]; [|by destruct Hk as [_ ->]]. specialize (Hid id s1). rewrite Hk in Hid. simpl in Hid. by subst.
Qed.

Lemma one_more_refl p d d' : d' = d -> one_more p d d'.
Proof. intros ->. by left. Qed.

Lemma one_more_impl (p q : Job -> Prop) d d' : (forall j, p j -> q j) -> one_more p d d' -> one_more q d d'.
Proof. intros Hpq [H|(j & H & Hp)]; [by left|]. right. exists j. auto. Qed.

(** A lookup by id: the row, and nothing changed. *)
Lemma row_step {A} op id (f : db -> list A) (key : A -> Z) e h k s rs s' (p : Job -> Prop) :
  or_answer (sql op id (fun _ d => match List.find (fun x => key x =? id) (f d) with Some x => Ok (x, d) | None => Err e end)) h k s
    = (rs, s') ->
  (forall x s1, x ∈ f (store s) -> key x = id -> store s1 = store s -> k x s1 = (rs, s') -> one_more p (store s) (store s')) ->
  one_more p (store s) (store s').
Proof.
  intros (res & s1 & Hs & _ & Hk)%or_answer_inv Hcont. apply read_sql_inv in Hs as [Hd Hs]; [|read_stmt].
  fold (store s) (store s1) in Hd, Hs. destruct res as [x|err]; [|destruct Hk as [_ ->]; by apply one_more_refl].
  destruct (Hs x eq_refl) as (t & Hx). destruct (List.find _ _) as [x'|] eqn:Ef; [|done]. injection Hx as ->.
  apply find_elem in Ef as [Hin Hid%Z.eqb_eq]. by apply (Hcont x s1).
Qed.

Lemma id_step r k s rs s' p :
  Api.with_id r k s = (rs, s') ->
  (forall id, pathInt64 r "id" = Ok id -> k id s = (rs, s') -> one_more p (store s) (store s')) ->
  one_more p (store s) (store s').
Proof.
  unfold Api.with_id. destruct (pathInt64 r "id") as [id|e]; intros Hk Hcont; [by apply (Hcont id)|].
  injection Hk as _ <-. by left.
Qed.

Lemma placed_step r k s rs s' p :
  Api.loadServiceProject r k s = (rs, s') ->
  (forall svc proj s1, pathInt64 r "id" = Ok svc.(sv_ID) -> placed (store s) svc proj -> store s1 = store s ->
     k svc proj s1 = (rs, s') -> one_more p (store s) (store s')) ->
  one_more p (store s) (store s').
Proof.
  intros H Hcont. apply id_step with (1 := H). clear H. intros id Hid H.
  apply (row_step _ _ (fun d => d.(services).(rows)) sv_ID) with (1 := H). clear H. intros svc s1 Hsv <- Hs1 H.
  rewrite <- Hs1.
  apply (row_step _ _ (fun d => d.(projects).(rows)) pr_ID) with (1 := H). clear H. intros proj s2 Hpr Hp Hs2 H.
  rewrite Hs1 in *. by apply (Hcont svc proj s2).
Qed.

Section Handlers.
Context (uid : Z) (r : Request) (s : server) (rs : Response) (s' : server).

Lemma lifecycle_jobs : Api.handleLifecycle uid r s = (rs, s') ->
  one_more (asked Api.handleLifecycle r (store s)) (store s) (store s').
Proof.
  intros H. apply placed_step with (1 := H). clear H. intros svc proj s1 Hid Hpl Hs1 H.
  cbv zeta in H. destruct (_ || _) eqn:Eb; [injection H as _ <-; by apply one_more_refl|]. apply orb_false_iff in Eb as [_ Eb%negb_false_iff].
  apply enqueue_answer in H; [|done]. rewrite Hs1 in H. eapply one_more_impl; [|exact H].
  intros j Hj. apply (Lifecycle _ _ _ _ svc proj (str_field "action" r.(rq_body))); try done.
  apply existsb_elem in Eb as (a & Ha & ->%String.eqb_eq). exact Ha.
Qed.

Lemma remove_jobs : Api.handleRemove uid r s = (rs, s') ->
  one_more (asked Api.handleRemove r (store s)) (store s) (store s').
Proof.
  intros H. apply placed_step with (1 := H). clear H. intros svc proj s1 Hid Hpl Hs1 H.
  destruct (String.eqb_spec proj.(pr_Kind) "standalone") as [Hk|]; [|injection H as _ <-; by apply one_more_refl].
  destruct (Services.IsStoppedState _) eqn:Est; [|injection H as _ <-; by apply one_more_refl].
  apply enqueue_answer in H; [|done]. rewrite Hs1 in H. eapply one_more_impl; [|exact H].
  intros j Hj. by apply (Remove _ _ _ _ svc proj).
Qed.

Lemma rollback_jobs : Api.handleRollback uid r s = (rs, s') ->
  one_more (asked Api.handleRollback r (store s)) (store s) (store s').
Proof.
  intros H. apply id_step with (1 := H). clear H. intros id Hid H.
  apply (row_step _ _ (fun d => d.(jobs).(rows)) job_ID) with (1 := H). clear H. intros orig s1 Hin <- Hs1 H.
  destruct (job_ServiceID orig) as [svc|] eqn:Esv; [|injection H as _ <-; by apply one_more_refl].
  apply enqueue_answer in H; [|done]. rewrite Hs1 in H. eapply one_more_impl; [|exact H].
  intros j Hj. by apply (Rollback _ _ _ _ orig svc).
Qed.

End Handlers.

(** *** Updating dockbrr itself *)

Definition no_active (d : db) : Prop := forall k, k ∈ d.(jobs).(rows) -> k.(job_Type) = "self_update" ->
  job_status_in ["queued"; "running"] k = false.

Definition self_job (d : db) (j : Job) : Prop :=
  SelfID <> "" /\ no_active d /\ queued_for j "self_update" None None "service".

Lemma same_jobs_tolerates l : tolerates (fun d => d.(jobs) = l).
Proof. split; [congruence|]. by intros p t d a d' Hd [= _ <-]. Qed.

Lemma check_fresh_jobs c w : db_ok w.(w_db) -> (Checker.CheckFresh Api.githubToken c w).2.(w_db).(jobs) = w.(w_db).(jobs).
Proof.
  intros Hok. pose proof (same_jobs_tolerates w.(w_db).(jobs)) as HP.
  assert (Hk : keeps (inside w (fun d => d.(jobs) = w.(w_db).(jobs))) (Checker.CheckFresh Api.githubToken c)).
  { unfold Checker.CheckFresh. apply keeps_bind; [by apply write_cache|]. intros cache. by apply write_refresh. }
  destruct (Hk w) as (_ & H & _); [|exact H]. split; [done|]. split; [done|]. split; [done|]. by exists [].
Qed.

Lemma self_update_jobs w res w' :
  db_ok w.(w_db) -> Api.enqueueSelfUpdate w = (res, w') -> one_more (self_job w.(w_db)) w.(w_db) w'.(w_db).
Proof.
  intros Hok. unfold Api.enqueueSelfUpdate. destruct (String.eqb_spec SelfID "") as [|Hself]; [intros [= _ <-]; by left|].
  destruct SelfUpdateChecker as [c|]; [|intros [= _ <-]; by left].
  intros (v & w1 & Hc & Hk)%bind_inv. pose proof (check_fresh_jobs c w Hok) as Hj. rewrite Hc in Hj. simpl in Hj.
  assert (Hleft : forall p w2, w2.(w_db) = w1.(w_db) -> one_more p w.(w_db) w2.(w_db)).
  { intros p w2 Hw. left. by rewrite Hw, Hj. }
  destruct v as [v [e|]]; [injection Hk as _ <-; by apply Hleft|].
  destruct (negb _); [injection Hk as _ <-; by apply Hleft|].
  apply bind_inv in Hk as (act & w2 & Ha & Hk). unfold Jobs.ActiveByType in Ha.
  apply read_sql_inv in Ha as [Hd2 Ha]; [|read_stmt].
  destruct act as [[k|]|e]; [injection Hk as _ <-; by apply Hleft| |injection Hk as _ <-; by apply Hleft].
  destruct (Ha None eq_refl) as (t & [= Hnone]). apply bind_inv in Hk as (id & w3 & He & Hk).
  apply Enqueue_inv in He. rewrite Hd2 in He. assert (w' = w3) as -> by (destruct id; by injection Hk).
  assert (Hno : no_active w.(w_db)).
  { intros k Hin Ht. rewrite <- Hj in Hin. unfold Jobs.newest_job in Hnone.
    assert (Hin' : k ∈ rev w1.(w_db).(jobs).(rows)) by (by rewrite list_elem_of_In, <- in_rev, <- list_elem_of_In).
    pose proof (find_none_elem _ _ _ Hnone Hin') as Hf. simpl in Hf. by rewrite Ht in Hf. }
  unfold one_more in *. rewrite Hj in He. destruct He as [He|(j & He & Hq)]; [by left|]. right. exists j.
  split; [exact He|]. split; [exact Hself|]. split; [exact Hno|exact Hq].
Qed.

Lemma self_apply_jobs uid r s rs s' : db_ok (store s) -> Api.handleSelfUpdateApply uid r s = (rs, s') ->
  one_more (asked Api.handleSelfUpdateApply r (store s)) (store s) (store s').
Proof.
  intros Hok (res & s1 & Hs & Hk)%bind_inv. apply on_world_inv in Hs as [Hs _].
  apply self_update_jobs in Hs; [|done]. assert (s' = s1) as -> by (destruct res as [[]|]; by injection Hk).
  eapply one_more_impl; [|exact Hs]. intros j (H1 & H2 & H3). apply UpdateSelf; auto.
Qed.

Lemma apply_jobs uid r s rs s' : db_ok (store s) -> Api.handleApply uid r s = (rs, s') ->
  one_more (asked Api.handleApply r (store s)) (store s) (store s').
Proof.
  intros Hok H. apply id_step with (1 := H). clear H. intros id Hid H.
  apply (row_step _ _ (fun d => d.(updates).(rows)) up_ID) with (1 := H). clear H. intros upd s1 Hup <- Hs1 H. rewrite <- Hs1.
  apply (row_step _ _ (fun d => d.(services).(rows)) sv_ID) with (1 := H). clear H. intros svc s2 Hsv Hsid Hs2 H. rewrite <- Hs2.
  apply (row_step _ _ (fun d => d.(projects).(rows)) pr_ID) with (1 := H). clear H. intros proj s3 Hpr Hpid Hs3 H.
  assert (Hst : store s3 = store s) by congruence. rewrite Hs2, Hs1 in *.
  destruct (pr_Unmanaged proj) eqn:Eun; [injection H as _ <-; by apply one_more_refl|].
  destruct (String.eqb_spec svc.(sv_State) "gone") as [|Hgone]; [injection H as _ <-; by apply one_more_refl|].
  destruct (Api.serviceIsSelf svc) eqn:Eself.
  - apply bind_inv in H as (res & s4 & Hs & Hk). apply on_world_inv in Hs as [Hs _]. fold (store s3) in Hs.
    apply self_update_jobs in Hs; [|fold (store s3); by rewrite Hst]. fold (store s3) (store s4) in Hs. rewrite Hst in Hs.
    assert (s' = s4) as -> by (destruct res as [[]|]; by injection Hk).
    eapply one_more_impl; [|exact Hs]. intros j (H1 & H2 & H3). apply UpdateSelf; auto.
  - apply enqueue_answer in H; [|done]. rewrite Hst in H. eapply one_more_impl; [|exact H].
    intros j Hj. apply (Apply _ _ _ _ upd svc proj); try done.
    unfold Api.scopeFromBody in *. by destruct (String.eqb _ "project").
Qed.

(** A job that is new after a request. *)
Lemma new_job_asked r s rs s' j :
  db_ok (store s) -> serve r s = (rs, s') -> j ∈ (store s').(jobs).(rows) -> j ∉ (store s).(jobs).(rows) ->
  (store s').(jobs).(rows) = (store s).(jobs).(rows) ++ [j] /\
  exists h sess, endpoint_of r = Some (Guarded h) /\ signed_in r (store s) (guard_time s) sess /\ asked h r (store s) j.
Proof.
  intros Hok Hs Hj Hno. apply serve_inv in Hs as (rs0 & Hd & _).
  assert (Hnone : keeps (inside_srv (srv_world s) (fun d => forall k, k ∈ d.(jobs).(rows) -> k ∈ (store s).(jobs).(rows)) any)
                    (dispatch r) -> False).
  { intros Hk. destruct (Hk s) as [(_ & HP & _) _]; [by apply inside_refl|]. rewrite Hd in HP. by apply Hno, HP. }
  assert (HT : tolerates (fun d => forall k, k ∈ d.(jobs).(rows) -> k ∈ (store s).(jobs).(rows))).
  { split; [by intros d d' H -> _|]. by intros p t d a d' H [= _ <-]. }
  assert (HC : clears (fun d => forall k, k ∈ d.(jobs).(rows) -> k ∈ (store s).(jobs).(rows))).
  { intros t d a d' H [= _ <-] k. simpl. intros [Hk _]%elem_of_filterb. auto. }
  destruct (endpoint_of r) as [e|] eqn:He.
  2:{ destruct Hnone. apply dispatch_keeps; [done..|]. intros e He'. by rewrite He in He'. }
  pose proof (endpoint_method _ _ He) as (rt & Hrt & _ & Hend).
  destruct (endpoints_keep (srv_world s) _ HT HC rt Hrt) as [[Hm|Hm]|Hk]; rewrite Hend in *.
  - (* a session is made: the jobs are handed on as they are *)
    destruct Hnone. rewrite (dispatch_endpoint _ _ He). apply run_keeps; [done|]. apply handed_makers; [|done]. by intros d d' H ->.
  - rewrite (dispatch_endpoint _ _ He) in Hd.
    assert (Hh : exists h, e = Guarded h /\ forall uid s1, db_ok (store s1) -> h uid r s1 = (rs0, s') ->
                   one_more (asked h r (store s1)) (store s1) (store s')).
    { destruct Hm as [-> | [-> | [-> | [-> | ->]]]]; eexists; (split; [reflexivity|]); intros uid s1 Hok1 H1;
        [by eapply apply_jobs|by eapply self_apply_jobs|by eapply lifecycle_jobs|by eapply remove_jobs|by eapply rollback_jobs]. }
    destruct Hh as (h & -> & Hh). simpl in Hd.
    apply requireAuth_inv in Hd as [(sess & s1 & Hsi & _ & _ & Hst & Hrun)|(_ & _ & Hl)]; [| |done].
    + apply Hh in Hrun; [|by rewrite Hst]. rewrite Hst in Hrun. destruct Hrun as [Heq|(k & Heq & Hk)].
      * by rewrite Heq in Hj.
      * rewrite Heq in Hj. apply elem_of_app in Hj as [Hj| ->%list_elem_of_singleton]; [done|].
        split; [exact Heq|]. by exists h, sess.
    + destruct Hl as ((l & Hl & _) & _). unfold store in Hj. rewrite Hl in Hj. done.
  - destruct Hnone. rewrite (dispatch_endpoint _ _ He). by apply run_keeps.
Qed.


End Origin.
