(* ===== verification/ChangelogText.v ===== *)
(** * Changelogs: text, references and releases (internal/changelog)

    The parts of the changelog package that only read their arguments: the
    sanitizers of resolver.go, the repository rules of ghrepo.go, registry.go and
    oci.go, and the selection and rendering of releases of github.go.  Lengths
    are in bytes; the size caps are integers ([Z]).  The regular expressions are
    recognisers of the width of the leftmost match; [(?i)] also folds the long s
    (U+017F) to s, as Go does.  The sources and the resolver are Changelog.v. *)

From stdpp Require Import base list strings gmap.
From Stdlib Require Import Ascii Sorted.
From S2P Require Import Prelude GoStd Semver NetUrl.

Local Open Scope Z_scope.

(** ** Regular expressions *)
Module Regex.

(** The width of the match of the lower-case literal [p] under [(?i)]. *)
Fixpoint fold_width (p s : string) : option nat :=
  match p with
  | "" => Some 0%nat
  | String c p' =>
      match s with
      | String a s1 =>
          if Ascii.eqb (Url.lower_ascii a) c then S <$> fold_width p' s1
          else if Ascii.eqb c "s" && Ascii.eqb a "197" then
            match s1 with
            | String b s2 => if Ascii.eqb b "191" then (fun n => S (S n)) <$> fold_width p' s2 else None
            | "" => None
            end
          else None
      | "" => None
      end
  end.

(** The offset and the width of the first match of [p] in [s]. *)
Fixpoint fold_index (p s : string) : option (nat * nat) :=
  match fold_width p s with
  | Some w => Some (0%nat, w)
  | None =>
      match s with
      | "" => None
      | String _ s' => (fun '(i, w) => (S i, w)) <$> fold_index p s'
      end
  end.

(** [scriptRe]: an opening script tag up to its first [>], then up to the first
    closing one; no later [>] can do when the first does not. *)
Definition scriptRe (s : string) : option nat :=
  match fold_width "<script" s with
  | None => None
  | Some w =>
      match IndexByte (s.[w:]) ">" with
      | None => None
      | Some i =>
          let open_ := (w + S i)%nat in
          (fun '(j, v) => (open_ + j + v)%nat) <$> fold_index "</script>" (s.[open_:])
      end
  end.

(** [tagRe]: [<], at least one byte that is not [>], then [>]. *)
Definition tagRe (s : string) : option nat :=
  match s with
  | String "<" s1 =>
      match IndexByte s1 ">" with
      | Some (S i) => Some (S (S (S i)))
      | _ => None
      end
  | _ => None
  end.

(** [ReplaceAllString(s, "")]: the leftmost matches, one after the other, are
    dropped; [skip] is what is left of the match being dropped. *)
Fixpoint remove_all (re : string -> option nat) (skip : nat) (s : string) : string :=
  match s with
  | "" => ""
  | String a s' =>
      match skip with
      | S k => remove_all re k s'
      | O => match re s with
             | Some (S w) => remove_all re w s'
             | _ => String a (remove_all re 0 s')
             end
      end
  end.

(** [buildSuffixRe]. *)
Definition buildSuffixRe (s : string) : bool :=
  match fold_width "ls" s with
  | Some w => let d := s.[w:] in negb (String.eqb d "") && all_digits d
  | None => false
  end.

Definition prerelease_words : list string :=
  ["rc"; "alpha"; "beta"; "pre"; "preview"; "dev"; "snapshot"; "nightly"; "canary"; "milestone"; "ea"].

(** [prereleaseRe]. *)
Definition prereleaseRe (s : string) : bool :=
  existsb (fun w => match fold_width w s with Some _ => true | None => false end) prerelease_words
  || existsb (fun w => match fold_width w s with Some n => digit_head (s.[n:]) | None => false end) ["m"; "b"].

End Regex.

(** ** The sanitizers (resolver.go) *)

Definition maxChangelogBytes : Z := 65536.
Definition ellipsis : string := "…".

Fixpoint str_filter (p : ascii -> bool) (s : string) : string :=
  match s with
  | "" => ""
  | String a s' => if p a then String a (str_filter p s') else str_filter p s'
  end.

Definition kept_byte (a : ascii) : bool :=
  Ascii.eqb a newline || Ascii.eqb a "009" || negb (Url.control_byte a).

(** [strings.Map] also writes what is not UTF-8 as the replacement character. *)
Definition stripControl (s : string) : string := str_filter kept_byte (json_text s).

Definition RuneStart (a : ascii) : bool := negb (Nat.eqb (Nat.land (byte a) 192) 128).

(** The loop on [cut]: down to the start of a rune. *)
Fixpoint rune_cut (s : string) (cut : nat) : nat :=
  match cut with
  | O => 0%nat
  | S c => match String.get cut s with
           | Some a => if RuneStart a then cut else rune_cut s c
           | None => cut
           end
  end.

Definition cap_text (s : string) : string :=
  if maxChangelogBytes <? Z.of_nat (len s)
  then s.[:rune_cut s (Z.to_nat (maxChangelogBytes - Z.of_nat (len ellipsis)))] +:+ ellipsis
  else s.

Definition sanitizeText (s : string) : string :=
  if String.eqb s "" then ""
  else
    let s := Regex.remove_all Regex.scriptRe 0 s in
    let s := Regex.remove_all Regex.tagRe 0 s in
    let s := stripControl s in
    let s := TrimSpace s in
    cap_text s.

Definition sanitizeURL {N : NetIP} (raw : string) : string :=
  let raw := TrimSpace raw in
  if String.eqb raw "" then ""
  else
    match Url.Parse raw with
    | Err _ => ""
    | Ok u =>
        if String.eqb u.(Url.Host) "" then ""
        else if negb (String.eqb u.(Url.Scheme) "http") && negb (String.eqb u.(Url.Scheme) "https") then ""
        else Url.URL_String u
    end.

Fixpoint firstNonEmpty (vals : list string) : string :=
  match vals with
  | [] => ""
  | v :: vs => if negb (String.eqb v "") then v else firstNonEmpty vs
  end.

(** [repoFromRef]. *)
Definition repoFromRef (ref : string) : string :=
  let ref := cut_at "@" ref in
  match LastIndexByte ref ":" with
  | Some colon => if negb (Contains (ref.[(S colon):]) "/") then ref.[:colon] else ref
  | None => ref
  end.

(** ** Sources and targets (source.go, oci.go, ghrepo.go, registry.go) *)

Record SourceInfo := mkSourceInfo { si_URL : string; si_Host : string; si_Owner : string; si_Name : string }.

Definition label_of (l : gmap string string) (k : string) : string := default "" (l !! k).

(** [strings.Trim(s, "/")]. *)
Fixpoint trim_slashes_left (s : string) : string :=
  match s with String "/" s' => trim_slashes_left s' | _ => s end.
Definition trim_slashes (s : string) : string :=
  str_rev (trim_slashes_left (str_rev (trim_slashes_left s))).

Definition parseSource {N : NetIP} (labels : gmap string string) : SourceInfo :=
  let raw := firstNonEmpty [label_of labels "org.opencontainers.image.source";
                            label_of labels "org.label-schema.vcs-url"] in
  let si := mkSourceInfo raw "" "" "" in
  if String.eqb raw "" then si
  else
    match Url.Parse raw with
    | Err _ => si
    | Ok u =>
        if String.eqb u.(Url.Host) "" then si
        else
          match Split (trim_slashes u.(Url.Path)) "/" with
          | owner :: name :: _ =>
              if negb (String.eqb owner "") && negb (String.eqb name "")
              then mkSourceInfo raw u.(Url.Host) owner (TrimSuffix name ".git")
              else mkSourceInfo raw u.(Url.Host) "" ""
          | _ => mkSourceInfo raw u.(Url.Host) "" ""
          end
    end.

Record target := mkTarget { tg_Owner : string; tg_Name : string; tg_tags : string -> list string }.

Definition defaultTags (v : string) : list string :=
  let v := TrimPrefix v "v" in [v; "v" +:+ v; "release-" +:+ v].

Fixpoint replace_byte (a b : ascii) (s : string) : string :=
  match s with "" => "" | String c s' => String (if Ascii.eqb c a then b else c) (replace_byte a b s') end.

Definition postgresTags (v : string) : list string :=
  let v := TrimPrefix v "v" in ["REL_" +:+ replace_byte "." "_" v; v; "v" +:+ v].

Definition curatedRepos (repo : string) : option target :=
  if String.eqb repo "library/node" then Some (mkTarget "nodejs" "node" defaultTags)
  else if String.eqb repo "library/python" then Some (mkTarget "python" "cpython" defaultTags)
  else if String.eqb repo "library/golang" then Some (mkTarget "golang" "go" defaultTags)
  else if String.eqb repo "library/postgres" then Some (mkTarget "postgres" "postgres" postgresTags)
  else None.

Definition splitHostPath (ref : string) : string * string :=
  let ref := cut_at "@" ref in
  let ref :=
    match LastIndexByte ref "/" with
    | Some slash =>
        match LastIndexByte (ref.[slash:]) ":" with
        | Some colon => ref.[:(slash + colon)]
        | None => ref
        end
    | None => match LastIndexByte ref ":" with Some colon => ref.[:colon] | None => ref end
    end in
  match IndexByte ref "/" with
  | Some i =>
      let first := ref.[:i] in
      if ContainsAny first ".:" || String.eqb first "localhost" then (first, ref.[(S i):]) else ("", ref)
  | None => ("", ref)
  end.

Definition normalizeHubRepo (host path : string) : option string :=
  if String.eqb host "" || String.eqb host "docker.io" || String.eqb host "index.docker.io" then
    if String.eqb path "" then None
    else Some (if negb (Contains path "/") then "library/" +:+ path else path)
  else None.

(** [SplitN(path, "/", 3)] only serves its first two parts. *)
Definition firstTwo (path : string) : option (string * string) :=
  match Split path "/" with
  | a :: b :: _ =>
      if String.eqb a "" || String.eqb b "" then None else Some (a, TrimSuffix b ".git")
  | _ => None
  end.

Definition githubTarget {N : NetIP} (ref : string) (labels : gmap string string) : option target :=
  let si := parseSource labels in
  if String.eqb si.(si_Host) "github.com" && negb (String.eqb si.(si_Owner) "")
     && negb (String.eqb si.(si_Name) "")
  then Some (mkTarget si.(si_Owner) si.(si_Name) defaultTags)
  else
    let '(host, path) := splitHostPath ref in
    if String.eqb host "ghcr.io" then
      match firstTwo path with
      | Some (o, n) => Some (mkTarget o n defaultTags)
      | None => None
      end
    else
      match normalizeHubRepo host path with
      | None => None
      | Some hubRepo =>
          match curatedRepos hubRepo with
          | Some t => Some t
          | None =>
              match firstTwo hubRepo with
              | None => None
              | Some (ns, name) =>
                  if negb (String.eqb ns "library") then Some (mkTarget ns name defaultTags)
                  else Some (mkTarget name name defaultTags)
              end
          end
      end.

Definition hubPath (repo : string) : option string :=
  let bare (repo : string) := if negb (Contains repo "/") then "library/" +:+ repo else repo in
  if String.eqb repo "" then None
  else if HasPrefix repo "docker.io/" then Some (bare (TrimPrefix repo "docker.io/"))
  else if HasPrefix repo "index.docker.io/" then Some (bare (TrimPrefix repo "index.docker.io/"))
  else
    let first := match IndexByte repo "/" with Some i => repo.[:i] | None => repo end in
    if ContainsAny first ".:" then None else Some (bare repo).

Definition hubWebURL (path : string) : string :=
  if HasPrefix path "library/" then "https://hub.docker.com/_/" +:+ TrimPrefix path "library/"
  else "https://hub.docker.com/r/" +:+ path.

(** ** Releases (github.go) *)

Record ghRelease := mkRelease { TagName : string; gh_HTMLURL : string; gh_Body : string }.

#[export] Instance ghRelease_eq_dec : EqDecision ghRelease.
Proof. solve_decision. Defined.

Definition releasesPerPage : Z := 100.
Definition maxReleasePages : Z := 3.
Definition noteReserve : Z := 512.

Definition normalizeTag (tag : string) : string :=
  let tag := StripNamePrefix tag in
  let tag := TrimPrefix (TrimPrefix tag "release-") "v" in
  cut_at "_" tag.

Definition extractFlavor (version : string) : string :=
  let v := StripNamePrefix (TrimSpace version) in
  let v := TrimPrefix v "v" in
  match IndexByte v "-" with
  | None => ""
  | Some i =>
      match parseCore (v.[:i]) with
      | None => ""
      | Some _ =>
          let seg := cut_at "-" (v.[(S i):]) in
          if String.eqb seg "" || Regex.buildSuffixRe seg || Regex.prereleaseRe seg then "" else seg
      end
  end.

(** [strings.FieldsFunc(s, isDelim)]. *)
Definition tag_fields (s : string) : list string :=
  List.filter (fun f => negb (String.eqb f "")) (Split (replace_byte "_" "-" s) "-").

Definition carries (flavor : string) (rel : ghRelease) : bool :=
  existsb (fun seg => String.eqb seg flavor) (tag_fields rel.(TagName)).

Definition filterByFlavor (rels : list ghRelease) (flavor : string) : list ghRelease :=
  if String.eqb flavor "" then rels
  else match List.filter (carries flavor) rels with [] => rels | kept => kept end.

(** [strings.IndexAny(norm, "-+")], and the count of dots before it. *)
Definition coreComponents (norm : string) : Z :=
  let norm := match IndexAny norm (one_of "-+") with Some i => norm.[:i] | None => norm end in
  Z.of_nat (CountByte norm ".") + 1.

Definition isPrerelease (norm : string) : bool :=
  match IndexByte norm "-" with
  | None => false
  | Some i => Regex.prereleaseRe (norm.[(S i):])
  end.

(** The loops that keep the highest release: [core_of] says which releases count,
    and their core; a later release takes the place only when it is higher. *)
Definition best_step (core_of : ghRelease -> option core) (acc : option (ghRelease * core))
    (rel : ghRelease) : option (ghRelease * core) :=
  match core_of rel with
  | None => acc
  | Some c =>
      match acc with
      | None => Some (rel, c)
      | Some (_, bestCore) => if coreLess bestCore c then Some (rel, c) else acc
      end
  end.

Definition best_release (core_of : ghRelease -> option core) (rels : list ghRelease) : option ghRelease :=
  fst <$> fold_left (best_step core_of) rels None.

(** The releases of a partial version such as 8.8, and the stable ones. *)
Definition patch_core (v : string) (rel : ghRelease) : option core :=
  let norm := normalizeTag rel.(TagName) in
  if negb (HasPrefix norm (v +:+ ".")) then None else parseCore norm.

Definition stable_core (rel : ghRelease) : option core :=
  let norm := normalizeTag rel.(TagName) in
  if isPrerelease norm then None else parseCore norm.

(** The third tier: an exact normalized tag at once, else the first release of
    the same core. *)
Fixpoint core_scan (vCore : core) (normVer : string) (best : option ghRelease) (rels : list ghRelease)
    : option ghRelease :=
  match rels with
  | [] => best
  | rel :: rels' =>
      let norm := normalizeTag rel.(TagName) in
      let skip := match parseCore norm with
                  | None => true
                  | Some c => negb (core_eqb c vCore) || isPrerelease norm || (3 <? coreComponents norm)
                  end in
      if skip then core_scan vCore normVer best rels'
      else if String.eqb norm normVer then Some rel
      else core_scan vCore normVer (match best with None => Some rel | Some b => Some b end) rels'
  end.

Definition tagged (want : list string) (rel : ghRelease) : bool :=
  existsb (fun w => String.eqb rel.(TagName) w) want.

Definition findRelease (rels : list ghRelease) (want : list string) (version : string) : option ghRelease :=
  match List.find (tagged want) rels with
  | Some rel => Some rel
  | None =>
      let v := TrimPrefix version "v" in
      if negb (String.eqb v "") && (Z.of_nat (CountByte v ".") <? 2)
      then best_release (patch_core v) rels
      else
        let normVer := normalizeTag version in
        match parseCore normVer with
        | None => None
        | Some vCore => if coreComponents normVer <=? 3 then core_scan vCore normVer None rels else None
        end
  end.

Definition latestStableRelease (rels : list ghRelease) : option ghRelease := best_release stable_core rels.

(** The releases the span keeps, scored. *)
Definition in_span (fromCore toCore : core) (rel : ghRelease) : option (ghRelease * core) :=
  match stable_core rel with
  | None => None
  | Some c => if negb (coreLess fromCore c) || coreLess toCore c then None else Some (rel, c)
  end.

Definition highest_first (x y : ghRelease * core) : bool := coreLess y.2 x.2.

Definition releasesInSpan (rels : list ghRelease) (fromCore toCore : core) : list ghRelease :=
  map fst (sort_stable highest_first (omap (in_span fromCore toCore) rels)).

Definition omittedNote (n : Z) (compareURL : string) : string :=
  let nl := String newline (String newline "") in
  if n <=? 0
  then nl +:+ "---" +:+ nl +:+ "_Older releases omitted, see the [full comparison](" +:+ compareURL +:+ ")._"
  else nl +:+ "---" +:+ nl +:+ "_" +:+ Itoa n +:+ " earlier " +:+ (if n =? 1 then "release" else "releases")
       +:+ " omitted, see the [full comparison](" +:+ compareURL +:+ ")._".

(** One section of the rendered span; a rule separates it from the one before. *)
Definition section (i : nat) (rel : ghRelease) : string :=
  let nl := String newline (String newline "") in
  let chunk := "## " +:+ rel.(TagName) +:+ nl +:+ TrimSpace rel.(gh_Body) in
  match i with O => chunk | S _ => nl +:+ "---" +:+ nl +:+ chunk end.

(** The loop: what the builder holds when it ends, and whether it stopped early
    (the note is then written). *)
Fixpoint render_loop (compareURL b : string) (i : nat) (span : list ghRelease) : string * bool :=
  match span with
  | [] => (b, false)
  | rel :: rest =>
      let chunk := section i rel in
      if (0 <? Z.of_nat (len b))
         && (maxChangelogBytes - noteReserve <? Z.of_nat (len b) + Z.of_nat (len chunk))
      then (b +:+ omittedNote (Z.of_nat (length span)) compareURL, true)
      else render_loop compareURL (b +:+ chunk) (S i) rest
  end.

Definition renderSpan (span : list ghRelease) (compareURL : string) (complete : bool) : string :=
  match span with
  | [] => ""
  | first :: rest =>
      if (length span =? 1)%nat && complete then first.(gh_Body)
      else
        let '(b, stopped) := render_loop compareURL "" 0 span in
        if stopped || complete then b else b +:+ omittedNote 0 compareURL
  end.

Definition spanLink (owner name fromTag toTag : string) (reachedFrom : bool) : string :=
  let base := "https://github.com/" +:+ Url.PathEscape owner +:+ "/" +:+ Url.PathEscape name in
  if negb reachedFrom || String.eqb fromTag "" then base +:+ "/releases"
  else base +:+ "/compare/" +:+ Url.PathEscape fromTag +:+ "..." +:+ Url.PathEscape toTag.

(** ** The sanitized text

    [tagless]: [tagRe] matches nowhere in the text. *)
Fixpoint tagless (s : string) : bool :=
  match s with
  | "" => true
  | String _ s' => match Regex.tagRe s with Some _ => false | None => true end && tagless s'
  end.

(** What a tag is to a reader of the text. *)
Definition has_tag (s : string) : Prop :=
  exists a b c, s = a +:+ "<" +:+ b +:+ ">" +:+ c /\ b <> "" /\ no_byte ">" b.

(** The bytes after an opening [<] that make no tag. *)
Definition no_tag_after (s : string) : bool := match IndexByte s ">" with Some (S _) => false | _ => true end.

Lemma tagRe_none a s :
  match Regex.tagRe (String a s) with Some _ => false | None => true end = (negb (Ascii.eqb a "<") || no_tag_after s).
Proof.
  unfold no_tag_after. destruct (Ascii.eqb_spec a "<") as [->|Hne]; simpl.
  - by destruct (IndexByte s ">") as [[|n]|].
  - destruct a as [[] [] [] [] [] [] [] []]; try done.
Qed.

Lemma tagless_cons a s : tagless (String a s) = (negb (Ascii.eqb a "<") || no_tag_after s) && tagless s.
Proof. cbn [tagless]. by rewrite tagRe_none. Qed.

Lemma IndexByte_app_no c s t : no_byte c s -> IndexByte (s +:+ t) c = (fun n => (len s + n)%nat) <$> IndexByte t c.
Proof.
  induction s as [|a s IH]; simpl; [by destruct (IndexByte t c)|].
  intros [Ha Hs]%no_byte_cons. apply Ascii.eqb_neq in Ha as ->. rewrite (IH Hs). by destruct (IndexByte t c).
Qed.

Lemma tagless_no_tag s : tagless s = true -> ~ has_tag s.
Proof.
  intros Ht (a & b & c & -> & Hb & Hn). revert Ht. induction a as [|x a IH].
  - change (("" +:+ "<" +:+ b +:+ ">" +:+ c)) with (String "<" (b +:+ ">" +:+ c)). rewrite tagless_cons.
    unfold no_tag_after. rewrite IndexByte_app_no by done. destruct b as [|y b]; [done|]. simpl. done.
  - change (String x a +:+ "<" +:+ b +:+ ">" +:+ c) with (String x (a +:+ "<" +:+ b +:+ ">" +:+ c)).
    rewrite tagless_cons. by intros [_ ?]%andb_true_iff.
Qed.

Lemma tagless_suffix a s : tagless (a +:+ s) = true -> tagless s = true.
Proof.
  induction a as [|x a IH]; [done|]. change (String x a +:+ s) with (String x (a +:+ s)).
  rewrite tagless_cons. intros [_ ?]%andb_true_iff. auto.
Qed.

Lemma no_tag_after_prefix s b : no_tag_after (s +:+ b) = true -> no_tag_after s = true.
Proof.
  unfold no_tag_after. destruct s as [|a s]; [done|]. simpl. destruct (Ascii.eqb a ">"); [done|].
  destruct (IndexByte s ">") as [n|] eqn:E; [|done]. simpl.
  apply IndexByte_Some in E as (u & v & -> & _ & Hu). rewrite str_app_assoc, IndexByte_app_no by done.
  simpl. by rewrite ?Ascii.eqb_refl.
Qed.

Lemma tagless_prefix s b : tagless (s +:+ b) = true -> tagless s = true.
Proof.
  induction s as [|a s IH]; [done|]. change (String a s +:+ b) with (String a (s +:+ b)). rewrite !tagless_cons.
  intros [Ha Hs]%andb_true_iff. rewrite (IH Hs). destruct (Ascii.eqb a "<"); [|done]. simpl in *.
  by rewrite (no_tag_after_prefix _ _ Ha).
Qed.

(** Removal of the tags leaves none. *)
Lemma remove_all_no_byte re c skip s : no_byte c s -> no_byte c (Regex.remove_all re skip s).
Proof.
  revert skip. induction s as [|a s IH]; intros skip Hs; [by destruct skip|].
  apply no_byte_cons in Hs as [Ha Hs]. cbn [Regex.remove_all]. destruct skip; [|by apply IH].
  destruct (re (String a s)) as [[|w]|]; [| by apply IH|]; apply no_byte_cons; auto.
Qed.

Lemma remove_tags_tagless skip s : tagless (Regex.remove_all Regex.tagRe skip s) = true.
Proof.
  revert skip. induction s as [|a s IH]; intros skip; [by destruct skip|].
  cbn [Regex.remove_all]. destruct skip; [|apply IH].
  pose proof (tagRe_none a s) as Ht. destruct (Regex.tagRe (String a s)) as [w|] eqn:E.
  - destruct w; [|apply IH].
    exfalso. unfold Regex.tagRe in E. destruct a as [[] [] [] [] [] [] [] []]; try done.
    by destruct (IndexByte s ">") as [[|n]|].
  - rewrite tagless_cons, IH, andb_true_r. destruct (Ascii.eqb a "<"); [|done]. simpl in *. symmetry in Ht.
    unfold no_tag_after in *. destruct (IndexByte s ">") as [[|n]|] eqn:Ei; [|done|].
    + destruct s as [|b s]; [done|]. simpl in Ei. destruct (Ascii.eqb_spec b ">") as [->|]; [|by destruct (IndexByte s ">")].
      done.
    + pose proof (remove_all_no_byte Regex.tagRe ">" 0 s Ei) as Hn. unfold no_byte in Hn. by rewrite Hn.
Qed.

(** Rewriting what is not UTF-8, byte by byte. *)
Lemma json_text_spec (P : string -> string -> Prop) :
  P "" "" ->
  (forall a s t, P s t -> P (String a s) (String a t)) ->
  (forall a s t, (128 <= byte a)%nat -> P s t -> P (String a s) (replacement_char +:+ t)) ->
  forall s, P s (json_text s).
Proof.
  intros H0 Hk Hr s. remember (len s) as n eqn:En. assert (Hle : (len s <= n)%nat) by lia. clear En.
  revert s Hle. induction n as [|n IH]; intros [|a s] Hle; simpl in *; [done|lia|done|].
  destruct (byte a <? 128)%nat eqn:Ea; [apply Hk, IH; lia|]. apply Nat.ltb_ge in Ea.
  assert (Hbad : P (String a s) (replacement_char +:+ json_text s)) by (apply Hr; [done|]; apply IH; lia).
  destruct s as [|b s]; [exact Hbad|]. simpl in Hle.
  destruct (utf8_2 a b); [by do 2 apply Hk; apply IH; lia|].
  destruct s as [|c s]; [exact Hbad|]. simpl in Hle.
  destruct (utf8_3 a b c); [by do 3 apply Hk; apply IH; lia|].
  destruct s as [|d s]; [exact Hbad|]. simpl in Hle.
  destruct (utf8_4 a b c d); [by do 4 apply Hk; apply IH; lia|exact Hbad].
Qed.

Lemma json_text_after s : (no_byte ">" s -> no_byte ">" (json_text s)) /\
  (no_tag_after s = true -> no_tag_after (json_text s) = true) /\ (tagless s = true -> tagless (json_text s) = true).
Proof.
  pattern s, (json_text s). revert s.
  apply json_text_spec; [done|intros a s t (IH1 & IH2 & IH3)|intros a s t Ha (IH1 & IH2 & IH3)].
  - assert (Hn : no_tag_after (String a s) = true -> no_tag_after (String a t) = true).
    { unfold no_tag_after. simpl. destruct (Ascii.eqb a ">"); [done|]. destruct (IndexByte s ">") eqn:E; [done|].
      by rewrite (IH1 E). }
    split; [|split; [done|]].
    + rewrite !no_byte_cons. naive_solver.
    + rewrite !tagless_cons, !andb_true_iff. intros [H1 H2]. split; [|auto].
      destruct (Ascii.eqb a "<"); [|done]. simpl in *. auto.
  - assert (Hne : a <> "<"%char /\ a <> ">"%char) by (split; intros ->; vm_compute in Ha; lia).
    assert (Hn : no_byte ">" (String a s) -> no_byte ">" (replacement_char +:+ t)).
    { rewrite no_byte_cons, no_byte_app. intros [_ Hs]. split; [done|auto]. }
    split; [done|]. split.
    + unfold no_tag_after. change (IndexByte (String a s) ">") with (if Ascii.eqb a ">" then Some 0%nat else S <$> IndexByte s ">").
      destruct Hne as [_ Hne]. pose proof Hne as Hb. apply Ascii.eqb_neq in Hb as ->. destruct (IndexByte s ">") eqn:E; [done|]. intros _.
      assert (Hs : no_byte ">" (String a s)) by (apply no_byte_cons; split; [exact Hne|done]).
      by rewrite (Hn Hs).
    + rewrite tagless_cons. intros [_ Hs]%andb_true_iff. simpl. by rewrite (IH3 Hs).
Qed.

Lemma filter_after p s : p ">"%char = true -> (no_byte ">" s -> no_byte ">" (str_filter p s)) /\
  (no_tag_after s = true -> no_tag_after (str_filter p s) = true) /\ (tagless s = true -> tagless (str_filter p s) = true).
Proof.
  intros Hp. induction s as [|a s (IH1 & IH2 & IH3)]; [done|].
  assert (Hn : no_byte ">" (String a s) -> no_byte ">" (str_filter p (String a s))).
  { intros [Ha Hs]%no_byte_cons. simpl. destruct (p a); [|by apply IH1]. apply no_byte_cons. auto. }
  split; [done|]. split.
  - unfold no_tag_after. destruct (Ascii.eqb_spec a ">") as [->|Hne]; [by simpl; rewrite Hp|].
    destruct (IndexByte (String a s) ">") as [[|k]|] eqn:E; [|done|intros _; by rewrite (Hn E)].
    simpl in E. apply Ascii.eqb_neq in Hne. rewrite Hne in E. by destruct (IndexByte s ">").
  - rewrite tagless_cons. intros [H1 H2]%andb_true_iff. simpl. destruct (p a); [|by apply IH3].
    rewrite tagless_cons, (IH3 H2), andb_true_r. destruct (Ascii.eqb a "<"); [|done]. simpl in *. auto.
Qed.

Lemma TrimSpace_tagless s : tagless s = true -> tagless (TrimSpace s) = true.
Proof.
  destruct (TrimSpace_part s) as (a & b & Hs). rewrite Hs at 1.
  intros H. apply tagless_suffix in H. by apply tagless_prefix in H.
Qed.

(** Every byte of the text is one [stripControl] keeps. *)
Definition clean_text (s : string) : Prop := forall a, ~ no_byte a s -> kept_byte a = true.

Lemma no_byte_dec c s : no_byte c s \/ ~ no_byte c s.
Proof. unfold no_byte. destruct (IndexByte s c); [by right|by left]. Qed.

Lemma filter_clean s : clean_text (str_filter kept_byte s).
Proof.
  intros a Ha. destruct (kept_byte a) eqn:E; [done|]. exfalso. apply Ha. clear Ha.
  induction s as [|b s IH]; [done|]. simpl. destruct (kept_byte b) eqn:Eb; [|done].
  apply no_byte_cons. split; [congruence|done].
Qed.

Lemma clean_part s a b : clean_text (a +:+ s +:+ b) -> clean_text s.
Proof. intros H c Hc. apply H. rewrite !no_byte_app. tauto. Qed.

Lemma clean_app s t : clean_text s -> clean_text t -> clean_text (s +:+ t).
Proof.
  intros Hs Ht c Hc. rewrite no_byte_app in Hc.
  destruct (no_byte_dec c s) as [H1|H1]; [|by apply Hs]. apply Ht. tauto.
Qed.

Lemma clean_ellipsis : clean_text ellipsis.
Proof.
  intros a Ha. destruct (kept_byte a) eqn:E; [done|]. exfalso. apply Ha. unfold ellipsis.
  rewrite !no_byte_cons. split_and!; [..|done]; intros <-; vm_compute in E; done.
Qed.

Lemma rune_cut_le s n : (rune_cut s n <= n)%nat.
Proof.
  induction n as [|n IH]; [done|]. cbn [rune_cut]. destruct (String.get (S n) s); [|done].
  destruct (RuneStart a); [done|]. lia.
Qed.

Lemma len_take n s : (len (s.[:n]) <= n)%nat.
Proof. revert s. induction n as [|n IH]; intros [|a s]; simpl; [done..|lia|]. specialize (IH s). lia. Qed.

Lemma cap_text_spec s :
  cap_text s = s /\ Z.of_nat (len s) <= maxChangelogBytes \/
  exists p q, s = p +:+ q /\ cap_text s = p +:+ ellipsis /\ Z.of_nat (len (cap_text s)) <= maxChangelogBytes.
Proof.
  unfold cap_text. destruct (Z.ltb_spec maxChangelogBytes (Z.of_nat (len s))) as [Hl|Hl]; [right|by left].
  set (c := rune_cut s _). exists (s.[:c]), (s.[c:]). split; [by rewrite take_drop_str|]. split; [done|].
  rewrite len_app. pose proof (len_take c s) as H1.
  pose proof (rune_cut_le s (Z.to_nat (maxChangelogBytes - Z.of_nat (len ellipsis)))) as H2. fold c in H2.
  assert (Hc : Z.of_nat c <= 65533).
  { change (maxChangelogBytes - Z.of_nat (len ellipsis)) with 65533 in H2. lia. }
  change (len ellipsis) with 3%nat. unfold maxChangelogBytes. lia.
Qed.

Lemma tagless_ellipsis p : tagless p = true -> tagless (p +:+ ellipsis) = true.
Proof.
  induction p as [|a p IH]; [done|]. change (String a p +:+ ellipsis) with (String a (p +:+ ellipsis)).
  rewrite !tagless_cons. intros [Ha Hp]%andb_true_iff. rewrite (IH Hp), andb_true_r.
  destruct (Ascii.eqb a "<"); [|done]. simpl in *. unfold no_tag_after in *.
  destruct (IndexByte p ">") as [[|n]|] eqn:E; [|done|].
  - apply IndexByte_Some in E as (u & v & -> & Hu & Hl). destruct u; [|done]. done.
  - by rewrite IndexByte_app_no.
Qed.

(** The text [sanitizeText] gives has no tag and no control byte, and fits. *)
Definition safe_text (s : string) : Prop :=
  Z.of_nat (len s) <= maxChangelogBytes /\ ~ has_tag s /\ clean_text s.

Lemma sanitizeText_safe s : safe_text (sanitizeText s).
Proof.
  unfold sanitizeText. destruct (String.eqb s ""); [split; [done|]; split; [by apply tagless_no_tag|by intros ? []]|].
  set (t := Regex.remove_all Regex.tagRe 0 _). assert (Ht : tagless t = true) by apply remove_tags_tagless.
  set (v := TrimSpace (stripControl t)).
  assert (Hv : tagless v = true).
  { apply TrimSpace_tagless. apply filter_after; [done|]. by apply json_text_after. }
  assert (Hc : clean_text v).
  { destruct (TrimSpace_part (stripControl t)) as (a & b & Hs). apply (clean_part _ a b). fold v in Hs.
    rewrite <- Hs. apply filter_clean. }
  destruct (cap_text_spec v) as [[-> Hl]|(p & q & -> & -> & Hl)].
  - split; [done|]. split; [by apply tagless_no_tag|done].
  - split; [done|]. split.
    + apply tagless_no_tag, tagless_ellipsis. by apply tagless_prefix in Hv.
    + apply clean_app; [by apply (clean_part _ "" q)|apply clean_ellipsis].
Qed.

(** A link [sanitizeURL] gives is one of a web page. *)
Definition web_link (u : string) : Prop := exists rest, u = "http://" +:+ rest \/ u = "https://" +:+ rest.

Lemma sanitizeURL_safe {N : NetIP} raw : sanitizeURL raw = "" \/ web_link (sanitizeURL raw).
Proof.
  unfold sanitizeURL. destruct (String.eqb (TrimSpace raw) ""); [by left|].
  destruct (Url.Parse (TrimSpace raw)) as [u|e] eqn:E; [|by left].
  destruct (String.eqb_spec u.(Url.Host) "") as [|Hh]; [by left|].
  pose proof (Url.Parse_host _ _ E Hh) as Ho.
  destruct (String.eqb_spec u.(Url.Scheme) "http") as [Hs|]; simpl.
  - right. destruct (Url.String_host u Ho Hh ltac:(by rewrite Hs)) as [r Hr]. exists r. left. by rewrite Hr, Hs.
  - destruct (String.eqb_spec u.(Url.Scheme) "https") as [Hs|]; simpl; [|by left].
    right. destruct (Url.String_host u Ho Hh ltac:(by rewrite Hs)) as [r Hr]. exists r. right. by rewrite Hr, Hs.
Qed.

(** ** The selection of releases *)

(** What the scans for the highest release keep. *)
Definition highest (core_of : ghRelease -> option core) (rels : list ghRelease) (o : option (ghRelease * core)) : Prop :=
  match o with
  | Some (r, c) => r ∈ rels /\ core_of r = Some c /\
      forall r' c', r' ∈ rels -> core_of r' = Some c' -> coreLess c c' = false
  | None => forall r', r' ∈ rels -> core_of r' = None
  end.

Lemma best_step_highest core_of rels o rel :
  highest core_of rels o -> highest core_of (rels ++ [rel]) (best_step core_of o rel).
Proof.
  intros H. unfold best_step. destruct (core_of rel) as [c|] eqn:Ec.
  - destruct o as [[b bc]|]; simpl in H.
    + destruct H as (Hb & Hbc & Hm). destruct (coreLess bc c) eqn:El.
      * split; [set_solver|]. split; [done|]. intros r' c' [Hin| ->%list_elem_of_singleton]%elem_of_app Hc.
        -- specialize (Hm _ _ Hin Hc). core_lia.
        -- rewrite Ec in Hc. injection Hc as <-. apply (less_irrefl coreLess).
      * split; [set_solver|]. split; [done|]. intros r' c' [Hin| ->%list_elem_of_singleton]%elem_of_app Hc; [eauto|congruence].
    + split; [set_solver|]. split; [done|]. intros r' c' [Hin| ->%list_elem_of_singleton]%elem_of_app Hc.
      * by rewrite (H _ Hin) in Hc.
      * rewrite Ec in Hc. injection Hc as <-. apply (less_irrefl coreLess).
  - destruct o as [[b bc]|]; simpl in *.
    + destruct H as (Hb & Hbc & Hm). split; [set_solver|]. split; [done|].
      intros r' c' [Hin| ->%list_elem_of_singleton]%elem_of_app Hc; [eauto|congruence].
    + intros r' [Hin| ->%list_elem_of_singleton]%elem_of_app; auto.
Qed.

Lemma best_fold core_of rels seen o :
  highest core_of seen o -> highest core_of (seen ++ rels) (fold_left (best_step core_of) rels o).
Proof.
  revert seen o. induction rels as [|r rels IH]; intros seen o H; cbn [fold_left]; [by rewrite app_nil_r|].
  apply (best_step_highest _ _ _ r) in H. apply IH in H. by rewrite <- app_assoc in H.
Qed.

Lemma best_release_Some core_of rels r :
  best_release core_of rels = Some r ->
  exists c, r ∈ rels /\ core_of r = Some c /\ forall r' c', r' ∈ rels -> core_of r' = Some c' -> coreLess c c' = false.
Proof.
  unfold best_release. intros H. pose proof (best_fold core_of rels [] None (fun r' Hr => ltac:(by apply not_elem_of_nil in Hr))) as Hh.
  simpl in Hh. destruct (fold_left _ rels None) as [[b c]|]; [|done]. injection H as <-. exists c. exact Hh.
Qed.

Lemma best_release_None core_of rels : best_release core_of rels = None -> forall r, r ∈ rels -> core_of r = None.
Proof.
  unfold best_release. intros H. pose proof (best_fold core_of rels [] None (fun r' Hr => ltac:(by apply not_elem_of_nil in Hr))) as Hh.
  simpl in Hh. destruct (fold_left _ rels None) as [[b c]|]; [done|]. exact Hh.
Qed.

(** The releases of the core of a full version, no pre-release among them. *)
Definition same_core (version : string) (rel : ghRelease) : Prop :=
  isPrerelease (normalizeTag rel.(TagName)) = false /\ coreComponents (normalizeTag rel.(TagName)) <= 3 /\
  exists c, parseCore (normalizeTag version) = Some c /\ parseCore (normalizeTag rel.(TagName)) = Some c.

Lemma core_scan_Some vCore normVer best rels r :
  core_scan vCore normVer best rels = Some r -> best = Some r \/
  r ∈ rels /\ isPrerelease (normalizeTag r.(TagName)) = false /\ coreComponents (normalizeTag r.(TagName)) <= 3 /\
  parseCore (normalizeTag r.(TagName)) = Some vCore.
Proof.
  revert best. induction rels as [|rel rels IH]; intros best; cbn [core_scan]; [auto|].
  destruct (match parseCore _ with None => true | Some c => _ end) eqn:Es.
  { intros H. apply IH in H. set_solver. }
  destruct (parseCore (normalizeTag (TagName rel))) as [c|] eqn:Ec; [|done].
  apply orb_false_iff in Es as [[Hc%negb_false_iff Hp]%orb_false_iff Hn%Z.ltb_ge].
  apply bool_decide_eq_true_1 in Hc as ->.
  destruct (String.eqb _ normVer).
  { intros [= <-]. right. split; [set_solver|done]. }
  intros H. apply IH in H as [H|H]; [|set_solver]. destruct best as [b|]; [by left|]. injection H as <-.
  right. split; [set_solver|done].
Qed.

(** [findRelease] answers a release of the list: one with a wanted tag when there
    is one; else, for a partial version, the highest release below it; else one
    of the version's core that is no pre-release. *)
Theorem findRelease_spec rels want version r :
  findRelease rels want version = Some r ->
  r ∈ rels /\
  (r.(TagName) ∈ want \/
   (forall r', r' ∈ rels -> r'.(TagName) ∉ want) /\
   ((exists c, let v := TrimPrefix version "v" in Z.of_nat (CountByte v ".") < 2 /\ patch_core v r = Some c /\
       forall r' c', r' ∈ rels -> patch_core v r' = Some c' -> coreLess c c' = false) \/
    same_core version r)).
Proof.
  unfold findRelease. destruct (List.find (tagged want) rels) as [r0|] eqn:Ef.
  - intros [= ->]. apply find_elem in Ef as [Hin Ht]. split; [done|]. left.
    unfold tagged in Ht. apply existsb_elem in Ht as (w & Hw & He%String.eqb_eq). by rewrite He.
  - assert (Hno : forall r', r' ∈ rels -> r'.(TagName) ∉ want).
    { intros r' Hr Hw. pose proof (find_none_elem _ _ _ Ef Hr) as Hf. apply not_true_iff_false in Hf.
      apply Hf, existsb_elem. exists (TagName r'). split; [done|]. apply String.eqb_refl. }
    destruct (negb (String.eqb (TrimPrefix version "v") "") && _) eqn:Ep.
    + intros H. apply best_release_Some in H as (c & Hin & Hc & Hm). split; [done|]. right. split; [done|]. left.
      exists c. split; [|done]. apply andb_true_iff in Ep as [_ Hlt%Z.ltb_lt]. done.
    + destruct (parseCore (normalizeTag version)) as [vc|] eqn:Ev; [|done].
      destruct (coreComponents (normalizeTag version) <=? 3); [|done].
      intros H. apply core_scan_Some in H as [H|(Hin & Hp & Hn & Hc)]; [done|]. split; [done|].
      right. split; [done|]. right. split; [done|]. split; [done|]. by exists vc.
Qed.

#[export] Instance highest_first_weak : StrictWeak highest_first.
Proof.
  split; unfold highest_first.
  - intros x. apply (less_irrefl coreLess).
  - intros x y z Hxy Hyz. by eapply (less_trans coreLess).
  - intros x y z Hxz. destruct (less_cotrans coreLess z.2 y.2 x.2 Hxz); auto.
Qed.

(** The span is made of exactly the stable releases above [fromCore] and up to
    [toCore], none higher than one before it, with the multiplicities of the
    list. *)
Lemma releasesInSpan_spec rels fromCore toCore :
  exists l : list (ghRelease * core),
    releasesInSpan rels fromCore toCore = map fst l /\
    l ≡ₚ omap (in_span fromCore toCore) rels /\
    StronglySorted (fun x y => coreLess x.2 y.2 = false) l /\
    forall r c, (r, c) ∈ l <->
      r ∈ rels /\ stable_core r = Some c /\ coreLess fromCore c = true /\ coreLess toCore c = false.
Proof.
  exists (sort_stable highest_first (omap (in_span fromCore toCore) rels)).
  split; [done|]. split; [apply sort_stable_perm|]. split; [apply (sort_stable_sorted highest_first)|].
  intros r c. rewrite sort_stable_perm, list_elem_of_omap. unfold in_span. split.
  - intros (x & Hx & He). destruct (stable_core x) as [c0|] eqn:Es; [|done].
    destruct (negb (coreLess fromCore c0) || coreLess toCore c0) eqn:Eb; [done|]. injection He as -> ->.
    apply orb_false_iff in Eb as [Hn%negb_false_iff Ht]. done.
  - intros (Hin & Hc & Hf & Ht). exists r. split; [done|]. by rewrite Hc, Hf, Ht.
Qed.

(** ** The rendered span *)

Fixpoint sections (i : nat) (span : list ghRelease) : string :=
  match span with [] => "" | rel :: rest => section i rel +:+ sections (S i) rest end.

Definition span_budget : Z := maxChangelogBytes - noteReserve.

Definition tail_note (shown total : nat) (complete : bool) (compareURL : string) : string :=
  if (shown <? total)%nat then omittedNote (Z.of_nat (total - shown)) compareURL
  else if complete then "" else omittedNote 0 compareURL.

Lemma section_not_empty i rel : section i rel <> "".
Proof. by destruct i. Qed.

Lemma render_loop_spec url b i span :
  b <> "" ->
  exists k, (k <= length span)%nat /\
    render_loop url b i span = (b +:+ sections i (take k span) +:+ tail_note k (length span) true url, (k <? length span)%nat) /\
    (k = 0%nat \/ Z.of_nat (len (b +:+ sections i (take k span))) <= span_budget) /\
    ((k < length span)%nat -> span_budget < Z.of_nat (len (b +:+ sections i (take (S k) span)))).
Proof.
  revert b i. induction span as [|rel rest IH]; intros b i Hb; cbn [render_loop].
  - exists 0%nat. split; [done|]. split; [|split; [by left|simpl; lia]]. unfold tail_note. simpl. by rewrite str_app_nil_r.
  - assert (H0 : 0 <? Z.of_nat (len b) = true) by (destruct b; [done|]; apply Z.ltb_lt; simpl; lia).
    rewrite H0. simpl andb. destruct (Z.ltb_spec (maxChangelogBytes - noteReserve) (Z.of_nat (len b) + Z.of_nat (len (section i rel)))) as [Hl|Hl].
    + exists 0%nat. split; [lia|]. split; [|split; [by left|]].
      * unfold tail_note. simpl. done.
      * intros _. cbn [take sections]. rewrite str_app_nil_r, len_app. unfold span_budget. lia.
    + destruct (IH (b +:+ section i rel) (S i)) as (k & Hk & Hr & Hfit & Hmax).
      { intros He. apply (section_not_empty i rel). by destruct b. }
      exists (S k). split; [simpl; lia|]. rewrite Hr. cbn [take sections]. rewrite !str_app_assoc in *.
      split; [|split].
      * done.
      * right. destruct Hfit as [->|Hfit]; [|done]. cbn [take sections]. rewrite str_app_nil_r, len_app.
        unfold span_budget. lia.
      * intros Hlt. simpl in Hlt. specialize (Hmax ltac:(lia)). done.
Qed.

(** The text of a span is that of its first [k] releases, in order, and a note
    on the others: how many the size budget left out, or that the walk did not
    reach the running version.  [k] is as large as the budget allows, at least
    one; only a first section larger than the budget can exceed it. *)
Lemma renderSpan_spec span url complete :
  (2 <= length span)%nat \/ complete = false /\ span <> [] ->
  exists k, (1 <= k <= length span)%nat /\
    renderSpan span url complete = sections 0 (take k span) +:+ tail_note k (length span) complete url /\
    (k = 1%nat \/ Z.of_nat (len (sections 0 (take k span))) <= span_budget) /\
    ((k < length span)%nat -> span_budget < Z.of_nat (len (sections 0 (take (S k) span)))).
Proof.
  intros Hs. destruct span as [|first rest]; [simpl in Hs; destruct Hs as [?|[_ ?]]; [lia|done]|].
  unfold renderSpan. destruct ((length (first :: rest) =? 1)%nat && complete) eqn:E1.
  { exfalso. apply andb_true_iff in E1 as [Hl%Nat.eqb_eq ->]. destruct Hs as [?|[? _]]; [lia|done]. }
  cbn [render_loop]. change (0 <? Z.of_nat (len "")) with false. simpl andb. cbv iota.
  destruct (render_loop_spec url (section 0 first) 1 rest (section_not_empty 0 first)) as (k & Hk & Hr & Hfit & Hmax).
  change ("" +:+ section 0 first) with (section 0 first). rewrite Hr. exists (S k). split; [simpl; lia|].
  cbn [take sections]. split; [|split].
  - unfold tail_note. change (length (first :: rest)) with (S (length rest)).
    change (S k <? S (length rest))%nat with (k <? length rest)%nat. rewrite (Nat.sub_succ (length rest) k).
    destruct (k <? length rest)%nat; simpl; [by rewrite !str_app_assoc|].
    destruct complete; [by rewrite !str_app_assoc|]. by rewrite str_app_nil_r, !str_app_assoc.
  - destruct Hfit as [->|Hfit]; [by left|by right].
  - intros Hlt. simpl in Hlt. apply Hmax. lia.
Qed.
