(* ===== verification/Changelog.v ===== *)
(** * Changelogs: the sources and the resolver (internal/changelog)

    [Resolver.Resolve] asks an ordered chain of sources and keeps the first
    answer that is not empty once sanitized: the GitHub releases of the image's
    repository (github.go), the description on Docker Hub (registry.go), the
    links of the image's labels (oci.go).  What the hosts answer and the JSON
    decoder are classes; the repository cache is the table of StoreMisc.v.
    Logging is left out, and so is the time-out of the HTTP client (a request
    that times out is one that fails).  The chain is an instance of the interface
    the scanner of Scan.v asks. *)

From stdpp Require Import base list strings gmap.
From S2P Require Import Prelude GoStd Semver NetUrl Db Integrity World StoreUpdates StoreServices StoreMisc.
From S2P Require Import Files Daemon Registry Detect Scan ChangelogText.

Local Open Scope Z_scope.

(** ** The outside *)

(** A response: its status, the header X-RateLimit-Remaining, its body. *)
Record Answer := mkAnswer { an_Status : Z; an_Remaining : string; an_Body : string }.

(** What a GET of a URL under a bearer token meets at a given call. *)
Class Web := { web_get : nat -> string -> string -> result Answer }.

(** encoding/json on a list of releases and on the answer of Docker Hub. *)
Class ChangelogJSON := {
  releases_Decode : string -> result (list ghRelease);
  description_Decode : string -> result string;
}.

Record Input := mkInput {
  in_Update : Update;
  in_Image : RemoteImage;
  in_Repo : string;
  in_FromVersion : string;
  in_Version : string;
}.

Record Result := mkResult { rs_Text : string; rs_URL : string }.

Definition no_result : Result := mkResult "" "".

(** The interface [Source]. *)
Record Source := mkSource { src_Name : string; src_Resolve : Input -> M world (result Result) }.

Definition ErrRateLimited : error := Sentinel changelog_ErrRateLimited.

Definition buildInput (u : Update) (img : RemoteImage) : Input :=
  mkInput u img (repoFromRef img.(ri_Ref)) u.(up_FromVersion) (firstNonEmpty [u.(up_ToVersion); u.(up_Tag)]).

Section Changelog.
Context {E : Env} {N : NetIP} {W : Web} {J : ChangelogJSON}.

(** A GET; [NewRequestWithContext] refuses a URL that does not parse before the
    token is asked for. *)
Definition http_get (url : string) (tokenFn : M world string) : M world (result Answer) :=
  match Url.Parse url with
  | Err e => ret (Err e)
  | Ok _ =>
      let! tok := tokenFn in
      call (fun _ => EvHttp "GET" url) (fun n => web_get n url tok)
  end.

(** ** The chain *)

(** The loop of [Resolve]. *)
Fixpoint resolve_loop (input : Input) (sawRateLimit : bool) (sources : list Source)
    : M world (result (string * string)) :=
  match sources with
  | [] => ret (if sawRateLimit then Err ErrRateLimited else Ok ("", ""))
  | s :: rest =>
      let! res := s.(src_Resolve) input in
      match res with
      | Err rerr => resolve_loop input (sawRateLimit || errors_Is rerr changelog_ErrRateLimited) rest
      | Ok res =>
          let t := sanitizeText res.(rs_Text) in
          let l := sanitizeURL res.(rs_URL) in
          if negb (String.eqb t "") || negb (String.eqb l "") then ret (Ok (t, l))
          else resolve_loop input sawRateLimit rest
      end
  end.

Definition Resolve (sources : list Source) (u : Update) (img : RemoteImage) : M world (result (string * string)) :=
  resolve_loop (buildInput u img) false sources.

(** ** The labels of the image (oci.go) *)

Definition oci_Resolve (input : Input) : M world (result Result) :=
  let labels := input.(in_Image).(ri_Labels) in
  ret (Ok (mkResult "" (firstNonEmpty
    [label_of labels "org.opencontainers.image.source";
     label_of labels "org.opencontainers.image.url";
     label_of labels "org.opencontainers.image.documentation";
     label_of labels "org.label-schema.vcs-url";
     label_of labels "org.label-schema.url"]))).

Definition NewOCISource : Source := mkSource "oci-labels" oci_Resolve.

(** ** Docker Hub (registry.go) *)

Definition registry_Resolve (hubBase : string) (input : Input) : M world (result Result) :=
  match hubPath input.(in_Repo) with
  | None => ret (Ok no_result)
  | Some path =>
      let? resp := http_get (hubBase +:+ "/v2/repositories/" +:+ path +:+ "/") (ret "") in
      if resp.(an_Status) =? 200 then
        match description_Decode resp.(an_Body) with
        | Err e => ret (Err e)
        | Ok d => ret (Ok (mkResult d (hubWebURL path)))
        end
      else if resp.(an_Status) =? 404 then ret (Ok no_result)
      else ret (Err (Errorf ("docker hub: status " +:+ Itoa resp.(an_Status))))
  end.

Definition NewRegistrySource (hubBase : string) : Source :=
  let hubBase := if String.eqb hubBase "" then "https://hub.docker.com" else hubBase in
  mkSource "registry-native" (registry_Resolve hubBase).

(** ** GitHub (github.go) *)

(** [gs_cache]: whether there is a cache; [gs_ttl] is in nanoseconds. *)
Record GitHubSource := mkGitHub {
  gs_apiBase : string;
  gs_rawBase : string;
  gs_tokenFn : M world string;
  gs_cache : bool;
  gs_ttl : Z;
}.

Definition fetchReleasesPage (s : GitHubSource) (owner repo : string) (page : Z)
    : M world (result (option (list ghRelease))) :=
  let url := s.(gs_apiBase) +:+ "/repos/" +:+ Url.PathEscape owner +:+ "/" +:+ Url.PathEscape repo
             +:+ "/releases?per_page=" +:+ Itoa releasesPerPage +:+ "&page=" +:+ Itoa page in
  let? resp := http_get url s.(gs_tokenFn) in
  if resp.(an_Status) =? 200 then
    match releases_Decode resp.(an_Body) with
    | Err e => ret (Err e)
    | Ok rels => ret (Ok (Some rels))
    end
  else if resp.(an_Status) =? 404 then ret (Ok None)
  else if ((resp.(an_Status) =? 403) || (resp.(an_Status) =? 429)) && String.eqb resp.(an_Remaining) "0"
  then ret (Err ErrRateLimited)
  else ret (Err (Errorf ("github releases: status " +:+ Itoa resp.(an_Status)))).

(** The loop of [fetchReleases]: [left] pages may still be asked, [rels] is in
    hand.  The answer is the releases and [reached]; [None] when the repository
    does not exist. *)
Fixpoint fetch_loop (s : GitHubSource) (owner repo : string) (covered : ghRelease -> bool) (left : nat)
    (page : Z) (rels : list ghRelease) : M world (result (option (list ghRelease * bool))) :=
  match left with
  | O => ret (Ok (Some (rels, false)))
  | S left' =>
      let? batch := fetchReleasesPage s owner repo page in
      match batch with
      | None => ret (Ok None)
      | Some batch =>
          let rels := rels ++ batch in
          if match last rels with Some oldest => covered oldest | None => false end
          then ret (Ok (Some (rels, true)))
          else if Z.of_nat (length batch) <? releasesPerPage then ret (Ok (Some (rels, true)))
          else fetch_loop s owner repo covered left' (page + 1) rels
      end
  end.

Definition fetchReleases (s : GitHubSource) (owner repo : string) (maxPages : Z) (covered : ghRelease -> bool)
    : M world (result (option (list ghRelease * bool))) :=
  fetch_loop s owner repo covered (Z.to_nat maxPages) 1 [].

Fixpoint changelogLink (s : GitHubSource) (owner repo : string) (tags : list string)
    : M world (result (option string)) :=
  match tags with
  | [] => ret (Ok None)
  | tag :: tags' =>
      let tail := Url.PathEscape owner +:+ "/" +:+ Url.PathEscape repo in
      let? resp := http_get (s.(gs_rawBase) +:+ "/" +:+ tail +:+ "/" +:+ Url.PathEscape tag +:+ "/CHANGELOG.md")
                            s.(gs_tokenFn) in
      if resp.(an_Status) =? 200
      then ret (Ok (Some ("https://github.com/" +:+ tail +:+ "/blob/" +:+ Url.PathEscape tag +:+ "/CHANGELOG.md")))
      else changelogLink s owner repo tags'
  end.

(** What the source answers from the releases of an existing repository. *)
Definition notes_of (s : GitHubSource) (tgt : target) (input : Input) (fromCore : option core)
    (rels : list ghRelease) (reachedFrom : bool) : M world (result Result) :=
  let rels := filterByFlavor rels (extractFlavor input.(in_Version)) in
  let want := tgt.(tg_tags) input.(in_Version) in
  match findRelease rels want input.(in_Version) with
  | None =>
      match parseCore input.(in_Version), latestStableRelease rels with
      | None, Some latest =>
          let note := "_Latest release for rolling tag `" +:+ input.(in_Version) +:+ "`._"
                      +:+ String newline (String newline "") in
          ret (Ok (mkResult (note +:+ latest.(gh_Body)) latest.(gh_HTMLURL)))
      | _, _ =>
          let? link := changelogLink s tgt.(tg_Owner) tgt.(tg_Name) want in
          match link with
          | Some link => ret (Ok (mkResult "" link))
          | None => ret (Ok no_result)
          end
      end
  | Some rel =>
      let own := Ok (mkResult rel.(gh_Body) rel.(gh_HTMLURL)) in
      match fromCore, parseCore (normalizeTag rel.(TagName)) with
      | Some fromCore, Some toCore =>
          if negb (coreLess fromCore toCore) then ret own
          else
            let fromTag := match findRelease rels (tgt.(tg_tags) input.(in_FromVersion)) input.(in_FromVersion) with
                           | Some fromRel => fromRel.(TagName)
                           | None => ""
                           end in
            let span := releasesInSpan rels fromCore toCore in
            match span with
            | [] => ret own
            | _ =>
                let link := spanLink tgt.(tg_Owner) tgt.(tg_Name) fromTag rel.(TagName) reachedFrom in
                ret (Ok (mkResult (renderSpan span link reachedFrom) rel.(gh_HTMLURL)))
            end
      | _, _ => ret own
      end
  end.

(** The cache: whether the mapping was there, and whether it says that the
    repository does not exist. *)
Definition cached_mapping (s : GitHubSource) (repoKey : string) : M world (bool * bool) :=
  if s.(gs_cache) then
    let! r := ChangelogRepos.Get repoKey s.(gs_ttl) in
    match r with
    | Ok (Some (_, _, positive)) => ret (true, negb positive)
    | _ => ret (false, false)
    end
  else ret (false, false).

Definition keep_mapping (s : GitHubSource) (cached : bool) (repoKey owner name : string) (exists_ : bool) : M world unit :=
  if s.(gs_cache) && negb cached then
    do! (if exists_ then ChangelogRepos.Put repoKey owner name else ChangelogRepos.Put repoKey "" "") in ret tt
  else ret tt.

(** The walk back stops at a release at or below the running version. *)
Definition span_covered (fromCore : option core) (oldest : ghRelease) : bool :=
  match parseCore (normalizeTag oldest.(TagName)) with
  | Some c => negb (coreLess (core_or_zero fromCore) c)
  | None => false
  end.

Definition github_Resolve (s : GitHubSource) (input : Input) : M world (result Result) :=
  match githubTarget input.(in_Image).(ri_Ref) input.(in_Image).(ri_Labels) with
  | None => ret (Ok no_result)
  | Some tgt =>
      if String.eqb input.(in_Version) "" then ret (Ok no_result)
      else
        let owner := tgt.(tg_Owner) in
        let name := tgt.(tg_Name) in
        let repoKey := owner +:+ "/" +:+ name in
        let! '(cached, negative) := cached_mapping s repoKey in
        if negative then ret (Ok no_result)
        else
          let fromCore := parseCore input.(in_FromVersion) in
          let pages := match fromCore with Some _ => maxReleasePages | None => 1 end in
          let! fetched := fetchReleases s owner name pages (span_covered fromCore) in
          match fetched with
          | Err err =>
              let! link := changelogLink s owner name (tgt.(tg_tags) input.(in_Version)) in
              match link with
              | Ok (Some link) => ret (Ok (mkResult "" link))
              | _ => ret (Err err)
              end
          | Ok None =>
              do! keep_mapping s cached repoKey owner name false in ret (Ok no_result)
          | Ok (Some (rels, reachedFrom)) =>
              do! keep_mapping s cached repoKey owner name true in
              notes_of s tgt input fromCore rels reachedFrom
          end
  end.

Definition NewGitHubSource (apiBase rawBase : string) (tokenFn : M world string) (cache : bool) (ttl : Z) : Source :=
  let apiBase := if String.eqb apiBase "" then "https://api.github.com" else apiBase in
  let rawBase := if String.eqb rawBase "" then "https://raw.githubusercontent.com" else rawBase in
  let ttl := if ttl <=? 0 then 24 * 3600 * second else ttl in
  mkSource "github-releases" (github_Resolve (mkGitHub apiBase rawBase tokenFn cache ttl)).

(** The chain main.go builds. *)
Definition sources (tokenFn : M world string) : list Source :=
  [NewGitHubSource "https://api.github.com" "https://raw.githubusercontent.com" tokenFn true (24 * 3600 * second);
   NewRegistrySource "https://hub.docker.com"; NewOCISource].

Definition chain (tokenFn : M world string) : ChangelogAPI :=
  {| changelog_Resolve := Resolve (sources tokenFn) |}.

End Changelog.
