(* ===== verification/ChangelogSpec.v ===== *)
(** * What the changelog chain guarantees

    Which answer the resolver gives, what the text and the link it gives are,
    how many requests the chain may cost, and that it only reads: it implements
    the interface the scanner asks (Scan.v). *)

From stdpp Require Import base list strings gmap.
From Stdlib Require Import Ascii.
From S2P Require Import Prelude GoStd Semver NetUrl Db Integrity World StoreUpdates StoreServices StoreMisc Store.
From S2P Require Import Files Daemon Registry Detect Scan Http HttpApi ChangelogText Changelog.

Local Open Scope Z_scope.

(** ** The answer of the resolver *)

Section Answers.
Context {E : Env} {N : NetIP}.

(** What one source answered is worth: the sanitized pair, when it is not empty. *)
Definition hit (r : result Result) : option (string * string) :=
  match r with
  | Err _ => None
  | Ok res =>
      let t := sanitizeText res.(rs_Text) in
      let l := sanitizeURL res.(rs_URL) in
      if negb (String.eqb t "") || negb (String.eqb l "") then Some (t, l) else None
  end.

Definition limited (r : result Result) : bool :=
  match r with Err e => errors_Is e changelog_ErrRateLimited | Ok _ => false end.

(** The sources asked in turn from [w], their answers, and the world after. *)
Inductive ran (input : Input) : list Source -> world -> list (result Result) -> world -> Prop :=
| ran_nil w : ran input [] w [] w
| ran_cons s ss w r w1 rs w2 :
    s.(src_Resolve) input w = (r, w1) -> ran input ss w1 rs w2 -> ran input (s :: ss) w (r :: rs) w2.

(** The outcome of a chain: the first hit ends it, and is sanitized; without a
    hit every source was asked, and a rate limit among the answers is told. *)
Inductive outcome (sources asked : list Source) (answers : list (result Result)) :
    result (string * string) -> Prop :=
| out_hit before r t l :
    answers = before ++ [r] -> Forall (fun a => hit a = None) before -> hit r = Some (t, l) ->
    safe_text t -> l = "" \/ web_link l -> outcome sources asked answers (Ok (t, l))
| out_miss :
    asked = sources -> Forall (fun a => hit a = None) answers -> existsb limited answers = false ->
    outcome sources asked answers (Ok ("", ""))
| out_limited :
    asked = sources -> Forall (fun a => hit a = None) answers -> existsb limited answers = true ->
    outcome sources asked answers (Err ErrRateLimited).

Lemma outcome_cons ss s asked r answers out :
  hit r = None -> (limited r = true -> exists e, out = Err e) -> outcome ss asked answers out ->
  outcome (s :: ss) (s :: asked) (r :: answers) out.
Proof.
  intros Hr Hl H. destruct H as [before r0 t l -> Hb Hh Hs Hw| -> Hm Hn| -> Hm Hn].
  - apply (out_hit _ _ _ (r :: before) r0); auto.
  - apply out_miss; [done|by constructor|]. simpl. rewrite Hn, orb_false_r.
    destruct (limited r); [|done]. by destruct (Hl eq_refl).
  - apply out_limited; [done|by constructor|]. simpl. by rewrite Hn, orb_true_r.
Qed.

(** The loop, with a rate limit seen before it. *)
Lemma resolve_loop_run input saw sources w :
  exists asked answers out w',
    ran input asked w answers w' /\ asked `prefix_of` sources /\
    resolve_loop input saw sources w = (out, w') /\
    ((exists t l, out = Ok (t, l) /\ outcome sources asked answers (Ok (t, l)) /\ (saw = true -> (t, l) <> ("", ""))) \/
     (out = Err ErrRateLimited /\ asked = sources /\ Forall (fun a => hit a = None) answers /\
      saw || existsb limited answers = true)).
Proof.
  revert saw w. induction sources as [|s ss IH]; intros saw w; cbn [resolve_loop].
  - exists [], [], (if saw then Err ErrRateLimited else Ok ("", "")), w.
    split; [constructor|]. split; [done|]. split; [done|]. destruct saw.
    + right. by repeat split.
    + left. exists "", "". split; [done|]. split; [by apply out_miss|done].
  - unfold bind. destruct (s.(src_Resolve) input w) as [r w1] eqn:Es.
    assert (Hmiss : hit r = None -> forall saw', saw' = saw || limited r ->
      exists asked answers out w', ran input asked w answers w' /\ asked `prefix_of` (s :: ss) /\
        resolve_loop input saw' ss w1 = (out, w') /\
        ((exists t l, out = Ok (t, l) /\ outcome (s :: ss) asked answers (Ok (t, l)) /\ (saw = true -> (t, l) <> ("", ""))) \/
         (out = Err ErrRateLimited /\ asked = s :: ss /\ Forall (fun a => hit a = None) answers /\
          saw || existsb limited answers = true))).
    { intros Hr saw' ->. destruct (IH (saw || limited r) w1) as (asked & answers & out & w' & Hran & Hp & -> & Ho).
      exists (s :: asked), (r :: answers), out, w'. split; [by econstructor|]. split; [by apply prefix_cons|].
      split; [done|]. destruct Ho as [(t & l & -> & Ho & Hs)|(-> & -> & Hm & Hl)].
      - left. exists t, l. split; [done|]. split; [|intros ->; by apply Hs].
        destruct (limited r) eqn:El; [|apply outcome_cons; [done|by rewrite El|done]].
        inversion Ho as [before r0 t0 l0 Ha Hb Hh Hst Hw|Hasked Hm Hn|]; subst.
        + apply (out_hit _ _ _ (r :: before) r0); auto.
        + exfalso. apply Hs; [by rewrite orb_true_r|done].
      - right. split; [done|]. split; [done|]. split; [by constructor|]. simpl. by rewrite orb_assoc. }
    destruct r as [res|e]; [|by apply (Hmiss eq_refl)].
    destruct (negb (String.eqb (sanitizeText (rs_Text res)) "") || negb (String.eqb (sanitizeURL (rs_URL res)) "")) eqn:Eh.
    + exists [s], [Ok res], (Ok (sanitizeText (rs_Text res), sanitizeURL (rs_URL res))), w1.
      split; [econstructor; [exact Es|constructor]|]. split; [apply prefix_cons, prefix_nil|]. split; [done|].
      left. eexists _, _. split; [done|]. split.
      * apply (out_hit _ _ _ [] (Ok res)); [done|done| |apply sanitizeText_safe|apply sanitizeURL_safe].
        unfold hit. by rewrite Eh.
      * intros _ [= Ht Hl]. by rewrite Ht, Hl in Eh.
    + apply (Hmiss ltac:(unfold hit; by rewrite Eh)). by rewrite orb_false_r.
Qed.

(** C22. The resolver asks the sources in order up to the first whose sanitized
    answer is not empty, and gives that answer: a text of at most 64 KiB with no
    HTML tag and no control byte, and no link or one that opens with http:// or
    https://.  When no source has one, all were asked, and the answer is the rate
    limit if one of them met it, else nothing: no other error leaves the chain. *)
Theorem Resolve_spec sources u img w :
  exists asked answers w',
    ran (buildInput u img) asked w answers w' /\ asked `prefix_of` sources /\
    (Resolve sources u img w).2 = w' /\
    outcome sources asked answers (Resolve sources u img w).1.
Proof.
  unfold Resolve. destruct (resolve_loop_run (buildInput u img) false sources w) as (asked & answers & out & w' & Hr & Hp & -> & Ho).
  exists asked, answers, w'. split; [done|]. split; [done|]. split; [done|]. simpl.
  destruct Ho as [(t & l & -> & Ho & _)|(-> & -> & Hm & Hl)]; [done|]. by apply out_limited.
Qed.
End Answers.

(** ** What the chain costs, and that it only reads *)

Definition is_request (e : event) : bool := match e with EvHttp _ _ => true | _ => false end.

Definition requests (w : world) : nat := length (List.filter is_request w.(w_trace)).

(** [m] makes at most [n] requests, and consults. *)
Definition costs {A} (n : nat) (m : M world A) : Prop :=
  consults m /\ forall w, (requests (m w).2 <= n + requests w)%nat.

Lemma consults_bind {A B} (m : M world A) (k : A -> M world B) :
  consults m -> (forall a, consults (k a)) -> consults (bind m k).
Proof.
  intros Hm Hk w Hd. unfold bind. destruct (Hm w Hd) as [H1 H2]. destruct (m w) as [a w1]. simpl in *.
  destruct (Hk a w1 (proj1 H1)) as [H3 H4]. split; [by eapply observes_trans|congruence].
Qed.

Lemma costs_ret {A} n (a : A) : costs n (ret a).
Proof.
  split; [|intros w; simpl; lia]. apply consults_reads. intros w. split; [done|]. split; [done|]. by exists [].
Qed.

Lemma costs_bind {A B} n1 n2 n (m : M world A) (k : A -> M world B) :
  (n1 + n2 <= n)%nat -> costs n1 m -> (forall a, costs n2 (k a)) -> costs n (bind m k).
Proof.
  intros Hn [Hm1 Hm2] Hk. split; [apply consults_bind; [done|apply Hk]|]. intros w. unfold bind.
  pose proof (Hm2 w) as H1. destruct (m w) as [a w1]. simpl in *. destruct (Hk a) as [_ H2]. specialize (H2 w1). lia.
Qed.

Lemma costs_bind_ok {A B} n1 n2 n (m : M world (result A)) (k : A -> M world (result B)) :
  (n1 + n2 <= n)%nat -> costs n1 m -> (forall a, costs n2 (k a)) -> costs n (bind_ok m k).
Proof. intros Hn Hm Hk. apply (costs_bind n1 n2); [done|done|]. intros [a|e]; [apply Hk|apply costs_ret]. Qed.

Lemma costs_more {A} n n' (m : M world A) : (n <= n')%nat -> costs n m -> costs n' m.
Proof. intros Hn [H1 H2]. split; [done|]. intros w. specialize (H2 w). lia. Qed.

Section Costs.
Context {E : Env} {N : NetIP} {W : Web} {J : ChangelogJSON}.

Lemma costs_sql {A} op id (st : stmt A) :
  stmt_keeps db_ok st -> (forall d0, stmt_keeps (aside d0) st) -> costs 0 (sql op id st).
Proof.
  intros H1 H2. split; [by apply consults_sql|]. intros w. destruct (sql op id st w) as [[a|e] w'] eqn:Es.
  - apply sql_ok_inv in Es as (_ & _ & Ht & _). unfold requests. simpl. rewrite Ht. simpl. lia.
  - apply sql_err_inv in Es as ->. done.
Qed.

Lemma costs_now : costs 0 now.
Proof. split; [apply consults_now|done]. Qed.

Lemma costs_repo_Get repo ttl : costs 0 (ChangelogRepos.Get repo ttl).
Proof.
  unfold ChangelogRepos.Get. apply (costs_bind 0 0); [lia| |].
  - apply costs_sql; [|beside_stmt].
    intros t d a d' Hd. by case_match; intros [= _ <-].
  - intros [c|e]; [|case_match; apply costs_ret]. apply (costs_bind 0 0); [lia|apply costs_now|].
    intros t. case_match; apply costs_ret.
Qed.

Lemma costs_repo_Put repo owner name : costs 0 (ChangelogRepos.Put repo owner name).
Proof.
  unfold ChangelogRepos.Put. apply (costs_bind 0 0); [lia|apply costs_now|]. intros t.
  apply costs_sql; [apply repos_put_ok|]. intros d0 t0 d a d' Hd [= _ <-]. exact Hd.
Qed.

(** The token costs nothing. *)
Context (tokenFn : M world string) (Htok : costs 0 tokenFn).

Lemma costs_get url tok : costs 0 tok -> costs 1 (http_get url tok).
Proof.
  intros Ht. unfold http_get. destruct (Url.Parse url); [|apply costs_ret]. apply (costs_bind 0 1); [lia|done|].
  intros tok0. split.
  - apply consults_reads. intros w. split; [done|]. split; [done|]. by exists [EvHttp "GET" url].
  - intros w. unfold call, requests. simpl. lia.
Qed.

Lemma costs_page s owner repo page : s.(gs_tokenFn) = tokenFn -> costs 1 (fetchReleasesPage s owner repo page).
Proof.
  intros Hs. unfold fetchReleasesPage. apply (costs_bind_ok 1 0); [lia|rewrite Hs; by apply costs_get|].
  intros resp. repeat case_match; apply costs_ret.
Qed.

Lemma costs_fetch s owner repo covered left page rels :
  s.(gs_tokenFn) = tokenFn -> costs left (fetch_loop s owner repo covered left page rels).
Proof.
  intros Hs. revert page rels. induction left as [|left IH]; intros page rels; cbn [fetch_loop]; [apply costs_ret|].
  apply (costs_bind_ok 1 left); [lia|by apply costs_page|]. intros [batch|]; [|apply costs_ret].
  cbv zeta. destruct (match last _ with Some oldest => _ | None => _ end); [apply costs_ret|].
  destruct (_ <? _); [apply costs_ret|apply IH].
Qed.

Lemma costs_link s owner repo tags : s.(gs_tokenFn) = tokenFn -> costs (length tags) (changelogLink s owner repo tags).
Proof.
  intros Hs. induction tags as [|tag tags IH]; cbn [changelogLink]; [apply costs_ret|].
  apply (costs_bind_ok 1 (length tags)); [simpl; lia|rewrite Hs; by apply costs_get|].
  intros resp. destruct (_ =? _); [apply costs_ret|apply IH].
Qed.

(** Three candidate tags for any repository. *)
Lemma githubTarget_tags ref labels t : githubTarget ref labels = Some t -> forall v, length (t.(tg_tags) v) = 3%nat.
Proof.
  unfold githubTarget, curatedRepos. intros H v. repeat case_match; simplify_eq; done.
Qed.

Lemma costs_notes s tgt input from rels reached :
  s.(gs_tokenFn) = tokenFn -> (forall v, length (tgt.(tg_tags) v) = 3%nat) ->
  costs 3 (notes_of s tgt input from rels reached).
Proof.
  intros Hs Ht. unfold notes_of. cbv zeta.
  assert (Hlink : forall o n, costs 3 (let? link := changelogLink s o n (tgt.(tg_tags) input.(in_Version)) in
    match link with Some l => ret (Ok (mkResult "" l)) | None => ret (Ok no_result) end)).
  { intros o n. apply (costs_bind_ok 3 0); [lia| |intros [l|]; apply costs_ret].
    rewrite <- (Ht input.(in_Version)). by apply costs_link. }
  repeat case_match; first [apply costs_ret|apply Hlink].
Qed.

Lemma costs_github apiBase rawBase cache ttl input :
  costs 6 ((NewGitHubSource apiBase rawBase tokenFn cache ttl).(src_Resolve) input).
Proof.
  unfold NewGitHubSource. simpl. unfold github_Resolve.
  destruct (githubTarget _ _) as [tgt|] eqn:Et; [|apply costs_ret]. pose proof (githubTarget_tags _ _ _ Et) as Hlen. clear Et.
  destruct (String.eqb _ ""); [apply costs_ret|].
  apply (costs_bind 0 6); [lia| |].
  { unfold cached_mapping. simpl. destruct cache; [|apply costs_ret]. apply (costs_bind 0 0); [lia|apply costs_repo_Get|].
    intros r. repeat case_match; apply costs_ret. }
  intros [cached negative]. destruct negative; [apply costs_ret|]. cbv zeta.
  apply (costs_bind 3 3); [lia| |].
  { unfold fetchReleases. match goal with |- costs 3 (fetch_loop _ _ _ _ ?n _ _) => apply (costs_more n) end; [|by apply costs_fetch].
    destruct (parseCore _); vm_compute; lia. }
  assert (Hkeep : forall b k o n e, costs 0 (keep_mapping (mkGitHub
     (if String.eqb apiBase "" then "https://api.github.com" else apiBase)
     (if String.eqb rawBase "" then "https://raw.githubusercontent.com" else rawBase) tokenFn cache
     (if ttl <=? 0 then 24 * 3600 * second else ttl)) b k o n e)).
  { intros b k o n e. unfold keep_mapping. simpl. destruct (cache && negb b); [|apply costs_ret].
    apply (costs_bind 0 0); [lia|destruct e; apply costs_repo_Put|]. intros _. apply costs_ret. }
  intros [[[rels reached]|]|e].
  - apply (costs_bind 0 3); [lia|apply Hkeep|]. intros _. by apply costs_notes.
  - apply (costs_bind 0 3); [lia|apply Hkeep|]. intros _. apply costs_ret.
  - apply (costs_bind 3 0); [lia| |intros [[l|]|e0]; apply costs_ret].
    rewrite <- (Hlen input.(in_Version)). by apply costs_link.
Qed.

Lemma costs_registry hubBase input : costs 1 ((NewRegistrySource hubBase).(src_Resolve) input).
Proof.
  unfold NewRegistrySource, registry_Resolve. simpl. destruct (hubPath _); [|apply costs_ret].
  apply (costs_bind_ok 1 0); [lia|apply costs_get, costs_ret|]. intros resp. repeat case_match; apply costs_ret.
Qed.

Lemma costs_source n m s ss input saw :
  costs n (s.(src_Resolve) input) -> (forall saw, costs m (resolve_loop input saw ss)) ->
  costs (n + m) (resolve_loop input saw (s :: ss)).
Proof.
  intros Hs Hss. cbn [resolve_loop]. apply (costs_bind n m); [done|done|].
  intros [res|e]; [|apply Hss]. cbv zeta. destruct (_ || _); [apply costs_ret|apply Hss].
Qed.

Lemma costs_chain u img : costs 7 (Resolve (sources tokenFn) u img).
Proof.
  unfold Resolve, sources. apply (costs_source 6 1); [apply costs_github|]. intros saw1.
  apply (costs_source 1 0); [apply costs_registry|]. intros saw2.
  apply (costs_source 0 0); [apply costs_ret|]. intros saw3. apply costs_ret.
Qed.
End Costs.

Lemma costs_token `{Env} `{Sealer} : costs 0 Api.githubToken.
Proof.
  unfold Api.githubToken, Settings.GetSecret, Settings.Get.
  repeat first
    [ apply costs_ret | apply costs_sql; [solve [eauto with keeps]|beside_stmt]
    | apply (costs_bind_ok 0 0); [lia| |intros ?] | apply (costs_bind 0 0); [lia| |intros ?]
    | case_match ].
Qed.


(** The chain main.go builds implements the interface of the scanner. *)
#[export] Instance chain_consults `{Env} `{NetIP} `{Web} `{ChangelogJSON} `{Sealer} :
  ChangelogConsults (chain Api.githubToken).
Proof. split. intros u r. apply costs_chain, costs_token. Qed.

(** ** Runs

    A repository of two pages of releases: a backport ends the first page. *)

Definition rel (tag body : string) : ghRelease := mkRelease tag ("https://github.com/acme/web/releases/tag/" +:+ tag) body.

Definition page_one : list ghRelease :=
  map (fun i => rel ("v3.0." +:+ Itoa (98 - Z.of_nat i)) "fixes") (List.seq 0 99) ++ [rel "v1.5.1" "a backport"].
Definition page_two : list ghRelease := [rel "v2.5.0" "a breaking change"; rel "v2.0.0" "hello"].

Definition demo_web : Web := {|
  web_get _ url _ :=
    if HasSuffix url "&page=1" then Ok (mkAnswer 200 "" "one")
    else if HasSuffix url "&page=2" then Ok (mkAnswer 200 "" "two")
    else Ok (mkAnswer 404 "" "")
|}.

Definition demo_json : ChangelogJSON := {|
  releases_Decode body := if String.eqb body "one" then Ok page_one else Ok page_two;
  description_Decode _ := Err (Errorf "unexpected end of JSON input");
|}.

(** GitHub refuses, and nothing else answers. *)
Definition limited_web : Web := {| web_get _ url _ :=
  if HasPrefix url "https://api.github.com" then Ok (mkAnswer 403 "0" "") else Ok (mkAnswer 404 "" "") |}.

Definition web_image (labels : gmap string string) : RemoteImage :=
  mkRemote "acme/web:3.0.98" "sha256:new" "" "" "" labels None "linux" "amd64".

Definition from_to (from to : string) : Update :=
  mkUpdate 1 1 "sha256:old" "sha256:new" from to to "major" "" "" "" "available" 1700000000 None.

Notation demo_chain web tokenFn u img w :=
  (@Resolve loopback_only (@sources calm_env loopback_only web demo_json tokenFn) u img w) (only parsing).

Definition no_token : M world string := ret "".

Definition empty_world : world := demo_world demo_db.

(** A source that errs does not end the chain; the label is the last resort. *)
Example chain_limited : (demo_chain limited_web no_token (from_to "2.0.0" "3.0.98") (web_image ∅) empty_world).1 = Err ErrRateLimited.
Proof. vm_compute. reflexivity. Qed.

Example chain_label :
  (demo_chain limited_web no_token (from_to "2.0.0" "3.0.98")
     (web_image {["org.opencontainers.image.url" := "https://acme.example"]}) empty_world).1 = Ok ("", "https://acme.example").
Proof. vm_compute. reflexivity. Qed.


(** The walk back stops at the backport: what came before it on the next page is
    not shown, and the text does not say so. *)
Definition shown : string :=
  match (demo_chain demo_web no_token (from_to "2.0.0" "3.0.98") (web_image ∅) empty_world).1 with
  | Ok (t, _) => t | Err _ => "" end.

Lemma backport_hides_releases :
  Contains shown "## v3.0.98" = true /\ Contains shown "v2.5.0" = false /\ Contains shown "omitted" = false /\
  releasesInSpan (page_one ++ page_two) (2, 0, 0) (3, 0, 98) <> releasesInSpan page_one (2, 0, 0) (3, 0, 98).
Proof. split_and!; [vm_compute; reflexivity..|]. intros H. apply (f_equal length) in H. vm_compute in H. done. Qed.

(** A first release larger than the budget pushes the note past the cap. *)
Fixpoint str_repeat (n : nat) (s : string) : string := match n with O => "" | S n' => s +:+ str_repeat n' s end.

Definition long_span : list ghRelease := [rel "v2.0.0" (str_repeat (Z.to_nat 65600) "x"); rel "v1.1.0" "more"].

Lemma note_lost :
  Contains (renderSpan long_span "https://x" true) "1 earlier release omitted" = true /\
  Contains (sanitizeText (renderSpan long_span "https://x" true)) "omitted" = false.
Proof. split; vm_compute; reflexivity. Qed.

Lemma renderSpan_spec_witness :
  let span := [rel "v2.0.0" "new"; rel "v1.1.0" "old"] in
  exists k, (1 <= k <= length span)%nat /\
    renderSpan span "https://x" false = sections 0 (take k span) +:+ tail_note k (length span) false "https://x" /\
    (k = 1%nat \/ Z.of_nat (len (sections 0 (take k span))) <= span_budget) /\
    ((k < length span)%nat -> span_budget < Z.of_nat (len (sections 0 (take (S k) span)))).
Proof. apply renderSpan_spec. left. simpl. lia. Defined.

Lemma findRelease_spec_witness :
  let r := rel "v3.0.98" "fixes" in
  r ∈ page_one /\
  (r.(TagName) ∈ defaultTags "3" \/
   (forall r', r' ∈ page_one -> r'.(TagName) ∉ defaultTags "3") /\
   ((exists c, let v := TrimPrefix "3" "v" in Z.of_nat (CountByte v "."%char) < 2 /\ patch_core v r = Some c /\
       forall r' c', r' ∈ page_one -> patch_core v r' = Some c' -> coreLess c c' = false) \/
    same_core "3" r)).
Proof. apply (findRelease_spec page_one (defaultTags "3") "3"). vm_compute. reflexivity. Defined.
