(* ===== verification/Sched.v ===== *)
(** * The background loops (cmd/dockbrr/main.go, cmd/dockbrr/dockerwatch.go)

    The scheduler with its gated automatic apply, the two retention sweeps, the
    reconcile loop, the debouncing of the daemon's events, the liveness prober and
    the boot of the database.  A loop is a function of what its [select] received,
    in order, until the context was done; what the rest of the process did in
    between is an argument.  A ticker whose period is not positive panics: the
    answer is then [Err].  Logging is left out. *)

From stdpp Require Import base list strings gmap.
From S2P Require Import Prelude GoStd Clock Db Integrity World StoreUpdates StoreJobs StoreServices StoreMisc Store.
From S2P Require Import Files Compose Daemon Registry Detect Scan Discovery Password ScanRun Http HttpApi HttpSettings.

Local Open Scope Z_scope.

Definition minute : Z := 60 * second.

(** [time.Duration(n) * time.Second] on 64 bits. *)
Definition seconds (n : Z) : Z := Discovery.wrap64 (n * second).

Module Sched.

(** ** Settings *)
Section Settings.
Context {E : Env}.

Definition settingInt (key : string) (def : Z) : M world Z :=
  let! v := Settings.Get key in
  match v with
  | Err _ => ret def
  | Ok v => if String.eqb v "" then ret def else ret (default def (Atoi v))
  end.

Definition settingDuration (key : string) (def : Z) : M world Z :=
  let! secs := settingInt key (-1) in
  ret (if secs <? 0 then def else seconds secs).

(** ** Automatic apply *)

Definition auto_job (svc : Service) : Job :=
  mkJob 0 "apply" (Some svc.(sv_ProjectID)) (Some svc.(sv_ID)) "" "service" "scheduler" 0 None None None "".

(** The body of the loop of [autoApply]. *)
Definition auto_apply_one (svc : Service) : M world unit :=
  let! proj := Projects.Get svc.(sv_ProjectID) in
  match proj with
  | Err _ => ret tt
  | Ok proj =>
      if proj.(pr_Unmanaged) then ret tt
      else if negb (EffectiveAutoUpdate proj svc) then ret tt
      else
        let! open_ := Updates.GetLatestOpenByService svc.(sv_ID) in
        match open_ with
        | Err _ => ret tt
        | Ok _ => do! Jobs.Enqueue (auto_job svc) in ret tt
        end
  end.

Definition autoApply : M world unit :=
  let! svcs := Services.List_ in
  match svcs with
  | Err _ => ret tt
  | Ok svcs => for_each svcs auto_apply_one
  end.

(** ** Retention *)

Definition day_seconds : Z := 86400.

(** [time.Now().UTC().AddDate(0, 0, -days)], in seconds: the calendar of UTC has no
    gaps, and the arithmetic is that of 64-bit integers. *)
Definition days_before (t days : Z) : Z := Discovery.wrap64 (t / second - days * day_seconds).

(** The body of [pruneLoop]. *)
Definition prune_jobs : M world unit :=
  let! days := settingInt "job_retention_days" 30 in
  if days <=? 0 then ret tt
  else
    let! t := now in
    do! Jobs.DeleteFinishedBefore (days_before t days) in ret tt.

(** The body of [sessionGCLoop]. *)
Definition sweep_sessions : M world unit :=
  let! t := now in
  do! Sessions.DeleteExpired t in ret tt.

(** Both loops: once at boot, then at every tick; [between] is what happened before
    each tick. *)
Fixpoint sweep_loop (run : M world unit) (between : list (M world unit)) : M world unit :=
  match between with
  | [] => run
  | b :: bs => do! run in do! b in sweep_loop run bs
  end.

Definition pruneLoop : list (M world unit) -> M world unit := sweep_loop prune_jobs.
Definition sessionGCLoop : list (M world unit) -> M world unit := sweep_loop sweep_sessions.

(** ** Boot of the database *)

Definition first_boot : M world (result unit) :=
  let! r := Settings.Get "installed_at" in
  match r with
  | Ok _ => ret (Ok tt)
  | Err e =>
      if negb (errors_Is e "setting not found") then ret (Err e)
      else
        let! t := now in
        Settings.Set_ "installed_at" (rfc3339 (t / second))
  end.

Definition bootstrap_admin {R : Random} {A2 : Argon2} (user password : string) : M world (result unit) :=
  if String.eqb user "" then ret (Ok tt)
  else
    let? n := Users.Count in
    if n =? 0 then
      let? hash := Auth.HashPassword password in
      let? _id := Users.Create user hash in ret (Ok tt)
    else ret (Ok tt).
End Settings.

(** ** The scheduler *)

Record sched := mkSched { sd_server : server; sd_next : Z }.

Definition on_server {A} (m : M server A) : M sched A := fun s =>
  let '(a, sv) := m s.(sd_server) in (a, mkSched sv s.(sd_next)).

Definition store_next (n : Z) : M sched unit := fun s => (tt, mkSched s.(sd_server) n).

Definition panic_ticker : error := Errorf "non-positive interval for ticker".

(** [time.NewTicker] and [Ticker.Reset]. *)
Definition ticker (period : Z) : result unit := if period <=? 0 then Err panic_ticker else Ok tt.

Definition default_poll : Z := 15 * minute.

Section Scheduler.
Context {E : Env} {D : Deps} {CK : Checker}.

Definition poll_interval : M sched Z := on_server (on_world (settingDuration "poll_interval_seconds" default_poll)).

(** [nextScan.Store(time.Now().Add(interval).Unix())]. *)
Definition set_next (interval : Z) : M sched unit :=
  let! t := on_server (on_world now) in store_next ((t + interval) / second).

(** One check, and the apply when it completed. *)
Definition check_and_apply : M sched unit :=
  let! ok := on_server Api.RunScheduled in
  if ok then on_server (on_world autoApply) else ret tt.

(** The [for] loop: one element per tick, what the rest of the process did before
    it. *)
Fixpoint ticks (interval : Z) (between : list (M server unit)) : M sched (result unit) :=
  match between with
  | [] => ret (Ok tt)
  | b :: bs =>
      do! on_server b in
      do! check_and_apply in
      let! next := poll_interval in
      if next =? interval then do! set_next interval in ticks interval bs
      else
        match ticker next with
        | Err e => ret (Err e)
        | Ok _ => do! set_next next in ticks next bs
        end
  end.

(** [schedulerLoop]; [ready] is what happened while it waited for the discovery. *)
Definition schedulerLoop (ready : M server unit) (between : list (M server unit)) : M sched (result unit) :=
  let! interval := poll_interval in
  match ticker interval with
  | Err e => ret (Err e)
  | Ok _ =>
      do! set_next interval in
      let! on_start := on_server (on_world (Settings.GetBoolDefault "scan_on_start" true)) in
      do! (if on_start then do! on_server ready in check_and_apply else ret tt) in
      ticks interval between
  end.
End Scheduler.

(** ** Discovery *)

(** What the [select] of [reconcileLoop] received; after [Closed] the channel is nil
    and the ticker is left. *)
Inductive wake := Tick | Event | Closed.

Section Reconcile.
Context {E : Env} {SS : SliceSort} {CG : Compose.ComposeGo} {CL : Discovery.Collector} (rc : Discovery.Reconciler).

(** One pass, with the fingerprint of the last one; it publishes a hint. *)
Definition reconcile_pass (lastSig : string) : M world string :=
  let! '(r, sig) := Discovery.Reconcile rc lastSig in
  do! (match r with Ok true => emit (EvNotify "reconciled" 0) | _ => ret tt end) in
  ret sig.

Fixpoint reconcile_loop (lastSig : string) (alive : bool) (wakes : list wake) : M world string :=
  match wakes with
  | [] => ret lastSig
  | w :: ws =>
      match w with
      | Tick => let! sig := reconcile_pass lastSig in reconcile_loop sig alive ws
      | Event =>
          if alive then let! sig := reconcile_pass lastSig in reconcile_loop sig alive ws
          else reconcile_loop lastSig alive ws
      | Closed => reconcile_loop lastSig false ws
      end
  end.

Definition reconcileLoop (wakes : list wake) : M world string :=
  let! sig := reconcile_pass "" in reconcile_loop sig true wakes.
End Reconcile.

(** ** [debounce]

    What the goroutine meets, in order: a signal on [in], the expiry of its timer
    ([time.After] the last signal), the end of the context or of [in], and the
    reader taking the buffered signal of [out].  An expiry when no timer runs does
    not happen. *)
Inductive bevent := Signal | Expired | InClosed | Cancelled | Taken.

Inductive bstate := Waiting | Settling | Ended.

Record debouncer := mkDebouncer { db_at : bstate; db_out : bool; db_sent : nat }.

(** [select { case out <- struct{}{}: default: }] on a buffer of one. *)
Definition send_out (d : debouncer) : debouncer :=
  mkDebouncer Waiting true (if d.(db_out) then d.(db_sent) else S d.(db_sent)).

Definition debounce_step (d : debouncer) (e : bevent) : debouncer :=
  match e, d.(db_at) with
  | Taken, _ => mkDebouncer d.(db_at) false d.(db_sent)
  | _, Ended => d
  | (InClosed | Cancelled), _ => mkDebouncer Ended d.(db_out) d.(db_sent)
  | Signal, _ => mkDebouncer Settling d.(db_out) d.(db_sent)
  | Expired, Settling => send_out d
  | Expired, Waiting => d
  end.

Definition debounce (es : list bevent) : debouncer := fold_left debounce_step es (mkDebouncer Waiting false 0).

(** ** The daemon's liveness (dockerwatch.go) *)

Inductive edge := Up | Down (e : error).

(** One ping of [watchDockerLiveness]: the state, and the edge it reports. *)
Definition watch_step (reachable : bool) (ping : option error) : bool * list edge :=
  match ping, reachable with
  | Some e, true => (false, [Down e])
  | None, false => (true, [Up])
  | _, _ => (reachable, [])
  end.

Fixpoint watchDockerLiveness (reachable : bool) (pings : list (option error)) : list edge :=
  match pings with
  | [] => []
  | p :: ps => let '(r, es) := watch_step reachable p in es ++ watchDockerLiveness r ps
  end.

(** The dials of [waitForDocker], one per tick: the first client, or none when the
    context ended before. *)
Fixpoint waitForDocker {A} (dials : list (result A)) : option A :=
  match dials with
  | [] => None
  | Ok c :: _ => Some c
  | Err _ :: ds => waitForDocker ds
  end.

End Sched.
