(* ===== verification/SchedSpec.v ===== *)
(** * What the background loops guarantee

    Which jobs the scheduler makes, that it makes them after a completed check
    only, when its ticker is safe, what the boot does to the users, and what the
    debouncer and the liveness prober let through. *)

From stdpp Require Import base list strings gmap.
From S2P Require Import Prelude GoStd Db Integrity World StoreUpdates StoreJobs StoreServices StoreMisc Store.
From S2P Require Import Files Compose Daemon Registry Detect Scan Discovery Password ScanRun Http HttpApi HttpSettings.
From S2P Require Import RouteSpec RouteFoot RouteSafety JobOrigin Sched.

Local Open Scope Z_scope.

(** ** Automatic apply *)

Section AutoApply.
Context {E : Env}.
Import Sched.

(** A service the gate lets through, as the tables have it. *)
Definition eligible (d : db) (svc : Service) : bool :=
  match Projects.find_project d svc.(sv_ProjectID) with
  | Some p =>
      negb p.(pr_Unmanaged) && EffectiveAutoUpdate p svc
      && existsb (fun u => of_service svc.(sv_ID) u && status_in ["available"] u) d.(updates).(rows)
  | None => false
  end.

Definition auto_queued (svc : Service) (j : Job) : Prop :=
  queued_for j "apply" (Some svc.(sv_ProjectID)) (Some svc.(sv_ID)) "service" /\ j.(job_RequestedBy) = "scheduler".

(** The tables the gate reads. *)
Definition same_tables (d d' : db) : Prop :=
  d'.(services) = d.(services) /\ d'.(projects) = d.(projects) /\ d'.(updates) = d.(updates).

Lemma eligible_same d d' svc : same_tables d d' -> eligible d' svc = eligible d svc.
Proof. intros (_ & Hp & Hu). unfold eligible, Projects.find_project. by rewrite Hp, Hu. Qed.

(** Nothing fails in the database. *)
Definition calm : Prop := forall n, sql_fault n = None.

Definition one_job (d d' : db) (svc : Service) : Prop :=
  eligible d svc = true /\ exists j, d'.(jobs).(rows) = d.(jobs).(rows) ++ [j] /\ auto_queued svc j.

Lemma Enqueue_auto svc w r w' :
  Jobs.Enqueue (auto_job svc) w = (r, w') ->
  same_tables w.(w_db) w'.(w_db) /\
  match r with
  | Ok _ => exists j, w'.(w_db).(jobs).(rows) = w.(w_db).(jobs).(rows) ++ [j] /\ auto_queued svc j
  | Err _ => w'.(w_db).(jobs).(rows) = w.(w_db).(jobs).(rows)
  end.
Proof.
  unfold Jobs.Enqueue. destruct r as [id|e]; intros Hs; [|by apply sql_err_inv in Hs as ->].
  apply sql_ok_inv in Hs as (Hs & _). unfold Jobs.insert_job in Hs. destruct (negb _); [done|]. injection Hs as _ Hd.
  rewrite <- Hd. split; [done|]. eexists. split; [reflexivity|]. by repeat split.
Qed.

Lemma sql_calm {A} op id (st : stmt A) w : calm ->
  (sql op id st w).1 = (match st (clock w.(w_tick) / second) w.(w_db) with Ok (a, _) => Ok a | Err e => Err e end).
Proof. intros Hc. unfold sql. rewrite Hc. by destruct (st _ _) as [[a d]|e]. Qed.

Lemma first_by_None {A} (less : A -> A -> bool) l : first_by less l = None -> l = [].
Proof.
  unfold first_by. intros H. apply Permutation_nil. rewrite <- (sort_stable_perm less l). by destruct (sort_stable less l).
Qed.

Lemma existsb_filter {A} (f : A -> bool) l : existsb f l = true <-> List.filter f l <> [].
Proof.
  induction l as [|a l IH]; simpl; [done|]. destruct (f a); simpl; [done|exact IH].
Qed.

(** The body of the loop: one job for an eligible service, nothing for another. *)
Lemma auto_one svc w w' :
  auto_apply_one svc w = (tt, w') ->
  same_tables w.(w_db) w'.(w_db) /\
  (w'.(w_db).(jobs).(rows) = w.(w_db).(jobs).(rows) \/ one_job w.(w_db) w'.(w_db) svc) /\
  (calm -> has_id sv_ID w.(w_db).(services) svc.(sv_ID) = true -> eligible w.(w_db) svc = true ->
   one_job w.(w_db) w'.(w_db) svc).
Proof.
  unfold auto_apply_one. intros (pr & w1 & Hp & Hk)%bind_inv. unfold Projects.Get in Hp.
  pose proof Hp as Hp'. apply read_sql_inv in Hp as [Hd1 Hp]; [|read_stmt].
  assert (Hleft : w' = w1 -> (eligible w.(w_db) svc = true -> calm -> False) ->
    same_tables w.(w_db) w'.(w_db) /\ (w'.(w_db).(jobs).(rows) = w.(w_db).(jobs).(rows) \/ one_job w.(w_db) w'.(w_db) svc) /\
    (calm -> has_id sv_ID w.(w_db).(services) svc.(sv_ID) = true -> eligible w.(w_db) svc = true ->
     one_job w.(w_db) w'.(w_db) svc)).
  { intros -> Hno. rewrite Hd1. split; [done|]. split; [by left|]. intros Hc _ He. by destruct (Hno He Hc). }
  destruct pr as [p|e].
  2:{ injection Hk as <-. apply Hleft; [done|]. unfold eligible. intros He Hc.
      pose proof (sql_calm "projects.Get" svc.(sv_ProjectID) (fun _ d =>
        match Projects.find_project d svc.(sv_ProjectID) with Some p => Ok (p, d) | None => Err Projects.ErrProjectNotFound end) w Hc) as Hq.
      rewrite Hp' in Hq. simpl in Hq. by destruct (Projects.find_project _ _). }
  destruct (Hp p eq_refl) as (t & Hf). destruct (Projects.find_project w.(w_db) svc.(sv_ProjectID)) as [p'|] eqn:Ef; [|done].
  injection Hf as ->. assert (Hel : eligible w.(w_db) svc = negb p.(pr_Unmanaged) && EffectiveAutoUpdate p svc
      && existsb (fun u => of_service svc.(sv_ID) u && status_in ["available"] u) w.(w_db).(updates).(rows)) by (unfold eligible; by rewrite Ef).
  destruct p.(pr_Unmanaged); [injection Hk as <-; apply Hleft; [done|rewrite Hel; simpl; congruence]|].
  destruct (EffectiveAutoUpdate p svc); [|injection Hk as <-; apply Hleft; [done|rewrite Hel; simpl; congruence]]. simpl in Hk, Hel.
  apply bind_inv in Hk as (ou & w2 & Hu & Hk). unfold Updates.GetLatestOpenByService in Hu.
  pose proof Hu as Hu'. apply read_sql_inv in Hu as [Hd2 Hu]; [|read_stmt].
  pose proof (existsb_filter (fun u => of_service svc.(sv_ID) u && status_in ["available"] u) w.(w_db).(updates).(rows)) as Hopen.
  destruct ou as [u|e].
  - destruct (Hu u eq_refl) as (t2 & Hf2). rewrite Hd1 in Hf2.
    assert (Hel1 : eligible w.(w_db) svc = true).
    { rewrite Hel. apply Hopen. intros Hn. rewrite Hn in Hf2. done. }
    apply bind_inv in Hk as (r & w3 & He & Hk). injection Hk as <-. pose proof He as He'.
    apply Enqueue_auto in He as [Hst Hj]. rewrite Hd2, Hd1 in Hst, Hj. split; [done|].
    destruct r as [id|err].
    + split; [right|intros _ _ _]; by split.
    + split; [by left|]. intros Hc Hsv _. exfalso.
      pose proof (sql_calm "jobs.Enqueue" 0 (Jobs.insert_job (auto_job svc) "queued" "service" "scheduler") w2 Hc) as Hq.
      change (sql "jobs.Enqueue" 0 (Jobs.insert_job (auto_job svc) "queued" "service" "scheduler") w2 = (Err err, w3)) in He'.
      rewrite He' in Hq. unfold Jobs.insert_job in Hq. simpl in Hq.
      rewrite Hd2, Hd1, Hsv in Hq.
      assert (Hpr : has_id pr_ID w.(w_db).(projects) svc.(sv_ProjectID) = true).
      { apply find_elem in Ef as [Hin Hid%Z.eqb_eq]. apply has_id_true. by exists p. }
      rewrite Hpr in Hq. done.
  - injection Hk as <-. split; [by rewrite Hd2, Hd1|]. split; [left; by rewrite Hd2, Hd1|].
    intros Hc _ He. exfalso. rewrite Hel in He. apply Hopen in He.
    pose proof (sql_calm "updates.GetLatestOpenByService" svc.(sv_ID) (fun _ d =>
      match first_by newest_detected (List.filter (fun u => of_service svc.(sv_ID) u && status_in ["available"] u) d.(updates).(rows)) with
      | Some u => Ok (u, d) | None => Err Updates.ErrNoOpenUpdate end) w1 Hc) as Hq.
    rewrite Hu' in Hq. simpl in Hq. rewrite Hd1 in Hq.
    clear Hu. destruct (first_by _ _) eqn:Eb; [done|]. by apply first_by_None in Eb.
Qed.

(** What a run of [autoApply] adds: one job for each of some of the eligible
    services, in the order of the table; for all of them when nothing fails. *)
Definition auto_applied (d d' : db) : Prop :=
  same_tables d d' /\
  exists picked new, picked `sublist_of` List.filter (eligible d) d.(services).(rows) /\
    d'.(jobs).(rows) = d.(jobs).(rows) ++ new /\ Forall2 auto_queued picked new /\
    (calm -> picked = List.filter (eligible d) d.(services).(rows)).

Lemma auto_loop d0 svcs w :
  same_tables d0 w.(w_db) -> (forall s, s ∈ svcs -> s ∈ d0.(services).(rows)) ->
  let w' := (for_each svcs auto_apply_one w).2 in
  same_tables d0 w'.(w_db) /\
  exists picked new, picked `sublist_of` List.filter (eligible d0) svcs /\
    w'.(w_db).(jobs).(rows) = w.(w_db).(jobs).(rows) ++ new /\ Forall2 auto_queued picked new /\
    (calm -> picked = List.filter (eligible d0) svcs).
Proof.
  revert w. induction svcs as [|svc svcs IH]; intros w Hw Hin; simpl.
  { split; [done|]. exists [], []. rewrite app_nil_r. repeat split; done. }
  unfold bind. destruct (auto_apply_one svc w) as [[] w1] eqn:E1. apply auto_one in E1 as (Hs & Hj & Hc).
  assert (Hw1 : same_tables d0 w1.(w_db)) by (destruct Hw as (A1 & A2 & A3), Hs as (B1 & B2 & B3); repeat split; congruence).
  destruct (IH w1 Hw1 (fun s Hx => Hin s ltac:(by right))) as (Hend & picked & new & Hsub & Hrows & Hf & Hall).
  split; [done|]. unfold one_job in Hj, Hc. rewrite (eligible_same d0 _ _ Hw) in Hj, Hc.
  destruct (eligible d0 svc) eqn:Ee.
  - destruct Hj as [Hj|[_ (j & Hj & Hq)]].
    + exists picked, new. split; [by apply sublist_cons|]. split; [by rewrite Hrows, Hj|]. split; [done|].
      intros Hcalm. exfalso. destruct Hc as [_ (j & Hj2 & _)]; [done| |done|].
      * destruct Hw as [-> _]. apply has_id_true. exists svc. split; [|done]. apply Hin. by left.
      * rewrite Hj in Hj2. apply (f_equal length) in Hj2. rewrite length_app in Hj2. simpl in Hj2. lia.
    + exists (svc :: picked), (j :: new). split; [by apply sublist_skip|].
      split; [by rewrite Hrows, Hj, <- app_assoc|]. split; [by constructor|]. intros Hcalm. by rewrite (Hall Hcalm).
  - destruct Hj as [Hj|[Hj _]]; [|done]. exists picked, new. split; [done|]. split; [by rewrite Hrows, Hj|]. done.
Qed.

Lemma autoApply_adds w : auto_applied w.(w_db) (autoApply w).2.(w_db).
Proof.
  unfold autoApply, bind. destruct (Services.List_ w) as [r w1] eqn:El. unfold Services.List_ in El.
  pose proof El as El'. apply read_sql_inv in El as [Hd Hl]; [|read_stmt]. destruct r as [svcs|e]; simpl.
  - destruct (Hl svcs eq_refl) as (t & Hq). unfold query in Hq. injection Hq as Hsv. subst svcs.
    destruct (auto_loop w.(w_db) w.(w_db).(services).(rows) w1) as (Hst & picked & new & H1 & H2 & H3 & H4);
      [by rewrite Hd|done|]. rewrite Hd in H2. split; [exact Hst|]. exists picked, new. repeat split; [exact H1|exact H2|exact H3|exact H4].
  - rewrite Hd. split; [done|]. exists [], []. rewrite app_nil_r. split; [apply sublist_nil_l|]. split; [done|]. split; [done|].
    intros Hc. exfalso. pose proof (sql_calm "services.List" 0 (query (fun d => d.(services).(rows))) w Hc) as Hq.
    by rewrite El' in Hq.
Qed.
End AutoApply.

(** ** What the scheduler needs of the sweeps

    A sweep observes: the law the scanner gives, whatever the registry and the
    changelog sources are. *)
Class CheckerObserves `{Env} (CK : Checker) : Prop := {
  checks_observe ids reopen onDone s :
    db_ok s.(Scanner.sc_world).(w_db) -> (forall f, onDone = Some f -> forall i n, consults (f i n)) ->
    observes s.(Scanner.sc_world) (CheckServicesFresh ids reopen onDone s).2.(Scanner.sc_world)
}.

#[export] Instance scanner_observes `{Env} `{SliceSort} `{LabelsJSON} {A : RegistryAPI} {C : ChangelogAPI}
    {RR : RegistryReads A} {CC : ChangelogConsults C} d sc : CheckerObserves (scanner_checker d sc).
Proof.
  split. intros ids reopen onDone s Hok Hf. simpl. unfold Scanner.CheckServicesFresh.
  refine (proj1 (keeps_bind (fun x => swept (if reopen then ids else []) s.(Scanner.sc_world) x.(Scanner.sc_world)) _ _
    (keeps_sweep d sc _ _ reopen onDone _ _ _ ids _ Hf) _ s _)).
  - by intros -> id Hid.
  - intros a. apply keeps_ret.
  - split; [by apply observes_refl|apply stay_refl].
Qed.

Section Scheduler.
Context {E : Env} {D : Deps} {CK : Checker} {CO : CheckerObserves CK}.
Import Sched.

(** An invariant of the world that sweeps, which only observe, and their stamp keep. *)
Class SweepKeeps (I : world -> Prop) : Prop := {
  sk_ok w : I w -> db_ok w.(w_db);
  sk_observes w w' : I w -> observes w w' -> I w';
  sk_stamp v : keeps I (Settings.Set_ "last_check_all" v);
}.

Definition srv_inv (I : world -> Prop) (s : server) : Prop := I (srv_world s).
Definition scan_inv (I : world -> Prop) (s : Scanner.scanning) : Prop := I s.(Scanner.sc_world).
Definition srv_db (P : db -> Prop) (s : server) : Prop := P (store s).

Lemma keeps_scan_lift {A} I (m : M world A) : keeps I m -> keeps (scan_inv I) (Scanner.lift m).
Proof. intros Hm [w n h] Hw. unfold Scanner.lift, scan_inv in *. simpl in *. specialize (Hm w Hw). by destruct (m w). Qed.

Lemma keeps_srv_scanning {A} I (m : M Scanner.scanning A) : keeps (scan_inv I) m -> keeps (srv_inv I) (on_scanning m).
Proof. intros Hm [sc l r v] Hw. unfold on_scanning, srv_inv, srv_world in *. simpl in *. specialize (Hm sc Hw). by destruct (m sc). Qed.

Lemma keeps_srv_world {A} I (m : M world A) : keeps I m -> keeps (srv_inv I) (on_world m).
Proof. intros Hm. by apply keeps_srv_scanning, keeps_scan_lift. Qed.

Lemma keeps_srv_runner {A} I (f : ScanRunner.ScanRunner -> A * ScanRunner.ScanRunner) : keeps (srv_inv I) (on_runner f).
Proof. intros [sc l r v] Hw. unfold on_runner, srv_inv, srv_world in *. simpl in *. by destruct (f r). Qed.

Lemma keeps_db_read {A} P op id (st : stmt A) : read_stmt st -> keeps (on_db P) (sql op id st).
Proof. intros Hr. apply keeps_sql_db. intros t d a d' Hd Hs. by rewrite (Hr _ _ _ _ Hs). Qed.

Section Sweeps.
Context (I : world -> Prop) {SK : SweepKeeps I}.

Lemma sweep_consults {A} (m : M world A) : consults m -> keeps I m.
Proof. intros Hm w Hw. eapply sk_observes; [exact Hw|]. apply Hm. by apply sk_ok. Qed.

Lemma sweep_read {A} op id (st : stmt A) : read_stmt st -> keeps I (sql op id st).
Proof.
  intros Hr. apply sweep_consults, consults_sql; [by intros t d a d' Hd Hs; rewrite (Hr _ _ _ _ Hs)|].
  by intros d0 t d a d' Hd Hs; rewrite (Hr _ _ _ _ Hs).
Qed.

Lemma sweep_notify (b : bool) k n : keeps I (if b then emit (EvNotify k n) else ret tt).
Proof. destruct b; [by apply sweep_consults, consults_emit|apply keeps_ret]. Qed.

(** A sweep, by whoever asked for it. *)
Lemma execute_keeps i scope ids manual : keeps (srv_inv I) (Api.execute i scope ids manual).
Proof.
  unfold Api.execute. apply keeps_bind; [apply keeps_srv_runner|]. intros _. apply keeps_bind.
  2:{ intros b. apply keeps_bind; [apply keeps_srv_runner|]. intros _. apply keeps_ret. }
  apply keeps_srv_scanning. unfold ScanRunner.sweep_world, ScanRunner.publish.
  apply keeps_bind; [apply keeps_scan_lift, sweep_notify|]. intros _. apply keeps_bind.
  { intros s Hs. pose proof (sk_ok _ Hs : db_ok s.(Scanner.sc_world).(w_db)) as Hok. unfold scan_inv in *.
    eapply sk_observes; [exact Hs|]. apply checks_observe; [exact Hok|].
    intros f [= <-] i' n. destruct has_bus; [by apply consults_emit|]. apply consults_reads. intros w.
    split; [done|]. split; [done|]. by exists []. }
  intros rl. apply keeps_bind.
  { apply keeps_scan_lift, sweep_consults, consults_reads. intros w. split; [done|]. split; [done|]. by exists []. }
  intros stopped. cbv zeta.
  apply keeps_bind; [|intros _; apply keeps_bind; [apply keeps_scan_lift, sweep_notify|intros _; apply keeps_ret]].
  destruct (_ && _); [|apply keeps_ret]. apply keeps_bind; [apply keeps_scan_lift, sweep_consults, consults_now|]. intros t.
  apply keeps_bind; [apply keeps_scan_lift, sk_stamp|]. intros _. apply keeps_scan_lift, sweep_notify.
Qed.

Lemma run_scheduled_keeps : keeps (srv_inv I) Api.RunScheduled.
Proof.
  unfold Api.RunScheduled. apply keeps_bind.
  { apply keeps_srv_world. unfold ScanRunner.resolve, Services.List_. apply keeps_bind_ok; [apply sweep_read; read_stmt|].
    intros l. apply keeps_ret. }
  intros [ids|e]; [|apply keeps_ret]. apply keeps_bind; [apply keeps_srv_runner|]. intros [|]; simpl; [|apply keeps_ret].
  apply keeps_bind; [apply keeps_srv_runner|]. intros i. apply execute_keeps.
Qed.
End Sweeps.

(** A property of the database will do when sweeps leave what it is about alone. *)
Lemma sweep_keeps_db (P : db -> Prop) :
  (forall d, P d -> db_ok d) -> (forall d d', P d -> untouched d d' -> db_ok d' -> P d') ->
  (forall v, stmt_keeps P (Settings.set_stmt "last_check_all" v)) -> SweepKeeps (on_db P).
Proof.
  intros Hok Hun Hst. split.
  - intros w Hw. by apply Hok.
  - intros w w' Hw (Hok' & Hu & _). by eapply Hun.
  - intros v. unfold Settings.Set_. apply keeps_sql_db, Hst.
Qed.

(** Given jobs are kept. *)
#[export] Instance sweep_keeps_jobs (l : list Job) : SweepKeeps (on_db (fun d => db_ok d /\ d.(jobs).(rows) = l)).
Proof.
  apply sweep_keeps_db.
  - by intros d [].
  - intros d d' [_ Hj] (Hun & _) Hok. split; [done|]. by rewrite Hun.
  - intros v t d a d' [Hok Hj] Hs. split; [by eapply settings_set_ok|]. unfold Settings.set_stmt in Hs. by injection Hs as _ <-.
Qed.

(** The jobs after one round of the scheduler. *)
Lemma round_jobs s :
  db_ok (store s.(sd_server)) ->
  let s' := (check_and_apply s).2 in
  (store s'.(sd_server)).(jobs).(rows) = (store s.(sd_server)).(jobs).(rows) \/
  exists s1, Api.RunScheduled s.(sd_server) = (true, s1) /\
    (store s1).(jobs).(rows) = (store s.(sd_server)).(jobs).(rows) /\
    auto_applied (store s1) (store s'.(sd_server)).
Proof.
  intros Hok. unfold check_and_apply, on_server, bind. destruct s as [sv nx]. simpl in *.
  pose proof (run_scheduled_keeps _ (SK := sweep_keeps_jobs (store sv).(jobs).(rows)) sv (conj Hok eq_refl)) as [_ Hj].
  fold (store (Api.RunScheduled sv).2) in Hj.
  destruct (Api.RunScheduled sv) as [ok s1] eqn:Er. simpl in Hj. destruct ok; simpl; [|by left].
  right. exists s1. split; [done|]. split; [exact Hj|].
  pose proof (autoApply_adds (srv_world s1)) as Ha. unfold on_world, on_scanning, Scanner.lift, store, srv_world in *.
  destruct s1 as [[w n h] l r v]. simpl in *. by destruct (autoApply w).
Qed.


(** ** The ticker *)

(** A poll interval the ticker takes: none, a text that is no number, a negative
    one (the default serves then), or from one second to as many as a 64-bit
    duration holds. *)
Definition poll_text_ok (v : string) : bool :=
  match Atoi v with Some n => (n <? 0) || (1 <=? n) && (n <=? max_int / second) | None => true end.

Definition poll_ok (d : db) : Prop :=
  db_ok d /\ forall v, Settings.lookup "poll_interval_seconds" d = Some v -> poll_text_ok v = true.

Lemma lookup_put_other k k' v d : k <> k' ->
  Settings.lookup k (with_settings (put_row (fun kv => String.eqb kv.1 k') (fun kv => (kv.1, v)) (k', v) d.(settings)) d)
  = Settings.lookup k d.
Proof.
  intros Hne. unfold Settings.lookup. simpl. f_equal. induction d.(settings) as [|[a b] l IH]; simpl.
  - by apply String.eqb_neq in Hne; rewrite String.eqb_sym, Hne.
  - destruct (String.eqb_spec a k') as [->|]; simpl.
    + apply not_eq_sym, String.eqb_neq in Hne as ->. done.
    + destruct (String.eqb a k); [done|apply IH].
Qed.

#[export] Instance sweep_keeps_poll : SweepKeeps (on_db poll_ok).
Proof.
  apply sweep_keeps_db.
  - by intros d [].
  - intros d d' [_ Hp] Hun Hok. split; [done|]. unfold untouched in Hun. intros v Hv. apply Hp. unfold Settings.lookup in *.
    destruct Hun as (_ & _ & _ & _ & _ & Hs & _). by rewrite <- Hs.
  - intros v t d a d' [Hok Hp] Hs. split; [by eapply settings_set_ok|]. unfold Settings.set_stmt in Hs. injection Hs as _ <-.
    intros v' Hv'. apply Hp. by rewrite lookup_put_other in Hv'.
Qed.

Lemma autoApply_poll : keeps (on_db poll_ok) autoApply.
Proof.
  assert (Hq : forall job st sc by_, stmt_keeps poll_ok (Jobs.insert_job job st sc by_)).
  { intros job st sc by_ t d a d' [Hok Hp] Hs. split; [|unfold Jobs.insert_job in Hs; case_match; [done|]; by injection Hs as _ <-].
    assert (Hk : stmt_keeps db_ok (Jobs.insert_job job st sc by_)) by eauto with keeps. by eapply Hk. }
  unfold autoApply, Services.List_. apply keeps_bind; [apply keeps_db_read; read_stmt|]. intros [svcs|e]; [|apply keeps_ret].
  apply keeps_for_each. intros svc. unfold auto_apply_one, Projects.Get, Updates.GetLatestOpenByService, Jobs.Enqueue.
  repeat first [ apply keeps_ret | apply keeps_db_read; read_stmt | apply keeps_sql_db, Hq
               | apply keeps_bind; [|intros ?] | case_match ].
Qed.

Lemma poll_interval_ok s : srv_db poll_ok s.(sd_server) ->
  exists n, (poll_interval s).1 = n /\ 0 < n /\ srv_db poll_ok (poll_interval s).2.(sd_server).
Proof.
  intros Hp. unfold poll_interval, on_server, on_world, on_scanning, Scanner.lift, srv_db, store, srv_world in *.
  destruct s as [[[w n h] l r v] nx]. simpl in *. unfold settingDuration, settingInt, bind.
  unfold Settings.Get. destruct (sql _ _ _ w) as [res w1] eqn:Es. apply read_sql_inv in Es as [Hd Hr]; [|read_stmt].
  destruct res as [val|e]; simpl; [|exists default_poll; rewrite Hd; done].
  destruct (Hr val eq_refl) as (t & Hl). destruct (Settings.lookup _ _) as [v0|] eqn:El; [|done]. injection Hl as ->.
  apply (proj2 Hp) in El. unfold poll_text_ok in El. destruct (String.eqb val ""); simpl; [exists default_poll; rewrite Hd; done|].
  destruct (Atoi val) as [k|]; simpl; [|exists default_poll; rewrite Hd; done].
  destruct (Z.ltb_spec k 0) as [|Hk]; simpl; [exists default_poll; rewrite Hd; done|].
  simpl in El. apply andb_true_iff in El as [H1%Z.leb_le H2%Z.leb_le]. exists (seconds k). split; [done|]. split; [|by rewrite Hd].
  unfold seconds, Discovery.wrap64. change (max_int / second) with 9223372036 in H2. unfold second.
  rewrite Z.mod_small by lia. lia.
Qed.

Lemma ticker_ok n : 0 < n -> ticker n = Ok tt.
Proof. intros Hn. unfold ticker. by destruct (Z.leb_spec n 0); [lia|]. Qed.

Lemma check_and_apply_poll s : srv_db poll_ok s.(sd_server) -> srv_db poll_ok (check_and_apply s).2.(sd_server).
Proof.
  intros Hp. unfold check_and_apply, on_server, bind. destruct s as [sv nx]. simpl in *.
  pose proof (run_scheduled_keeps (on_db poll_ok) sv Hp) as Hr. destruct (Api.RunScheduled sv) as [[|] s1]; simpl in *; [|done].
  pose proof (keeps_srv_world (on_db poll_ok) autoApply autoApply_poll s1 Hr) as Ha. by destruct (on_world autoApply s1).
Qed.

Lemma on_server_poll {A} (b : M server A) s : keeps (srv_db poll_ok) b -> srv_db poll_ok s.(sd_server) ->
  srv_db poll_ok (on_server b s).2.(sd_server).
Proof. intros Hb Hs. unfold on_server. specialize (Hb _ Hs). by destruct (b (sd_server s)). Qed.

Lemma set_next_poll i s : srv_db poll_ok s.(sd_server) -> srv_db poll_ok (set_next i s).2.(sd_server).
Proof.
  intros Hs. unfold set_next, bind, store_next.
  pose proof (on_server_poll (on_world now) s (keeps_srv_world _ _ (keeps_now_db _)) Hs) as Hn.
  by destruct (on_server (on_world now) s).
Qed.

Lemma ticks_ok interval between s :
  Forall (keeps (srv_db poll_ok)) between -> srv_db poll_ok s.(sd_server) -> (ticks interval between s).1 = Ok tt.
Proof.
  intros Hb. revert interval s. induction Hb as [|b bs Hb Hbs IH]; intros interval s Hs; simpl; [done|].
  unfold bind. pose proof (on_server_poll b s Hb Hs) as H1. destruct (on_server b s) as [[] s1]. simpl in H1.
  pose proof (check_and_apply_poll s1 H1) as H2. destruct (check_and_apply s1) as [[] s2]. simpl in H2.
  destruct (poll_interval_ok s2 H2) as (n & Hn & Hpos & H3). destruct (poll_interval s2) as [n' s3]. simpl in Hn, H3. subst n'.
  destruct (n =? interval).
  - pose proof (set_next_poll interval s3 H3) as H4. destruct (set_next interval s3) as [[] s4]. by apply IH.
  - rewrite (ticker_ok n Hpos). pose proof (set_next_poll n s3 H3) as H4. destruct (set_next n s3) as [[] s4]. by apply IH.
Qed.

(** The scheduler's ticker never panics while the stored poll interval is one
    of [poll_ok]: whatever the sweeps find, whatever fails, and whatever the rest
    of the process does between two ticks as long as it stores no other interval. *)
Theorem scheduler_no_panic ready between s :
  keeps (srv_db poll_ok) ready -> Forall (keeps (srv_db poll_ok)) between ->
  srv_db poll_ok s.(sd_server) -> (schedulerLoop ready between s).1 = Ok tt.
Proof.
  intros Hready Hb Hs. unfold schedulerLoop, bind. destruct (poll_interval_ok s Hs) as (n & Hn & Hpos & H1).
  destruct (poll_interval s) as [n' s1]. simpl in Hn, H1. subst n'. rewrite (ticker_ok n Hpos).
  pose proof (set_next_poll n s1 H1) as H2. destruct (set_next n s1) as [[] s2]. simpl in H2.
  assert (Hget : keeps (srv_db poll_ok) (on_world (Settings.GetBoolDefault "scan_on_start" true))).
  { apply (keeps_srv_world (on_db poll_ok)). unfold Settings.GetBoolDefault, Settings.Get. apply keeps_bind; [apply keeps_db_read; read_stmt|].
    intros [v|e]; apply keeps_ret. }
  pose proof (on_server_poll _ s2 Hget H2) as H3. destruct (on_server _ s2) as [on_start s3]. simpl in H3.
  destruct on_start; simpl.
  - pose proof (on_server_poll ready s3 Hready H3) as H4. destruct (on_server ready s3) as [[] s4]. simpl in H4.
    pose proof (check_and_apply_poll s4 H4) as H5. destruct (check_and_apply s4) as [[] s5]. by apply ticks_ok.
  - by apply ticks_ok.
Qed.
End Scheduler.

(** ** The boot, the retention sweeps *)

Section Boot.
Context {E : Env} {R : Random} {A2 : Argon2}.
Import Sched.

(** The environment's admin is made only where there is no user: nobody's password
    is replaced, whatever fails. *)
Lemma bootstrap_admin_spec user password w r w' :
  bootstrap_admin user password w = (r, w') ->
  (w.(w_db).(users).(rows) <> [] -> w'.(w_db).(users) = w.(w_db).(users)) /\
  (w'.(w_db).(users).(rows) = w.(w_db).(users).(rows) \/
   exists u, w'.(w_db).(users).(rows) = [u] /\ u.(us_Username) = user).
Proof.
  unfold bootstrap_admin. destruct (String.eqb user ""); [intros [= _ <-]; split; [done|by left]|].
  unfold bind_ok at 1. intros (n & w1 & Hc & Hk)%bind_inv. unfold Users.Count in Hc.
  apply read_sql_inv in Hc as [Hd1 Hc]; [|read_stmt].
  destruct n as [n|e]; [|injection Hk as _ <-; rewrite Hd1; split; [done|by left]].
  destruct (Hc n eq_refl) as (t & Hq). unfold query in Hq. injection Hq as Hn.
  destruct (Z.eqb_spec n 0) as [Hz|]; [|injection Hk as _ <-; rewrite Hd1; split; [done|by left]].
  assert (Hnil : w.(w_db).(users).(rows) = []) by (destruct w.(w_db).(users).(rows); [done|subst n; simpl in Hz; lia]).
  split; [done|]. rewrite Hnil. unfold bind_ok at 1 in Hk. apply bind_inv in Hk as (h & w2 & Hh & Hk).
  assert (Hd2 : w2.(w_db) = w1.(w_db)).
  { unfold Auth.HashPassword, bind_ok, bind, read_random in Hh. by destruct (rand_Read _ _); injection Hh as _ <-. }
  destruct h as [h|e]; [|injection Hk as _ <-; left; by rewrite Hd2, Hd1].
  unfold bind_ok at 1 in Hk. apply bind_inv in Hk as (i & w3 & Hi & Hk). unfold Users.Create in Hi.
  destruct i as [i|e]; [|apply sql_err_inv in Hi as ->; injection Hk as _ <-; left; simpl; by rewrite Hd2, Hd1].
  apply sql_ok_inv in Hi as (Hi & _). injection Hk as _ <-. unfold Users.create_stmt in Hi. case_match; [done|].
  injection Hi as _ Hi. rewrite <- Hi. simpl. rewrite Hd2, Hd1, Hnil. right. eexists. split; [reflexivity|done].
Qed.
End Boot.

(** ** Coalescing and edges *)

Section Channels.
Import Sched.

Definition alive (d : debouncer) : Prop := d.(db_at) <> Ended.

(** A burst of signals within the delay, then silence: one signal is waiting on
    [out], one was sent if none was waiting. *)
Lemma debounce_burst d n :
  alive d -> let d' := fold_left debounce_step (repeat Signal (S n) ++ [Expired]) d in
  d'.(db_at) = Waiting /\ d'.(db_out) = true /\ d'.(db_sent) = (if d.(db_out) then d.(db_sent) else S d.(db_sent)).
Proof.
  intros Ha. cbn [repeat app fold_left].
  assert (H1 : debounce_step d Signal = mkDebouncer Settling d.(db_out) d.(db_sent)).
  { unfold alive in Ha. unfold debounce_step. by destruct d.(db_at). }
  rewrite H1, fold_left_app. clear H1 Ha.
  assert (Hs : forall o m, fold_left debounce_step (repeat Signal n) (mkDebouncer Settling o m) = mkDebouncer Settling o m).
  { intros o m. induction n as [|n IH]; [done|exact IH]. }
  rewrite Hs. by destruct d.(db_out).
Qed.

(** Every send had a signal of its own before it. *)
Definition is_signal (e : bevent) : bool := match e with Signal => true | _ => false end.

Lemma debounce_sent es d :
  let d' := fold_left debounce_step es d in
  (d'.(db_sent) + (match d'.(db_at) with Settling => 1 | _ => 0 end) <=
   d.(db_sent) + (match d.(db_at) with Settling => 1 | _ => 0 end) + length (List.filter is_signal es))%nat.
Proof.
  revert d. induction es as [|e es IH]; intros [a o n]; simpl; [lia|].
  specialize (IH (debounce_step (mkDebouncer a o n) e)). simpl in IH.
  destruct e, a; simpl in *; try destruct o; simpl in *; lia.
Qed.

(** The edges alternate, from the state the prober was started with. *)
Fixpoint alternates (reachable : bool) (es : list edge) : Prop :=
  match es with
  | [] => True
  | Up :: es' => reachable = false /\ alternates true es'
  | Down _ :: es' => reachable = true /\ alternates false es'
  end.

Lemma watch_alternates reachable pings : alternates reachable (watchDockerLiveness reachable pings).
Proof.
  revert reachable. induction pings as [|[e|] pings IH]; intros [|]; simpl; auto.
Qed.

(** The first dial that succeeds is the one whose client is used. *)
Lemma waitForDocker_spec {A} (dials : list (result A)) c :
  waitForDocker dials = Some c <->
  exists before after, dials = before ++ Ok c :: after /\ Forall (fun r => is_ok r = false) before.
Proof.
  induction dials as [|[a|e] ds IH]; simpl.
  - split; [done|]. by intros ([] & ? & ? & _).
  - split.
    + intros [= ->]. by exists [], ds.
    + intros ([|x b] & after & Hd & Hb); [by injection Hd as ->|]. injection Hd as <- _. by inversion Hb.
  - rewrite IH. split.
    + intros (b & a & -> & Hb). exists (Err e :: b), a. by split; [|constructor].
    + intros ([|x b] & a & Hd & Hb); [done|]. injection Hd as _ ->. inversion Hb; subst. by exists b, a.
Qed.
End Channels.
