(* ===== verification/Retention.v ===== *)
(** * Retention of finished jobs (internal/store/jobs.go, cmd/dockbrr/main.go pruneLoop)

    The statement compares the texts of two times.  For the times of the calendar as
    it is written with four digits that is the order of the times, so a retention of
    [n] days deletes what is older than [n] days and finished, and nothing else. *)

From stdpp Require Import base list strings gmap.
From S2P Require Import Prelude GoStd Clock Db Integrity World StoreUpdates StoreJobs StoreMisc.
From S2P Require Import Discovery Sched.

Local Open Scope Z_scope.

(** The database without the finished jobs created before [c], and their logs. *)
Definition purged (c : Z) (d : db) : db := delete_jobs (fun j => finished j && (j.(job_CreatedAt) <? c)) d.

(** Every job was created in a year of at most four digits. *)
Definition common_jobs (d : db) : Prop := forall j, j ∈ d.(jobs).(rows) -> common_time j.(job_CreatedAt).

Lemma filter_ext_elem {A} (p q : A -> bool) l : (forall a, a ∈ l -> p a = q a) -> List.filter p l = List.filter q l.
Proof.
  induction l as [|a l IH]; intros H; simpl; [done|]. rewrite H by (by left). rewrite IH; [done|].
  intros b Hb. apply H. by right.
Qed.

Lemma delete_jobs_ext p q d : (forall j, j ∈ d.(jobs).(rows) -> p j = q j) -> delete_jobs p d = delete_jobs q d.
Proof.
  intros H. unfold delete_jobs. cbv zeta. unfold delete_rows.
  rewrite (filter_ext_elem p q) by done.
  rewrite (filter_ext_elem (fun j => negb (p j)) (fun j => negb (q j))); [done|]. intros j Hj. by rewrite (H j Hj).
Qed.

Section Purge.
Context {E : Env}.

(** The statement, as a comparison of times. *)
Lemma DeleteFinishedBefore_inv t w r w' :
  common_jobs w.(w_db) -> t < 253402300800 -> Jobs.DeleteFinishedBefore t w = (r, w') ->
  w'.(w_db) = match r with Ok _ => purged t w.(w_db) | Err _ => w.(w_db) end.
Proof.
  intros Hc Ht Hs. unfold Jobs.DeleteFinishedBefore in Hs. destruct r as [n|e]; [|by apply sql_err_inv in Hs as ->].
  apply sql_ok_inv in Hs as ([= _ Hd] & _). rewrite <- Hd. apply delete_jobs_ext. intros j Hj.
  unfold Jobs.created_before. by rewrite sqlite_time_order by auto.
Qed.

(** The retention the settings ask for, in days. *)
Definition retention (d : db) : Z :=
  match Settings.lookup "job_retention_days" d with
  | Some v => if String.eqb v "" then 30 else default 30 (Atoi v)
  | None => 30
  end.

Lemma settingInt_retention w n w' : Sched.settingInt "job_retention_days" 30 w = (n, w') ->
  w'.(w_db) = w.(w_db) /\ (n = retention w.(w_db) \/ n = 30 /\ exists k e, sql_fault k = Some e).
Proof.
  unfold Sched.settingInt, Settings.Get, retention. intros (v & w1 & Hs & Hk)%bind_inv.
  pose proof Hs as Hs'. apply read_sql_inv in Hs as [Hd Hv]; [|read_stmt].
  destruct v as [v|e].
  - destruct (Hv v eq_refl) as (t & Hl). destruct (Settings.lookup _ _) as [v0|]; [|done]. injection Hl as ->.
    split; [by destruct (String.eqb v ""); injection Hk as _ <-|]. left. by destruct (String.eqb v ""); injection Hk as <- _.
  - injection Hk as <- <-. split; [done|]. unfold sql in Hs'. destruct (sql_fault w.(w_tick)) as [f|] eqn:Ef; [right; by eauto|].
    left. by destruct (Settings.lookup _ _).
Qed.

(** A statement failed somewhere. *)
Definition faulty : Prop := exists k e, sql_fault k = Some e.

Lemma DeleteFinishedBefore_err t w e w' : Jobs.DeleteFinishedBefore t w = (Err e, w') -> faulty.
Proof.
  unfold Jobs.DeleteFinishedBefore, sql. destruct (sql_fault w.(w_tick)) as [f|] eqn:Ef; [by exists w.(w_tick), f|]. done.
Qed.

(** C24. A run of the pruner.  Whatever fails: with the retention [days] of the settings
    (30 where they say nothing, or cannot be read) it deletes nothing when [days] is
    not positive; else exactly the finished jobs created more than [days] days before
    the time it reads, with their logs, or nothing when the statement fails.  Jobs in
    the queue or in a worker's hands stay.  The store compares texts; no job the
    cutoff is after is missed and none it is not after is deleted, for any time of
    the years up to 9999 and any number of days that does not overflow 64 bits. *)
Theorem prune_jobs_spec w w' :
  common_jobs w.(w_db) -> Sched.prune_jobs w = (tt, w') ->
  exists days n, (days = retention w.(w_db) \/ days = 30 /\ faulty) /\
    if days <=? 0 then w'.(w_db) = w.(w_db)
    else
      let cutoff := clock n / second - days * Sched.day_seconds in
      min_int <= cutoff < 253402300800 ->
      w'.(w_db) = purged cutoff w.(w_db) \/ faulty /\ w'.(w_db) = w.(w_db).
Proof.
  intros Hc (days & w1 & Hs & Hk)%bind_inv. apply settingInt_retention in Hs as [Hd Hdays].
  exists days, w1.(w_tick). split; [exact Hdays|]. destruct (days <=? 0); [by injection Hk as <-|].
  apply bind_inv in Hk as (t & w2 & [= <- <-] & Hk). apply bind_inv in Hk as (r & w3 & Hdel & Hk). injection Hk as <-.
  cbv zeta. intros Hfit. unfold Sched.days_before in Hdel.
  assert (Hw : Discovery.wrap64 (clock w1.(w_tick) / second - days * Sched.day_seconds)
               = clock w1.(w_tick) / second - days * Sched.day_seconds).
  { unfold Discovery.wrap64. change min_int with (- 2 ^ 63) in Hfit. rewrite Z.mod_small; lia. }
  rewrite Hw in Hdel. assert (Hd2 : (tick w1).(w_db) = w.(w_db)) by exact Hd.
  pose proof (DeleteFinishedBefore_inv _ (tick w1) _ _ ltac:(rewrite Hd2; exact Hc) (proj2 Hfit) Hdel) as Hw3.
  rewrite Hd2 in Hw3. destruct r as [n|e]; [by left|]. right. split; [|exact Hw3]. by eapply DeleteFinishedBefore_err.
Qed.
End Purge.

(** ** Runs *)

Section Runs.
Definition old_job (id : Z) (status : string) (created : Z) : Job :=
  mkJob id "apply" None None status "service" "user" created None None None "".

(** Created 40 days and one day before the clock of [calm_env]. *)
Definition demo_history_db (days : string) : db :=
  with_settings [("job_retention_days", days)]
  (with_jobs (mkTable [old_job 1 "success" 1696544000; old_job 2 "queued" 1696544000; old_job 3 "failed" 1699913600] 3) empty_db).

Definition pruned (E : Env) (days : string) : list Z :=
  map job_ID (@Sched.prune_jobs E (demo_world (demo_history_db days))).2.(w_db).(jobs).(rows).

Lemma prune_jobs_spec_witness :
  pruned calm_env "30" = [2; 3] /\
  exists days n, (days = 30 \/ days = 30 /\ @faulty calm_env) /\
    if days <=? 0 then True
    else
      let cutoff := @clock calm_env n / second - days * Sched.day_seconds in
      min_int <= cutoff < 253402300800 ->
      (@Sched.prune_jobs calm_env (demo_world (demo_history_db "30"))).2.(w_db) = purged cutoff (demo_history_db "30") \/
      @faulty calm_env /\ (@Sched.prune_jobs calm_env (demo_world (demo_history_db "30"))).2.(w_db) = demo_history_db "30".
Proof.
  split; [vm_compute; reflexivity|].
  destruct (@Sched.prune_jobs calm_env (demo_world (demo_history_db "30"))) as [[] w'] eqn:Hs.
  assert (Hc : common_jobs (demo_world (demo_history_db "30")).(w_db)).
  { intros j Hj. unfold common_time. simpl in Hj. repeat (apply elem_of_cons in Hj as [->|Hj]; [simpl; lia|]).
    by apply not_elem_of_nil in Hj. }
  destruct (@prune_jobs_spec calm_env _ w' Hc Hs) as (days & n & Hd & H). exists days, n.
  split; [exact Hd|]. destruct (days <=? 0); [done|exact H].
Defined.

(** A number of days whose seconds overflow 64 bits gives a cutoff far in the future:
    every finished job is deleted. *)
Lemma retention_overflow : pruned calm_env "36500" = [1; 2; 3] /\ pruned calm_env "106751991187300" = [2].
Proof. split; vm_compute; reflexivity. Qed.

(** The setting is read with a default: when the read fails, the history of a user who
    turned the pruning off is pruned. *)
Definition retention_fault : Env := {|
  sql_fault n := if Nat.eqb n 0 then Some (Errorf "database is locked") else None;
  os_fault _ := None; clock n := 1700000000000000000 + 1000000000 * Z.of_nat n; random_name n := "";
  self_owner := (0, 0); ctx_done _ := false |}.

Lemma retention_read_fails : pruned calm_env "0" = [1; 2; 3] /\ pruned retention_fault "0" = [2; 3].
Proof. split; vm_compute; reflexivity. Qed.
End Runs.
