(* ===== verification/RouteDemo.v ===== *)
(** * A server to try the routes on

    Concrete parameters (randomness, argon2, sha256, chi, what main.go wires), a
    few requests against them, and the theorems at these requests. *)

From stdpp Require Import base list strings gmap.
From Stdlib Require Import Ascii.
From S2P Require Import Prelude GoStd Db Integrity World StoreUpdates StoreJobs StoreMisc Store Compose ApplierSpec SelfUpdate.
From S2P Require Import Scan Password RateLimit ScanRun Http HttpApi HttpSettings HttpStreams Routes RouteSpec SettingsSpec RouteSafety JobOrigin.

Local Open Scope Z_scope.

(** [k] bytes: of [s], then dots. *)
Fixpoint pad (k : nat) (s : string) : string :=
  match k, s with
  | O, _ => ""
  | S k', "" => String "."%char (pad k' "")
  | S k', String a s' => String a (pad k' s')
  end.

Lemma pad_len k s : len (pad k s) = k.
Proof. revert s. induction k as [|k IH]; intros [|a s]; simpl; congruence. Qed.

Definition demo_random : Random.
Proof.
  refine {| rand_Read n k := Ok (pad k (String (ascii_of_nat (n mod 256)) "")) |}.
  intros n k s [= <-]. apply pad_len.
Defined.

Definition demo_argon2 : Argon2.
Proof.
  refine {| IDKey p _ _ _ _ k := pad (Z.to_nat k) p |}.
  intros p s t m th k Hk. rewrite pad_len. lia.
Defined.

Definition find_route (l : list (string * string)) (m p : string) : option nat :=
  fst <$> list_find (fun mp => mp = (m, p)) l.

(** The pattern a demo request is meant for is its parameter "*". *)
Definition demo_chi : Chi.
Proof.
  refine {| chi_match l r := match find_route l r.(rq_method) (r.(rq_param) "*") with
                             | Some i => Found i | None => NoRoute end |}.
  intros l r i. unfold find_route. destruct (list_find _ l) as [[j mp]|] eqn:Ef; [|done].
  apply list_find_Some in Ef as (Hj & -> & _). intros [= <-]. by eexists.
Defined.

Definition demo_deps : Deps := {|
  SelfID := "abc123"; SelfUpdateChecker := Some demo_checker; has_bus := true; HostID := 1;
  DockerLogs := Some (fun _ _ _ => Ok "hello"); DockerPinger := Some (fun _ => Ok tt);
  DockerVersion := Some (fun _ => Ok ("27.0", "1.46")); NextScan _ := None; StartedAt := None;
  DataDir := "/data"; BindAddr := ":3000"; version_Version := "1.1.0"; version_Commit := "";
  version_CommitDirty := ""; version_BuildDate := ""; BuildInfo := None; runtime_Version := "go1.24";
  platform := "linux/amd64" |}.

Definition demo_logs : LogFiles := {|
  logDir := "/data/logs"; log_ReadDir _ := Ok []; LogPath := "/data/logs/dockbrr.log"; MaxSizeMB := 10; MaxBackups := 3 |}.

Definition demo_streams : Streams := {|
  engine_Stream _ _ := Ok [("stdout", "live")]; bus_events _ := []; dist := {["index.html" := "<html></html>"]};
  TypeByExtension _ := "text/html"; url_path r := r.(rq_param) "*" |}.

Definition demo_zerolog : Zerolog := {|
  zerolog_ParseLevel s := if String.eqb s "debug" then Ok 0 else if String.eqb s "info" then Ok 1 else Err (Errorf "unknown level") |}.

(** A request for a pattern, with the cookies, the CSRF header, the id and the body. *)
Definition demo_request (method pattern token csrf id : string) (body : option json) : Request := {|
  rq_method := method;
  rq_cookies := [("dockbrr_session", token)];
  rq_header k := if String.eqb k "X-CSRF-Token" then csrf else "";
  rq_tls := false;
  rq_remote := "10.0.0.9:4711";
  rq_param k := if String.eqb k "*" then pattern else if String.eqb k "id" then id else "";
  rq_query _ := "";
  rq_body := body;
|}.

(** The user "admin", whose password is "secret", with one live session of token
    "t0k", on the database with one service and one open update. *)
Definition demo_hash : string := match @Auth.HashPassword demo_random demo_argon2 "secret" (demo_world demo_db) with (Ok h, _) => h | _ => "" end.

Lemma password_roundtrip_witness :
  exists salt, len salt = 16%nat /\ @Auth.VerifyPassword demo_argon2 demo_hash "secret" = Ok true.
Proof.
  destruct (@Auth.HashPassword demo_random demo_argon2 "secret" (demo_world demo_db)) as [r w'] eqn:Hh.
  assert (Hr : r = Ok demo_hash).
  { replace r with (@Auth.HashPassword demo_random demo_argon2 "secret" (demo_world demo_db)).1 by (by rewrite Hh).
    vm_compute. reflexivity. }
  rewrite Hr in Hh. destruct (@password_roundtrip demo_random demo_argon2 "secret" (demo_world demo_db) demo_hash w' Hh)
    as (salt & H1 & H2 & _). by exists salt.
Defined.

Definition demo_users_db : db :=
  with_sessions [mkSession "hash of t0k" 1 "csrf1" 1700000000 1800000000000000000]
  (with_users (mkTable [mkUser 1 "admin" demo_hash 1600000000] 1) demo_db).

Definition demo_server : server :=
  mkServer (Scanner.mkScanning (demo_world demo_users_db) ∅ []) ∅ ScanRunner.NewScanRunner 1.

#[local] Existing Instances calm_env demo_random demo_argon2 demo_sha any_range demo_sealer demo_composego
  demo_releases demo_zerolog demo_deps demo_logs demo_streams demo_chi.
#[local] Existing Instance stable_slice_sort.

Definition demo_serve (r : Request) : Response * server := serve r demo_server.

Definition demo_apply_request : Request := demo_request "POST" "/api/updates/{id}/apply" "t0k" "csrf1" "1" None.
Definition demo_login_request (pw : string) : Request :=
  demo_request "POST" "/api/auth/login" "" "" "" (Some (JObj [("username", JStr "admin"); ("password", JStr pw)])).

(** The same, without the CSRF token. *)
Definition demo_forged_request : Request := demo_request "POST" "/api/updates/{id}/apply" "t0k" "" "1" None.
Definition demo_list_request : Request := demo_request "GET" "/api/updates/self" "t0k" "" "" None.

Lemma demo_ok : db_ok (store demo_server).
Proof. apply db_okb_ok. vm_compute. reflexivity. Qed.

Lemma demo_endpoint r i :
  find_route table r.(rq_method) (r.(rq_param) "*") = Some i -> endpoint_of r = rt_end <$> routes !! i.
Proof. intros H. unfold endpoint_of. simpl chi_match. by rewrite H. Qed.

Example demo_statuses :
  (demo_serve demo_apply_request).1.(rs_code) = 202 /\
  map job_Type (store (demo_serve demo_apply_request).2).(jobs).(rows) = ["apply"] /\
  (demo_serve (demo_login_request "secret")).1.(rs_code) = 200 /\
  (demo_serve (demo_login_request "wrong")).1.(rs_code) = 401 /\
  (demo_serve demo_list_request).1.(rs_code) = 200.
Proof. vm_compute. done. Qed.

Lemma guard_spec_witness :
  let '(rs, s') := demo_serve demo_forged_request in
  (rs.(rs_code) = 401 \/ rs.(rs_code) = 403) /\ same_process demo_server s' /\
  only_lapsed (guard_time demo_server) (srv_world demo_server) (srv_world s').
Proof.
  destruct (demo_serve demo_forged_request) as [rs s'] eqn:Hs.
  refine (proj1 (guard_spec demo_forged_request Api.handleApply demo_server rs s' demo_ok _ Hs) _).
  - rewrite (demo_endpoint _ 26) by (vm_compute; reflexivity). reflexivity.
  - intros sess (_ & Hin & _ & Hm). apply list_elem_of_singleton in Hin as ->.
    destruct (Hm eq_refl) as [Hc _]. discriminate Hc.
Defined.

Lemma api_hands_over_witness :
  let '(rs, s') := demo_serve demo_apply_request in
  map job_Type (store s').(jobs).(rows) = ["apply"] /\ handed (store demo_server) (store s').
Proof.
  destruct (demo_serve demo_apply_request) as [rs s'] eqn:Hs. split.
  - replace s' with (demo_serve demo_apply_request).2 by (by rewrite Hs). vm_compute. reflexivity.
  - refine (proj1 (proj2 (api_hands_over demo_apply_request demo_server rs s' demo_ok Hs))).
Defined.

Lemma get_reads_witness :
  let '(rs, s') := demo_serve demo_list_request in
  Settings.lookup Checker.keyCache (store s') = Some "v1.2.0" /\ same_state demo_server s'.
Proof.
  destruct (demo_serve demo_list_request) as [rs s'] eqn:Hs. split.
  - replace s' with (demo_serve demo_list_request).2 by (by rewrite Hs). vm_compute. reflexivity.
  - exact (get_reads demo_list_request demo_server rs s' demo_ok eq_refl Hs).
Defined.

(** The session a sign-in with the right password stores. *)
Definition demo_new_session : option Session :=
  last (store (demo_serve (demo_login_request "secret")).2).(sessions).

Lemma session_origin_witness :
  exists x, demo_new_session = Some x /\ x.(se_UserID) = 1 /\
    exists u, u ∈ (store demo_server).(users).(rows) /\ Auth.VerifyPassword u.(us_PasswordHash) "secret" = Ok true.
Proof.
  destruct (demo_serve (demo_login_request "secret")) as [rs s'] eqn:Hs.
  destruct demo_new_session as [x|] eqn:Hx; [|vm_compute in Hx; discriminate Hx].
  exists x. split; [done|].
  assert (Hid : x.(se_UserID) = 1 /\ x.(se_TokenHash) <> "hash of t0k").
  { vm_compute in Hx. injection Hx as <-. split; [done|]. vm_compute. discriminate. }
  split; [apply Hid|].
  assert (Hin : x ∈ (store s').(sessions)).
  { apply last_Some_elem_of. unfold demo_new_session in Hx. by rewrite Hs in Hx. }
  assert (Hno : x ∉ (store demo_server).(sessions)).
  { intros ->%list_elem_of_singleton. by destruct Hid. }
  destruct (session_origin (demo_login_request "secret") demo_server rs s' x demo_ok Hs Hin Hno)
    as [[_ H]|[(_ & _ & u & [Hu _] & Hv & _)|(_ & sess & u & (_ & _ & _ & Hm) & _)]].
  - discriminate H.
  - exists u. split; [exact Hu|exact Hv].
  - destruct (Hm eq_refl) as [<- Hne]. by destruct Hne.
Defined.


(** *** Settings *)

Definition demo_settings_request (level : string) : Request :=
  demo_request "PUT" "/api/settings" "t0k" "csrf1" "" (Some (JObj [("github_token", JStr "gh"); ("log_level", JStr level)])).

Lemma put_settings_spec_witness :
  let '(rs, s') := SettingsApi.handlePutSettings 1 (demo_settings_request "debug") demo_server in
  rs.(rs_code) = 200 /\ s'.(srv_level) = 0 /\ Settings.lookup "github_token" (store s') = Some "hg" /\
  saved "github_token" "gh" (store s').
Proof.
  destruct (SettingsApi.handlePutSettings 1 (demo_settings_request "debug") demo_server) as [rs s'] eqn:Hs.
  assert (H : rs.(rs_code) = 200 /\ s'.(srv_level) = 0 /\ Settings.lookup "github_token" (store s') = Some "hg").
  { replace rs with (SettingsApi.handlePutSettings 1 (demo_settings_request "debug") demo_server).1 by (by rewrite Hs).
    replace s' with (SettingsApi.handlePutSettings 1 (demo_settings_request "debug") demo_server).2 by (by rewrite Hs).
    repeat split; vm_compute; reflexivity. }
  split; [apply H|]. split; [apply H|]. split; [apply H|].
  destruct (put_settings_spec 1 (demo_settings_request "debug") demo_server rs s' Hs) as (_ & _ & _ & _ & Hsaved).
  apply Hsaved; [apply H|]. vm_compute. reflexivity.
Defined.

Definition demo_import_request : Request :=
  demo_request "POST" "/api/settings/import" "t0k" "csrf1" ""
    (Some (JObj [("version", JInt 1); ("settings", JObj [("github_token", JStr "stolen"); ("concurrency", JStr "4")]);
                 ("registries", JArr [JObj [("host", JStr "ghcr.io"); ("username", JStr "me")]])])).

Lemma import_settings_spec_witness :
  let '(rs, s') := SettingsApi.handleImportSettings 1 demo_import_request demo_server in
  rs.(rs_code) = 200 /\ Settings.lookup "concurrency" (store s') = Some "4" /\
  Settings.lookup "github_token" (store s') = Settings.lookup "github_token" (store demo_server).
Proof.
  destruct (SettingsApi.handleImportSettings 1 demo_import_request demo_server) as [rs s'] eqn:Hs.
  assert (H : rs.(rs_code) = 200 /\ Settings.lookup "concurrency" (store s') = Some "4").
  { replace rs with (SettingsApi.handleImportSettings 1 demo_import_request demo_server).1 by (by rewrite Hs).
    replace s' with (SettingsApi.handleImportSettings 1 demo_import_request demo_server).2 by (by rewrite Hs).
    repeat split; vm_compute; reflexivity. }
  split; [apply H|]. split; [apply H|].
  apply (import_settings_spec 1 demo_import_request demo_server rs s' Hs). by left.
Defined.

(** The same server with another token and another sealed password. *)
Definition demo_secret_server (token password : string) : server :=
  mkServer (Scanner.mkScanning (demo_world (with_settings [("github_token", token)]
    (with_credentials (mkTable [mkCredential 1 "ghcr.io" "me" password 0] 1) demo_users_db))) ∅ []) ∅ ScanRunner.NewScanRunner 1.

Lemma demo_secret_lookup token password k :
  Settings.lookup k (srv_world (demo_secret_server token password)).(w_db) =
  if String.eqb "github_token" k then Some token else None.
Proof. unfold Settings.lookup. cbv -[String.eqb]. by destruct (String.eqb "github_token" k). Qed.

Lemma secrets_not_shown_witness :
  let s1 := demo_secret_server "abc" "p1" in
  let s2 := demo_secret_server "xyz" "p2" in
  (SettingsApi.handleGetSettings 1 demo_list_request s1).1 = (SettingsApi.handleGetSettings 1 demo_list_request s2).1.
Proof.
  refine (proj1 (secrets_not_shown 1 demo_list_request (demo_secret_server "abc" "p1") (demo_secret_server "xyz" "p2") _)).
  split; [vm_compute; reflexivity|]. split; [|intros k Hk|vm_compute; reflexivity].
  - intros k Hk. rewrite !demo_secret_lookup. destruct (String.eqb_spec "github_token" k) as [<-|]; [|done].
    vm_compute in Hk. discriminate Hk.
  - rewrite !demo_secret_lookup. destruct (String.eqb "github_token" k); [|done]. split; discriminate.
Defined.

(** *** Restoring *)

Definition demo_update (id : Z) (digest status : string) : Update :=
  mkUpdate id 1 "sha256:old" digest "1.0.0" "1.1.0" "1.1" "minor" "" "" "" status 0 None.

(** A restore does not look at the status of the update: one that was superseded is
    available again next to the one that replaced it. *)
Lemma restore_reopens_superseded :
  let d := with_updates (mkTable [demo_update 1 "sha256:a" "superseded"; demo_update 2 "sha256:b" "available"] 2) demo_users_db in
  let s := mkServer (Scanner.mkScanning (demo_world d) ∅ []) ∅ ScanRunner.NewScanRunner 1 in
  let '(rs, s') := serve (demo_request "POST" "/api/updates/{id}/restore" "t0k" "csrf1" "1" None) s in
  rs.(rs_code) = 200 /\ map up_Status (store s').(updates).(rows) = ["available"; "available"].
Proof. vm_compute. done. Qed.
