(* ===== verification/DockerClient.v ===== *)
(** * The Docker client (internal/docker: inspect.go, lifecycle.go,
    recreate.go, events.go)

    What dockbrr adds to the Docker SDK: the status of an inspection, the lookup by
    exact name, the tail of the logs, and the recreation of a container from a
    stored inspection with another image.  The SDK is a class: what the daemon
    answers to each of its calls, the JSON codec of its types, the demultiplexer of
    its log streams.  Of the SDK's structs the fields the code reads are here; the
    rest of a configuration is carried along as it is ([C], [H], [O], [P] are the
    types of the rest of a Config, of a HostConfig, of the options of a mount and of
    a network endpoint).  The client is an instance of the class of Daemon.v, so
    what is proved of the jobs for any daemon holds for this client. *)

From stdpp Require Import base list strings gmap.
From Stdlib Require Import Ascii.
From S2P Require Import Prelude GoStd Db World StoreUpdates StoreJobs StoreServices StoreMisc Files Daemon RateLimit.

Local Open Scope Z_scope.

Module Client.

Section Types.
Context {C H O P : Type}.

Record Config := mkConfig { cf_Image : string; cf_rest : C }.

Record Mount := mkMount {
  mt_Type : string;
  mt_Source : string;
  mt_Target : string;
  mt_ReadOnly : bool;
  mt_options : option O;
}.

Record HostConfig := mkHost { hc_Binds : list string; hc_Mounts : list Mount; hc_rest : H }.

Record MountPoint := mkMountPoint {
  mp_Type : string;
  mp_Name : string;
  mp_Destination : string;
  mp_RW : bool;
}.

(** [ir_State] is the status and, with a health check, the health; [ir_HostConfig]
    is that of the embedded base, when there is one. *)
Record InspectResponse := mkInspect {
  ir_State : option (string * option string);
  ir_Config : option Config;
  ir_HostConfig : option HostConfig;
  ir_Mounts : list MountPoint;
  ir_Networks : option (gmap string P);
}.

(** [StdCopy] is that of the SDK, both streams into one buffer. *)
Class SDK := {
  sdk_inspect : nat -> string -> result InspectResponse;
  sdk_pull : nat -> string -> result (result unit);     (* the call, then the drain *)
  sdk_start : nat -> string -> result unit;
  sdk_stop : nat -> string -> result unit;
  sdk_remove : nat -> string -> result unit;
  sdk_rename : nat -> string -> string -> result unit;
  sdk_list_named : nat -> string -> result (list string);
  sdk_logs : nat -> string -> string -> result string;
  sdk_create : nat -> Config -> option HostConfig -> gmap string P -> string -> result string;
  sdk_connect : nat -> string -> string -> P -> result unit;
  StdCopy : string -> result string;
  inspect_Marshal : InspectResponse -> result string;
  inspect_Unmarshal : string -> result InspectResponse;
}.

(** ** Recreation (recreate.go) *)

Definition mem (d : string) (covered : list string) : bool := existsb (String.eqb d) covered.

(** The destinations the mounts and the binds of [host] already cover. *)
Definition bind_target (b : string) : option string :=
  match Split b ":" with
  | _ :: t :: _ => if String.eqb t "" then None else Some t
  | _ => None
  end.

Definition covered_by (host : HostConfig) : list string :=
  List.filter (fun t => negb (String.eqb t "")) (map mt_Target host.(hc_Mounts))
  ++ omap bind_target host.(hc_Binds).

Definition volume_mount (mp : MountPoint) : Mount :=
  mkMount "volume" mp.(mp_Name) mp.(mp_Destination) (negb mp.(mp_RW)) None.

(** The last loop: the mounts it appends. *)
Fixpoint reattach (covered : list string) (mounts : list MountPoint) : list Mount :=
  match mounts with
  | [] => []
  | mp :: rest =>
      if negb (String.eqb mp.(mp_Type) "volume") || String.eqb mp.(mp_Name) "" then reattach covered rest
      else if mem mp.(mp_Destination) covered then reattach covered rest
      else volume_mount mp :: reattach (mp.(mp_Destination) :: covered) rest
  end.

Definition reattachVolumeMounts (host : HostConfig) (mounts : list MountPoint) : HostConfig :=
  mkHost host.(hc_Binds) (host.(hc_Mounts) ++ reattach (covered_by host) mounts) host.(hc_rest).

(** The first endpoint of the iteration goes with the creation, the others are
    connected afterwards. *)
Definition split_networks {MR : MapRange} (nets : gmap string P) : gmap string P * gmap string P :=
  match range nets with
  | [] => (∅, ∅)
  | (name, ep) :: rest => ({[name := ep]}, list_to_map rest)
  end.

Definition createArgsFromInspect {MR : MapRange} {S : SDK} (inspectJSON newImage : string) :
    result (Config * option HostConfig * gmap string P * gmap string P) :=
  if String.eqb (TrimSpace inspectJSON) "" then Err (Errorf "docker: empty inspect JSON")
  else
    match inspect_Unmarshal inspectJSON with
    | Err e => Err (Wrap "docker: parse inspect" e)
    | Ok in_ =>
        match in_.(ir_Config) with
        | None => Err (Errorf "docker: inspect has no Config")
        | Some cfg =>
            let host := (fun h => reattachVolumeMounts h in_.(ir_Mounts)) <$> in_.(ir_HostConfig) in
            let '(net, extra) := split_networks (default ∅ in_.(ir_Networks)) in
            Ok (mkConfig newImage cfg.(cf_rest), host, net, extra)
        end
    end.

Section Calls.
Context {MR : MapRange} {S : SDK} (n : nat).

Fixpoint connect_all (id : string) (eps : list (string * P)) : result unit :=
  match eps with
  | [] => Ok tt
  | (net, ep) :: rest =>
      match sdk_connect n net id ep with
      | Err e => Err (Wrap ("docker: connect " +:+ id +:+ " to " +:+ net) e)
      | Ok _ => connect_all id rest
      end
  end.

Definition ContainerCreateFromInspect (inspectJSON newImage name : string) : result string :=
  match createArgsFromInspect inspectJSON newImage with
  | Err e => Err e
  | Ok (cfg, host, netCfg, extra) =>
      match sdk_create n cfg host netCfg name with
      | Err e => Err (Wrap ("docker: create " +:+ name) e)
      | Ok id =>
          match connect_all id (range extra) with
          | Err e => Err e
          | Ok _ => Ok id
          end
      end
  end.

Definition ImagePull (ref : string) : result unit :=
  match sdk_pull n ref with
  | Err e => Err (Wrap ("docker: pull " +:+ ref) e)
  | Ok (Err e) => Err (Wrap ("docker: pull " +:+ ref +:+ " (drain)") e)
  | Ok (Ok _) => Ok tt
  end.

(** ** Inspection (inspect.go) *)

Definition containerStatusFrom (ct : InspectResponse) : result ContainerStatus :=
  let state := match ct.(ir_State) with Some (s, _) => s | None => "" end in
  let health := match ct.(ir_State) with Some (_, Some h) => h | _ => "" end in
  match inspect_Marshal ct with
  | Err e => Err (Wrap "docker: marshal inspect" e)
  | Ok raw => Ok (mkStatus state health raw)
  end.

Definition InspectStatus (id : string) : result ContainerStatus :=
  match sdk_inspect n id with
  | Err e => Err (Wrap ("docker: inspect " +:+ id) e)
  | Ok ct => containerStatusFrom ct
  end.

(** ** Lifecycle (lifecycle.go) *)

Definition wrapped (what : string) (r : result unit) : result unit :=
  match r with Err e => Err (Wrap ("docker: " +:+ what) e) | Ok _ => Ok tt end.

Definition ContainerStart (id : string) : result unit := wrapped ("start " +:+ id) (sdk_start n id).
Definition ContainerStop (id : string) : result unit := wrapped ("stop " +:+ id) (sdk_stop n id).
Definition ContainerRemove (id : string) : result unit := wrapped ("remove " +:+ id) (sdk_remove n id).
Definition ContainerRename (id newName : string) : result unit :=
  wrapped ("rename " +:+ id +:+ " -> " +:+ newName) (sdk_rename n id newName).

(** [regexp.QuoteMeta]. *)
Definition meta (c : ascii) : bool := one_of "\.+*?()|[]{}^$" c.
Fixpoint QuoteMeta (s : string) : string :=
  match s with
  | "" => ""
  | String c s' => if meta c then String "\" (String c (QuoteMeta s')) else String c (QuoteMeta s')
  end.

Definition name_filter (name : string) : string := "^/" +:+ QuoteMeta name +:+ "$".

Definition ContainerIDByName (name : string) : result (option string) :=
  match sdk_list_named n (name_filter name) with
  | Err e => Err (Wrap ("docker: list by name " +:+ name) e)
  | Ok [] => Ok None
  | Ok (id :: _) => Ok (Some id)
  end.

Definition tailArg (k : Z) : string := if k <=? 0 then "all" else Itoa k.

Definition decodeLogStream (raw : string) : result string :=
  match StdCopy raw with
  | Err e => Err (Wrap "docker: decode log stream" e)
  | Ok s => Ok s
  end.

Definition ContainerLogsTail (id : string) (tail : Z) : result string :=
  match sdk_logs n id (tailArg tail) with
  | Err e => Err (Wrap ("docker: logs " +:+ id) e)
  | Ok raw => decodeLogStream raw
  end.
End Calls.

(** The client, as the jobs know it; an operation of several calls is one step of
    theirs. *)
Definition client {MR : MapRange} {S : SDK} : Docker := {|
  daemon_inspect := InspectStatus;
  daemon_pull := ImagePull;
  daemon_stop := ContainerStop;
  daemon_start := ContainerStart;
  daemon_rename := ContainerRename;
  daemon_remove := ContainerRemove;
  daemon_create := ContainerCreateFromInspect;
  daemon_id_by_name := ContainerIDByName;
|}.
End Types.

(** ** The event stream (events.go)

    The goroutine of [ContainerEvents] and the channel of one signal it fills: what
    its [select] received, and what the reader took, in order. *)
Definition event_filter : list (string * string) :=
  ("type", "container") :: map (pair "event") ["start"; "die"; "stop"; "destroy"].

Inductive received := Message | StreamEnded | Cancelled | Taken.

(** Whether a signal is in the channel, and whether the channel is closed. *)
Definition stream_step (c : bool * bool) (x : received) : bool * bool :=
  match x with
  | Message => if c.2 then c else (true, false)
  | StreamEnded | Cancelled => (c.1, true)
  | Taken => (false, c.2)
  end.

Definition ContainerEvents (xs : list received) : bool * bool := fold_left stream_step xs (false, false).

Arguments Config C : clear implicits.
Arguments Mount O : clear implicits.
Arguments HostConfig H O : clear implicits.
Arguments InspectResponse C H O P : clear implicits.
Arguments SDK C H O P : clear implicits.
End Client.

(** ** What a recreated container keeps *)

Section Recreate.
Context {C H O P : Type}.
Import Client.
Implicit Types (host : HostConfig H O) (mp : MountPoint) (covered : list string).

(** A mount point whose data only the inspection knows. *)
Definition keeps_volume mp : bool := String.eqb mp.(mp_Type) "volume" && negb (String.eqb mp.(mp_Name) "").

Lemma mem_elem d covered : mem d covered = true <-> d ∈ covered.
Proof. unfold mem. rewrite existsb_elem. setoid_rewrite String.eqb_eq. naive_solver. Qed.

(** What the loop appends: exactly one mount for each destination of a volume that
    was not covered, the first of that destination. *)
Lemma reattach_spec covered mounts :
  let added := @reattach O covered mounts in
  (forall m, m ∈ added -> exists mp, mp ∈ mounts /\ keeps_volume mp = true /\ m = volume_mount mp /\ mp.(mp_Destination) ∉ covered) /\
  (forall mp, mp ∈ mounts -> keeps_volume mp = true -> mp.(mp_Destination) ∈ covered \/ mp.(mp_Destination) ∈ map mt_Target added) /\
  NoDup (map mt_Target added).
Proof.
  revert covered. induction mounts as [|mp rest IH]; intros covered; simpl.
  { split; [by intros m ?%not_elem_of_nil|]. split; [by intros mp ?%not_elem_of_nil|constructor]. }
  unfold keeps_volume at 2. 
  destruct (negb (String.eqb mp.(mp_Type) "volume") || String.eqb mp.(mp_Name) "") eqn:Ev.
  { destruct (IH covered) as (H1 & H2 & H3). split; [intros m Hm; destruct (H1 m Hm) as (x & Hx & ?); exists x; set_solver|]. split; [|done].
    intros x [->|Hx]%elem_of_cons Hk; [|by apply H2]. exfalso. unfold keeps_volume in Hk.
    destruct (String.eqb (mp_Type mp) "volume"), (String.eqb (mp_Name mp) ""); done. }
  assert (Hkv : keeps_volume mp = true).
  { unfold keeps_volume. destruct (String.eqb (mp_Type mp) "volume"), (String.eqb (mp_Name mp) ""); done. }
  destruct (mem mp.(mp_Destination) covered) eqn:Em.
  { apply mem_elem in Em. destruct (IH covered) as (H1 & H2 & H3).
    split; [intros m Hm; destruct (H1 m Hm) as (x & Hx & ?); exists x; set_solver|]. split; [|done].
    intros x [->|Hx]%elem_of_cons Hk; [by left|by apply H2]. }
  assert (Hnot : mp.(mp_Destination) ∉ covered) by (intros Hin; apply mem_elem in Hin; congruence).
  destruct (IH (mp.(mp_Destination) :: covered)) as (H1 & H2 & H3). simpl. split; [|split].
  - intros m [->|Hm]%elem_of_cons; [by exists mp; set_solver|].
    destruct (H1 m Hm) as (x & Hx & Hk & -> & Hd). exists x. set_solver.
  - intros x [->|Hx]%elem_of_cons Hk; [right; by left|]. destruct (H2 x Hx Hk) as [[->|Hc]%elem_of_cons|Ha].
    + right. by left.
    + by left.
    + right. by right.
  - constructor; [|done]. intros (m & Hm & Hin)%elem_of_map_elim.
    destruct (H1 m Hin) as (x & _ & _ & -> & Hd). simpl in Hm. set_solver.
Qed.

End Recreate.

(** Every network of the old container is handed over once: at most one at the
    creation, the others afterwards. *)
Lemma split_networks_spec {P : Type} {MR : MapRange} (nets : gmap string P) :
  let '(net, extra) := Client.split_networks nets in
  net ∪ extra = nets /\ net ##ₘ extra /\ (size net <= 1)%nat.
Proof.
  unfold Client.split_networks. pose proof (range_perm nets) as Hp.
  destruct (range nets) as [|[name ep] rest] eqn:Er.
  - symmetry in Hp. apply Permutation_nil_r in Hp. apply map_to_list_empty_iff in Hp as ->.
    split; [by rewrite map_empty_union|]. split; [apply map_disjoint_empty_l|]. by rewrite map_size_empty; lia.
  - assert (Hnd : NoDup ((name, ep) :: rest).*1) by (rewrite Hp; apply NoDup_fst_map_to_list).
    assert (Hn : nets = list_to_map ((name, ep) :: rest)).
    { rewrite <- (list_to_map_to_list nets). symmetry. by apply list_to_map_proper. }
    simpl in Hn. apply NoDup_cons in Hnd as [Hni _].
    assert (Hnone : (list_to_map rest : gmap string P) !! name = None) by (by apply not_elem_of_list_to_map_1).
    split; [rewrite Hn; by rewrite insert_union_singleton_l|]. split; [by apply map_disjoint_singleton_l|].
    by rewrite map_size_singleton.
Qed.

(** A container that was recreated runs the new image with the rest of the old
    configuration, under the name asked for, on every network of the old one. *)
Lemma create_from_inspect_spec {C H O P : Type} {MR : MapRange} {S : Client.SDK C H O P} n json image name id :
  Client.ContainerCreateFromInspect n json image name = Ok id ->
  exists old cfg net extra,
    Client.inspect_Unmarshal json = Ok old /\ old.(Client.ir_Config) = Some cfg /\
    net ∪ extra = default ∅ old.(Client.ir_Networks) /\
    Client.sdk_create n (Client.mkConfig image cfg.(Client.cf_rest))
      ((fun h => Client.reattachVolumeMounts h old.(Client.ir_Mounts)) <$> old.(Client.ir_HostConfig)) net name = Ok id /\
    (forall k ep, extra !! k = Some ep -> Client.sdk_connect n k id ep = Ok tt).
Proof.
  unfold Client.ContainerCreateFromInspect, Client.createArgsFromInspect.
  destruct (String.eqb (TrimSpace json) ""); [done|].
  destruct (Client.inspect_Unmarshal json) as [old|e]; [|done].
  destruct old.(Client.ir_Config) as [cfg|] eqn:Ec; [|done].
  pose proof (split_networks_spec (default ∅ old.(Client.ir_Networks))) as Hsp.
  destruct (Client.split_networks _) as [net extra]. destruct Hsp as (Hu & _ & _).
  destruct (Client.sdk_create _ _ _ _ _) as [i|e] eqn:Es; [|done].
  destruct (Client.connect_all n i (range extra)) as [[]|e] eqn:Ek; [|done]. intros [= <-].
  exists old, cfg, net, extra. split; [done|]. split; [done|]. split; [done|]. split; [done|].
  intros k ep Hk. apply elem_of_map_to_list in Hk. rewrite <- range_perm in Hk. revert Ek.
  induction (range extra) as [|[a b] l IH]; [by apply not_elem_of_nil in Hk|]. simpl.
  destruct (Client.sdk_connect n a i b) as [[]|e] eqn:Ea; [|done]. intros Hl.
  apply elem_of_cons in Hk as [[= -> ->]|Hk]; [done|by apply IH].
Qed.

(** A bind whose target is written with a trailing slash does not cover the
    destination the daemon reports for it: the volume is mounted twice there, which
    the daemon refuses. *)
Lemma trailing_slash_mounted_twice :
  let host := Client.mkHost ["data:/var/lib/data/:rw"] [] tt in
  let mounts := [Client.mkMountPoint "volume" "data" "/var/lib/data" true] in
  (@Client.reattachVolumeMounts unit unit host mounts).(Client.hc_Mounts)
  = [Client.mkMount "volume" "data" "/var/lib/data" false None].
Proof. vm_compute. reflexivity. Qed.


(** A burst of events is one signal, and none is lost: after a message that came
    before the end of the stream the channel holds a signal until it is read, also
    when the stream ends meanwhile. *)
Lemma signal_stays xs ys :
  (Client.ContainerEvents xs).2 = false -> Client.Taken ∉ ys ->
  (Client.ContainerEvents (xs ++ Client.Message :: ys)).1 = true.
Proof.
  unfold Client.ContainerEvents. rewrite fold_left_app. intros Hopen Hys. simpl.
  destruct (fold_left Client.stream_step xs (false, false)) as [p c]. simpl in Hopen. subst c. simpl.
  assert (H : forall c, c.1 = true -> (fold_left Client.stream_step ys c).1 = true); [|by apply H].
  induction ys as [|y ys IH]; intros [q d] Hq; [done|]. apply not_elem_of_cons in Hys as [Hy Hys].
  simpl in *. subst q. destruct y; [destruct d| | |done]; by apply IH.
Qed.
