(* ===== verification/SchedDemo.v ===== *)
(** * The scheduler at work

    The loops of Sched.v on the small installation of RouteDemo.v, with the real
    scanner and the real changelog chain, and the theorems at these runs. *)

From stdpp Require Import base list strings gmap.
From S2P Require Import Prelude GoStd Db Integrity World StoreUpdates StoreJobs StoreServices StoreMisc Store.
From S2P Require Import Files Compose Daemon Registry Detect Scan Password ScanRun Http HttpApi HttpSettings.
From S2P Require Import ApplierSpec SelfUpdate RateLimit HttpStreams Routes RouteSpec RouteFoot RouteSafety NetUrl Changelog ChangelogSpec RouteDemo Sched SchedSpec.

Local Open Scope Z_scope.

#[local] Existing Instances calm_env demo_random demo_argon2 demo_sha any_range demo_sealer demo_composego
  demo_releases demo_zerolog demo_deps demo_logs demo_streams demo_chi.
#[local] Existing Instances stable_slice_sort loopback_only demo_web demo_json demo_labels.

(** The changelogs come from the chain, with the token of the settings. *)
Definition wired_chain : ChangelogAPI := chain Api.githubToken.

Definition wired_checker : Checker :=
  @scanner_checker calm_env stable_slice_sort (demo_api demo_tags) demo_labels wired_chain
    Detector.NewDetector (Scanner.mkScanner true true).

#[local] Instance wired_observes : CheckerObserves wired_checker.
Proof.
  apply (@scanner_observes calm_env stable_slice_sort demo_labels (demo_api demo_tags) wired_chain
    (demo_api_reads demo_tags) chain_consults).
Defined.

(** The service runs ghost:5.1.0; 5.2.0 is out. *)
Definition pinned_server : server :=
  mkServer (Scanner.mkScanning (demo_world (with_services (mkTable [demo_pinned] 1) demo_users_db)) ∅ []) ∅
    ScanRunner.NewScanRunner 1.

Lemma pinned_ok : db_ok (store pinned_server).
Proof. apply db_okb_ok. vm_compute. reflexivity. Qed.

Definition demo_sched : Sched.sched := Sched.mkSched pinned_server 0.

Notation demo_round s := (@Sched.check_and_apply calm_env demo_deps wired_checker s) (only parsing).


Notation demo_loop between s :=
  (@Sched.schedulerLoop calm_env demo_deps wired_checker (ret tt) between s) (only parsing).

Lemma demo_poll_ok : srv_db poll_ok pinned_server.
Proof. split; [exact pinned_ok|]. intros v Hv. vm_compute in Hv. discriminate Hv. Qed.

Lemma scheduler_no_panic_witness :
  (demo_loop [ret tt; ret tt] demo_sched).1 = Ok tt.
Proof.
  apply (@scheduler_no_panic calm_env demo_deps wired_checker wired_observes).
  - apply keeps_ret.
  - constructor; [apply keeps_ret|]. constructor; [apply keeps_ret|constructor].
  - exact demo_poll_ok.
Defined.

(** The API stores any poll interval; the ticker does not take every one. *)
Definition demo_poll_request (v : string) : Request :=
  demo_request "PUT" "/api/settings" "t0k" "csrf1" "" (Some (JObj [("poll_interval_seconds", JStr v)])).

Definition put_poll (v : string) : M server unit :=
  let! _rs := SettingsApi.handlePutSettings 1 (demo_poll_request v) in ret tt.

Lemma zero_poll_panics :
  (SettingsApi.handlePutSettings 1 (demo_poll_request "0") pinned_server).1.(rs_code) = 200 /\
  (demo_loop [put_poll "0"] demo_sched).1 = Err Sched.panic_ticker /\
  (demo_loop [] (Sched.mkSched (put_poll "0" pinned_server).2 0)).1 = Err Sched.panic_ticker /\
  (demo_loop [] (Sched.mkSched (put_poll "9223372037" pinned_server).2 0)).1 = Err Sched.panic_ticker.
Proof. repeat split; vm_compute; reflexivity. Qed.

(** Between two rounds the interval is read again. *)
Example poll_interval_follows :
  (Sched.sd_next (demo_loop [put_poll "60"; ret tt] demo_sched).2 - Sched.sd_next (demo_loop [put_poll "3600"; ret tt] demo_sched).2)
    <? 0 = true.
Proof. vm_compute. reflexivity. Qed.
