(* ===== verification/Boot.v ===== *)
(** * The start of the process (cmd/dockbrr/main.go, run)

    What [run] does with the settings and the users before it serves, what it does
    once the daemon answers, and what the dispatcher it makes can be relied on for. *)

From stdpp Require Import base list strings gmap.
From S2P Require Import Prelude GoStd Db Integrity World StoreUpdates StoreJobs StoreServices StoreMisc Store.
From S2P Require Import Files Compose Daemon SelfUpdate Dispatch Scan Password RateLimit ScanRun Http HttpApi HttpSettings Sched.

Local Open Scope Z_scope.

Module Boot.

(** *** The settings and the users *)

Section Store.
Context {E : Env} {R : Random} {A2 : Argon2} {ZL : Zerolog}.

(** The stored level replaces the default; a text that is no level is ignored. *)
Definition boot_level : M server unit :=
  let! lvl := on_world (Settings.Get "log_level") in
  match lvl with
  | Ok lvl =>
      if String.eqb lvl "" then ret tt
      else match ParseLevel lvl with Ok l => set_level l | Err _ => ret tt end
  | Err _ => ret tt
  end.

(** Any error ends the process. *)
Definition boot_store (user password : string) : M server (result unit) :=
  try? on_world Sched.first_boot in
  do! boot_level in
  on_world (Sched.bootstrap_admin user password).

(** The memory of a process that starts: no sweep, no failed sign-in. *)
Definition fresh_server (w : world) (level : Z) : server :=
  mkServer (Scanner.mkScanning w ∅ []) ∅ ScanRunner.NewScanRunner level.

End Store.

(** *** The daemon answers *)

Section Services.
Context {E : Env} {H : Host} {DK : Docker}.

(** [DockerSocket] of the configuration. *)
Definition NewSelfUpdater (selfID socket : string) : SelfUpdater.SelfUpdater :=
  SelfUpdater.mkSelfUpdater true selfID socket.

(** The dispatcher the engine gets, and the number of workers it starts. *)
Definition startDockerServices (socket : string) : M world (Dispatcher.Dispatcher * Z) :=
  let! concurrency := Sched.settingInt "concurrency" 2 in
  let dispatcher := Dispatcher.NewDispatcher in
  let! selfID := SelfContainerID in
  let dispatcher := if negb (String.eqb selfID "") then Dispatcher.SetSelfGuard selfID dispatcher else dispatcher in
  do! RemoveLeftoverUpdater in
  let dispatcher := if negb (String.eqb selfID "")
                    then Dispatcher.SetSelfUpdater (NewSelfUpdater selfID socket) dispatcher else dispatcher in
  do! Jobs.ResumeRunning in
  ret (dispatcher, concurrency).

Lemma settingInt_fs key def w : (Sched.settingInt key def w).2.(w_fs) = w.(w_fs).
Proof.
  unfold Sched.settingInt, Settings.Get, bind. destruct (sql _ _ _ w) as [[v|e] w1] eqn:Es.
  - apply sql_ok_inv in Es as (_ & Hf & _). by destruct (String.eqb v "").
  - by apply sql_err_inv in Es as ->.
Qed.

(** The guard of a dispatcher is on, or there is no container to guard. *)
Definition armed (d : Dispatcher.Dispatcher) : Prop :=
  d.(Dispatcher.selfID) = "" /\ d.(Dispatcher.selfUpdater) = None \/
  d.(Dispatcher.services) = true /\ d.(Dispatcher.jobs) = true /\
  exists u, d.(Dispatcher.selfUpdater) = Some u /\ u.(SelfUpdater.selfID) = d.(Dispatcher.selfID).

Lemma startDockerServices_armed socket w : armed (startDockerServices socket w).1.1.
Proof.
  unfold startDockerServices, bind. destruct (Sched.settingInt _ _ w) as [n w1].
  destruct (SelfContainerID w1) as [id w2]. destruct (RemoveLeftoverUpdater w2) as [[] w3].
  destruct (Jobs.ResumeRunning w3) as [r w4]. simpl. destruct (String.eqb_spec id "") as [->|Hid]; simpl.
  - left. done.
  - right. split; [done|]. split; [done|]. eexists. split; [reflexivity|done].
Qed.

(** The id the guard has is the one the process finds of itself. *)
Lemma startDockerServices_self socket w : exists w1, w1.(w_fs) = w.(w_fs) /\
  (startDockerServices socket w).1.1.(Dispatcher.selfID) = (SelfContainerID w1).1.
Proof.
  unfold startDockerServices, bind. pose proof (settingInt_fs "concurrency" 2 w) as Hfs.
  destruct (Sched.settingInt _ _ w) as [n w1]. exists w1. split; [exact Hfs|].
  destruct (SelfContainerID w1) as [id w2]. destruct (RemoveLeftoverUpdater w2) as [[] w3].
  destruct (Jobs.ResumeRunning w3) as [r w4]. simpl. by destruct (String.eqb_spec id "") as [->|Hid].
Qed.
End Services.
End Boot.
