(* ===== verification/Run.v ===== *)
(** * The start of the process, from the command line to the server
    (cmd/dockbrr/main.go run; internal/logger Init; internal/store/store.go Open;
    cmd/dockbrr/dockerwatch.go dialDocker)

    What [run] does before it serves: the configuration, the data directory, the log,
    the key, the database and its migrations, the settings and the first user.  The
    SQLite driver is a class; a statement of a migration takes a tick like any other. *)

From stdpp Require Import base list strings gmap sets.
From S2P Require Import Prelude GoStd Clock Migrate Db Integrity World StoreUpdates StoreJobs StoreServices StoreMisc Store.
From S2P Require Import Files Compose Daemon Applier ApplierSpec SelfUpdate Scan Password RateLimit ScanRun Http HttpApi HttpSettings HttpStreams Config Secret.
From S2P Require Import RouteSpec RouteSafety SettingsSpec RouteDemo Sched SchedSpec Boot.

Local Open Scope Z_scope.

(** The driver: what opening a data source says, what a script of a migration does to
    the tables; the migrations the release embeds. *)
Class SQLite := {
  sqlite_Open : string -> result unit;
  migration_exec : string -> db -> result db;
  migration_body : string -> string;
  embedded : list string;
  embedded_distinct : NoDup embedded;
}.

(** The process as it starts: the server's state to be, the table of the migrations
    and the directory of the log files. *)
Record process := mkProcess { pr_server : server; pr_schema : option (list string); pr_logDir : string }.

Definition on_pr {A} (m : M server A) : M process A := fun p =>
  let '(a, s) := m p.(pr_server) in (a, mkProcess s p.(pr_schema) p.(pr_logDir)).

Definition pr_world (p : process) : world := srv_world p.(pr_server).

Definition set_logDir (dir : string) : M process unit := fun p =>
  (tt, mkProcess p.(pr_server) p.(pr_schema) dir).


(** [os.MkdirAll]: directories are not among the files; one cannot be made where a
    file is. *)
Definition sys_MkdirAll {E : Env} (path : string) (mode : Z) : M world (result unit) :=
  sys "mkdir" path (fun m => match m !! path with
                             | Some _ => Err (Errorf ("mkdir " +:+ path +:+ ": not a directory"))
                             | None => Ok (tt, m) end).

(** [logger.Init]; the level is set before the directory is made. *)
Definition logger_Init {E : Env} {ZL : Zerolog} (path level : string) : M process (result string) :=
  match ParseLevel level with
  | Err e => ret (Err (Wrap ("log level " +:+ Quote level) e))
  | Ok lvl =>
      do! on_pr (set_level lvl) in
      do! set_logDir "" in
      if String.eqb path "" then ret (Ok "")
      else
        let dir := Dir path in
        let! r := on_pr (on_world (sys_MkdirAll dir 448)) in
        match r with
        | Err e => ret (Err (Wrap "create log dir" e))
        | Ok _ => do! set_logDir dir in ret (Ok dir)
        end
  end.

Section Start.
Context {E : Env} {R : Random} {A2 : Argon2} {ZL : Zerolog} {SQ : SQLite}.

(** [runMigrations] on the tables of the world, with its clock. *)
Definition on_conn {A} (m : M (Migrate.Conn db) A) : M process A := fun p =>
  let w := pr_world p in
  let '(a, c) := m (Migrate.mkConn (Migrate.mkDatabase p.(pr_schema) w.(w_db)) None w.(w_tick)) in
  let d := c.(Migrate.cn_db) in
  let set _ := (tt, mkWorld d.(Migrate.db_rest) w.(w_fs) w.(w_trace) c.(Migrate.cn_tick)) in
  (a, mkProcess (on_world set p.(pr_server)).2 d.(Migrate.db_applied) p.(pr_logDir)).

Definition dsn (path : string) : string :=
  path +:+ "?_pragma=busy_timeout(5000)&_pragma=foreign_keys(1)&_pragma=journal_mode(WAL)".

(** [store.Open] *)
Definition Open_db (path : string) : M process (result unit) :=
  match sqlite_Open (dsn path) with
  | Err e => ret (Err e)
  | Ok _ => on_conn (Migrate.runMigrations migration_exec migration_body sql_fault embedded)
  end.

(** [run], up to the repositories and the loops: the configuration and the key. *)
Definition prepare (cfg : Config.Config) : M process (result string) :=
  try? on_pr (on_world (sys_MkdirAll cfg.(Config.DataDir) 448)) in
  let? _dir := logger_Init cfg.(Config.LogPath) cfg.(Config.LogLevel) in
  let? key := on_pr (on_world (Secret.LoadOrCreateKey cfg.(Config.DataDir))) in
  match Secret.NewSealer key with
  | Err e => ret (Err e)
  | Ok sealer =>
      try? Open_db (Join2 cfg.(Config.DataDir) "dockbrr.db") in
      try? on_pr (Boot.boot_store cfg.(Config.AdminUser) cfg.(Config.AdminPassword)) in
      ret (Ok sealer)
  end.

Definition run (args : list string) (getenv : string -> string) (getwd : result string) : M process (result (Config.Config * string)) :=
  match Config.Load args getenv getwd with
  | Err e => ret (Err e)
  | Ok cfg => let? sealer := prepare cfg in ret (Ok (cfg, sealer))
  end.

(** ** What a start leaves *)

(** The settings and users a start changes, and nothing else. *)
Definition booted (user : string) (ready : Prop) (d d' : db) : Prop :=
  exists u st, d' = with_users u (with_settings st d) /\
    (d.(users).(rows) <> [] -> u = d.(users)) /\
    (u.(rows) = d.(users).(rows) \/ exists a, u.(rows) = [a] /\ a.(us_Username) = user) /\
    (forall k, k <> "installed_at" -> Settings.lookup k d' = Settings.lookup k d) /\
    (forall v, Settings.lookup "installed_at" d = Some v -> st = d.(settings)) /\
    (ready -> is_Some (Settings.lookup "installed_at" d') /\ (user <> "" -> u.(rows) <> [])).

(** The driver does not call a setting missing that is there. *)
Definition honest_db : Prop := forall n e, sql_fault n = Some e -> errors_Is e "setting not found" = false.

Lemma settings_eta d : d = with_settings d.(settings) d.
Proof. by destruct d. Qed.

Lemma get_setting k w v w' : Settings.Get k w = (v, w') ->
  w'.(w_db) = w.(w_db) /\ w'.(w_fs) = w.(w_fs) /\
  match v with
  | Ok t => Settings.lookup k w.(w_db) = Some t
  | Err e => honest_db -> errors_Is e "setting not found" = true -> Settings.lookup k w.(w_db) = None
  end.
Proof.
  unfold Settings.Get. intros Hs. destruct v as [t|e].
  - apply sql_ok_inv in Hs as (Hst & Hf & _). destruct (Settings.lookup _ _); [|done]. by injection Hst as -> <-.
  - pose proof (sql_err_inv _ _ _ _ _ _ Hs) as ->. split; [done|]. split; [done|]. intros Hh He. revert Hs. unfold sql.
    destruct (sql_fault _) as [e'|] eqn:Ef; [intros [= ->]; by rewrite (Hh _ _ Ef) in He|]. by destruct (Settings.lookup _ _).
Qed.

Lemma first_boot_spec w r w' : honest_db -> Sched.first_boot w = (r, w') ->
  w'.(w_fs) = w.(w_fs) /\
  exists st, w'.(w_db) = with_settings st w.(w_db) /\
    (forall k, k <> "installed_at" -> Settings.lookup k w'.(w_db) = Settings.lookup k w.(w_db)) /\
    (forall v, Settings.lookup "installed_at" w.(w_db) = Some v -> st = w.(w_db).(settings)) /\
    (r = Ok tt -> is_Some (Settings.lookup "installed_at" w'.(w_db))).
Proof.
  intros Hh. unfold Sched.first_boot. intros (v & w1 & (Hd & Hf & Hv)%get_setting & Hk)%bind_inv.
  assert (Hsame : forall r', (r' = Ok tt -> is_Some (Settings.lookup "installed_at" w.(w_db))) -> (r', w1) = (r, w') ->
    w'.(w_fs) = w.(w_fs) /\ exists st, w'.(w_db) = with_settings st w.(w_db) /\
    (forall k, k <> "installed_at" -> Settings.lookup k w'.(w_db) = Settings.lookup k w.(w_db)) /\
    (forall v, Settings.lookup "installed_at" w.(w_db) = Some v -> st = w.(w_db).(settings)) /\
    (r = Ok tt -> is_Some (Settings.lookup "installed_at" w'.(w_db)))).
  { intros r' Hr [= <- <-]. rewrite Hd. split; [done|]. exists w.(w_db).(settings). by rewrite <- settings_eta. }
  destruct v as [v|e]; [apply (Hsame (Ok tt)); [by eexists|exact Hk]|].
  destruct (errors_Is e "setting not found") eqn:He; [|by apply (Hsame (Err e))]. simpl in Hk.
  apply bind_inv in Hk as (t & w2 & [= <- <-] & Hk). specialize (Hv Hh eq_refl). unfold Settings.Set_ in Hk.
  destruct r as [[]|e'].
  - generalize dependent (rfc3339 (clock w1.(w_tick) / second)). intros stamp Hk.
    apply sql_ok_inv in Hk as (Hst & Hf2 & _). split; [by rewrite Hf2|]. pose proof (set_lookup _ _ _ _ _ Hst) as Hset.
    injection Hst as Hst. cbn [tick w_db] in Hst. rewrite Hd in Hst. eexists. split; [by rewrite <- Hst|].
    split; [intros k Hne; rewrite <- Hst; by apply set_lookup_ne|]. split; [by rewrite Hv|]. intros _. by eexists.
  - apply sql_err_inv in Hk as ->. cbn. rewrite Hd. split; [done|]. exists w.(w_db).(settings). by rewrite <- settings_eta.
Qed.

Lemma users_eta d : d = with_users d.(users) d.
Proof. by destruct d. Qed.

Lemma bootstrap_admin_ready user password w r w' : Sched.bootstrap_admin user password w = (r, w') ->
  w'.(w_fs) = w.(w_fs) /\ w'.(w_db) = with_users w'.(w_db).(users) w.(w_db) /\
  (r = Ok tt -> user <> "" -> w'.(w_db).(users).(rows) <> []).
Proof.
  unfold Sched.bootstrap_admin. destruct (String.eqb_spec user "") as [->|Hu].
  { intros [= <- <-]. rewrite <- users_eta. by split. }
  intros [(e & -> & Hc)|(n & w1 & Hc & Hk)]%bind_ok_cases; unfold Users.Count in Hc.
  { apply sql_err_inv in Hc as ->. simpl. by rewrite <- users_eta. }
  apply sql_ok_inv in Hc as (Hq & Hf & _). unfold query in Hq. injection Hq as Hn Hd. destruct (Z.eqb_spec n 0) as [Hz|Hz].
  2: { injection Hk as <- <-. rewrite <- Hd, <- users_eta. split; [done|]. split; [done|]. intros _ _ He. by rewrite He in Hn. }
  apply bind_ok_cases in Hk as [(e & -> & Hh)|(h & w2 & Hh & Hk)];
    unfold Auth.HashPassword, bind_ok, bind, read_random in Hh;
    destruct (rand_Read _ _) in Hh; injection Hh as Hh <-; try done; cbn.
  { by rewrite <- Hd, <- users_eta. }
  apply bind_ok_cases in Hk as [(e & -> & Hc)|(id & w3 & Hc & [= <- <-])]; unfold Users.Create in Hc.
  { apply sql_err_inv in Hc as ->. cbn. by rewrite <- Hd, <- users_eta. }
  apply sql_ok_inv in Hc as (Hst & Hf3 & _). split; [by rewrite Hf3|]. unfold Users.create_stmt in Hst. cbn in Hst. case_match; [done|].
  injection Hst as _ Hst. rewrite <- Hst, <- Hd. split; [done|]. intros _ _. simpl. by destruct (rows _).
Qed.

(** [boot_level] reads, and sets the level of a stored text that is one. *)
Lemma boot_level_spec s s' : Boot.boot_level s = (tt, s') ->
  (srv_world s').(w_db) = (srv_world s).(w_db) /\ (srv_world s').(w_fs) = (srv_world s).(w_fs) /\
  (s'.(srv_level) = s.(srv_level) \/
   exists v, Settings.lookup "log_level" (srv_world s).(w_db) = Some v /\ ParseLevel v = Ok s'.(srv_level)).
Proof.
  unfold Boot.boot_level. intros (v & s1 & [Hg Hp]%on_world_inv & Hk)%bind_inv.
  apply get_setting in Hg as (Hd & Hf & Hv). destruct Hp as (_ & _ & Hl & _).
  assert (Hs1 : s' = s1 -> (srv_world s').(w_db) = (srv_world s).(w_db) /\ (srv_world s').(w_fs) = (srv_world s).(w_fs) /\
    s'.(srv_level) = s.(srv_level)) by by intros ->.
  destruct v as [v|e]; [|injection Hk as Hk; apply eq_sym, Hs1 in Hk; by destruct Hk as (? & ? & ?); auto].
  destruct (String.eqb v ""); [injection Hk as Hk; apply eq_sym, Hs1 in Hk; by destruct Hk as (? & ? & ?); auto|].
  destruct (ParseLevel v) as [l|e] eqn:Hp; [|injection Hk as Hk; apply eq_sym, Hs1 in Hk; by destruct Hk as (? & ? & ?); auto].
  injection Hk as <-. split; [done|]. split; [done|]. right. by exists v.
Qed.

(** The log level of the process: the one of the command line, or the stored one. *)
Definition level_of (configured : Z) (d : db) (level : Z) : Prop :=
  level = configured \/ exists v, Settings.lookup "log_level" d = Some v /\ ParseLevel v = Ok level.

Lemma boot_store_spec user password s r s' : honest_db -> Boot.boot_store user password s = (r, s') ->
  (srv_world s').(w_fs) = (srv_world s).(w_fs) /\
  booted user (r = Ok tt) (srv_world s).(w_db) (srv_world s').(w_db) /\
  level_of s.(srv_level) (srv_world s').(w_db) s'.(srv_level).
Proof.
  intros Hh. unfold Boot.boot_store. intros [(e & -> & [Hb Hp]%on_world_inv)|([] & s1 & [Hb Hp]%on_world_inv & Hk)]%bind_ok_cases;
    apply (first_boot_spec _ _ _ Hh) in Hb as (Hf & st & Hd & Ho & Hs & Hi); destruct Hp as (_ & _ & Hl & _).
  - split; [done|]. split; [|by left]. exists (srv_world s).(w_db).(users), st. split; [exact Hd|]. split; [done|]. split; [by left|]. by split; [|split].
  - apply bind_inv in Hk as ([] & s2 & (Hd2 & Hf2 & Hl2)%boot_level_spec & [Ha Hp3]%on_world_inv).
    destruct Hp3 as (_ & _ & Hl3 & _). pose proof (bootstrap_admin_spec _ _ _ _ _ Ha) as [Hkeep Hone].
    apply bootstrap_admin_ready in Ha as (Hf3 & Hd3 & Hr). rewrite Hd2, Hd in Hd3. set (u := users _) in Hd3.
    assert (Hlk : forall k, Settings.lookup k (srv_world s').(w_db) = Settings.lookup k (srv_world s1).(w_db))
      by (intros k; rewrite Hd3, Hd; done).
    split; [congruence|]. split.
    + exists u, st. split; [done|]. rewrite Hd2, Hd in Hkeep, Hone. split; [exact Hkeep|]. split; [exact Hone|].
      split; [intros k Hk; rewrite Hlk; by apply Ho|]. split; [done|]. intros Hok. rewrite Hlk. split; [by apply Hi|by apply Hr].
    + rewrite Hl3. destruct Hl2 as [->|(v & Hv & Hp)]; [by left|]. right. exists v. by rewrite Hlk.
Qed.

(** ** The steps *)

Lemma on_pr_inv {A} (m : M server A) p a p' : on_pr m p = (a, p') ->
  m p.(pr_server) = (a, p'.(pr_server)) /\ p'.(pr_schema) = p.(pr_schema) /\ p'.(pr_logDir) = p.(pr_logDir).
Proof. unfold on_pr. destruct (m _) as [b s]. by intros [= <- <-]. Qed.

(** A step before the database is opened: tables, schema and level stay. *)
Definition before_db (p p' : process) : Prop :=
  (pr_world p').(w_db) = (pr_world p).(w_db) /\ p'.(pr_schema) = p.(pr_schema).

Lemma on_pr_world_inv {A} (m : M world A) p a p' : on_pr (on_world m) p = (a, p') ->
  m (pr_world p) = (a, pr_world p') /\ p'.(pr_schema) = p.(pr_schema) /\ p'.(pr_server).(srv_level) = p.(pr_server).(srv_level).
Proof.
  intros (H & Hs & _)%on_pr_inv. unfold pr_world. apply on_world_inv in H as [H (_ & _ & Hl & _)]. by repeat split.
Qed.

Lemma mkdir_spec path mode w r w' : sys_MkdirAll path mode w = (r, w') -> w'.(w_db) = w.(w_db) /\ w'.(w_fs) = w.(w_fs).
Proof.
  unfold sys_MkdirAll. destruct r as [[]|e]; intros H; [|by apply sys_err_inv in H as ->].
  apply sys_ok_inv in H as (Hf & Hd & _). destruct (_ !! _); [done|]. by injection Hf as <-.
Qed.

Lemma logger_Init_spec path level p r p' : logger_Init path level p = (r, p') ->
  before_db p p' /\ (pr_world p').(w_fs) = (pr_world p).(w_fs) /\
  match r with Ok _ => ParseLevel level = Ok p'.(pr_server).(srv_level) | Err _ => True end.
Proof.
  unfold logger_Init, before_db. destruct (ParseLevel level) as [l|e]; [|by intros [= <- <-]].
  intros ([] & p1 & (H1 & Hs1 & _)%on_pr_inv & Hk)%bind_inv. injection H1 as H1.
  assert (Hp1 : pr_world p1 = pr_world p /\ p1.(pr_server).(srv_level) = l) by (unfold pr_world; by rewrite <- H1).
  destruct Hp1 as [Hw1 Hl1]. apply bind_inv in Hk as ([] & p2 & [= <-] & Hk).
  destruct (String.eqb path ""); [injection Hk as <- <-; unfold pr_world in *; simpl; by rewrite Hw1, Hl1|].
  apply bind_inv in Hk as (m & p3 & Hm & Hk). apply on_pr_world_inv in Hm as (Hm & Hs3 & Hl3).
  apply mkdir_spec in Hm as [Hd Hf]. change (pr_world (mkProcess _ _ _)) with (pr_world p1) in Hd, Hf. rewrite Hw1 in Hd, Hf.
  simpl in Hs3, Hl3. destruct m as [[]|e].
  - apply bind_inv in Hk as ([] & p4 & [= <-] & [= <- <-]). change (pr_world (mkProcess _ _ _)) with (pr_world p3).
    simpl. rewrite Hs3, Hl3, Hl1. done.
  - injection Hk as <- <-. by rewrite Hs3.
Qed.

Lemma keeps_sys_db {A} (P : db -> Prop) op path (f : fs -> result (A * fs)) : keeps (on_db P) (sys op path f).
Proof.
  intros w Hw. destruct (sys op path f w) as [[a|e] w'] eqn:Hs; unfold on_db in *; simpl.
  - by apply sys_ok_inv in Hs as (_ & -> & _).
  - by apply sys_err_inv in Hs as ->.
Qed.

Lemma key_db dir w r w' : Secret.LoadOrCreateKey dir w = (r, w') -> w'.(w_db) = w.(w_db).
Proof.
  assert (H : keeps (on_db (eq w.(w_db))) (Secret.LoadOrCreateKey dir)).
  { unfold Secret.LoadOrCreateKey, Secret.sys_WriteFile, Secret.sys_Truncate, sys_ReadFile, sys_change, sys_Close, read_random.
    keeps_walk; first [apply keeps_sys_db|by intros v Hv]. }
  intros Hs. specialize (H w eq_refl). rewrite Hs in H. by symmetry.
Qed.

(** What the opening of the database did: a beginning of the migrations that were not
    recorded, all of them when it succeeded. *)
Definition migrated (ok : Prop) (schema0 : option (list string)) (d0 : db) (schema : option (list string)) (d : db) : Prop :=
  let todo := missing (sort_strings embedded) (default [] schema0) in
  exists k, default [] schema = default [] schema0 ++ take k todo /\
    replay migration_exec migration_body (take k todo) d0 = Some d /\ (ok -> take k todo = todo).

Lemma migrated_none (ok : Prop) schema d : ~ ok -> migrated ok schema d schema d.
Proof. intros Hno. exists 0%nat. simpl. by rewrite app_nil_r. Qed.

Lemma Open_db_spec path p r p' : Open_db path p = (r, p') ->
  (pr_world p').(w_fs) = (pr_world p).(w_fs) /\ p'.(pr_server).(srv_level) = p.(pr_server).(srv_level) /\
  migrated (r = Ok tt) p.(pr_schema) (pr_world p).(w_db) p'.(pr_schema) (pr_world p').(w_db).
Proof.
  unfold Open_db. destruct (sqlite_Open _) as [[]|e]; [|intros [= <- <-]; split; [done|]; split; [done|]; by apply migrated_none].
  unfold on_conn. set (c0 := Migrate.mkConn _ _ _). destruct (Migrate.runMigrations _ _ _ _ c0) as [a c] eqn:Hrun.
  match goal with |- context [on_world ?f ?s] => destruct (on_world f s) as [[] s'] eqn:Hset end.
  apply on_world_inv in Hset as [Hset (_ & _ & Hl & _)]. injection Hset as Hset. intros [= <- <-].
  change (pr_world (mkProcess _ _ _)) with (srv_world s'). rewrite <- Hset. simpl. split; [done|]. split; [done|].
  apply runMigrations_progress in Hrun as [(Hdb & _ & Hno)|(_ & k & d & Hdb & Hk & Hok)]; [| |apply embedded_distinct|done].
  - rewrite Hdb. by apply migrated_none.
  - rewrite Hdb. exists k. by split.
Qed.

Lemma booted_refl user (ready : Prop) d : ~ ready -> booted user ready d d.
Proof.
  intros Hno. exists d.(users), d.(settings). rewrite <- settings_eta, <- users_eta.
  split; [done|]. split; [done|]. split; [by left|]. by split.
Qed.

(** The tables after a start: those before, migrated, then booted. *)
Definition tables_started (cfg : Config.Config) (ok : Prop) (p p' : process) : Prop :=
  exists d, migrated ok p.(pr_schema) (pr_world p).(w_db) p'.(pr_schema) d /\
    booted cfg.(Config.AdminUser) ok d (pr_world p').(w_db).

Lemma tables_untouched cfg (ok : Prop) p p' : ~ ok -> before_db p p' -> tables_started cfg ok p p'.
Proof. intros Hno [Hd Hs]. exists (pr_world p).(w_db). rewrite Hd, Hs. split; [by apply migrated_none|by apply booted_refl]. Qed.

(** The key file, and no other. *)
Definition key_only (cfg : Config.Config) (w w' : world) : Prop :=
  let path := key_path cfg.(Config.DataDir) in
  only_file path w w' /\ (w.(w_fs) !! path <> None -> w'.(w_fs) = w.(w_fs)).

Lemma key_only_same cfg w w' : w'.(w_fs) = w.(w_fs) -> key_only cfg w w'.
Proof. intros Hf. split; [unfold only_file; by rewrite Hf|done]. Qed.

(** What a process that is ready to serve holds. *)
Definition ready (cfg : Config.Config) (sealer : string) (p' : process) : Prop :=
  len sealer = 32%nat /\
  (exists f, (pr_world p').(w_fs) !! key_path cfg.(Config.DataDir) = Some f /\ f.(f_content) = sealer) /\
  exists l, ParseLevel cfg.(Config.LogLevel) = Ok l /\ level_of l (pr_world p').(w_db) p'.(pr_server).(srv_level).

(** The database part of a start, on a key that is there. *)
Lemma open_and_boot cfg (key : string) p r p' : honest_db ->
  (try? Open_db (Join2 cfg.(Config.DataDir) "dockbrr.db") in
   try? on_pr (Boot.boot_store cfg.(Config.AdminUser) cfg.(Config.AdminPassword)) in
   ret (Ok key)) p = (r, p') ->
  (pr_world p').(w_fs) = (pr_world p).(w_fs) /\ tables_started cfg (is_ok r = true) p p' /\
  match r with
  | Ok k => k = key /\ level_of p.(pr_server).(srv_level) (pr_world p').(w_db) p'.(pr_server).(srv_level)
  | Err _ => True
  end.
Proof.
  intros Hh [(e & -> & Ho)|([] & p1 & Ho & Hk)]%bind_ok_cases; apply Open_db_spec in Ho as (Hf & Hl & Hm).
  { split; [done|]. split; [|done]. exists (pr_world p').(w_db). split; [|by apply booted_refl].
    destruct Hm as (k & Hs & Hr & _). by exists k. }
  apply bind_ok_cases in Hk as [(e & -> & Hb)|([] & p2 & Hb & [= <- <-])]; apply on_pr_inv in Hb as (Hb & Hs & _);
    apply (boot_store_spec _ _ _ _ _ Hh) in Hb as (Hf2 & Hb & Hlv); unfold pr_world in *.
  - split; [congruence|]. split; [|done]. exists (srv_world p1.(pr_server)).(w_db). rewrite Hs. split.
    + destruct Hm as (k & Hs' & Hr & _). by exists k.
    + destruct Hb as (u & st & Hd & H1 & H2 & H3 & H4 & _). exists u, st. by repeat split.
  - split; [congruence|]. split; [|split; [done|]; by rewrite <- Hl]. exists (srv_world p1.(pr_server)).(w_db). rewrite Hs. split.
    + destruct Hm as (k & Hs' & Hr & Hok). exists k. split; [done|]. split; [done|]. intros _. by apply Hok.
    + destruct Hb as (u & st & Hd & H1 & H2 & H3 & H4 & H5). exists u, st. repeat split; try done; by apply H5.
Qed.

Lemma prepare_spec cfg p r p' : honest -> honest_db -> prepare cfg p = (r, p') ->
  key_only cfg (pr_world p) (pr_world p') /\ tables_started cfg (is_ok r = true) p p' /\
  match r with Ok sealer => ready cfg sealer p' | Err _ => True end.
Proof.
  intros Hh Hhd. unfold prepare.
  intros [(e & -> & Hm)|([] & p1 & Hm & Hk)]%bind_ok_cases; apply on_pr_world_inv in Hm as (Hm & Hs1 & Hl1);
    apply mkdir_spec in Hm as [Hd1 Hf1].
  { split; [by apply key_only_same|]. split; [|done]. by apply tables_untouched. }
  apply bind_ok_cases in Hk as [(e & -> & Hi)|(dir & p2 & Hi & Hk)]; apply logger_Init_spec in Hi as ([Hd2 Hs2] & Hf2 & Hl2).
  { split; [apply key_only_same; congruence|]. split; [|done]. apply tables_untouched; [done|]. split; congruence. }
  apply bind_ok_cases in Hk as [(e & -> & Hy)|(key & p3 & Hy & Hk)]; apply on_pr_world_inv in Hy as (Hy & Hs3 & Hl3);
    pose proof (key_db _ _ _ _ Hy) as Hd3; apply (LoadOrCreateKey_spec _ _ _ _ Hh) in Hy as (Hof & Hsame & Hy);
    unfold only_file in Hof; rewrite Hf2, Hf1 in Hof, Hsame.
  { split; [by split|]. split; [|done]. apply tables_untouched; [done|]. split; congruence. }
  destruct Hy as (Hlen & f & Hfile & Hkey & _). unfold Secret.NewSealer in Hk. rewrite Hlen in Hk. simpl in Hk.
  apply (open_and_boot cfg key p3 r p' Hhd) in Hk as (Hf4 & Ht & Hr). split.
  { split; [unfold only_file|]; by rewrite Hf4. }
  assert (Hdb : (pr_world p3).(w_db) = (pr_world p).(w_db)) by congruence. assert (Hsch : p3.(pr_schema) = p.(pr_schema)) by congruence.
  unfold tables_started in *. rewrite Hdb, Hsch in Ht. split; [done|]. destruct r as [k|e]; [|done]. destruct Hr as [-> Hlv].
  split; [done|]. split; [exists f; by rewrite Hf4|]. exists p3.(pr_server).(srv_level). split; [by rewrite Hl3|done].
Qed.

End Start.

(** ** The connection to the daemon (internal/docker/client.go, dockerwatch.go) *)

(** The SDK: making a client from its options, and what its calls answer.  Making one
    does not dial. *)
Class SDKClient := {
  sdk_client : Type;
  NewClientWithOpts : option string -> result sdk_client;
  sdk_Ping : sdk_client -> nat -> result unit;
  sdk_ServerVersion : sdk_client -> nat -> result (string * string);
}.

Section Connection.
Context {E : Env} {SC : SDKClient}.

(** [docker.New]; [NewFromEnv] leaves the host to the environment. *)
Definition New (socket : string) : result sdk_client := NewClientWithOpts (Some ("unix://" +:+ socket)).
Definition NewFromEnv : result sdk_client := NewClientWithOpts None.

Definition answer_event {A} (op : string) (r : result A) : event := EvDocker op "" (is_ok r).

Definition Ping (c : sdk_client) : M world (result unit) := call (answer_event "ping") (sdk_Ping c).

Definition ServerVersion (c : sdk_client) : M world (result (string * string)) :=
  call (answer_event "version") (sdk_ServerVersion c).

Definition Close (c : sdk_client) : M world unit := emit (EvDocker "close" "" true).

(** One dial: a client that does not answer is closed. *)
Definition dialDocker (socket : string) : M world (result sdk_client) :=
  match New socket with
  | Err e => ret (Err e)
  | Ok c =>
      let! r := Ping c in
      match r with
      | Err e => do! Close c in ret (Err e)
      | Ok _ => ret (Ok c)
      end
  end.

(** The supervisor: the client of the start, else the first that [waitForDocker] gets,
    one dial per tick of its timer, as many as come before the process ends. *)
Fixpoint dials (socket : string) (ticks : nat) : M world (option sdk_client) :=
  match ticks with
  | O => ret None
  | S n =>
      let! r := dialDocker socket in
      match r with Ok c => ret (Some c) | Err _ => dials socket n end
  end.

Definition supervise (socket : string) (ticks : nat) : M world (option sdk_client) :=
  let! r := dialDocker socket in
  match r with Ok c => ret (Some c) | Err _ => dials socket ticks end.

(** The clients a trace of dials leaves open: a dial pings the client it made, once. *)
Fixpoint left_open (l : list event) : Z :=
  match l with
  | EvDocker op _ _ :: l =>
      left_open l + (if String.eqb op "ping" then 1 else if String.eqb op "close" then -1 else 0)
  | _ :: l => left_open l
  | [] => 0
  end.

Lemma dialDocker_spec socket w r w' : dialDocker socket w = (r, w') ->
  w'.(w_db) = w.(w_db) /\ w'.(w_fs) = w.(w_fs) /\
  left_open w'.(w_trace) = left_open w.(w_trace) + (if is_ok r then 1 else 0).
Proof.
  unfold dialDocker. destruct (New socket) as [c|e]; [|intros [= <- <-]; simpl; repeat split; lia].
  intros (p & w1 & [= Hp <-] & Hk)%bind_inv. subst p. destruct (sdk_Ping c _) as [[]|e] eqn:Hp; cbn in Hk.
  - injection Hk as <- <-. simpl. by repeat split.
  - injection Hk as <- <-. simpl. repeat split; lia.
Qed.

Lemma dials_spec socket ticks w r w' : dials socket ticks w = (r, w') ->
  w'.(w_db) = w.(w_db) /\ w'.(w_fs) = w.(w_fs) /\
  left_open w'.(w_trace) = left_open w.(w_trace) + (if r then 1 else 0).
Proof.
  revert w. induction ticks as [|n IH]; intros w; simpl; [intros [= <- <-]; repeat split; lia|].
  intros ([c|e] & w1 & (Hd & Hf & Ho)%dialDocker_spec & Hk)%bind_inv; cbn in Ho; [injection Hk as <- <-; by repeat split|].
  apply IH in Hk as (-> & -> & ->). repeat split; [done..|lia].
Qed.

(** However often it dials, the supervisor leaves open the client it hands over, and no
    other. *)
Lemma supervise_spec socket ticks w r w' : supervise socket ticks w = (r, w') ->
  w'.(w_db) = w.(w_db) /\ w'.(w_fs) = w.(w_fs) /\
  left_open w'.(w_trace) = left_open w.(w_trace) + (if r then 1 else 0).
Proof. exact (dials_spec socket (S ticks) w r w'). Qed.
End Connection.

(** ** Examples *)

(** A release of two migrations, whose scripts keep the tables of the model. *)
Definition demo_sqlite : SQLite.
Proof.
  refine {| sqlite_Open _ := Ok tt; migration_exec _ d := Ok d; migration_body n := n;
            embedded := ["0002_sessions.sql"; "0001_init.sql"] |}.
  refine (bool_decide_unpack _ _). vm_compute. exact I.
Defined.

#[local] Existing Instances calm_env demo_random demo_argon2 demo_sha any_range demo_zerolog demo_sqlite.

Definition first_process : process :=
  mkProcess (mkServer (Scanner.mkScanning (mkWorld empty_db ∅ [] 0) ∅ []) ∅ ScanRunner.NewScanRunner 0) None "".

Definition demo_run (args : list string) : result (Config.Config * string) * process :=
  run args (fun _ => "") (Ok "/srv") first_process.

Definition demo_args : list string := ["--admin-user"; "admin"; "--log-level=debug"].


(** A start that names an admin and no password makes one whose password is empty: the
    set-up and the change of a password refuse an empty one, the start does not, and
    neither does the sign-in. *)
Lemma empty_admin_password :
  is_ok (demo_run demo_args).1 = true /\
  (Http.handleLogin (demo_login_request "") (demo_run demo_args).2.(pr_server)).1.(rs_code) = 200 /\
  (Http.handleLogin (demo_login_request "x") (demo_run demo_args).2.(pr_server)).1.(rs_code) = 401.
Proof. vm_compute. done. Qed.
