(* ===== verification/JobFoot.v ===== *)
(** * What the handlers of jobs do to the tables

    Whatever job a worker handles: the schema's integrity is kept, and no job is
    added; the jobs there are keep their type, their scope and who asked for them. *)

From stdpp Require Import base list strings gmap.
From S2P Require Import Prelude GoStd Semver Db Integrity World StoreUpdates StoreJobs StoreServices StoreMisc Store.
From S2P Require Import Files Compose Daemon Applier Standalone Lifecycle SelfUpdate Dispatch.

Local Open Scope Z_scope.

(** What a job is, whatever becomes of it. *)
Definition kind_of (j : Job) : Z * string * string * string :=
  (j.(job_ID), j.(job_Type), j.(job_Scope), j.(job_RequestedBy)).

(** [j] is the job [j0] later on: it may have lost the row it was about, but it is
    about no other. *)
Definition becomes (j0 j : Job) : Prop :=
  kind_of j = kind_of j0 /\
  (j.(job_ServiceID) = j0.(job_ServiceID) \/ j.(job_ServiceID) = None) /\
  (j.(job_ProjectID) = j0.(job_ProjectID) \/ j.(job_ProjectID) = None).

#[export] Instance becomes_preorder : PreOrder becomes.
Proof.
  split; [by intros j; repeat split; auto|].
  intros j1 j2 j3 (H1 & H2 & H3) (G1 & G2 & G3). split; [congruence|].
  split; [destruct G2 as [->|]|destruct G3 as [->|]]; auto.
Qed.

Definition no_new (d0 d : db) : Prop :=
  forall j, j ∈ d.(jobs).(rows) -> exists j0, j0 ∈ d0.(jobs).(rows) /\ becomes j0 j.

Definition kept (d0 d : db) : Prop := db_ok d /\ no_new d0 d.

#[export] Instance no_new_preorder : PreOrder no_new.
Proof.
  split; [by intros d j Hj; exists j|].
  intros d1 d2 d3 H12 H23 j Hj. destruct (H23 j Hj) as (j2 & Hj2 & B2). destruct (H12 j2 Hj2) as (j1 & Hj1 & B1).
  exists j1. split; [done|by etrans].
Qed.

Lemma no_new_rows d0 d d' : (forall j, j ∈ d'.(jobs).(rows) -> exists k, k ∈ d.(jobs).(rows) /\ becomes k j) ->
  no_new d0 d -> no_new d0 d'.
Proof. intros Hs H. by etrans; [exact H|]. Qed.

Lemma no_new_same d0 d d' : d'.(jobs).(rows) = d.(jobs).(rows) -> no_new d0 d -> no_new d0 d'.
Proof. intros He. apply no_new_rows. rewrite He. intros j Hj. by exists j. Qed.

Lemma becomes_update p g l j : (forall k, becomes k (g k)) -> j ∈ update_where p g l -> exists k, k ∈ l /\ becomes k j.
Proof.
  intros Hg Hj. unfold update_where in Hj. apply elem_of_map_elim in Hj as (k & -> & Hk). exists k.
  split; [done|]. by destruct (p k).
Qed.

Lemma no_new_update d0 p g t d a d' :
  (forall j, becomes j (g j)) -> no_new d0 d -> Jobs.update_jobs p g t d = Ok (a, d') -> no_new d0 d'.
Proof.
  intros Hg Hd Hs. unfold Jobs.update_jobs in Hs. injection Hs as _ <-. revert Hd. apply no_new_rows.
  intros j. by apply becomes_update.
Qed.

Ltac foot_side := intros ? ? ? ? Heq; cbv beta zeta delta [query Updates.update_stmt Events.insert_stmt
    Settings.set_stmt Services.update_by_id Snapshots.insert_stmt] in Heq;
  repeat case_match; try discriminate Heq; injection Heq; intros; subst; reflexivity.

Create HintDb foot discriminated.

Section Foot.
Context {E : Env} (d0 : db).

Notation within m := (keeps (on_db (kept d0)) m).

Lemma foot_beside {A} op id (st : stmt A) :
  stmt_keeps db_ok st -> (forall t d a d', st t d = Ok (a, d') -> d'.(jobs) = d.(jobs)) -> within (sql op id st).
Proof.
  intros Hok Hs. apply keeps_sql_db. intros t d a d' [H1 H2] He. split; [by eapply Hok|].
  eapply no_new_same; [by rewrite (Hs _ _ _ _ He)|done].
Qed.

Lemma foot_call {A} ev (answer : nat -> A) : within (call ev answer).
Proof. apply keeps_call_db. Qed.

Lemma foot_tick {A} (f : nat -> A) : within (fun w => (f w.(w_tick), tick w)).
Proof. intros w Hw. exact Hw. Qed.

Lemma foot_emit e : within (emit e).
Proof. intros w Hw. exact Hw. Qed.

Lemma foot_sys {A} op path (f : fs -> result (A * fs)) : within (sys op path f).
Proof. intros w Hw. unfold sys. destruct (os_fault _); [done|]. by destruct (f _) as [[a m]|e]. Qed.

Lemma foot_temp dir pre suf : within (sys_CreateTemp dir pre suf).
Proof. intros w. apply (foot_sys "create" (temp_path dir pre suf w.(w_tick))). Qed.

Lemma foot_finish id st c m : within (Jobs.Finish id st c m).
Proof.
  unfold Jobs.Finish. apply keeps_bind_ok; [|intros ?; apply keeps_ret].
  apply keeps_sql_db. intros t d a d' [H1 H2] He.
  assert (Hk : stmt_keeps db_ok (fun t => Jobs.update_jobs (fun j => j.(job_ID) =? id)
      (fun j => job_set st j.(job_StartedAt) (Some t) c m j) t)) by eauto with keeps.
  split; [by eapply Hk|]. eapply no_new_update; [|exact H2|exact He]. intros j. repeat split; auto.
Qed.

Lemma foot_claim : within Jobs.ClaimNext.
Proof.
  unfold Jobs.ClaimNext. apply keeps_sql_db. intros t d a d' [H1 H2] He. split; [by eapply claim_stmt_ok|].
  unfold Jobs.claim_stmt in He. destruct (Jobs.oldest_queued d) as [j|]; [|by injection He as _ <-].
  eapply (no_new_update d0 (fun k => k.(job_ID) =? j.(job_ID)) (Jobs.claim t) t d); [by intros k; repeat split; auto|done|].
  injection He as _ <-. reflexivity.
Qed.
End Foot.

#[export] Hint Resolve foot_call foot_tick foot_emit foot_sys foot_temp foot_finish foot_claim : foot.

Ltac foot_step :=
  first
  [ solve [eauto with foot nocore]
  | apply foot_beside; [solve [eauto with keeps]|foot_side]
  | keeps_step ].
Ltac foot_walk := repeat foot_step.

Section Handlers.
Context {E : Env} {SS : SliceSort} {CG : Compose.ComposeGo} {SH : Sha256} {Y : Yaml}.
Context {CLI : ComposeCLI} {D : Docker} {R : Resolver} {RD : Rediscoverer} {HC : HealthConfig}.
Context {SD : SelfDocker} {G : Checker.Releases} (d0 : db).

Notation within m := (keeps (on_db (kept d0)) m).

Lemma foot_Emit id s l : within (Emit id s l).
Proof. unfold Emit, JobLogs.Append. foot_walk. Qed.
Hint Resolve foot_Emit : foot.

Lemma foot_poll fuel e round : within round -> within (poll_loop fuel e round).
Proof. intros Hr. induction fuel as [|fuel IH]; simpl; [apply keeps_ret|]. unfold wait_done. foot_walk. Qed.

Lemma foot_gate_round ids b : within (gate_round ids b).
Proof. revert b. induction ids as [|id ids IH]; intros b; simpl; unfold InspectStatus; foot_walk; apply IH. Qed.

Lemma foot_gate ids : within (healthGate ids).
Proof.
  unfold healthGate, gate_timeout, gate_poll. foot_walk; try (intros w Hw; exact Hw). apply foot_poll, foot_gate_round.
Qed.

Lemma foot_gate_one id : within (healthGateOne id).
Proof.
  unfold healthGateOne, gate_timeout, gate_poll. foot_walk; try (intros w Hw; exact Hw). apply foot_poll.
  unfold gate_round_one, InspectStatus. foot_walk.
Qed.
Hint Resolve foot_gate foot_gate_one : foot.

Lemma foot_write_atomic path content : within (WriteFileAtomic path content).
Proof. unfold WriteFileAtomic, or_cleanup, cleanup, restoreOwner, sys_change, sys_Remove, sys_Rename, sys_Close, sys_Stat. foot_walk. Qed.
Hint Resolve foot_write_atomic : foot.

Lemma foot_lines job out : within (for_each out (streamPipe (Applier.sink job))).
Proof. apply keeps_for_each. intros a. unfold streamPipe, Applier.sink, Applier.emit_. foot_walk. Qed.
Hint Resolve foot_lines : foot.

Lemma foot_run spec job : within (Run spec (Applier.sink job)).
Proof. unfold Run. foot_walk. Qed.
Hint Resolve foot_run : foot.

(** *** The repositories, as the handlers use them *)

Lemma foot_set_status id st : within (Updates.SetStatus id st).
Proof. unfold Updates.SetStatus. foot_walk. Qed.
Lemma foot_mark_applied id : within (Updates.MarkApplied id).
Proof. unfold Updates.MarkApplied. foot_walk. Qed.
Lemma foot_mark_back s dg : within (Updates.MarkRolledBack s dg).
Proof. unfold Updates.MarkRolledBack. foot_walk. Qed.
Lemma foot_open s : within (Updates.GetLatestOpenByService s).
Proof. unfold Updates.GetLatestOpenByService. foot_walk. Qed.
Lemma foot_service id : within (Services.Get id).
Proof. unfold Services.Get. foot_walk. Qed.
Lemma foot_services p : within (Services.ListByProject p).
Proof. unfold Services.ListByProject. foot_walk. Qed.
Lemma foot_runtime id ids dg : within (Services.UpdateRuntime id ids dg).
Proof. unfold Services.UpdateRuntime. foot_walk. Qed.
Lemma foot_image_ref id r : within (Services.UpdateImageRef id r).
Proof. unfold Services.UpdateImageRef. foot_walk. Qed.
Lemma foot_state id st : within (Services.UpdateState id st).
Proof. unfold Services.UpdateState. foot_walk. Qed.
Lemma foot_project id : within (Projects.Get id).
Proof. unfold Projects.Get. foot_walk. Qed.
Lemma foot_snap s : within (Snapshots.GetLatestForService s).
Proof. unfold Snapshots.GetLatestForService. foot_walk. Qed.
Lemma foot_setting k : within (Settings.Get k).
Proof. unfold Settings.Get. foot_walk. Qed.
Hint Resolve foot_setting foot_set_status foot_mark_applied foot_mark_back foot_open foot_service foot_services
  foot_runtime foot_image_ref foot_state foot_project foot_snap : foot.
Lemma foot_bool k b : within (Settings.GetBoolDefault k b).
Proof. unfold Settings.GetBoolDefault. foot_walk. Qed.
Lemma foot_set k v : within (Settings.Set_ k v).
Proof. unfold Settings.Set_. foot_walk. Qed.
Hint Resolve foot_bool foot_set : foot.

(** *** The compose applier *)

Lemma foot_read_files files : within (Compose.read_files files).
Proof. induction files as [|f files IH]; simpl; unfold sys_ReadFile; foot_walk; apply IH. Qed.
Hint Resolve foot_read_files : foot.

Lemma foot_parse dir files : within (Compose.Parse dir files).
Proof. unfold Compose.Parse, Compose.buildEnv, sys_ReadFile. foot_walk. Qed.
Hint Resolve foot_parse : foot.

Lemma foot_fail job m : within (Applier.fail job m).
Proof. unfold Applier.fail, Applier.emit_. foot_walk. Qed.
Lemma foot_succeed job : within (Applier.succeed job).
Proof. unfold Applier.succeed. foot_walk. Qed.
Lemma foot_event a b c d e f : within (Applier.event_ a b c d e f).
Proof. unfold Applier.event_, Events.Insert. foot_walk. Qed.
Hint Resolve foot_fail foot_succeed foot_event : foot.

Lemma foot_fail_apply job svc upd m : within (Applier.failApply job svc upd m).
Proof. unfold Applier.failApply. foot_walk. Qed.
Hint Resolve foot_fail_apply : foot.

Lemma foot_hash files acc : within (hash_input files acc).
Proof. revert acc. induction files as [|f files IH]; intros acc; simpl; unfold sys_ReadFile; foot_walk; apply IH. Qed.
Hint Resolve foot_hash : foot.

Lemma foot_snapshot job svc proj blob : within (Applier.snapshot job svc proj blob).
Proof. unfold Applier.snapshot, Applier.snapshot_inspect, InspectStatus, HashFiles, Snapshots.Insert. foot_walk. Qed.
Hint Resolve foot_snapshot : foot.

Lemma foot_locate files svc found : within (locate_from files svc found).
Proof. revert found. induction files as [|f files IH]; intros found; simpl; unfold sys_ReadFile; foot_walk; apply IH. Qed.
Hint Resolve foot_locate : foot.

Lemma foot_plan svc proj repo tag : within (Applier.plan_edit svc proj repo tag).
Proof. unfold Applier.plan_edit, LocateImageLine, sys_ReadFile. foot_walk. Qed.
Hint Resolve foot_plan : foot.

Lemma foot_override a b c d e : within (Applier.writePinOverride a b c d e).
Proof. unfold Applier.writePinOverride, sys_change, sys_Remove, sys_Close. foot_walk. Qed.
Hint Resolve foot_override : foot.

Lemma foot_cleanup path body : within body -> within (Applier.with_cleanup path body).
Proof. intros Hb. unfold Applier.with_cleanup, sys_Remove. foot_walk. Qed.

Lemma foot_refresh job proj sibs deps ids : within (Applier.refresh_dependents job proj sibs deps ids).
Proof.
  revert ids. induction deps as [|dep deps IH]; intros ids; simpl; unfold Applier.emit_; foot_walk; apply IH.
Qed.
Hint Resolve foot_refresh : foot.

Lemma foot_force job svc proj files deps : within (Applier.forceRecreateNamespaceDependents job svc proj files deps).
Proof. unfold Applier.forceRecreateNamespaceDependents, Applier.emit_. foot_walk. Qed.
Hint Resolve foot_force : foot.

Lemma foot_sibling job svc proj sib : within (Applier.refresh_sibling job svc proj sib).
Proof. unfold Applier.refresh_sibling, Applier.emit_. foot_walk. Qed.
Hint Resolve foot_sibling : foot.

Lemma foot_apply_success job svc proj upd ids dg : within (Applier.apply_success job svc proj upd ids dg).
Proof.
  unfold Applier.apply_success, Applier.emit_. foot_walk.
Qed.
Hint Resolve foot_apply_success : foot.

Lemma foot_rediscover job svc proj dg what : within (Applier.rediscover job svc proj dg what).
Proof. unfold Applier.rediscover, Applier.emit_. foot_walk. Qed.
Hint Resolve foot_rediscover : foot.

Lemma foot_apply_files job svc proj upd deps files : within (Applier.apply_files job svc proj upd deps files).
Proof. unfold Applier.apply_files. foot_walk. Qed.
Hint Resolve foot_apply_files : foot.

Lemma foot_apply_mutate job svc proj upd deps repo tag plan : within (Applier.apply_mutate job svc proj upd deps repo tag plan).
Proof. unfold Applier.apply_mutate. foot_walk; apply foot_cleanup; foot_walk. Qed.
Hint Resolve foot_apply_mutate : foot.

Lemma foot_runApply job : within (Applier.runApply job).
Proof.
  unfold Applier.runApply, sys_Stat. foot_walk.
Qed.

Lemma foot_rollback_up job svc proj dg files : within (Applier.rollbackPullUp job svc proj dg files).
Proof. unfold Applier.rollbackPullUp. foot_walk. Qed.
Hint Resolve foot_rollback_up : foot.

Lemma foot_rollback_override job svc proj snap : within (Applier.rollback_override job svc proj snap).
Proof. unfold Applier.rollback_override. foot_walk; apply foot_cleanup; foot_walk. Qed.
Hint Resolve foot_rollback_override : foot.

Lemma foot_runRollback job : within (Applier.runRollback job).
Proof. unfold Applier.runRollback. foot_walk. Qed.
Hint Resolve foot_runApply foot_runRollback : foot.

Lemma foot_applier job : within (Applier.Handle job).
Proof. unfold Applier.Handle. foot_walk. Qed.
Hint Resolve foot_applier : foot.

(** *** The standalone applier *)

Lemma foot_fail_solo job m : within (Standalone.fail job m).
Proof. unfold Standalone.fail, Standalone.emit_. foot_walk. Qed.
Lemma foot_succeed_solo job : within (Standalone.succeed job).
Proof. unfold Standalone.succeed. foot_walk. Qed.
Lemma foot_event_solo a b c d e f : within (Standalone.event_ a b c d e f).
Proof. unfold Standalone.event_, Events.Insert. foot_walk. Qed.
Hint Resolve foot_fail_solo foot_succeed_solo foot_event_solo : foot.

Lemma foot_fail_apply_solo job svc upd m : within (Standalone.failApply job svc upd m).
Proof. unfold Standalone.failApply. foot_walk. Qed.
Hint Resolve foot_fail_apply_solo : foot.

Lemma foot_clear a b : within (Standalone.clearNameConflict a b).
Proof. unfold Standalone.clearNameConflict, ContainerIDByName, ContainerStop, ContainerRemove. foot_walk. Qed.
Hint Resolve foot_clear : foot.

Lemma foot_recreate a b c d : within (Standalone.recreate a b c d).
Proof. unfold Standalone.recreate, ContainerStop, ContainerRename, ContainerCreateFromInspect, ContainerStart. foot_walk. Qed.
Lemma foot_restore a b c : within (Standalone.restoreOld a b c).
Proof. unfold Standalone.restoreOld, ContainerStop, ContainerRemove, ContainerRename, ContainerStart. foot_walk. Qed.
Hint Resolve foot_recreate foot_restore : foot.

Lemma foot_solo_apply job : within (Standalone.runApply job).
Proof.
  unfold Standalone.runApply, Standalone.apply_mutate, InspectStatus, ImagePull, ContainerRemove, Snapshots.Insert. foot_walk.
Qed.

Lemma foot_solo_rollback job : within (Standalone.runRollback job).
Proof. unfold Standalone.runRollback, Standalone.rollback_mutate, InspectStatus, ContainerRemove. foot_walk. Qed.
Hint Resolve foot_solo_apply foot_solo_rollback : foot.

Lemma foot_standalone job : within (Standalone.Handle job).
Proof. unfold Standalone.Handle. foot_walk. Qed.
Hint Resolve foot_standalone : foot.

(** *** Start, stop, restart, remove *)

Lemma foot_event_life a b c : within (Lifecycle.event_ a b c).
Proof. unfold Lifecycle.event_, Events.Insert. foot_walk. Qed.
Lemma foot_dependents svc proj : within (Lifecycle.dependentContainerIDs svc proj).
Proof. unfold Lifecycle.dependentContainerIDs. foot_walk. Qed.
Lemma foot_order verb order : within (Lifecycle.run_order verb order).
Proof.
  induction order as [|id order IH]; simpl; unfold Lifecycle.verb_call, ContainerStop, ContainerStart; foot_walk; apply IH.
Qed.
Lemma foot_refuse name ids : within (Lifecycle.refuse_running name ids).
Proof. induction ids as [|id ids IH]; simpl; unfold InspectStatus; foot_walk; apply IH. Qed.
Lemma foot_remove_all ids : within (Lifecycle.remove_all ids).
Proof. induction ids as [|id ids IH]; simpl; unfold ContainerRemove; foot_walk; apply IH. Qed.
Lemma foot_locate_again svc proj : within (Lifecycle.rediscover svc proj).
Proof. unfold Lifecycle.rediscover, LocateService, InspectStatus. foot_walk. Qed.
Hint Resolve foot_event_life foot_dependents foot_order foot_refuse foot_remove_all foot_locate_again : foot.

Lemma foot_operation type svc proj op : Lifecycle.operation type svc proj = Some op -> within op.
Proof.
  unfold Lifecycle.operation, Lifecycle.runOrdered, Lifecycle.runRestart, Lifecycle.runOrderedWithDeps, Lifecycle.runRemove.
  repeat case_match; intros [= <-]; foot_walk.
Qed.

Lemma foot_lifecycle job : within (Lifecycle.Handle job).
Proof.
  unfold Lifecycle.Handle, Lifecycle.fail, Lifecycle.succeed, Lifecycle.emit_. foot_walk.
  by eapply foot_operation.
Qed.
Hint Resolve foot_lifecycle : foot.

(** *** The update of dockbrr, the dispatcher *)

Context (tokenFn : M world string) (checker : Checker.Checker) (token_within : within tokenFn).
Hint Resolve token_within : foot.

Lemma foot_check : within (Checker.Check tokenFn checker).
Proof.
  unfold Checker.Check, Checker.readCache, Checker.refresh, Checker.fetchLatest, Checker.http_get, Checker.writeCache.
  foot_walk.
Qed.
Hint Resolve foot_check : foot.

Lemma foot_self u job : within (SelfUpdater.Handle tokenFn checker u job).
Proof.
  unfold SelfUpdater.Handle, SelfUpdater.fail, SelfUpdater.succeed, SelfUpdater.emit_, SelfUpdater.verifyPulledVersion,
    SpawnUpdater, ContainerIDByName, ContainerForceRemove, create_updater, ContainerStart, ContainerImageRef, ImageVersion, ImagePull.
  foot_walk.
Qed.
Hint Resolve foot_self : foot.

(** Whatever the job: no new job, and the integrity of the schema. *)
Lemma foot_dispatch d job : within (Dispatcher.Handle tokenFn checker d job).
Proof.
  unfold Dispatcher.Handle, Dispatcher.refuseSelfTarget, Dispatcher.targetsSelf, Dispatcher.refuse, Dispatcher.route,
    Dispatcher.isStandalone. foot_walk.
Qed.
End Handlers.
