(* ===== verification/System.v ===== *)
(** * The system: every part at once

    The process as a transition system over the state its parts share: requests,
    sweeps, the scheduler, discovery, retention, the boot, workers that claim jobs
    and workers that carry them out, in any order.  What each part guarantees by
    itself composes here: whatever the history, the database keeps its integrity,
    every job goes back to someone who may ask for it, and only a worker with such
    a job touches the containers or the files. *)

From stdpp Require Import base list strings gmap.
From S2P Require Import Prelude GoStd Semver Db Integrity World StoreUpdates StoreJobs StoreServices StoreMisc Store.
From S2P Require Import Files Compose Daemon Applier Standalone Lifecycle SelfUpdate Dispatch Collect Discovery.
From S2P Require Import Detect Scan Password RateLimit ScanRun Http HttpApi HttpSettings HttpStreams.
From S2P Require Import Routes RouteSpec RouteFoot RouteSafety JobOrigin Sched SchedSpec Boot JobFoot.

Local Open Scope Z_scope.

(** ** Looking *)

(** What the process may do to the outside without a job: statements, hints, the
    registries, GET requests of the release checker, reads of files, and the calls
    of the daemon that read. *)
Definition looks (e : event) : bool :=
  match e with
  | EvSql _ _ | EvNotify _ _ | EvRegistry _ _ _ _ | EvHttp _ _ => true
  | EvFile op _ => str_in ["read"; "stat"] op
  | EvDocker op _ _ => str_in ["list"; "inspect"; "image inspect"; "lookup"; "logs"; "ping"; "version"] op
  | EvCompose _ _ => false
  end.

Lemma str_in_sub l l' s : forallb (fun x => str_in l' x) l = true -> str_in l s = true -> str_in l' s = true.
Proof.
  intros Hl Hs. unfold str_in in Hs. apply existsb_elem in Hs as (a & Ha & He). apply String.eqb_eq in He as ->.
  rewrite forallb_forall in Hl. by apply Hl, list_elem_of_In.
Qed.

Lemma api_looks e : api_event e = true -> looks e = true.
Proof.
  destruct e; try done. by apply (str_in_sub ["logs"; "ping"; "version"]).
Qed.

Lemma scan_looks e : scan_event e = true -> looks e = true.
Proof. by destruct e. Qed.

Lemma cycle_looks e : Discovery.cycle_event e = true -> looks e = true.
Proof.
  destruct e; try done; [by apply (str_in_sub ["list"; "inspect"; "image inspect"])|by apply (str_in_sub ["stat"; "read"])].
Qed.

(** From [w0] to [w] the process only looked. *)
Definition stands (w0 w : world) : Prop :=
  db_ok w.(w_db) /\ w.(w_fs) = w0.(w_fs) /\ exists l, w.(w_trace) = l ++ w0.(w_trace) /\ forallb looks l = true.

Lemma stands_refl w : db_ok w.(w_db) -> stands w w.
Proof. intros H. split; [done|]. split; [done|]. by exists []. Qed.

Lemma forallb_impl {A} (f g : A -> bool) l : (forall a, f a = true -> g a = true) -> forallb f l = true -> forallb g l = true.
Proof. intros Hfg. rewrite !forallb_forall. auto. Qed.

Lemma stands_more w0 w1 w2 (f : event -> bool) : (forall e, f e = true -> looks e = true) ->
  stands w0 w1 -> db_ok w2.(w_db) -> w2.(w_fs) = w1.(w_fs) ->
  (exists l, w2.(w_trace) = l ++ w1.(w_trace) /\ forallb f l = true) -> stands w0 w2.
Proof.
  intros Hf (_ & H2 & l & H3 & H4) Hok Hfs (l' & G3 & G4). split; [done|]. split; [congruence|]. exists (l' ++ l).
  rewrite G3, H3, app_assoc, forallb_app, H4, andb_true_r. split; [done|]. by apply (forallb_impl f).
Qed.

Section Stands.
Context {E : Env} (w0 : world).

Lemma stands_sql {A} op id (st : stmt A) : stmt_keeps db_ok st -> keeps (stands w0) (sql op id st).
Proof.
  intros Hok w Hw. destruct (sql op id st w) as [[a|e] w'] eqn:Es; simpl.
  - apply sql_ok_inv in Es as (Hs & Hf & Ht & _).
    apply (stands_more w0 w w' scan_event scan_looks Hw); [by eapply Hok; [apply Hw|exact Hs]|done|]. by exists [EvSql op id].
  - apply sql_err_inv in Es as ->. exact Hw.
Qed.

Lemma stands_emit k id : keeps (stands w0) (emit (EvNotify k id)).
Proof. intros w Hw. apply (stands_more w0 w _ scan_event scan_looks Hw); [apply Hw|done|]. by exists [EvNotify k id]. Qed.

Lemma stands_call {A} ev (answer : nat -> A) : (forall a, looks (ev a) = true) -> keeps (stands w0) (call ev answer).
Proof.
  intros Hl w Hw. apply (stands_more w0 w _ looks (fun _ => id) Hw); [apply Hw|done|].
  exists [ev (answer w.(w_tick))]. simpl. by rewrite Hl.
Qed.

Lemma stands_read path : keeps (stands w0) (sys_ReadFile path).
Proof.
  intros w Hw. unfold sys_ReadFile, sys. destruct (os_fault _); [exact Hw|].
  destruct (w_fs w !! path) as [x|]; [|exact Hw]. apply (stands_more w0 w _ looks (fun _ => id) Hw); [apply Hw|done|].
  by exists [EvFile "read" path].
Qed.

Lemma stands_now : keeps (stands w0) now.
Proof. intros w Hw. exact Hw. Qed.

#[export] Instance sweep_keeps_stands : SweepKeeps (stands w0).
Proof.
  split.
  - by intros w [].
  - intros w w' Hw (Hok & _ & Hfs & Hl). by apply (stands_more w0 w w' scan_event scan_looks).
  - intros v. unfold Settings.Set_. apply stands_sql. eauto with keeps.
Qed.
End Stands.

(** At the start the helper of an earlier self-update may be removed, too: what the
    daemon says has its name. *)
Definition tidy_event {DK : Docker} (e : event) : Prop :=
  looks e = true \/
  exists id n ok, e = EvDocker "remove" id ok /\ daemon_id_by_name n UpdaterContainerName = Ok (Some id).

Definition tidies {DK : Docker} (w0 w : world) : Prop :=
  db_ok w.(w_db) /\ w.(w_fs) = w0.(w_fs) /\ exists l, w.(w_trace) = l ++ w0.(w_trace) /\ Forall tidy_event l.

Section Tidies.
Context {E : Env} {DK : Docker} (w0 : world).

Lemma tidies_refl w : db_ok w.(w_db) -> tidies w w.
Proof. intros H. split; [done|]. split; [done|]. exists []. by split; [|constructor]. Qed.

Lemma tidies_stands w w' : tidies w0 w -> stands w w' -> tidies w0 w'.
Proof.
  intros (_ & H1 & l & H2 & H3) (G0 & G1 & l' & G2 & G3). split; [done|]. split; [congruence|]. exists (l' ++ l).
  rewrite G2, H2, app_assoc. split; [done|]. apply Forall_app. split; [|done].
  rewrite forallb_forall in G3. apply Forall_forall. intros e He. left. by apply G3, list_elem_of_In.
Qed.

Lemma tidies_quiet {A} (m : M world A) : (forall w, keeps (stands w) m) -> keeps (tidies w0) m.
Proof. intros Hm w Hw. apply (tidies_stands w _ Hw), Hm, stands_refl, Hw. Qed.

Lemma tidies_event w e : tidies w0 w -> tidy_event e -> tidies w0 (record e (tick w)).
Proof.
  intros (H0 & H1 & l & H2 & H3) He. split; [done|]. split; [done|]. exists (e :: l). simpl. rewrite H2. split; [done|].
  by constructor.
Qed.

Lemma tidies_leftover : keeps (tidies w0) RemoveLeftoverUpdater.
Proof.
  intros w Hw. unfold RemoveLeftoverUpdater, ContainerIDByName, ContainerRemove, bind, call. simpl.
  destruct (daemon_id_by_name w.(w_tick) UpdaterContainerName) as [[id|]|e] eqn:Ed; simpl; repeat apply tidies_event;
    try done; try (by left). right. by eexists _, _, _.
Qed.
End Tidies.

#[export] Hint Resolve stands_emit stands_now stands_read : stands.
Ltac stands_walk :=
  repeat first [ solve [eauto with stands nocore] | apply stands_sql; solve [eauto with keeps] | keeps_step ].

(** ** Discovery adds no job *)

Lemma no_new_deleted_services d0 p d : no_new d0 d -> no_new d0 (delete_services p d).
Proof.
  apply no_new_rows. intros j. unfold delete_services. cbv zeta. simpl. apply becomes_update.
  intros k. by repeat split; auto.
Qed.

Lemma no_new_deleted_projects d0 p d : no_new d0 d -> no_new d0 (delete_projects p d).
Proof.
  intros H. unfold delete_projects. cbv zeta. set (q := fun s => one_of_ids _ (sv_ProjectID s)).
  pose proof (no_new_deleted_services d0 q d H) as H1. revert H1. generalize (delete_services q d). intros d1.
  apply no_new_rows. intros j. simpl. apply becomes_update. intros k. by repeat split; auto.
Qed.

Section DiscoveryFoot.
Context {E : Env} {SS : SliceSort} {CG : Compose.ComposeGo} {CL : Discovery.Collector} (rc : Discovery.Reconciler).
Context (HC : Discovery.collects) (d0 : db).
Import Discovery.

Notation within m := (keeps (on_db (kept d0)) m).

Lemma foot_upsert_service s : within (Services.Upsert s).
Proof.
  unfold Services.Upsert. apply foot_beside; [eauto with keeps|]. intros t d a d' Hs. unfold Services.upsert_stmt in Hs.
  repeat case_match; try discriminate Hs; injection Hs; intros; subst; reflexivity.
Qed.

Lemma foot_upsert_project p : within (Projects.Upsert p).
Proof.
  unfold Projects.Upsert. apply foot_beside; [eauto with keeps|]. intros t d a d' Hs. unfold Projects.upsert_stmt in Hs.
  repeat case_match; try discriminate Hs; injection Hs; intros; subst; reflexivity.
Qed.

Lemma foot_delete_service id : within (Services.Delete id).
Proof.
  unfold Services.Delete. apply keeps_sql_db. intros t d a d' [H1 H2] Hs. split; [by eapply services_delete_ok|].
  injection Hs as _ <-. by apply no_new_deleted_services.
Qed.

Lemma foot_delete_project id : within (Projects.Delete id).
Proof.
  unfold Projects.Delete. apply keeps_sql_db. intros t d a d' [H1 H2] Hs. split; [by eapply projects_delete_ok|].
  injection Hs as _ <-. by apply no_new_deleted_projects.
Qed.

Lemma foot_gone id : within (Services.MarkGone id).
Proof. unfold Services.MarkGone. foot_walk. Qed.

Lemma foot_unmanaged id v : within (Projects.SetUnmanaged id v).
Proof. unfold Projects.SetUnmanaged, Projects.update_by_id. foot_walk. Qed.

Lemma foot_named id v : within (Projects.SetAutoNamed id v).
Proof. unfold Projects.SetAutoNamed, Projects.update_by_id. foot_walk. Qed.

Lemma foot_projects : within Projects.List_.
Proof. unfold Projects.List_. foot_walk. Qed.

Lemma foot_collect : within collect.
Proof. intros w Hw. unfold on_db in *. by destruct (HC w) as (-> & _). Qed.

Hint Resolve foot_upsert_service foot_upsert_project foot_delete_service foot_delete_project foot_gone foot_unmanaged
  foot_named foot_projects foot_collect foot_services foot_setting foot_bool : foot.

Lemma foot_each {A} (l : list A) body : (forall a, within (body a)) -> within (each l body).
Proof. intros Hb. induction l as [|a l IH]; simpl; foot_walk. Qed.

Lemma foot_missing files : within (files_missing files).
Proof. induction files as [|f files IH]; simpl; unfold sys_Stat; foot_walk; apply IH. Qed.
Hint Resolve foot_missing foot_parse : foot.

Lemma foot_group all now_ g : within (reconcile_group rc all now_ g).
Proof. unfold reconcile_group, project_id, setting_bool. foot_walk. apply foot_each. intros s. foot_walk. Qed.

Lemma foot_mark groups p : within (mark_gone groups p).
Proof. unfold mark_gone. foot_walk. apply foot_each. intros s. foot_walk. Qed.

Lemma foot_prune_services cutoff svcs : within (prune_services cutoff svcs).
Proof. induction svcs as [|s svcs IH]; simpl; foot_walk; apply IH. Qed.
Hint Resolve foot_prune_services : foot.

Lemma foot_prune_projects cutoff all : within (prune_projects cutoff all).
Proof. induction all as [|p all IH]; simpl; unfold prune_project; foot_walk; apply IH. Qed.
Hint Resolve foot_prune_projects : foot.

Lemma foot_reconcile lastSig : within (Reconcile rc lastSig).
Proof.
  unfold Reconcile, reconcile, prune, setting_bool, settingIntDefault.
  foot_walk; try (apply foot_each; intros ?; first [apply foot_group|apply foot_mark]); foot_walk.
Qed.
End DiscoveryFoot.

(** ** The transition system *)

(** The process and what its parts share: the server's state, with the world, the
    engine's dispatcher, and the jobs claimed and not yet carried out. *)
Record sys := mkSys {
  sy_server : server;
  sy_engine : option Dispatcher.Dispatcher;   (* none before the daemon answers *)
  sy_claimed : list Job;
}.

Definition world_of (y : sys) : world := srv_world y.(sy_server).
Definition tables (y : sys) : db := store y.(sy_server).

(** The jobs there are: the rows, and the copies the workers hold. *)
Definition pool (y : sys) : list Job := (tables y).(jobs).(rows) ++ y.(sy_claimed).

Inductive actor :=
| ByRequest (r : Request)
| BySweep
| ByScheduler
| ByDiscovery
| ByRetention
| ByBoot
| ByReleaseCheck
| ByStart
| ByClaim
| ByWorker (j : Job).

Section System.
Context {E : Env} {SS : SliceSort} {R : Random} {A2 : Argon2} {SH : Sha256} {MR : MapRange} {SL : Sealer}.
Context {CG : Compose.ComposeGo} {G : Checker.Releases} {ZL : Zerolog} {D : Deps} {L : LogFiles} {ST : Streams} {C : Chi}.
Context {Y : Yaml} {CLI : ComposeCLI} {DK : Docker} {RV : Resolver} {RD : Rediscoverer} {HT : HealthConfig} {SD : SelfDocker}.
Context {HO : Host} {CK : Checker} {CO : CheckerObserves CK} {CL : Discovery.Collector} (HC : Discovery.collects).
Context (rc : Discovery.Reconciler) (checker : Checker.Checker).

(** What a worker does with a job. *)
Definition carry_out (d : Dispatcher.Dispatcher) (j : Job) : M world unit := Dispatcher.Handle Api.githubToken checker d j.

Definition claimed (r : result (option Job)) (l : list Job) : list Job :=
  match r with Ok (Some j) => j :: l | _ => l end.

(** A boot finds the world and no memory of the process before; what that one had
    claimed and not finished is in the table only. *)
Inductive sys_step : actor -> sys -> sys -> Prop :=
| step_request r s e l : sys_step (ByRequest r) (mkSys s e l) (mkSys (serve r s).2 e l)
| step_sweep i scope ids manual s e l : sys_step BySweep (mkSys s e l) (mkSys (Api.execute i scope ids manual s).2 e l)
| step_schedule next s e l : sys_step ByScheduler (mkSys s e l)
    (mkSys (Sched.check_and_apply (Sched.mkSched s next)).2.(Sched.sd_server) e l)
| step_discover lastSig s e l : sys_step ByDiscovery (mkSys s e l) (mkSys (on_world (Sched.reconcile_pass rc lastSig) s).2 e l)
| step_prune s e l : sys_step ByRetention (mkSys s e l) (mkSys (on_world Sched.prune_jobs s).2 e l)
| step_collect_sessions s e l : sys_step ByRetention (mkSys s e l) (mkSys (on_world Sched.sweep_sessions s).2 e l)
| step_boot user password level s e l : sys_step ByBoot (mkSys s e l)
    (mkSys (Boot.boot_store user password (Boot.fresh_server (srv_world s) level)).2 None [])
| step_release s e l : sys_step ByReleaseCheck (mkSys s e l)
    (mkSys (on_world (Checker.CheckFresh Api.githubToken checker) s).2 e l)
| step_start socket s l : sys_step ByStart (mkSys s None l)
    (mkSys (on_world (Boot.startDockerServices socket) s).2 (Some (on_world (Boot.startDockerServices socket) s).1.1) l)
| step_claim s d l : sys_step ByClaim (mkSys s (Some d) l)
    (mkSys (on_world Jobs.ClaimNext s).2 (Some d) (claimed (on_world Jobs.ClaimNext s).1 l))
| step_work s d l1 j l2 : sys_step (ByWorker j) (mkSys s (Some d) (l1 ++ j :: l2))
    (mkSys (on_world (carry_out d j) s).2 (Some d) (l1 ++ l2)).

(** The runs from [y0], with the steps made, newest first. *)
Inductive history (y0 : sys) : list (sys * actor * sys) -> sys -> Prop :=
| Start : history y0 [] y0
| Next h y a y' : history y0 h y -> sys_step a y y' -> history y0 ((y, a, y') :: h) y'.

(** Who may ask for a job, and what for. *)
Definition granted (a : actor) (s : server) (j : Job) : Prop :=
  match a with
  | ByRequest r => exists h sess, endpoint_of r = Some (Guarded h) /\ signed_in r (store s) (guard_time s) sess /\
                     asked h r (store s) j
  | ByScheduler => exists s1 svc, Api.RunScheduled s = (true, s1) /\ svc ∈ (store s1).(services).(rows) /\
                     eligible (store s1) svc = true /\ auto_queued svc j
  | _ => False
  end.

(** The job was there at the start, or a step of the history granted it; since
    then at most the rows it was about are gone. *)
Definition authorised (y0 : sys) (h : list (sys * actor * sys)) (j : Job) : Prop :=
  (exists j0, j0 ∈ pool y0 /\ becomes j0 j) \/
  exists ya a yb j1, (ya, a, yb) ∈ h /\ granted a ya.(sy_server) j1 /\ becomes j1 j.

(** *** One step *)

(** The job is about the container the process runs in. *)
Definition own_target (d : Dispatcher.Dispatcher) (j : Job) (t : db) : Prop :=
  d.(Dispatcher.selfID) <> "" /\ Dispatcher.mutatingTypes j.(job_Type) = true /\
  existsb (Dispatcher.service_is_self d.(Dispatcher.selfID)) (guarded_services j t) = true.

(** A worker has claimed its job and, when it is about dockbrr's own container,
    does nothing but write down that it failed. *)
Definition works (j : Job) (y y' : sys) : Prop :=
  j ∈ y.(sy_claimed) /\ exists d, y.(sy_engine) = Some d /\ Boot.armed d /\
    (own_target d j (tables y) -> sql_fault (world_of y).(w_tick) = None -> only_bookkeeping (world_of y) (world_of y')).

(** The engine starts, guarded with the id the process finds of itself. *)
Definition starts (y y' : sys) : Prop :=
  tidies (world_of y) (world_of y') /\
  exists d w, y'.(sy_engine) = Some d /\ w.(w_fs) = (world_of y).(w_fs) /\ d.(Dispatcher.selfID) = (SelfContainerID w).1.

Definition acts (a : actor) (y y' : sys) : Prop :=
  match a with
  | ByWorker j => works j y y'
  | ByStart => starts y y'
  | _ => stands (world_of y) (world_of y')
  end.

Definition sourced (a : actor) (y : sys) (j : Job) : Prop :=
  (exists j0, j0 ∈ pool y /\ becomes j0 j) \/ granted a y.(sy_server) j.

Definition sound (y : sys) : Prop :=
  db_ok (tables y) /\ forall d, y.(sy_engine) = Some d -> Boot.armed d.

Definition step_good (a : actor) (y y' : sys) : Prop :=
  sound y' /\ (forall j, j ∈ pool y' -> sourced a y j) /\ acts a y y'.

Lemma kept_refl d : db_ok d -> kept d d.
Proof. intros H. by split. Qed.

Lemma sourced_rows a s s' e e' l l' :
  no_new (store s) (store s') -> (forall j, j ∈ l' -> j ∈ l \/ j ∈ (store s').(jobs).(rows)) ->
  forall j, j ∈ pool (mkSys s' e' l') -> sourced a (mkSys s e l) j.
Proof.
  intros Hn Hl j Hj. left. unfold pool, tables in *. simpl in *.
  assert (Hr : j ∈ (store s').(jobs).(rows) \/ j ∈ l).
  { apply elem_of_app in Hj as [Hj|Hj]; [by left|]. destruct (Hl j Hj); auto. }
  destruct Hr as [Hr|Hr].
  - destruct (Hn j Hr) as (j0 & H0 & Hb). exists j0. split; [apply elem_of_app; by left|done].
  - exists j. split; [apply elem_of_app; by right|done].
Qed.

Lemma same_rows d d' : d'.(jobs).(rows) = d.(jobs).(rows) -> no_new d d'.
Proof. intros He. by apply (no_new_same d d d'). Qed.

Lemma on_world_fst {A} (m : M world A) s : (on_world m s).1 = (m (srv_world s)).1.
Proof. unfold on_world, on_scanning, Scanner.lift, srv_world. destruct s as [[w n h] l r v]. simpl. by destruct (m w). Qed.

Lemma on_world_world {A} (m : M world A) s : srv_world (on_world m s).2 = (m (srv_world s)).2.
Proof. unfold on_world, on_scanning, Scanner.lift, srv_world. destruct s as [[w n h] l r v]. simpl. by destruct (m w). Qed.

(** A step that only runs [m] in the world. *)
Lemma world_good {A} a (m : M world A) s e l :
  sound (mkSys s e l) -> (forall y y', stands (world_of y) (world_of y') -> acts a y y') ->
  keeps (on_db (kept (store s))) m -> keeps (stands (srv_world s)) m ->
  step_good a (mkSys s e l) (mkSys (on_world m s).2 e l).
Proof.
  intros [Hok Harm] Ha Hk Hs. destruct (Hk (srv_world s) (kept_refl _ Hok)) as [H1 H2].
  specialize (Hs (srv_world s) (stands_refl _ Hok)). rewrite <- on_world_world in H1, H2, Hs.
  split; [by split|]. split; [apply sourced_rows; auto|]. by apply Ha.
Qed.

Lemma foot_resume d0 : keeps (on_db (kept d0)) Jobs.ResumeRunning.
Proof.
  unfold Jobs.ResumeRunning. apply keeps_sql_db. intros t d a d' [H1 H2] Hs.
  assert (Hk : stmt_keeps db_ok (Jobs.update_jobs StoreJobs.running
    (fun j => job_set "queued" None j.(job_FinishedAt) j.(job_ExitCode) j.(job_Error) j))) by eauto with keeps.
  split; [by eapply Hk|]. eapply no_new_update; [|exact H2|exact Hs]. intros j. by repeat split; auto.
Qed.

Lemma foot_purge d0 t : keeps (on_db (kept d0)) (Jobs.DeleteFinishedBefore t).
Proof.
  unfold Jobs.DeleteFinishedBefore. apply keeps_sql_db. intros t' d a d' [H1 H2] Hs.
  split; [by eapply delete_jobs_stmt_ok|]. injection Hs as _ <-. revert H2. apply no_new_rows. intros j Hj.
  exists j. split; [|done]. simpl in Hj. by apply elem_of_filterb in Hj as [Hj _].
Qed.

Lemma foot_random d0 k : keeps (on_db (kept d0)) (read_random k).
Proof. intros w Hw. exact Hw. Qed.
Lemma stands_random w0 k : keeps (stands w0) (read_random k).
Proof. intros w Hw. exact Hw. Qed.
Lemma foot_hostname d0 : keeps (on_db (kept d0)) hostname_id.
Proof. intros w Hw. exact Hw. Qed.
Lemma stands_hostname w0 : keeps (stands w0) hostname_id.
Proof. intros w Hw. exact Hw. Qed.
Hint Resolve foot_resume foot_purge foot_random foot_hostname foot_setting foot_set : foot.
Hint Resolve stands_random stands_hostname : stands.

Lemma foot_int d0 key def : keeps (on_db (kept d0)) (Sched.settingInt key def).
Proof. unfold Sched.settingInt. foot_walk. Qed.
Lemma stands_int w0 key def : keeps (stands w0) (Sched.settingInt key def).
Proof. unfold Sched.settingInt, Settings.Get. stands_walk. Qed.
Hint Resolve foot_int : foot.
Hint Resolve stands_int : stands.

Lemma prune_good s e l : sound (mkSys s e l) -> step_good ByRetention (mkSys s e l) (mkSys (on_world Sched.prune_jobs s).2 e l).
Proof.
  intros Hs. apply world_good; [done|done|..]; unfold Sched.prune_jobs; [foot_walk|].
  unfold Jobs.DeleteFinishedBefore. stands_walk.
Qed.

Lemma sessions_good s e l : sound (mkSys s e l) -> step_good ByRetention (mkSys s e l) (mkSys (on_world Sched.sweep_sessions s).2 e l).
Proof.
  intros Hs. apply world_good; [done|done|..]; unfold Sched.sweep_sessions, Sessions.DeleteExpired; [foot_walk|stands_walk].
Qed.

Lemma token_kept d0 : keeps (on_db (kept d0)) Api.githubToken.
Proof. unfold Api.githubToken, Settings.GetSecret. foot_walk. Qed.
Lemma token_stands w0 : keeps (stands w0) Api.githubToken.
Proof. unfold Api.githubToken, Settings.GetSecret, Settings.Get. stands_walk. Qed.
Hint Resolve token_kept : foot.
Hint Resolve token_stands : stands.

Lemma release_good s e l : sound (mkSys s e l) ->
  step_good ByReleaseCheck (mkSys s e l) (mkSys (on_world (Checker.CheckFresh Api.githubToken checker) s).2 e l).
Proof.
  intros Hs. apply world_good; [done|done|..];
    unfold Checker.CheckFresh, Checker.readCache, Checker.refresh, Checker.fetchLatest, Checker.http_get, Checker.writeCache;
    [foot_walk|].
  unfold Settings.Get, Settings.Set_. repeat first [apply stands_call; done | stands_walk].
Qed.

Lemma discover_good lastSig s e l : sound (mkSys s e l) ->
  step_good ByDiscovery (mkSys s e l) (mkSys (on_world (Sched.reconcile_pass rc lastSig) s).2 e l).
Proof.
  intros Hs. apply world_good; [done|done|..]; unfold Sched.reconcile_pass; (apply keeps_bind; [|intros [r sig]]).
  - by apply foot_reconcile.
  - foot_walk.
  - intros w Hw. assert (Hc : Discovery.cycle_ok false w w).
    { split; [apply Hw|]. split; [apply Discovery.user_kept_refl|]. split; [done|]. by exists []. }
    destruct (Discovery.cycle_reconcile rc false w HC lastSig (fun H => ltac:(discriminate H)) w Hc) as (G1 & _ & G3 & G4).
    by apply (stands_more (srv_world s) w _ Discovery.cycle_event cycle_looks).
  - stands_walk.
Qed.

Lemma boot_keeps (I : world -> Prop) user password :
  (forall k, keeps I (Settings.Get k)) -> keeps I Sched.first_boot -> keeps I (Sched.bootstrap_admin user password) ->
  keeps (srv_inv I) (Boot.boot_store user password).
Proof.
  intros Hg Hf Ha. unfold Boot.boot_store. apply keeps_bind_ok; [by apply keeps_srv_world|]. intros _.
  apply keeps_bind; [|intros _; by apply keeps_srv_world]. unfold Boot.boot_level.
  apply keeps_bind; [by apply keeps_srv_world|]. intros [lvl|e]; [|apply keeps_ret].
  destruct (String.eqb lvl ""); [apply keeps_ret|]. destruct (ParseLevel lvl); [|apply keeps_ret]. by intros s Hs.
Qed.

Lemma boot_good user password level s e l : sound (mkSys s e l) ->
  step_good ByBoot (mkSys s e l) (mkSys (Boot.boot_store user password (Boot.fresh_server (srv_world s) level)).2 None []).
Proof.
  intros [Hok _]. set (s0 := Boot.fresh_server (srv_world s) level).
  assert (Hk : keeps (srv_inv (on_db (kept (store s)))) (Boot.boot_store user password)).
  { apply boot_keeps; [intros k; apply foot_setting|unfold Sched.first_boot; foot_walk|].
    unfold Sched.bootstrap_admin, Auth.HashPassword, Users.Count, Users.Create. foot_walk.
    apply foot_beside; [eauto with keeps|]. intros t d i d' Hs. unfold Users.create_stmt in Hs.
    case_match; [done|]. by injection Hs as _ <-. }
  assert (Hst : keeps (srv_inv (stands (srv_world s))) (Boot.boot_store user password)).
  { apply boot_keeps; [intros k; unfold Settings.Get; stands_walk
                      |unfold Sched.first_boot, Settings.Get, Settings.Set_; stands_walk|].
    unfold Sched.bootstrap_admin, Auth.HashPassword, Users.Count, Users.Create. stands_walk. }
  destruct (Hk s0 (kept_refl _ Hok)) as [H1 H2]. split; [by split|].
  split; [apply sourced_rows; [exact H2|by intros j ?%not_elem_of_nil]|exact (Hst s0 (stands_refl _ Hok))].
Qed.

Lemma start_good socket s l : sound (mkSys s None l) ->
  step_good ByStart (mkSys s None l)
    (mkSys (on_world (Boot.startDockerServices socket) s).2 (Some (on_world (Boot.startDockerServices socket) s).1.1) l).
Proof.
  intros [Hok _].
  assert (Hk : keeps (on_db (kept (store s))) (Boot.startDockerServices socket)).
  { unfold Boot.startDockerServices, SelfContainerID, read_id, sys_ReadFile, RemoveLeftoverUpdater, ContainerIDByName,
      ContainerRemove. foot_walk. }
  assert (Ht : keeps (tidies (srv_world s)) (Boot.startDockerServices socket)).
  { unfold Boot.startDockerServices. apply keeps_bind; [apply tidies_quiet; intros w; apply stands_int|]. intros n.
    cbv zeta. apply keeps_bind; [apply tidies_quiet; intros w; unfold SelfContainerID, read_id; stands_walk|]. intros id.
    apply keeps_bind; [apply tidies_leftover|]. intros _.
    apply keeps_bind; [apply tidies_quiet; intros w; unfold Jobs.ResumeRunning; stands_walk|]. intros r. apply keeps_ret. }
  specialize (Ht (srv_world s) (tidies_refl _ Hok)). destruct (Hk (srv_world s) (kept_refl _ Hok)) as [H1 H2].
  rewrite <- on_world_world in H1, H2, Ht. split; [split; [exact H1|]|split; [apply sourced_rows; auto|split; [exact Ht|]]].
  2:{ destruct (Boot.startDockerServices_self socket (srv_world s)) as (w1 & Hf & Hid). eexists _, w1.
      rewrite on_world_fst. done. }
  simpl. intros d [= <-]. rewrite on_world_fst. apply Boot.startDockerServices_armed.
Qed.

Lemma request_good r s e l : sound (mkSys s e l) -> step_good (ByRequest r) (mkSys s e l) (mkSys (serve r s).2 e l).
Proof.
  intros [Hok Harm]. change (db_ok (store s)) in Hok. destruct (serve r s) as [rs s'] eqn:Hs. simpl.
  destruct (serve_hands_over r s rs s' Hok Hs) as (H1 & (_ & Hnew & _) & Hfs & Ht).
  split; [by split|]. split.
  - intros j Hj. unfold pool, tables in Hj. simpl in Hj. apply elem_of_app in Hj as [Hj|Hj].
    2:{ left. exists j. split; [apply elem_of_app; by right|done]. }
    destruct (Hnew j Hj) as [Hold|(_ & _ & _ & Hid)].
    + left. exists j. split; [apply elem_of_app; by left|done].
    + right. destruct (new_job_asked r s rs s' j Hok Hs Hj) as (_ & h & sess & H); [|by exists h, sess].
      intros Hin. pose proof (tbl_bound _ _ _ (ok_jobs _ Hok)) as Hb. rewrite Forall_forall in Hb.
      specialize (Hb j Hin). lia.
  - by apply (stands_more (srv_world s) (srv_world s) (srv_world s') api_event api_looks (stands_refl _ Hok)).
Qed.

Lemma sweep_good i scope ids manual s e l : sound (mkSys s e l) ->
  step_good BySweep (mkSys s e l) (mkSys (Api.execute i scope ids manual s).2 e l).
Proof.
  intros [Hok Harm].
  destruct (execute_keeps _ (SK := sweep_keeps_jobs (store s).(jobs).(rows)) i scope ids manual s (conj Hok eq_refl)) as [H1 H2].
  split; [by split|]. split; [by apply sourced_rows; [apply same_rows|auto]|].
  exact (execute_keeps (stands (srv_world s)) i scope ids manual s (stands_refl _ Hok)).
Qed.

Lemma autoApply_stands w0 : keeps (stands w0) Sched.autoApply.
Proof.
  unfold Sched.autoApply, Services.List_. apply keeps_bind; [stands_walk|]. intros [svcs|e]; [|apply keeps_ret].
  apply keeps_for_each. intros svc.
  unfold Sched.auto_apply_one, Projects.Get, Updates.GetLatestOpenByService, Jobs.Enqueue. stands_walk.
Qed.

Lemma round_stands next s : db_ok (store s) ->
  stands (srv_world s) (srv_world (Sched.check_and_apply (Sched.mkSched s next)).2.(Sched.sd_server)).
Proof.
  intros Hok. unfold Sched.check_and_apply, Sched.on_server, bind. simpl.
  pose proof (run_scheduled_keeps (stands (srv_world s)) s (stands_refl _ Hok)) as Hr.
  destruct (Api.RunScheduled s) as [[|] s1]; simpl in *; [|done].
  pose proof (keeps_srv_world _ _ (autoApply_stands (srv_world s)) s1 Hr) as Ha. by destruct (on_world _ s1).
Qed.

Lemma schedule_good next s e l : sound (mkSys s e l) ->
  step_good ByScheduler (mkSys s e l) (mkSys (Sched.check_and_apply (Sched.mkSched s next)).2.(Sched.sd_server) e l).
Proof.
  intros [Hok Harm]. pose proof (round_stands next s Hok) as Hst. set (s' := Sched.sd_server _) in *.
  split; [split; [apply Hst|exact Harm]|]. split; [|exact Hst].
  destruct (round_jobs (Sched.mkSched s next) Hok) as [Hsame|(s1 & Hrun & Hrows & Hst1 & picked & new & Hsub & Hnew & Hf & _)].
  { by apply sourced_rows; [apply same_rows|auto]. }
  simpl in *. fold s' in Hnew, Hst1. intros j Hj. unfold pool, tables in Hj. simpl in Hj. rewrite Hnew, Hrows in Hj.
  rewrite !elem_of_app in Hj. destruct Hj as [[Hj|Hj]|Hj].
  - left. exists j. split; [apply elem_of_app; by left|done].
  - right. destruct (proj1 (list_elem_of_lookup _ _) Hj) as (k & Hk).
    destruct (Forall2_lookup_r _ _ _ _ _ Hf Hk) as (svc & Hsvc & Hq). apply list_elem_of_lookup_2 in Hsvc.
    assert (Hin : svc ∈ List.filter (eligible (store s1)) (store s1).(services).(rows)) by (by eapply elem_of_submseteq, sublist_submseteq).
    apply elem_of_filterb in Hin as [Hin He]. by exists s1, svc.
  - left. exists j. split; [apply elem_of_app; by right|done].
Qed.

Lemma claim_good s e l : sound (mkSys s e l) ->
  step_good ByClaim (mkSys s e l) (mkSys (on_world Jobs.ClaimNext s).2 e (claimed (on_world Jobs.ClaimNext s).1 l)).
Proof.
  intros [Hok Harm]. destruct (on_world Jobs.ClaimNext s) as [r s'] eqn:Hc. simpl. apply on_world_inv in Hc as [Hc _].
  pose proof (foot_claim (store s) (srv_world s) (kept_refl _ Hok)) as [H1 H2].
  assert (Hst : keeps (stands (srv_world s)) Jobs.ClaimNext) by (unfold Jobs.ClaimNext; stands_walk).
  specialize (Hst (srv_world s) (stands_refl _ Hok)). pose proof (ClaimNext_claims (srv_world s) Hok) as Hj.
  rewrite Hc in H1, H2, Hst, Hj. simpl in *. split; [by split|]. split; [|exact Hst].
  apply sourced_rows; [exact H2|]. intros j Hin. unfold claimed in Hin. destruct r as [[k|]|err]; [|by left|by left].
  apply elem_of_cons in Hin as [->|Hin]; [|by left]. right. destruct Hj as (j0 & _ & _ & _ & _ & _ & _ & Hin & _). exact Hin.
Qed.

Lemma work_good s d l1 j l2 : sound (mkSys s (Some d) (l1 ++ j :: l2)) ->
  step_good (ByWorker j) (mkSys s (Some d) (l1 ++ j :: l2)) (mkSys (on_world (carry_out d j) s).2 (Some d) (l1 ++ l2)).
Proof.
  intros [Hok Harm].
  pose proof (foot_dispatch (store s) Api.githubToken checker (token_kept _) d j (srv_world s) (kept_refl _ Hok)) as [H1 H2].
  fold (carry_out d j) in H1, H2. rewrite <- on_world_world in H1, H2. split; [by split|]. split.
  - apply sourced_rows; [exact H2|]. intros k. rewrite !elem_of_app, elem_of_cons. tauto.
  - split; [simpl; apply elem_of_app; right; by left|]. exists d. split; [done|]. split; [by apply Harm|].
    intros (Hid & Ht & Hself) Hf. destruct (Harm d eq_refl) as [[Hn _]|(Hsv & Hjb & _)]; [done|].
    pose proof (guarded_dispatch Api.githubToken checker d j (srv_world s) Hid Hsv Hjb Ht Hf) as Hg. cbv zeta in Hg.
    unfold tables, store in Hself. simpl in Hself. rewrite Hself in Hg. unfold world_of. simpl. rewrite on_world_world. apply Hg.
Qed.

Lemma sys_step_good a y y' : sound y -> sys_step a y y' -> step_good a y y'.
Proof.
  intros Hok Hs. destruct Hs;
    eauto using request_good, sweep_good, schedule_good, discover_good, prune_good, sessions_good, boot_good, release_good,
      start_good, claim_good, work_good.
Qed.

(** *** The whole history *)

Lemma authorised_more y0 h x j : authorised y0 h j -> authorised y0 (x :: h) j.
Proof.
  intros [H|(ya & a & yb & j1 & Hin & H)]; [by left|]. right. exists ya, a, yb, j1. split; [by right|done].
Qed.

Lemma authorised_becomes y0 h j0 j : authorised y0 h j0 -> becomes j0 j -> authorised y0 h j.
Proof.
  intros [(k & Hk & Hb)|(ya & a & yb & j1 & Hin & Hg & Hb)] Hj; [left|right].
  - exists k. split; [done|by etrans].
  - exists ya, a, yb, j1. do 2 (split; [done|]). by etrans.
Qed.

Lemma sourced_authorised y0 h y a y' j :
  (forall k, k ∈ pool y -> authorised y0 h k) -> sourced a y j -> authorised y0 ((y, a, y') :: h) j.
Proof.
  intros Hall [(k & Hk & Hb)|Hg].
  - apply authorised_more. by apply (authorised_becomes y0 h k); [apply Hall|].
  - right. exists y, a, y', j. split; [by left|]. split; [done|reflexivity].
Qed.

Lemma history_good y0 h y : sound y0 -> history y0 h y ->
  sound y /\ forall j, j ∈ pool y -> authorised y0 h j.
Proof.
  intros Hok Hh. induction Hh as [|h y a y' Hh [IH1 IH2] Hs].
  - split; [done|]. intros j Hj. left. by exists j.
  - destruct (sys_step_good a y y' IH1 Hs) as (H1 & H2 & _). split; [done|]. intros j Hj.
    apply sourced_authorised; auto.
Qed.

End System.
