(* ===== verification/SystemDemo.v ===== *)
(** * The system at work

    A history of the small installation: the process boots and starts its engine, a
    user asks for an update, a worker claims the job and carries it out; and the
    theorem at this history. *)

From stdpp Require Import base list strings gmap.
From S2P Require Import Prelude GoStd Db Integrity World StoreUpdates StoreJobs StoreServices StoreMisc Store.
From S2P Require Import Files Compose Daemon ApplierSpec Standalone Lifecycle SelfUpdate Dispatch Collect Discovery.
From S2P Require Import Scan Password RateLimit ScanRun Http HttpApi HttpSettings HttpStreams.
From S2P Require Import Routes RouteSpec RouteFoot RouteSafety JobOrigin RouteDemo Sched SchedSpec SchedDemo Boot JobFoot System.

Local Open Scope Z_scope.

#[local] Existing Instances calm_env demo_random demo_argon2 demo_sha any_range demo_sealer demo_composego
  demo_releases demo_zerolog demo_deps demo_logs demo_streams demo_chi stable_slice_sort.
#[local] Existing Instances demo_yaml demo_cli demo_docker demo_resolver demo_locator demo_health demo_self_docker.
#[local] Existing Instances wired_checker wired_observes.

Definition demo_containers : Discovery.Collector := demo_collector demo_cs.
#[local] Existing Instance demo_containers.

(** The process runs in the container d0c6d0c6d0c6. *)
Definition demo_host : Host := {| os_Hostname _ := Ok "d0c6d0c6d0c6" |}.
#[local] Existing Instance demo_host.

Notation demo_step := (sys_step (Discovery.mkReconciler 1 true) demo_checker) (only parsing).
Notation demo_history := (history (Discovery.mkReconciler 1 true) demo_checker) (only parsing).

(** Before; booted; started; asked; claimed; done. *)
Definition demo_server0 : server := Boot.fresh_server (mkWorld demo_users_db demo_files [] 0) 1.
Definition demo_server1 : server := (Boot.boot_store "" "" (Boot.fresh_server (srv_world demo_server0) 1)).2.
Notation demo_start_up := (on_world (Boot.startDockerServices "/var/run/docker.sock") demo_server1) (only parsing).
Definition demo_server2 : server := demo_start_up.2.
Definition demo_dispatcher : Dispatcher.Dispatcher := demo_start_up.1.1.
Definition demo_server3 : server := (serve demo_apply_request demo_server2).2.
Notation demo_claim := (on_world Jobs.ClaimNext demo_server3) (only parsing).
Definition demo_server4 : server := demo_claim.2.
Definition demo_claims : list Job := claimed demo_claim.1 [].
Definition demo_held : Job := default demo_apply_job (head demo_claims).
Definition demo_server5 : server := (on_world (carry_out demo_checker demo_dispatcher demo_held) demo_server4).2.

Definition demo_sys0 : sys := mkSys demo_server0 None [].
Definition demo_sys1 : sys := mkSys demo_server1 None [].
Definition demo_sys2 : sys := mkSys demo_server2 (Some demo_dispatcher) [].
Definition demo_sys3 : sys := mkSys demo_server3 (Some demo_dispatcher) [].
Definition demo_sys4 : sys := mkSys demo_server4 (Some demo_dispatcher) demo_claims.
Definition demo_sys5 : sys := mkSys demo_server5 (Some demo_dispatcher) [].

Definition demo_before : list (sys * actor * sys) :=
  [(demo_sys3, ByClaim, demo_sys4); (demo_sys2, ByRequest demo_apply_request, demo_sys3);
   (demo_sys1, ByStart, demo_sys2); (demo_sys0, ByBoot, demo_sys1)].
Definition demo_steps : list (sys * actor * sys) := (demo_sys4, ByWorker demo_held, demo_sys5) :: demo_before.

Lemma demo_held_claimed : demo_claims = [demo_held].
Proof. vm_compute. reflexivity. Qed.

Lemma demo_runs : demo_history demo_sys0 demo_steps demo_sys5.
Proof.
  assert (H1 : demo_step ByBoot demo_sys0 demo_sys1) by exact (step_boot _ _ "" "" 1 demo_server0 None []).
  assert (H2 : demo_step ByStart demo_sys1 demo_sys2) by exact (step_start _ _ "/var/run/docker.sock" demo_server1 []).
  assert (H3 : demo_step (ByRequest demo_apply_request) demo_sys2 demo_sys3)
    by exact (step_request _ _ demo_apply_request demo_server2 (Some demo_dispatcher) []).
  assert (H4 : demo_step ByClaim demo_sys3 demo_sys4) by exact (step_claim _ _ demo_server3 demo_dispatcher []).
  assert (H5 : demo_step (ByWorker demo_held) demo_sys4 demo_sys5).
  { unfold demo_sys4. rewrite demo_held_claimed.
    exact (step_work _ _ demo_server4 demo_dispatcher [] demo_held []). }
  pose proof (Start (Discovery.mkReconciler 1 true) demo_checker demo_sys0) as H0.
  exact (Next _ _ _ _ _ _ _ (Next _ _ _ _ _ _ _ (Next _ _ _ _ _ _ _ (Next _ _ _ _ _ _ _ (Next _ _ _ _ _ _ _ H0 H1) H2) H3) H4) H5).
Qed.

Lemma demo_sys_ok : db_ok (tables demo_sys0).
Proof. apply db_okb_ok. vm_compute. reflexivity. Qed.

